(** * jsBoard: the boarding simulator of [board.js], embedded and verified

    The development follows the layout of [board.js]:
    - JavaScript strings are lists of UTF-16 code units ([list Z]);
    - cells live in a heap that is the aircraft's [grid] array, a cell
      reference is its index in that array (cells are pushed to the grid in
      the very iteration that creates them, so allocation order and push
      order coincide);
    - passengers live in a store of their own, [pendingPax], [activePax] and
      the [contents] sets of the cells hold references (indices) to it;
    - code that can throw returns a [Result]. *)

From Stdlib Require Import ZArith Lia Ascii.
From Stdlib Require DecimalN DecimalFacts QArith.
From stdpp Require Import gmap list sets strings.

Local Open Scope Z_scope.

(** ** JavaScript strings *)

Abbreviation JSString := (list Z).

(** Code unit of an 8-bit character, to write string literals. *)
Definition chr (a : ascii) : Z := Z.of_nat (nat_of_ascii a).

Definition str (s : string) : JSString := chr <$> String.list_ascii_of_string s.

(** [String.fromCharCode(n)]: the argument is truncated to 16 bits. *)
Definition fromCharCode (n : Z) : Z := n mod 65536.

Definition isDigit (c : Z) : bool := (48 <=? c) && (c <=? 57).
Definition isUpper (c : Z) : bool := (65 <=? c) && (c <=? 90).

(** Decimal digits of a number, most significant first. *)
Fixpoint uintToString (d : Decimal.uint) : JSString :=
  match d with
  | Decimal.Nil => []
  | Decimal.D0 d => 48 :: uintToString d
  | Decimal.D1 d => 49 :: uintToString d
  | Decimal.D2 d => 50 :: uintToString d
  | Decimal.D3 d => 51 :: uintToString d
  | Decimal.D4 d => 52 :: uintToString d
  | Decimal.D5 d => 53 :: uintToString d
  | Decimal.D6 d => 54 :: uintToString d
  | Decimal.D7 d => 55 :: uintToString d
  | Decimal.D8 d => 56 :: uintToString d
  | Decimal.D9 d => 57 :: uintToString d
  end.

(** [Number.prototype.toString] on the non-negative integers that occur as
    row numbers. *)
Definition numberToString (n : Z) : JSString := uintToString (N.to_uint (Z.to_N n)).

(** [ToNumber] on a non-empty string of decimal digits (leading zeros are
    allowed), as the loose equality [number == string] applies it. *)
Definition stringToNumber (s : JSString) : Z :=
  fold_left (fun acc c => 10 * acc + (c - 48)) s 0.

(** ** Constants *)

Definition CELLSIZE : Z := 64.
Definition char_S : Z := 83.
Definition char_A : Z := 65.
Definition char_plus : Z := 43.

(** ** Cells and seats *)

(** A [Cell]; a [Seat] is a cell whose [row] and [col] are set (they are
    [undefined] on a plain cell).  [col] is the one code unit of the column
    name.  [contents] is the set of the passengers standing in the cell. *)
Record Cell := mkCell {
  cx : Z;
  cy : Z;
  row : option Z;
  col : option Z;
  contents : gset nat;
  up : option nat;
  down : option nat;
  left : option nat;
  right : option nat;
}.

Definition newCell (x y : Z) : Cell :=
  mkCell x y None None ∅ None None None None.

Definition newSeat (x y r c : Z) : Cell :=
  mkCell x y (Some r) (Some c) ∅ None None None None.

Definition set_cy (v : Z) (c : Cell) : Cell :=
  mkCell (cx c) v (row c) (col c) (contents c) (up c) (down c) (left c) (right c).
Definition set_up (v : option nat) (c : Cell) : Cell :=
  mkCell (cx c) (cy c) (row c) (col c) (contents c) v (down c) (left c) (right c).
Definition set_down (v : option nat) (c : Cell) : Cell :=
  mkCell (cx c) (cy c) (row c) (col c) (contents c) (up c) v (left c) (right c).
Definition set_left (v : option nat) (c : Cell) : Cell :=
  mkCell (cx c) (cy c) (row c) (col c) (contents c) (up c) (down c) v (right c).
Definition set_right (v : option nat) (c : Cell) : Cell :=
  mkCell (cx c) (cy c) (row c) (col c) (contents c) (up c) (down c) (left c) v.
Definition set_contents (v : gset nat) (c : Cell) : Cell :=
  mkCell (cx c) (cy c) (row c) (col c) v (up c) (down c) (left c) (right c).

(** [Cell.isEmpty] *)
Definition isEmpty (c : Cell) : bool := bool_decide (size (contents c) = 0%nat).

Definition isSeat (c : Cell) : bool :=
  match row c, col c with Some _, Some _ => true | _, _ => false end.

(** [Seat.toString]: [this.row + this.col]. *)
Definition seatToString (r c : Z) : JSString := numberToString r ++ [c].

Definition cellToString (c : Cell) : option JSString :=
  match row c, col c with
  | Some r, Some k => Some (seatToString r k)
  | _, _ => None
  end.

(** ** The aircraft *)

Record Aircraft := mkAircraft {
  grid : list Cell;
  startingCell : nat;
  seats : list nat;
  rows : gset Z;
  cols : gset Z;
}.

Definition set_grid (g : list Cell) (a : Aircraft) : Aircraft :=
  mkAircraft g (startingCell a) (seats a) (rows a) (cols a).

(** [new Aircraft(startingCell)]: the starting cell is the first cell of the
    grid; it has neither row nor column, so [addCell] records nothing. *)
Definition newAircraft (start : Cell) : Aircraft :=
  mkAircraft [start] 0%nat [] ∅ ∅.

(** [Aircraft.addCell] for the cell just allocated at the end of the grid:
    the truthy [row] and [col] are recorded ([0] is falsy, a one-unit string
    is truthy). *)
Definition addCell (c : Cell) (a : Aircraft) : Aircraft :=
  mkAircraft (grid a) (startingCell a) (seats a)
    (match row c with
     | Some r => if r =? 0 then rows a else {[r]} ∪ rows a
     | None => rows a
     end)
    (match col c with
     | Some k => {[k]} ∪ cols a
     | None => cols a
     end).

Definition addSeat (i : nat) (a : Aircraft) : Aircraft :=
  mkAircraft (grid a) (startingCell a) (seats a ++ [i]) (rows a) (cols a).

Definition rowCount (a : Aircraft) : Z := Z.of_nat (size (rows a)).
Definition colCount (a : Aircraft) : Z := Z.of_nat (size (cols a)).

(** ** Exceptions *)

(** What a call can throw: a [TypeError] on a property read of [null], the
    string thrown by [Aircraft.board], and [BadReference] for a reference
    that is not in the heap (JavaScript has none; it is shown never to occur
    where it matters). *)
Inductive Exn :=
  | TypeError
  | BoardingFull (p : nat)
  | BadReference.

Inductive Result (A : Type) :=
  | Ok (a : A)
  | Throw (e : Exn).
Arguments Ok {A} a.
Arguments Throw {A} e.

#[global] Instance Result_ret : MRet Result := fun A a => Ok a.
#[global] Instance Result_bind : MBind Result := fun A B f m =>
  match m with
  | Ok a => f a
  | Throw e => Throw e
  end.

Definition fromOption {A} (e : Exn) (o : option A) : Result A :=
  match o with
  | Some a => Ok a
  | None => Throw e
  end.

(** ** [Aircraft.findSeat] *)

(** The longest prefix whose units satisfy [f], and what follows it. *)
Fixpoint span (f : Z -> bool) (s : JSString) : JSString * JSString :=
  match s with
  | [] => ([], [])
  | c :: s' => if f c then let '(a, b) := span f s' in (c :: a, b) else ([], s)
  end.

(** [/([0-9]+)([A-Z]+)/] tried at the start of [s]: the greedy run of digits
    must be followed by a letter (giving digits back cannot help: what
    follows a shorter run is a digit). *)
Definition matchHere (s : JSString) : option (JSString * JSString) :=
  let '(digits, rest) := span isDigit s in
  let '(letters, _) := span isUpper rest in
  match digits, letters with
  | _ :: _, _ :: _ => Some (digits, letters)
  | _, _ => None
  end.

(** [seatId.match(/([0-9]+)([A-Z]+)/)]: the leftmost match; the result is
    the pair of the two groups. *)
Fixpoint regexMatch (s : JSString) : option (JSString * JSString) :=
  match matchHere s with
  | Some m => Some m
  | None =>
      match s with
      | [] => None
      | _ :: s' => regexMatch s'
      end
  end.

(** [seat.row == targetRow]: a number against a string of digits, which is
    converted to a number (exactly, for the row numbers a grid can have). *)
Definition rowLooseEq (r : option Z) (targetRow : JSString) : bool :=
  match r with
  | Some r => r =? stringToNumber targetRow
  | None => false
  end.

(** [seat.col == targetCol]: two strings. *)
Definition colLooseEq (c : option Z) (targetCol : JSString) : bool :=
  match c with
  | Some c => bool_decide (targetCol = [c])
  | None => false
  end.

(** [for (const seat of this.seats) { if (...) return seat; } return null;] *)
Fixpoint findSeatLoop (g : list Cell) (targetRow targetCol : JSString) (l : list nat)
    : Result (option nat) :=
  match l with
  | [] => Ok None
  | seat :: rest =>
      c ← fromOption BadReference (g !! seat);
      if rowLooseEq (row c) targetRow && colLooseEq (col c) targetCol
      then Ok (Some seat)
      else findSeatLoop g targetRow targetCol rest
  end.

Definition findSeat (a : Aircraft) (seatId : JSString) : Result (option nat) :=
  match regexMatch seatId with
  | None => Ok None
  | Some (targetRow, targetCol) => findSeatLoop (grid a) targetRow targetCol (seats a)
  end.

(** A seat whose row and column are those of the parsed identifier. *)
Definition seatMatches (a : Aircraft) (targetRow targetCol : JSString) (seat : nat) : Prop :=
  ∃ c r k, grid a !! seat = Some c ∧ row c = Some r ∧ col c = Some k ∧
           r = stringToNumber targetRow ∧ targetCol = [k].

(** ** The seat identifier, as it is described *)

(** [digits] then [letters] stand in [s] from index [i] on: a run of decimal
    digits ('0' to '9', code units 48 to 57), directly followed by a run of
    capital letters ('A' to 'Z', code units 65 to 90), neither of them
    empty. *)
Definition digitsThenLettersAt (s : JSString) (i : nat) (digits letters : JSString) : Prop :=
  digits ≠ [] ∧ letters ≠ [] ∧
  Forall (fun c => 48 ≤ c ≤ 57) digits ∧ Forall (fun c => 65 ≤ c ≤ 90) letters ∧
  ∃ post, drop i s = digits ++ letters ++ post.

(** The identifier parsed as digits then letters: at the leftmost place of
    [s] where digits then letters stand, the digits taken as far as they go,
    and then the letters. *)
Definition parsedAs (s digits letters : JSString) : Prop :=
  ∃ i, digitsThenLettersAt s i digits letters ∧
       (∀ j d l, digitsThenLettersAt s j d l -> (i ≤ j)%nat) ∧
       (∀ d l, digitsThenLettersAt s i d l ->
          (length d ≤ length digits)%nat ∧
          (length d = length digits -> (length l ≤ length letters)%nat)).

(** The identifier does not parse. *)
Definition unparsable (s : JSString) : Prop :=
  ∀ i d l, ¬ digitsThenLettersAt s i d l.

(** The number that a string of digits writes in base ten. *)
Fixpoint decimalValue (digits : JSString) : Z :=
  match digits with
  | [] => 0
  | c :: rest => (c - 48) * 10 ^ Z.of_nat (length rest) + decimalValue rest
  end.

(** The seat whose row is the number [targetRow] writes and whose column is
    the string [targetCol]. *)
Definition seatNamed (a : Aircraft) (targetRow targetCol : JSString) (seat : nat) : Prop :=
  ∃ c k, grid a !! seat = Some c ∧ row c = Some (decimalValue targetRow) ∧
         col c = Some k ∧ targetCol = [k].

(** ** The layout compiler: [generateAircraft] *)

Record RowSpec := mkRowSpec {
  repeat : Z;
  layout : JSString;
}.

(** The variables of the loops of [generateAircraft]. *)
Record GenState := mkGen {
  aircraft : Aircraft;
  prevAisle : nat;
  prevCell : option nat;
  seatIndex : Z;
}.

(** [if (prevCell) { prevCell.down = newCell; newCell.up = prevCell; }] *)
Definition linkPrev (prev : option nat) (n : nat) (g : list Cell) : list Cell :=
  match prev with
  | Some p => alter (set_up (Some p)) n (alter (set_down (Some n)) p g)
  | None => g
  end.

(** One iteration of the loop over the symbols of a row. *)
Definition genCell (x rowIndex j cellType : Z) (st : GenState) : GenState :=
  let y := j * CELLSIZE in
  let ac := aircraft st in
  let n := length (grid ac) in
  if cellType =? char_S then
    let colName := fromCharCode (65 + seatIndex st) in
    let c := newSeat x y rowIndex colName in
    let ac1 := addSeat n (set_grid (grid ac ++ [c]) ac) in
    let ac2 := set_grid (linkPrev (prevCell st) n (grid ac1)) ac1 in
    mkGen (addCell c ac2) (prevAisle st) (Some n) (seatIndex st + 1)
  else if cellType =? char_A then
    let c := set_left (Some (prevAisle st)) (newCell x y) in
    let g1 := grid ac ++ [c] in
    let g2 := alter (set_right (Some n)) (prevAisle st) g1 in
    let g3 := alter (set_cy y) (prevAisle st) g2 in
    let ac1 := set_grid (linkPrev (prevCell st) n g3) ac in
    mkGen (addCell c ac1) n (Some n) (seatIndex st)
  else if cellType =? char_plus then
    mkGen ac (prevAisle st) (prevCell st) (seatIndex st + 1)
  else st.

(** [for (let j = 0; j < rowSpec.layout.length; j++)] *)
Fixpoint genCells (x rowIndex j : Z) (symbols : JSString) (st : GenState) : GenState :=
  match symbols with
  | [] => st
  | cellType :: rest => genCells x rowIndex (j + 1) rest (genCell x rowIndex j cellType st)
  end.

(** The body of the loop over the repetitions of a row: [x] is the value
    after [x += CELLSIZE]. *)
Definition genRow (x rowIndex : Z) (symbols : JSString) (st : GenState) : GenState :=
  genCells x rowIndex 0 symbols (mkGen (aircraft st) (prevAisle st) None 0).

(** [for (let i = 0; i < rowSpec.repeat; i++)], [n] iterations left; the
    result carries [x] and [rowIndex] along. *)
Fixpoint genRepeat (n : nat) (symbols : JSString) (s : Z * Z * GenState) : Z * Z * GenState :=
  match n with
  | O => s
  | S n' =>
      let '(x, rowIndex, st) := s in
      let x' := x + CELLSIZE in
      genRepeat n' symbols (x', rowIndex + 1, genRow x' rowIndex symbols st)
  end.

Definition genRowSpec (s : Z * Z * GenState) (rs : RowSpec) : Z * Z * GenState :=
  genRepeat (Z.to_nat (repeat rs)) (layout rs) s.

Definition genInit : Z * Z * GenState :=
  (0, 1, mkGen (newAircraft (newCell 0 0)) 0%nat None 0).

Definition generateAircraft (seatLayout : list RowSpec) : Aircraft :=
  aircraft (fold_left genRowSpec seatLayout genInit).2.

(** ** Passengers *)

Inductive State := Seated | Searching | LoadingUp | LoadingDown.

#[global] Instance State_eq_dec : EqDecision State.
Proof. solve_decision. Defined.

(** [state] is [null] until the passenger is boarded. *)
Record Passenger := mkPassenger {
  cell : option nat;
  targetSeat : nat;
  state : option State;
  timeToTransition : Z;
}.

Definition set_cell (v : option nat) (p : Passenger) : Passenger :=
  mkPassenger v (targetSeat p) (state p) (timeToTransition p).
Definition set_state (v : option State) (p : Passenger) : Passenger :=
  mkPassenger (cell p) (targetSeat p) v (timeToTransition p).
Definition set_timeToTransition (v : Z) (p : Passenger) : Passenger :=
  mkPassenger (cell p) (targetSeat p) (state p) v.

(** [new Passenger(null, targetSeat, luggageDistribution, color)] *)
Definition newPassenger (target : nat) : Passenger :=
  mkPassenger None target None 0.

(** What [console.error] receives. *)
Inductive LogEntry :=
  | FailedToFindSeat (seat : nat)
  | UnknownMethod.

(** The mutable objects of a run: the aircraft with its cells, the
    passengers, the number of calls made to the luggage supplier and the
    error console. *)
Record World := mkWorld {
  plane : Aircraft;
  pax : list Passenger;
  draws : nat;
  console : list LogEntry;
}.

Definition set_cells (g : list Cell) (w : World) : World :=
  mkWorld (set_grid g (plane w)) (pax w) (draws w) (console w).
Definition set_pax (l : list Passenger) (w : World) : World :=
  mkWorld (plane w) l (draws w) (console w).

Definition getCell (w : World) (i : nat) : Result Cell :=
  fromOption BadReference (grid (plane w) !! i).
Definition getPax (w : World) (p : nat) : Result Passenger :=
  fromOption BadReference (pax w !! p).

(** [a === b] on a property that may be [undefined]. *)
Definition strictEq (a b : option Z) : bool := bool_decide (a = b).
(** [a >= b] and [a <= b] on column names; a comparison with [undefined] is
    false. *)
Definition geq (a b : option Z) : bool :=
  match a, b with Some a, Some b => b <=? a | _, _ => false end.
Definition leq (a b : option Z) : bool :=
  match a, b with Some a, Some b => a <=? b | _, _ => false end.

(** [cell.contents.add(p)] and [cell.contents.delete(p)] *)
Definition enter (p : nat) (k : Cell) : Cell := set_contents ({[p]} ∪ contents k) k.
Definition leave (p : nat) (k : Cell) : Cell := set_contents (contents k ∖ {[p]}) k.

(** [Agent.initializeAt] *)
Definition initializeAt (p c : nat) (st : State) (w : World) : World :=
  let w1 := set_pax (alter (set_cell (Some c)) p (pax w)) w in
  let w2 := set_cells (alter (enter p) c (grid (plane w1))) w1 in
  set_pax (alter (set_state (Some st)) p (pax w2)) w2.

(** [Agent.move]: the old cell is left before [newCell] is dereferenced. *)
Definition move (p : nat) (newCell : option nat) (w : World) : Result World :=
  this ← getPax w p;
  old ← fromOption TypeError (cell this);
  let w1 := set_cells (alter (leave p) old (grid (plane w))) w in
  let w2 := set_pax (alter (set_cell newCell) p (pax w1)) w1 in
  n ← fromOption TypeError newCell;
  Ok (set_cells (alter (enter p) n (grid (plane w2))) w2).

Section Simulation.

(** The luggage supplier: [luggage k] is what its [k]-th call returns. *)
Variable luggage : nat -> Z.

(** The loading branches of [Passenger.simulate]. *)
Definition startLoading (p : nat) (st : State) (w : World) : World :=
  let w1 := set_pax (alter (set_state (Some st)) p (pax w)) w in
  let w2 := set_pax (alter (set_timeToTransition (luggage (draws w1))) p (pax w1)) w1 in
  mkWorld (plane w2) (pax w2) (S (draws w2)) (console w2).

Definition loadingStep (p : nat) (deltaT : Z) (dir : Cell -> option nat) (w : World) : Result World :=
  this ← getPax w p;
  let t := timeToTransition this - deltaT in
  let w1 := set_pax (alter (set_timeToTransition t) p (pax w)) w in
  if t <=? 0 then
    c ← fromOption TypeError (cell this);
    here ← getCell w1 c;
    w2 ← move p (dir here) w1;
    this' ← getPax w2 p;
    if bool_decide (cell this' = Some (targetSeat this'))
    then Ok (set_pax (alter (set_state (Some Seated)) p (pax w2)) w2)
    else Ok w2
  else Ok w1.

(** [Passenger.simulate(deltaT)] for the passenger at index [p]. *)
Definition simulatePassenger (deltaT : Z) (p : nat) (w : World) : Result World :=
  this ← getPax w p;
  match state this with
  | None | Some Seated => Ok w
  | Some Searching =>
      c ← fromOption TypeError (cell this);
      here ← getCell w c;
      target ← getCell w (targetSeat this);
      upHit ← match up here with
              | Some u => k ← getCell w u; Ok (strictEq (row k) (row target) && geq (col k) (col target))
              | None => Ok false
              end;
      if upHit : bool then Ok (startLoading p LoadingUp w)
      else
        downHit ← match down here with
                  | Some d => k ← getCell w d; Ok (strictEq (row k) (row target) && leq (col k) (col target))
                  | None => Ok false
                  end;
        if downHit : bool then Ok (startLoading p LoadingDown w)
        else
          match right here with
          | Some r =>
              k ← getCell w r;
              if negb (isEmpty k) then Ok w else move p (Some r) w
          | None =>
              Ok (mkWorld (plane w) (pax w) (draws w) (console w ++ [FailedToFindSeat (targetSeat this)]))
          end
  | Some LoadingUp => loadingStep p deltaT up w
  | Some LoadingDown => loadingStep p deltaT down w
  end.

(** [for (const p of activePax) p.simulate(tickLengthms)] *)
Fixpoint simulateAll (deltaT : Z) (active : list nat) (w : World) : Result World :=
  match active with
  | [] => Ok w
  | p :: rest => w' ← simulatePassenger deltaT p w; simulateAll deltaT rest w'
  end.

End Simulation.

(** [Aircraft.board] *)
Definition board (p : nat) (w : World) : Result World :=
  start ← getCell w (startingCell (plane w));
  if isEmpty start then Ok (initializeAt p (startingCell (plane w)) Searching w)
  else Throw (BoardingFull p).

(** ** Boarding strategies *)

Section Strategies.

Context {P : Type}.
(** [p.targetSeat.toString()] *)
Variable targetSeatName : P -> JSString.

Definition arrangeBackFront (passengers : list P) (a : Aircraft) : list P := passengers.

Definition arrangeFrontBack (passengers : list P) (a : Aircraft) : list P := reverse passengers.

(** [shuffleArray]: [random i] stands for the value of [Math.random()] drawn
    in the iteration of index [i], already scaled: [Math.random()] lies in
    [0, 1), so [Math.floor(Math.random() * (i + 1))] is some index in
    [0 .. i]. *)
Variable random : nat -> nat.

Definition swap (i j : nat) (array : list P) : list P :=
  match array !! i, array !! j with
  | Some tmp, Some aj => <[j := tmp]> (<[i := aj]> array)
  | _, _ => array
  end.

Fixpoint shuffleFrom (i : nat) (array : list P) : list P :=
  match i with
  | O => array
  | S i' => shuffleFrom i' (swap i (random i mod (i + 1))%nat array)
  end.

Definition shuffleArray (array : list P) : list P :=
  shuffleFrom (length array - 1) array.

Definition arrangeRandom (passengers : list P) (a : Aircraft) : list P :=
  shuffleArray passengers.

(** [seatMap[p.targetSeat.toString()] = p] for each passenger in turn. *)
Definition buildSeatMap (passengers : list P) : gmap JSString P :=
  foldl (fun m p => <[targetSeatName p := p]> m) ∅ passengers.

(** [if (passenger !== undefined) sortedPassengers.push(seatMap[seat])] *)
Definition pushSeat (seatMap : gmap JSString P) (seat : JSString) (sorted : list P) : list P :=
  match seatMap !! seat with
  | Some passenger => sorted ++ [passenger]
  | None => sorted
  end.

(** The body shared by the two row loops of [arrangeSteffen]. *)
Definition boardRow (seatMap : gmap JSString P) (rightCol leftCol : Z) (r : nat)
    (sorted : list P) : list P :=
  let rightColName := fromCharCode (65 + rightCol) in
  let leftColName := fromCharCode (65 + leftCol) in
  let sorted1 := pushSeat seatMap (numberToString (Z.of_nat r) ++ [rightColName]) sorted in
  if bool_decide (leftCol ≠ rightCol)
  then pushSeat seatMap (numberToString (Z.of_nat r) ++ [leftColName]) sorted1
  else sorted1.

(** [for (let row = start; row > 0; row -= 2)] *)
Fixpoint sweepRows (seatMap : gmap JSString P) (rightCol leftCol : Z) (r : nat)
    (sorted : list P) : list P :=
  match r with
  | O => sorted
  | S O => boardRow seatMap rightCol leftCol r sorted
  | S (S r') => sweepRows seatMap rightCol leftCol r' (boardRow seatMap rightCol leftCol r sorted)
  end.

(** [while (leftCol >= rightCol)], with fuel: [None] when the fuel runs out
    before the loop ends. *)
Fixpoint steffenLoop (fuel : nat) (seatMap : gmap JSString P) (rowCnt : nat)
    (rightCol leftCol : Z) (sorted : list P) : option (list P) :=
  if rightCol <=? leftCol then
    match fuel with
    | O => None
    | S fuel' =>
        let sorted1 := sweepRows seatMap rightCol leftCol rowCnt sorted in
        let sorted2 := sweepRows seatMap rightCol leftCol (rowCnt - 1)%nat sorted1 in
        steffenLoop fuel' seatMap rowCnt (rightCol + 1) (leftCol - 1) sorted2
    end
  else Some sorted.

Definition arrangeSteffen (passengers : list P) (a : Aircraft) : option (list P) :=
  let seatMap := buildSeatMap passengers in
  sorted ← steffenLoop (size (cols a)) seatMap (size (rows a)) 0 (colCount a - 1) [];
  Some (reverse sorted).

End Strategies.

(** ** The simulation loop *)

Inductive Method := MethodRandom | MethodBtf | MethodFtb | MethodSteffen | MethodOther.

(** The messages given to [setStatus]. *)
Inductive StatusMsg :=
  | StartingSimulation
  | Boarding (paxCount : nat) (m : Method)
  | AllSeated (paxCount : nat) (iterCount : Z)
  | SimulationAborted (iterCount : Z).

Record Sim := mkSim {
  world : World;
  pendingPax : list nat;
  activePax : list nat;
  iterCount : Z;
  status : StatusMsg;
}.

Definition maxIterations : Z := 10000.

(** [pendingPax.pop()] *)
Definition pop {A} (l : list A) : option (A * list A) :=
  match reverse l with
  | [] => None
  | x :: r => Some (x, reverse r)
  end.

Definition isSeated (w : World) (p : nat) : bool :=
  match pax w !! p with
  | Some this => bool_decide (state this = Some Seated)
  | None => false
  end.

(** [activePax.filter(p => p.state !== State.Seated).length === 0] *)
Definition allSeated (w : World) (active : list nat) : bool :=
  bool_decide (length (filter (fun p => isSeated w p = false) active) = 0%nat).

Section Loop.

Variable luggage : nat -> Z.
(** [simStatus.run] as the loop reads it: [run k] is its value once [k]
    waits have elapsed. *)
Variable run : nat -> bool.
Variable tickLengthms : Z.

(** The admission step at the top of the loop body. *)
Definition admitPassenger (s : Sim) : Result Sim :=
  start ← getCell (world s) (startingCell (plane (world s)));
  match pop (pendingPax s) with
  | Some (nextPax, rest) =>
      if isEmpty start then
        w ← board nextPax (world s);
        Ok (mkSim w rest (activePax s ++ [nextPax]) (iterCount s) (status s))
      else Ok s
  | None => Ok s
  end.

(** How the loop is left. *)
Inductive Exit :=
  | Finished (s : Sim)
  | Rejected (e : Exn)
  | OutOfFuel.

(** How one pass through the loop body ends: at the [break], or at the wait
    that closes the tick. *)
Inductive BodyEnd :=
  | Break (s : Sim)
  | Continue (s : Sim).

(** [if (!simStatus.run) { ... setStatus(msg) }] after the loop. *)
Definition afterLoop (s : Sim) : Sim :=
  if run (Z.to_nat (iterCount s)) then s
  else mkSim (world s) (pendingPax s) (activePax s) (iterCount s) (SimulationAborted (iterCount s)).

(** The loop condition [simStatus.run && iterCount < maxIterations]. *)
Definition loopCond (s : Sim) : bool :=
  run (Z.to_nat (iterCount s)) && (iterCount s <? maxIterations).

(** The loop body. *)
Definition loopBody (s : Sim) : Result BodyEnd :=
  s1 ← admitPassenger s;
  if allSeated (world s1) (activePax s1) then
    Ok (Break (mkSim (world s1) (pendingPax s1) (activePax s1) (iterCount s1)
                 (AllSeated (length (seats (plane (world s1)))) (iterCount s1))))
  else
    w ← simulateAll luggage tickLengthms (activePax s1) (world s1);
    Ok (Continue (mkSim w (pendingPax s1) (activePax s1) (iterCount s1 + 1) (status s1))).

(** [while (simStatus.run && iterCount < maxIterations) { ... }] and the
    statement after it. *)
Fixpoint simLoop (fuel : nat) (s : Sim) : Exit :=
  if loopCond s then
    match fuel with
    | O => OutOfFuel
    | S fuel' =>
        match loopBody s with
        | Throw e => Rejected e
        | Ok (Break s') => Finished (afterLoop s')
        | Ok (Continue s') => simLoop fuel' s'
        end
    end
  else Finished (afterLoop s).

(** The states at which the loop waits for the next tick: the state on entry
    and the state after each completed pass. *)
Inductive TickBoundary (s0 : Sim) : Sim -> Prop :=
  | boundary_start : TickBoundary s0 s0
  | boundary_tick s s' :
      TickBoundary s0 s -> loopCond s = true -> loopBody s = Ok (Continue s') ->
      TickBoundary s0 s'.

(** The state after [n] completed passes, when the loop gets that far. *)
Fixpoint afterTicks (n : nat) (s : Sim) : option Sim :=
  match n with
  | O => Some s
  | S n' =>
      if loopCond s then
        match loopBody s with
        | Ok (Continue s') => afterTicks n' s'
        | _ => None
        end
      else None
  end.

End Loop.

(** The method chosen in the form rearranges the queue. *)
Definition arrange (random : nat -> nat) (m : Method) (w : World) (pending : list nat)
    : option (list nat) :=
  let name p := match pax w !! p with
                | Some this => default [] (grid (plane w) !! targetSeat this ≫= cellToString)
                | None => []
                end in
  match m with
  | MethodRandom => Some (arrangeRandom random pending (plane w))
  | MethodBtf => Some (arrangeBackFront pending (plane w))
  | MethodFtb => Some (arrangeFrontBack pending (plane w))
  | MethodSteffen => arrangeSteffen name pending (plane w)
  | MethodOther => Some pending
  end.

(** The state on entry to the loop of [simulate]: one passenger per seat, in
    seat order, then rearranged. *)
Definition initWorld (seatLayout : list RowSpec) (m : Method) : World :=
  let a := generateAircraft seatLayout in
  mkWorld a (newPassenger <$> seats a) 0
    (match m with MethodOther => [UnknownMethod] | _ => [] end).

Definition initSim (random : nat -> nat) (seatLayout : list RowSpec) (m : Method) : option Sim :=
  let w := initWorld seatLayout m in
  let paxCount := length (seats (plane w)) in
  pending ← arrange random m w (seq 0 paxCount);
  Some (mkSim w pending [] 0 (Boarding paxCount m)).

(** [simulate(simStatus, tickLengthms, luggageDistribution)]; the layout and
    the method come from the form.  [undefined] arguments take the defaults. *)
Definition simulate (random : nat -> nat) (run : nat -> bool)
    (tickLengthms : option Z) (luggageDistribution : option (nat -> Z))
    (seatLayout : list RowSpec) (m : Method) : Exit :=
  let tick := default 500 tickLengthms in
  let luggage := default (fun _ => 10000) luggageDistribution in
  match initSim random seatLayout m with
  | Some s => simLoop luggage run tick (Z.to_nat maxIterations) s
  | None => OutOfFuel
  end.

(** ** The Steffen rule, as it is described *)

Section SteffenRule.

Context {P : Type}.
Variable targetSeatName : P -> JSString.

(** The passengers whose seat is in row [r], at the column of index [k]. *)
Definition seatedAt (passengers : list P) (r : nat) (k : Z) : list P :=
  filter (fun p => targetSeatName p = seatToString (Z.of_nat r) (fromCharCode (65 + k)))
    passengers.

(** The rows [n], [n - 2], ... down to row 1: the rows at an even distance
    from [n], from the back. *)
Definition rowsDownFrom (n : nat) : list nat :=
  filter (fun r => Nat.even (n - r) = true) (reverse (seq 1 n)).

(** For one row: the passenger of the right column, then the passenger of
    the left column when the two columns differ. *)
Definition emitRow (passengers : list P) (rightCol leftCol : Z) (r : nat) : list P :=
  seatedAt passengers r rightCol ++
  (if bool_decide (leftCol ≠ rightCol) then seatedAt passengers r leftCol else []).

(** The pairs of column cursors: [rightCol] from 0 upwards, [leftCol] from
    the last column index downwards, as long as [leftCol >= rightCol]. *)
Definition columnPairs (c : nat) : list (Z * Z) :=
  filter (fun rl => rl.1 ≤ rl.2)
    ((fun k => (Z.of_nat k, Z.of_nat c - 1 - Z.of_nat k)) <$> seq 0 c).

(** The sequence as it is built, outermost columns first. *)
Definition steffenSequence (passengers : list P) (rowCnt colCnt : nat) : list P :=
  rl ← columnPairs colCnt;
  r ← rowsDownFrom rowCnt ++ rowsDownFrom (rowCnt - 1);
  emitRow passengers rl.1 rl.2 r.


End SteffenRule.

(** ** Invariants of the layout compiler *)

(** [k] steps from the cell [i] in the direction [dir]. *)
Fixpoint walk (dir : Cell -> option nat) (g : list Cell) (k : nat) (i : nat) : option nat :=
  match k with
  | O => Some i
  | S k' => c ← g !! i; j ← dir c; walk dir g k' j
  end.

(** What holds of the loop variables of [generateAircraft] while the row of
    number [r] is compiled; [a] is the length the grid had when the row was
    started, so the cells of the row are those from index [a] on. *)
Record GenInv (a : nat) (r : Z) (st : GenState) : Prop := {
  gi_start : startingCell (aircraft st) = 0%nat;
  gi_rowstart : (1 ≤ a ≤ length (grid (aircraft st)))%nat;
  gi_rowIndex : 1 ≤ r;
  gi_prevCell :
    prevCell st = if decide (a < length (grid (aircraft st)))%nat
                  then Some (length (grid (aircraft st)) - 1)%nat else None;
  gi_prevAisle :
    ∃ c, grid (aircraft st) !! prevAisle st = Some c ∧ right c = None ∧ isSeat c = false;
  gi_up : ∀ i c j, grid (aircraft st) !! i = Some c -> up c = Some j -> i = S j;
  gi_down : ∀ i c j, grid (aircraft st) !! i = Some c -> down c = Some j -> j = S i;
  gi_updown : ∀ i c j, grid (aircraft st) !! i = Some c -> up c = Some j ->
    ∃ d, grid (aircraft st) !! j = Some d ∧ down d = Some i;
  gi_downup : ∀ i c j, grid (aircraft st) !! i = Some c -> down c = Some j ->
    ∃ d, grid (aircraft st) !! j = Some d ∧ up d = Some i;
  gi_leftright : ∀ i c j, grid (aircraft st) !! i = Some c -> left c = Some j ->
    ∃ d, grid (aircraft st) !! j = Some d ∧ right d = Some i;
  gi_rightleft : ∀ i c j, grid (aircraft st) !! i = Some c -> right c = Some j ->
    ∃ d, grid (aircraft st) !! j = Some d ∧ left d = Some i;
  gi_row_chain : ∀ i, (a < i < length (grid (aircraft st)))%nat ->
    ∃ c, grid (aircraft st) !! i = Some c ∧ up c = Some (i - 1)%nat;
  gi_row_first : ∀ c, grid (aircraft st) !! a = Some c -> up c = None;
  gi_seat_links : ∀ i c, grid (aircraft st) !! i = Some c -> isSeat c = true ->
    left c = None ∧ right c = None;
  gi_contents : ∀ i c, grid (aircraft st) !! i = Some c -> contents c = ∅;
  gi_seats :
    Forall (fun i => ∃ c, grid (aircraft st) !! i = Some c ∧ isSeat c = true)
      (seats (aircraft st));
  gi_cols : ∀ k, k ∈ cols (aircraft st) -> 0 ≤ k < 65536;
  gi_seat_rows : ∀ i c, grid (aircraft st) !! i = Some c -> isSeat c = true ->
    ∃ rr k, row c = Some rr ∧ col c = Some k ∧ 1 ≤ rr ∧
            ((i < a)%nat -> rr < r) ∧ ((a ≤ i)%nat -> rr = r);
  gi_entry : ∃ c, grid (aircraft st) !! 0%nat = Some c ∧ isSeat c = false;
}.

(** What an iteration of the symbol loop does to a cell that exists already:
    the previous aisle cell gets its [right] link and its [y] when the new
    cell is an aisle cell, the previous cell of the row gets its [down]
    link. *)
Definition retouch (st : GenState) (aisle : bool) (y : Z) (i : nat) (c : Cell) : Cell :=
  let n := length (grid (aircraft st)) in
  let c1 := if aisle && bool_decide (i = prevAisle st)
            then set_cy y (set_right (Some n) c) else c in
  if decide (prevCell st = Some i) then set_down (Some n) c1 else c1.

(** The grid after a cell was added: the new cell at the end, the old cells
    retouched. *)
Definition Extended (st st' : GenState) (aisle : bool) (y : Z) (cnew : Cell) : Prop :=
  ∀ i, grid (aircraft st') !! i =
       if decide (i = length (grid (aircraft st))) then Some (set_up (prevCell st) cnew)
       else retouch st aisle y i <$> grid (aircraft st) !! i.

(** The state between two rows, seen as the start of the row of number [r]. *)
Definition rowStart (st : GenState) : GenState :=
  mkGen (aircraft st) (prevAisle st) None 0.

Definition BetweenRows (r : Z) (st : GenState) : Prop :=
  GenInv (length (grid (aircraft st))) r (rowStart st).

(** ** One passenger's tick, as a relation *)

(** The grid after passenger [p] stepped from cell [c] to cell [n]. *)
Definition moveCells (p c n : nat) (g : list Cell) : list Cell :=
  alter (enter p) n (alter (leave p) c g).

(** [Transition g p this g' this']: what a call of [Passenger.simulate] that
    returns can do to the grid and to the passenger. *)
Inductive Transition (g : list Cell) (p : nat) (this : Passenger) :
    list Cell -> Passenger -> Prop :=
  | t_idle :
      Transition g p this g this
  | t_wait t :
      state this = Some LoadingUp ∨ state this = Some LoadingDown ->
      Transition g p this g (set_timeToTransition t this)
  | t_loadUp c here u k target t :
      state this = Some Searching -> cell this = Some c -> g !! c = Some here ->
      up here = Some u -> g !! u = Some k -> g !! targetSeat this = Some target ->
      strictEq (row k) (row target) = true -> geq (col k) (col target) = true ->
      Transition g p this g (set_timeToTransition t (set_state (Some LoadingUp) this))
  | t_loadDown c here d k target t :
      state this = Some Searching -> cell this = Some c -> g !! c = Some here ->
      down here = Some d -> g !! d = Some k -> g !! targetSeat this = Some target ->
      strictEq (row k) (row target) = true -> leq (col k) (col target) = true ->
      Transition g p this g (set_timeToTransition t (set_state (Some LoadingDown) this))
  | t_right c here n k :
      state this = Some Searching -> cell this = Some c -> g !! c = Some here ->
      right here = Some n -> g !! n = Some k -> isEmpty k = true ->
      Transition g p this (moveCells p c n g) (set_cell (Some n) this)
  | t_lateral st c here n t :
      state this = Some st ->
      cell this = Some c -> g !! c = Some here ->
      (st = LoadingUp ∧ up here = Some n ∨ st = LoadingDown ∧ down here = Some n) ->
      Transition g p this (moveCells p c n g)
        ((if bool_decide (n = targetSeat this) then set_state (Some Seated) else id)
           (set_cell (Some n) (set_timeToTransition t this))).

(** The number of [S] and [+] symbols of a pattern: the letters it uses. *)
Definition slotCount (symbols : JSString) : Z :=
  Z.of_nat (length (filter (fun c => c = char_S ∨ c = char_plus) symbols)).

(** The number of [A] symbols of a pattern. *)
Definition aisleCount (symbols : JSString) : nat :=
  length (filter (fun c => c = char_A) symbols).

(** While column letters do not wrap around, the seats of a row are linked
    in the order of their letters. *)
Definition SeatsOrdered (g : list Cell) : Prop :=
  ∀ i i' c c', (i < i')%nat -> g !! i = Some c -> g !! i' = Some c' ->
    isSeat c = true -> isSeat c' = true -> row c = row c' ->
    (∃ k k', col c = Some k ∧ col c' = Some k' ∧ k < k') ∧
    ∀ m, (i < m ≤ i')%nat -> ∃ d, g !! m = Some d ∧ up d = Some (m - 1)%nat.

Record NoWrapInv (a : nat) (st : GenState) : Prop := {
  nw_index : 0 ≤ seatIndex st;
  nw_cur : ∀ i c k, (a ≤ i)%nat -> grid (aircraft st) !! i = Some c -> col c = Some k ->
    k < 65 + seatIndex st;
  nw_order : SeatsOrdered (grid (aircraft st));
}.

(** In rows with at most one aisle cell, two cells that are not seats are
    never in the same row: a row start lies between them. *)
Definition AislesApart (g : list Cell) : Prop :=
  ∀ i j c d, (i < j)%nat -> g !! i = Some c -> g !! j = Some d ->
    isSeat c = false -> isSeat d = false ->
    ∃ m e, (i < m ≤ j)%nat ∧ g !! m = Some e ∧ up e = None.

Record OneAisleInv (a : nat) (seen : bool) (st : GenState) : Prop := {
  oa_seen : seen = false -> ∀ i c, (a ≤ i)%nat -> grid (aircraft st) !! i = Some c ->
    isSeat c = true;
  oa_apart : AislesApart (grid (aircraft st));
}.

(** ** Invariants of a run *)

(** The grid without its occupants: what a run never changes. *)
Definition topo (g : list Cell) : list Cell := set_contents ∅ <$> g.

Section RunInvariant.

(** The compiled grid, its entry cell, and what is to hold of the cell of a
    searching passenger and of the cell of a loading passenger with a given
    target. *)
Variable g0 : list Cell.
Variable start : nat.
Variable Srch : nat -> Prop.
Variable LU LD : nat -> nat -> Prop.

Definition PaxOk (this : Passenger) : Prop :=
  (∃ t, g0 !! targetSeat this = Some t ∧ isSeat t = true) ∧
  match state this with
  | Some Searching => ∃ c, cell this = Some c ∧ Srch c
  | Some LoadingUp => ∃ c, cell this = Some c ∧ LU c (targetSeat this)
  | Some LoadingDown => ∃ c, cell this = Some c ∧ LD c (targetSeat this)
  | _ => True
  end.

Record PaxInv (w : World) : Prop := {
  pi_topo : topo (grid (plane w)) = topo g0;
  pi_start : startingCell (plane w) = start;
  pi_pax : ∀ p this, pax w !! p = Some this -> PaxOk this;
}.

End RunInvariant.

(** The target [t] lies one or more steps from the cell [c] in the direction
    [dir]. *)
Definition Towards (dir : Cell -> option nat) (g0 : list Cell) (c t : nat) : Prop :=
  ∃ k, walk dir g0 (S k) c = Some t.

(** Every cell one or more steps from [c] in the direction [dir] is a seat. *)
Definition SeatsOnly (dir : Cell -> option nat) (g0 : list Cell) (c : nat) : Prop :=
  ∀ k c', walk dir g0 (S k) c = Some c' -> ∃ k', g0 !! c' = Some k' ∧ isSeat k' = true.

(** A cell that is not a seat. *)
Definition NotSeat (g0 : list Cell) (c : nat) : Prop :=
  ∃ here, g0 !! c = Some here ∧ isSeat here = false.

(** Aisle occupancy: a cell that is not a seat holds at most one passenger. *)
Definition Occupancy (g : list Cell) : Prop :=
  ∀ i c, g !! i = Some c -> isSeat c = false -> (size (contents c) ≤ 1)%nat.

(** ** The outcome of a run *)

(** How a run that returned is reported: by the "all seated" message, by the
    "aborted" message, or by neither, which is the implicit stalled outcome
    of a run that was stopped by the iteration ceiling alone. *)
Inductive RunState := Completed | Aborted | Stalled.

Definition runState (s : Sim) : RunState :=
  match status s with
  | AllSeated _ _ => Completed
  | SimulationAborted _ => Aborted
  | _ => Stalled
  end.

(** The layout of the completion scenario: one row, [SSASS]. *)
Definition oneRow : list RowSpec := [mkRowSpec 1 (str "SSASS")].

(** The state in which a pass through the loop body ends. *)
Definition bodyState (e : BodyEnd) : Sim :=
  match e with
  | Break s => s
  | Continue s => s
  end.

(** The two exceptions of a passenger's tick. *)
Definition tickExn (e : Exn) : Prop := e = TypeError ∨ e = BadReference.

(** The stall scenario: one seat and no aisle, so the only passenger never
    leaves the entry cell. *)
Definition stallLayout : list RowSpec := [mkRowSpec 1 (str "S")].

(** A cancellation that is observed exactly when the ceiling is reached. *)
Definition runUntilCeiling (k : nat) : bool := Z.of_nat k <? maxIterations.

Definition stallWorld : World :=
  Eval vm_compute in
    initializeAt 0 0 Searching (initWorld stallLayout MethodBtf).

(** The stalled run after [k] passes, with what the console has received. *)
Definition stalledSim (k : Z) (log : list LogEntry) : Sim :=
  mkSim (mkWorld (plane stallWorld) (pax stallWorld) 0 log) [] [0%nat] k
    (Boarding 1 MethodBtf).

(** The run of the completion scenario: the state on entry to the loop, and
    a naming of four passengers after the seats of the row. *)
Definition oneRowStart : Sim :=
  mkSim (initWorld oneRow MethodBtf) (seq 0 4) [] 0 (Boarding 4 MethodBtf).


(** A cabin with two aisles in its first row, and a luggage supplier whose
    first call returns a long duration and every later call 0. *)
Definition twoAisles : list RowSpec :=
  [mkRowSpec 1 (str "ASAS"); mkRowSpec 1 (str "SAS")].

Definition firstSlow (k : nat) : Z :=
  match k with
  | O => 1000
  | S _ => 0
  end.

(** A row whose last seat gets the letter of code 0: the letter counter has
    wrapped around. *)
Definition wrapLayout : list RowSpec :=
  [mkRowSpec 1 (str "SA" ++ replicate (Z.to_nat 65470) char_plus ++ str "S")].

(** ** What a layout says about seat letters *)

(** The number of [S] and [+] symbols strictly before position [i]. *)
Definition slotsBefore (symbols : JSString) (i : nat) : Z :=
  Z.of_nat (length (filter (fun c => c = char_S ∨ c = char_plus) (take i symbols))).

(** The positions of the [S] symbols of a pattern. *)
Definition seatPositions (symbols : JSString) : list nat :=
  filter (fun i => symbols !! i = Some char_S) (seq 0 (length symbols)).

(** Row and column of the seats of a row, as the lettering rule gives them:
    the seat at an [S] gets the letter of index [slotsBefore]. *)
Definition rowSeatIds (r : Z) (symbols : JSString) : list (option Z * option Z) :=
  (fun i => (Some r, Some (fromCharCode (65 + slotsBefore symbols i)))) <$>
  seatPositions symbols.

(** The patterns of the rows of a layout, repetitions written out. *)
Definition layoutRows (seatLayout : list RowSpec) : list JSString :=
  rs ← seatLayout; replicate (Z.to_nat (repeat rs)) (layout rs).

(** The seats of rows numbered from [r] on. *)
Definition seatIdsFrom (r : Z) (patterns : list JSString) : list (option Z * option Z) :=
  concat (imap (fun i symbols => rowSeatIds (r + Z.of_nat i) symbols) patterns).

(** The number of symbols that make a cell. *)
Definition cellCount (symbols : JSString) : nat :=
  length (filter (fun c => c = char_S ∨ c = char_A) symbols).

(** Row and column of the seats of an aircraft, in seat-list order. *)
Definition seatIds (a : Aircraft) : list (option Z * option Z) :=
  (fun i => match grid a !! i with
            | Some c => (row c, col c)
            | None => (None, None)
            end) <$> seats a.

(** ** Further definitions *)

Definition isSeatAt (g : list Cell) (i : nat) : bool :=
  match g !! i with
  | Some c => isSeat c
  | None => false
  end.

Definition seatCells (g : list Cell) : list nat :=
  filter (fun i => isSeatAt g i = true) (seq 0 (length g)).

Definition AIRCRAFT_WALL_HEIGHT : Z := 15.
Definition AIRCRAFT_PADDING : Z := 10.

(** The fields that [Aircraft.updateBoundingBox] assigns.  The lengths that
    are products by [1.5] are rational numbers. *)
Module BoundingBox.
Record t := mk {
  x : Z;
  y : Z;
  height : Z;
  width : Z;
  tailLength : QArith_base.Q;
  fuselageLength : Z;
  noseLength : QArith_base.Q;
  top : Z;
  left : QArith_base.Q;
  bottom : Z;
  right : QArith_base.Q;
}.
End BoundingBox.

(** The body of the loop of [updateBoundingBox] over the cells, on the
    variables [x1], [y1], [x2], [y2]. *)
Definition boxStep (b : Z * Z * Z * Z) (c : Cell) : Z * Z * Z * Z :=
  let '(x1, y1, x2, y2) := b in
  let '(x1, x2) :=
    if cx c <? x1 then (cx c, x2) else if x2 <? cx c then (x1, cx c) else (x1, x2) in
  let '(y1, y2) :=
    if cy c <? y1 then (cy c, y2) else if y2 <? cy c then (y1, cy c) else (y1, y2) in
  (x1, y1, x2, y2).

(** [Aircraft.updateBoundingBox], as a function of [this.grid]. *)
Definition updateBoundingBox (g : list Cell) : BoundingBox.t :=
  let '(x1, y1, x2, y2) := fold_left boxStep g (0, 0, 0, 0) in
  let x := x1 in
  let y := y1 in
  let height := y2 - y + CELLSIZE in
  let width := x2 - x + CELLSIZE in
  let tailLength := QArith_base.Qmult (QArith_base.inject_Z height) (QArith_base.Qmake 3 2) in
  let fuselageLength := width in
  let noseLength := QArith_base.Qmult (QArith_base.inject_Z height) (QArith_base.Qmake 3 2) in
  let top := y - (AIRCRAFT_PADDING + AIRCRAFT_WALL_HEIGHT) in
  let left := QArith_base.Qminus (QArith_base.inject_Z x) noseLength in
  let bottom := top + height + 2 * AIRCRAFT_PADDING + 2 * AIRCRAFT_WALL_HEIGHT in
  let right :=
    QArith_base.Qplus
      (QArith_base.Qplus (QArith_base.Qplus left noseLength)
         (QArith_base.inject_Z fuselageLength))
      tailLength in
  BoundingBox.mk x y height width tailLength fuselageLength noseLength top left bottom right.

(** The seat names that the body of a row loop of [arrangeSteffen] looks up,
    and those that the whole function looks up, in the order of the
    lookups. *)
Definition rowKeys (rightCol leftCol : Z) (r : nat) : list JSString :=
  seatToString (Z.of_nat r) (fromCharCode (65 + rightCol)) ::
  (if bool_decide (leftCol ≠ rightCol)
   then [seatToString (Z.of_nat r) (fromCharCode (65 + leftCol))] else []).

Definition steffenKeys (rowCnt colCnt : nat) : list JSString :=
  rl ← columnPairs colCnt;
  r ← rowsDownFrom rowCnt ++ rowsDownFrom (rowCnt - 1);
  rowKeys rl.1 rl.2 r.

(** What a run keeps of its passengers and its two queues; [queue] is the
    queue the run started with. *)
Record RunInv (queue : list nat) (w : World) (pending active : list nat) : Prop := {
  ri_queue : pending ++ reverse active = queue;
  ri_pending : ∀ p, p ∈ pending ->
    ∃ this, pax w !! p = Some this ∧ cell this = None ∧ state this = None;
  ri_active : ∀ p, p ∈ active -> ∃ this, pax w !! p = Some this ∧ is_Some (state this);
  ri_boarded : ∀ p this, pax w !! p = Some this -> is_Some (state this) -> p ∈ active;
  ri_contents : ∀ c k p, grid (plane w) !! c = Some k ->
    (p ∈ contents k ↔ ∃ this, pax w !! p = Some this ∧ cell this = Some c);
  ri_seated : ∀ p this, pax w !! p = Some this -> state this = Some Seated ->
    cell this = Some (targetSeat this);
  ri_cell : ∀ p this, pax w !! p = Some this -> (is_Some (cell this) ↔ is_Some (state this));
}.

(** The test that a searching passenger standing in the cell [c] makes for
    its target seat [t]: with [up] and [geq] it is
    [cell.up && cell.up.row === targetSeat.row && cell.up.col >= targetSeat.col],
    with [down] and [leq] it is the test on [cell.down]. *)
Definition inView (g : list Cell) (dir : Cell -> option nat)
    (cmp : option Z -> option Z -> bool) (c t : nat) : bool :=
  match g !! c, g !! t with
  | Some here, Some target =>
      match dir here with
      | Some n =>
          match g !! n with
          | Some k => strictEq (row k) (row target) && cmp (col k) (col target)
          | None => false
          end
      | None => false
      end
  | _, _ => false
  end.

(** One of the two tests succeeds: the passenger starts loading. *)
Definition inSight (g : list Cell) (c t : nat) : bool :=
  inView g up geq c t || inView g down leq c t.

(** A cell from which the seat [t] is in sight lies zero or more steps to
    the right of the cell [c]. *)
Definition RowAhead (g : list Cell) (c t : nat) : Prop :=
  ∃ k c', walk right g k c = Some c' ∧ inSight g c' t = true.

(** The seat [t] is in view from a cell that is not a seat. *)
Definition Sighted (g : list Cell) (view : list Cell -> nat -> nat -> bool) (t : nat) : Prop :=
  ∃ c here, g !! c = Some here ∧ isSeat here = false ∧ view g c t = true.

(** What holds of the seats while a row that started at index [a] is
    compiled, with [rest] left to read: either the row has no aisle cell
    yet, and an [A] is still to come if the row has a seat; or it has one,
    at index [f], and the seats after it are in view downwards. *)
Definition SightInv (rest : JSString) (a : nat) (st : GenState) : Prop :=
  let g := grid (aircraft st) in
  ((∀ i c, (a ≤ i)%nat -> g !! i = Some c -> isSeat c = true) ∧
   (∀ t target, (t < a)%nat -> g !! t = Some target -> isSeat target = true ->
      Sighted g inSight t) ∧
   ((a < length g)%nat ∨ char_S ∈ rest -> char_A ∈ rest)) ∨
  (∃ f here, (a ≤ f)%nat ∧ g !! f = Some here ∧ isSeat here = false ∧
     (∀ t target, (t < f)%nat -> g !! t = Some target -> isSeat target = true ->
        Sighted g inSight t) ∧
     (∀ t target, (f < t)%nat -> g !! t = Some target -> isSeat target = true ->
        Sighted g (fun g => inView g down leq) t)).

(** Every seat of the grid is in sight from a cell that is not a seat. *)
Definition AllSighted (g : list Cell) : Prop :=
  ∀ t target, g !! t = Some target -> isSeat target = true -> Sighted g inSight t.

(** A pattern that has a seat has an aisle cell. *)
Definition hasAisle (symbols : JSString) : Prop := char_S ∈ symbols -> char_A ∈ symbols.

(** Every searching passenger has the row of its seat ahead. *)
Definition OnCourse (g0 : list Cell) (w : World) : Prop :=
  ∀ p this, pax w !! p = Some this -> state this = Some Searching ->
    ∃ c, cell this = Some c ∧ RowAhead g0 c (targetSeat this).

(** A duration in milliseconds on which the integers of this development
    compute what the Numbers of [board.js] compute: a whole number, small
    enough that a timer set to it and lowered by such a tick length at every
    pass of a run, [maxIterations] times at most, remains a whole number
    below 2^53 in magnitude, which a Number holds exactly. *)
Definition wholeMs (t : Z) : Prop := - 2 ^ 32 ≤ t ≤ 2 ^ 32.

(** The number of calls that a loading passenger with [t] on its timer
    spends waiting before the call in which it moves, for whole numbers [t]
    and [deltaT]: the timer is lowered by [deltaT] in every call, and the
    passenger moves in the first call that leaves it at 0 or below. *)
Definition waits (deltaT t : Z) : nat := Z.to_nat ((t - 1) / deltaT).

(** The distance between two cells of a row, in grid indices. *)
Definition apart (c t : nat) : nat := (c - t) + (t - c).

(** What a passenger has left to do, counted so that every call of
    [Passenger.simulate] that changes anything lowers it: [G] bounds the
    grid indices and [W] the waits of a passenger. *)
Definition effort (G W : nat) (deltaT : Z) (this : Passenger) : nat :=
  match state this, cell this with
  | None, _ => 2 * G + W + 2
  | Some Seated, _ => 0
  | Some Searching, Some c => 2 * G + W + 1 - c
  | Some _, Some c => waits deltaT (timeToTransition this) + apart c (targetSeat this)
  | Some _, None => 0
  end.

Definition totalEffort (G W : nat) (deltaT : Z) (w : World) : nat :=
  sum_list (effort G W deltaT <$> pax w).

(** A passenger whose call changes nothing: it is not in the simulation, or
    seated, or searching with the cell to its right taken. *)
Definition Stuck (w : World) (p : nat) : Prop :=
  ∃ this, pax w !! p = Some this ∧
    (state this = None ∨ state this = Some Seated ∨
     (state this = Some Searching ∧
      ∃ c here n k, cell this = Some c ∧ grid (plane w) !! c = Some here ∧
        right here = Some n ∧ grid (plane w) !! n = Some k ∧ isEmpty k = false)).

(** The bound on the number of passes: each passenger is admitted, walks
    the aisle, waits and walks its row. *)
Definition passBound (a : Aircraft) (deltaT L : Z) : nat :=
  length (seats a) * (2 * length (grid a) + waits deltaT L + 2).

(** The passes that one passenger can hold up those behind it: it turns to
    its row, waits, and steps out of the aisle. *)
Definition slot (deltaT L : Z) : nat := waits deltaT L + 2.

(** The passenger stands [k] steps along the aisle from the entry cell. *)
Definition AislePos (g0 : list Cell) (this : Passenger) (k : nat) : Prop :=
  ∃ c, cell this = Some c ∧ walk right g0 k 0 = Some c.

(** The passenger that boarded as number [r] is on schedule at the pass of
    number [tick]: searching, it has come far enough along the aisle;
    loading in the aisle, it has few enough waits left; loading in its row,
    it is close enough to its seat. *)
Definition OnTime (g0 : list Cell) (deltaT L : Z) (tick r : nat) (this : Passenger) : Prop :=
  match state this with
  | Some Searching =>
      ∃ k, AislePos g0 this k ∧ (tick ≤ k + r * slot deltaT L)%nat
  | Some LoadingUp | Some LoadingDown =>
      (∃ k, AislePos g0 this k ∧
         (tick + waits deltaT (timeToTransition this)
          ≤ k + r * slot deltaT L + waits deltaT L + 1)%nat) ∨
      (∃ c d, cell this = Some c ∧ g0 !! c = Some d ∧ isSeat d = true ∧
         timeToTransition this ≤ 0 ∧
         (tick + apart c (targetSeat this)
          ≤ 2 * length g0 + r * slot deltaT L + waits deltaT L + 1)%nat)
  | _ => True
  end.

(** During the pass of number [tick], once the first [done] passengers of
    [active] had their call: those are on schedule for the next pass, the
    others for this one. *)
Definition Sched (g0 : list Cell) (deltaT L : Z) (tick done : nat) (w : World)
    (active : list nat) : Prop :=
  ∀ r p this, active !! r = Some p -> pax w !! p = Some this ->
    OnTime g0 deltaT L (if decide (r < done)%nat then S tick else tick) r this.

(** The passengers stand along the aisle in the order in which they
    boarded. *)
Definition Ordered (g0 : list Cell) (w : World) (active : list nat) : Prop :=
  ∀ r1 r2 p1 p2 this1 this2 k1 k2, (r1 < r2)%nat ->
    active !! r1 = Some p1 -> active !! r2 = Some p2 ->
    pax w !! p1 = Some this1 -> pax w !! p2 = Some this2 ->
    AislePos g0 this1 k1 -> AislePos g0 this2 k2 -> (k2 < k1)%nat.

(** The number of passes after which every passenger is seated. *)
Definition boardingBound (a : Aircraft) (deltaT L : Z) : nat :=
  2 * length (grid a) + (length (seats a) - 1) * slot deltaT L + waits deltaT L + 1.

(** [SEAT_LAYOUT_PRESETS]: the object is a list of its keys with their
    values. *)
Definition SEAT_LAYOUT_PRESETS : list (JSString * list RowSpec) :=
  [ (str "a321",
     [ mkRowSpec 5 (str " SSASS ");
       mkRowSpec 3 (str "SSSASSS");
       mkRowSpec 1 (str "SS+ASSS");
       mkRowSpec 11 (str "SSSASSS");
       mkRowSpec 1 (str "SSSA+++");
       mkRowSpec 1 (str "+++ASS+");
       mkRowSpec 13 (str "SSSASSS") ]);
    (str "b757300",
     [ mkRowSpec 6 (str " SSASS ");
       mkRowSpec 1 (str "+SSA+++");
       mkRowSpec 14 (str "SSSASSS");
       mkRowSpec 1 (str "+SSASS+");
       mkRowSpec 21 (str "SSSASSS") ]);
    (str "crj700",
     [ mkRowSpec 3 (str "SSAS ");
       mkRowSpec 15 (str "SSASS") ]) ].

(** [SEAT_LAYOUT_PRESETS[presetValue]]; [None] is a value that the loop of
    [generateAircraft] cannot iterate: [undefined], or a property of
    [Object.prototype]. *)
Fixpoint lookupPreset (presetValue : JSString) (presets : list (JSString * list RowSpec))
    : option (list RowSpec) :=
  match presets with
  | [] => None
  | (key, value) :: rest =>
      if decide (key = presetValue) then Some value else lookupPreset presetValue rest
  end.

(** The layout that [generateAircraftFromForm] hands to [generateAircraft],
    from the values of the form, [rows] and [cols] being integers; [None]
    when the function throws: on a preset that does not exist, and on a
    negative count given to [String.prototype.repeat]. *)
Definition formLayout (presetValue : JSString) (rows cols : Z) : option (list RowSpec) :=
  if decide (presetValue = str "coords") then
    if cols <? 0 then None
    else Some [mkRowSpec rows
                 (replicate (Z.to_nat cols) char_S ++ [char_A] ++
                  replicate (Z.to_nat cols) char_S)]
  else lookupPreset presetValue SEAT_LAYOUT_PRESETS.

(** * Properties *)

(** ** Lists *)

Lemma filter_ext_in {A} (P1 P2 : A -> Prop)
    `{!∀ x, Decision (P1 x), !∀ x, Decision (P2 x)} (l : list A) :
  (∀ x, x ∈ l -> P1 x ↔ P2 x) -> filter P1 l = filter P2 l.
Proof.
  induction l as [|a l IH]; intros Hiff; [done|].
  rewrite !filter_cons.
  rewrite IH by (intros x Hx; apply Hiff; by right).
  destruct (decide (P1 a)) as [H1|H1], (decide (P2 a)) as [H2|H2]; try done.
  - exfalso. apply H2, Hiff; [left|done].
  - exfalso. apply H1, Hiff; [left|done].
Qed.

Lemma NoDup_reverse {A} (l : list A) : NoDup l -> NoDup (reverse l).
Proof. by rewrite reverse_Permutation. Qed.

Lemma filter_none {A} (P1 : A -> Prop) `{!∀ x, Decision (P1 x)} (l : list A) :
  (∀ x, x ∈ l -> ¬ P1 x) -> filter P1 l = [].
Proof.
  induction l as [|a l IH]; intros Hno; [done|].
  rewrite filter_cons, decide_False by (apply Hno; left).
  apply IH. intros x Hx. apply Hno. by right.
Qed.

(** ** [findSeat] *)

Lemma span_app (f : Z -> bool) (s : JSString) : (span f s).1 ++ (span f s).2 = s.
Proof.
  induction s as [|c s IH]; simpl; [done|].
  destruct (f c); [|done].
  destruct (span f s) as [a b]; simpl in *. by rewrite IH.
Qed.

Lemma span_Forall (f : Z -> bool) (s : JSString) : Forall (fun c => f c = true) (span f s).1.
Proof.
  induction s as [|c s IH]; simpl; [constructor|].
  destruct (f c) eqn:E; [|constructor].
  destruct (span f s) as [a b]; simpl in *. by constructor.
Qed.

(** A match at the start is a non-empty run of digits followed by a
    non-empty run of capital letters. *)
Lemma matchHere_sound (s digits letters : JSString) :
  matchHere s = Some (digits, letters) ->
  ∃ post, s = digits ++ letters ++ post ∧ digits ≠ [] ∧ letters ≠ [] ∧
          Forall (fun c => isDigit c = true) digits ∧
          Forall (fun c => isUpper c = true) letters.
Proof.
  unfold matchHere. intros H.
  pose proof (span_app isDigit s) as Hd. pose proof (span_Forall isDigit s) as Fd.
  destruct (span isDigit s) as [ds rest]; simpl in *.
  pose proof (span_app isUpper rest) as Hl. pose proof (span_Forall isUpper rest) as Fl.
  destruct (span isUpper rest) as [ls post]; simpl in *.
  destruct ds as [|d ds]; [done|]. destruct ls as [|l ls]; [done|].
  injection H as <- <-. exists post. rewrite Hl. done.
Qed.

Lemma regexMatch_sound (s digits letters : JSString) :
  regexMatch s = Some (digits, letters) ->
  ∃ pre post, s = pre ++ digits ++ letters ++ post ∧ digits ≠ [] ∧ letters ≠ [] ∧
              Forall (fun c => isDigit c = true) digits ∧
              Forall (fun c => isUpper c = true) letters.
Proof.
  induction s as [|c s IH]; simpl.
  - done.
  - destruct (matchHere (c :: s)) as [m|] eqn:E.
    + intros [= ->]. apply matchHere_sound in E as (post & ? & ?). by exists [], post.
    + intros H. destruct (IH H) as (pre & post & -> & ?). by exists (c :: pre), post.
Qed.

(** The search fails only on a string with no digit directly followed by a
    capital letter. *)
Lemma regexMatch_complete (pre post : JSString) (d l : Z) :
  isDigit d = true -> isUpper l = true -> regexMatch (pre ++ d :: l :: post) ≠ None.
Proof.
  intros Hd Hl. induction pre as [|c pre IH]; simpl.
  - assert (isDigit l = false) as Hn.
    { unfold isDigit, isUpper in *. lia. }
    unfold matchHere. cbn [span]. rewrite Hd. cbn [span]. rewrite Hn. cbn [span]. rewrite Hl.
    destruct (span isUpper post). done.
  - destruct (matchHere (c :: pre ++ d :: l :: post)); done.
Qed.

Lemma findSeatLoop_spec (a : Aircraft) (targetRow targetCol : JSString) (l : list nat) :
  Forall (fun i => is_Some (grid a !! i)) l ->
  ∃ r, findSeatLoop (grid a) targetRow targetCol l = Ok r ∧
    match r with
    | Some seat => ∃ before after, l = before ++ seat :: after ∧
                     seatMatches a targetRow targetCol seat ∧
                     Forall (fun s => ¬ seatMatches a targetRow targetCol s) before
    | None => Forall (fun s => ¬ seatMatches a targetRow targetCol s) l
    end.
Proof.
  induction 1 as [|seat rest [c Hc] _ IH]; simpl.
  - exists None. by split.
  - rewrite Hc; simpl.
    destruct (rowLooseEq (row c) targetRow && colLooseEq (col c) targetCol) eqn:E.
    + exists (Some seat). split; [done|]. exists [], rest. split; [done|]. split; [|constructor].
      apply andb_prop in E as [Er Ec]. unfold rowLooseEq, colLooseEq in *.
      destruct (row c) as [r|] eqn:Hr; [|done]. destruct (col c) as [k|] eqn:Hk; [|done].
      exists c, r, k. apply Z.eqb_eq in Er. apply bool_decide_eq_true in Ec. done.
    + assert (¬ seatMatches a targetRow targetCol seat) as Hno.
      { intros (c' & r & k & Hc' & Hr & Hk & -> & ->). rewrite Hc in Hc'. injection Hc' as <-.
        unfold rowLooseEq, colLooseEq in E. rewrite Hr, Hk, Z.eqb_refl in E.
        rewrite bool_decide_eq_true_2 in E; done. }
      destruct IH as (r & -> & Hr). exists r. split; [done|].
      destruct r as [s|].
      * destruct Hr as (before & after & -> & ? & ?).
        exists (seat :: before), after. split; [done|]. split; [done|]. by constructor.
      * by constructor.
Qed.

Lemma span_run (f : Z -> bool) (a b : JSString) :
  Forall (fun c => f c = true) a ->
  span f (a ++ b) = (a ++ (span f b).1, (span f b).2).
Proof.
  induction 1 as [|c a Hc _ IH]; simpl.
  - by destruct (span f b).
  - rewrite Hc, IH. done.
Qed.

(** Where digits then letters stand at the start, the match takes these
    digits, and at least these letters. *)
Lemma matchHere_complete (s d l : JSString) :
  digitsThenLettersAt s 0 d l -> ∃ more, matchHere s = Some (d, l ++ more).
Proof.
  intros (Hd & Hl & Fd & Fl & post & Hs). rewrite drop_0 in Hs. subst s.
  destruct l as [|u l]; [done|]. destruct d as [|c d]; [done|].
  assert (Forall (fun c => isDigit c = true) (c :: d)) as Fd'.
  { eapply Forall_impl; [exact Fd|]. intros x Hx. unfold isDigit. simpl in Hx. lia. }
  assert (Forall (fun c => isUpper c = true) (u :: l)) as Fl'.
  { eapply Forall_impl; [exact Fl|]. intros x Hx. unfold isUpper. simpl in Hx. lia. }
  assert (isDigit u = false) as Hu.
  { apply Forall_inv in Fl. unfold isDigit. simpl in Fl. lia. }
  unfold matchHere. rewrite (span_run isDigit _ _ Fd').
  replace (span isDigit ((u :: l) ++ post)) with (@nil Z, (u :: l) ++ post)
    by (simpl; by rewrite Hu).
  cbn [fst snd]. rewrite app_nil_r, (span_run isUpper _ _ Fl'). cbn [fst snd].
  exists (span isUpper post).1. done.
Qed.

Lemma matchHere_at (s d l : JSString) :
  matchHere s = Some (d, l) -> digitsThenLettersAt s 0 d l.
Proof.
  intros (post & -> & Hd & Hl & Fd & Fl)%matchHere_sound.
  split; [done|]. split; [done|]. split_and!.
  - eapply Forall_impl; [exact Fd|]. intros x Hx. unfold isDigit in Hx. simpl. lia.
  - eapply Forall_impl; [exact Fl|]. intros x Hx. unfold isUpper in Hx. simpl. lia.
  - by exists post.
Qed.

Lemma digitsThenLettersAt_drop (s : JSString) (i : nat) (d l : JSString) :
  digitsThenLettersAt s i d l ↔ digitsThenLettersAt (drop i s) 0 d l.
Proof. unfold digitsThenLettersAt. by rewrite drop_0. Qed.

(** The search returns the match at the first place that has one. *)
Lemma regexMatch_leftmost (s : JSString) :
  match regexMatch s with
  | Some m => ∃ i, matchHere (drop i s) = Some m ∧
                   ∀ j, (j < i)%nat -> matchHere (drop j s) = None
  | None => ∀ j, matchHere (drop j s) = None
  end.
Proof.
  induction s as [|c s IH].
  - simpl. intros j. by rewrite drop_nil.
  - cbn [regexMatch]. destruct (matchHere (c :: s)) as [m|] eqn:E.
    + exists 0%nat. split; [done|]. lia.
    + destruct (regexMatch s) as [m|].
      * destruct IH as (i & Hi & Hlt). exists (S i). split; [done|].
        intros [|j] Hj; [done|]. apply Hlt. lia.
      * intros [|j]; [done|]. apply IH.
Qed.

Lemma regexMatch_parsedAs (s digits letters : JSString) :
  regexMatch s = Some (digits, letters) -> parsedAs s digits letters.
Proof.
  intros H. pose proof (regexMatch_leftmost s) as L. rewrite H in L.
  destruct L as (i & Hi & Hlt). exists i. split_and!.
  - apply digitsThenLettersAt_drop. by apply matchHere_at.
  - intros j d l Hj. destruct (decide (i ≤ j)%nat) as [|Hn]; [done|].
    apply digitsThenLettersAt_drop, matchHere_complete in Hj as (more & Hj).
    rewrite Hlt in Hj by lia. done.
  - intros d l Hd. apply digitsThenLettersAt_drop, matchHere_complete in Hd as (more & Hd).
    rewrite Hi in Hd. injection Hd as -> ->. rewrite length_app. lia.
Qed.

Lemma regexMatch_unparsable (s : JSString) : regexMatch s = None -> unparsable s.
Proof.
  intros H. pose proof (regexMatch_leftmost s) as L. rewrite H in L.
  intros i d l Hd. apply digitsThenLettersAt_drop, matchHere_complete in Hd as (more & Hd).
  by rewrite L in Hd.
Qed.

(** The description fixes the two groups: an identifier parses in one way
    at most, and not at all when it is unparsable. *)
Lemma parsedAs_unique (s d l d' l' : JSString) :
  parsedAs s d l -> parsedAs s d' l' -> d = d' ∧ l = l'.
Proof.
  intros (i & Hi & Hleft & Hlong) (i' & Hi' & Hleft' & Hlong').
  assert (i = i') as <-.
  { pose proof (Hleft _ _ _ Hi'). pose proof (Hleft' _ _ _ Hi). lia. }
  destruct (Hlong _ _ Hi') as [Hd1 Hl1]. destruct (Hlong' _ _ Hi) as [Hd2 Hl2].
  assert (length d = length d') as Hd by lia.
  assert (length l = length l') as Hl by lia.
  destruct Hi as (_ & _ & _ & _ & post & Hs). destruct Hi' as (_ & _ & _ & _ & post' & Hs').
  rewrite Hs in Hs'. apply app_inj_1 in Hs' as [-> Hs']; [|done].
  apply app_inj_1 in Hs' as [-> _]; done.
Qed.

Lemma parsedAs_not_unparsable (s d l : JSString) : parsedAs s d l -> ¬ unparsable s.
Proof. intros (i & Hi & _) Hno. exact (Hno _ _ _ Hi). Qed.

(** The conversion of a string of digits computes the number it writes. *)
Lemma stringToNumber_decimalValue (s : JSString) : stringToNumber s = decimalValue s.
Proof.
  unfold stringToNumber.
  assert (∀ acc, fold_left (fun acc c => 10 * acc + (c - 48)) s acc =
                 acc * 10 ^ Z.of_nat (length s) + decimalValue s) as H.
  { induction s as [|c s IH]; intros acc; simpl fold_left.
    - simpl. lia.
    - rewrite IH. cbn [decimalValue length]. rewrite Nat2Z.inj_succ, Z.pow_succ_r by lia.
      ring. }
  rewrite H. lia.
Qed.

Lemma seatMatches_seatNamed (a : Aircraft) (targetRow targetCol : JSString) (seat : nat) :
  seatMatches a targetRow targetCol seat ↔ seatNamed a targetRow targetCol seat.
Proof.
  unfold seatMatches, seatNamed. split.
  - intros (c & r & k & Hc & Hr & Hk & -> & ->). exists c, k.
    by rewrite <- stringToNumber_decimalValue.
  - intros (c & k & Hc & Hr & Hk & ->). exists c, (decimalValue targetRow), k.
    by rewrite stringToNumber_decimalValue.
Qed.

(** C9. [findSeat] never raises an error: on every string it returns.  When
    the identifier parses as digits then letters, the result is the first
    seat of the seat list whose row is the number that the digits write and
    whose column is the letters, or null when the list has no such seat;
    when the identifier does not parse, the result is null. *)
Theorem findSeat_never_raises (a : Aircraft) (seatId : JSString) :
  Forall (fun i => is_Some (grid a !! i)) (seats a) ->
  ∃ r, findSeat a seatId = Ok r ∧
    ((unparsable seatId ∧ r = None) ∨
     ∃ targetRow targetCol, parsedAs seatId targetRow targetCol ∧
       match r with
       | Some seat => ∃ before after, seats a = before ++ seat :: after ∧
                        seatNamed a targetRow targetCol seat ∧
                        Forall (fun s => ¬ seatNamed a targetRow targetCol s) before
       | None => Forall (fun s => ¬ seatNamed a targetRow targetCol s) (seats a)
       end).
Proof.
  intros Hwf. unfold findSeat.
  destruct (regexMatch seatId) as [[targetRow targetCol]|] eqn:E.
  - destruct (findSeatLoop_spec a targetRow targetCol (seats a) Hwf) as (r & Hr & Hspec).
    exists r. split; [done|]. right. exists targetRow, targetCol.
    split; [by apply regexMatch_parsedAs|].
    destruct r as [seat|].
    + destruct Hspec as (before & after & Hs & Hm & Hb). exists before, after.
      split; [done|]. split; [by apply seatMatches_seatNamed|].
      eapply Forall_impl; [exact Hb|]. intros s Hn Hs'. by apply Hn, seatMatches_seatNamed.
    + eapply Forall_impl; [exact Hspec|]. intros s Hn Hs'. by apply Hn, seatMatches_seatNamed.
  - exists None. split; [done|]. left. split; [by apply regexMatch_unparsable|done].
Qed.

(** ** Boarding strategies *)

Section StrategyFacts.

Context {P : Type}.
Variable targetSeatName : P -> JSString.

Lemma seatMap_lookup (m : gmap JSString P) (l : list P) (k : JSString) :
  foldl (fun m p => <[targetSeatName p := p]> m) m l !! k =
  match last (filter (fun p => targetSeatName p = k) l) with
  | Some p => Some p
  | None => m !! k
  end.
Proof.
  revert m. induction l as [|p l IH]; intros m; simpl; [done|].
  rewrite IH. rewrite filter_cons. case_decide as E.
  - destruct (filter _ l) as [|q fl] eqn:F; simpl.
    + by rewrite E, lookup_insert_eq.
    + destruct (last (q :: fl)) eqn:L; [done|]. by apply last_None in L.
  - destruct (last (filter _ l)); [done|]. by rewrite lookup_insert_ne.
Qed.




Lemma rowsDownFrom_0 : rowsDownFrom 0 = [].
Proof. done. Qed.

Lemma rowsDownFrom_1 : rowsDownFrom 1 = [1%nat].
Proof. done. Qed.

Lemma rowsDownFrom_SS (n : nat) : rowsDownFrom (S (S n)) = S (S n) :: rowsDownFrom n.
Proof.
  unfold rowsDownFrom.
  pose proof (seq_app n 2 1) as Hs. replace (n + 2)%nat with (S (S n)) in Hs by lia.
  rewrite Hs, reverse_app. cbn [seq]. rewrite !reverse_cons, reverse_nil. cbn [app].
  rewrite !filter_cons.
  replace (S (S n) - S (1 + n))%nat with 0%nat by lia.
  replace (S (S n) - (1 + n))%nat with 1%nat by lia. simpl.
  f_equal. apply filter_ext_in.
  intros r Hr%elem_of_reverse%elem_of_seq.
  replace (S (S n) - r)%nat with (S (S (n - r))) by lia. by rewrite Nat.even_succ_succ.
Qed.





(** *** Permutations *)

Variable random : nat -> nat.

Lemma swap_Permutation (i j : nat) (array : list P) : swap i j array ≡ₚ array.
Proof.
  unfold swap. destruct (array !! i) eqn:Hi; [|done]. destruct (array !! j) eqn:Hj; [|done].
  by apply Permutation_insert_swap.
Qed.

Lemma shuffleFrom_Permutation (i : nat) (array : list P) :
  shuffleFrom random i array ≡ₚ array.
Proof.
  revert array. induction i as [|i IH]; intros array; simpl; [done|].
  by rewrite IH, swap_Permutation.
Qed.

Lemma arrangeRandom_Permutation (passengers : list P) (a : Aircraft) :
  arrangeRandom random passengers a ≡ₚ passengers.
Proof. apply shuffleFrom_Permutation. Qed.

End StrategyFacts.

(** *** Seat names are injective *)

Lemma uintToString_inj (d d' : Decimal.uint) : uintToString d = uintToString d' -> d = d'.
Proof.
  revert d'. induction d; destruct d'; simpl; intros [=]; f_equal; auto.
Qed.

Lemma numberToString_inj (n m : Z) :
  0 ≤ n -> 0 ≤ m -> numberToString n = numberToString m -> n = m.
Proof.
  intros Hn Hm H%uintToString_inj%DecimalN.Unsigned.to_uint_inj. lia.
Qed.

Lemma fromCharCode_inj (k1 k2 : Z) :
  0 ≤ k1 < 65536 -> 0 ≤ k2 < 65536 ->
  fromCharCode (65 + k1) = fromCharCode (65 + k2) -> k1 = k2.
Proof. unfold fromCharCode. intros. Z.to_euclidean_division_equations. lia. Qed.

Lemma seatToString_inj (r1 r2 c1 c2 : Z) :
  0 ≤ r1 -> 0 ≤ r2 -> seatToString r1 c1 = seatToString r2 c2 -> r1 = r2 ∧ c1 = c2.
Proof.
  unfold seatToString. intros H1 H2 [Hr Hc]%app_inj_tail.
  split; [by apply numberToString_inj | done].
Qed.

(** *** The Steffen sequence visits every seat of the rectangle once *)

Lemma elem_of_rowsDownFrom (n r : nat) :
  r ∈ rowsDownFrom n ↔ Nat.even (n - r) = true ∧ (1 ≤ r ≤ n)%nat.
Proof.
  unfold rowsDownFrom. rewrite list_elem_of_filter, elem_of_reverse, elem_of_seq.
  split; intros [? ?]; (split; [done|lia]).
Qed.

Lemma even_pred (m : nat) : (0 < m)%nat -> Nat.even (m - 1) = negb (Nat.even m).
Proof.
  intros Hm. destruct m as [|m]; [lia|].
  replace (S m - 1)%nat with m by lia. rewrite Nat.even_succ, <- Nat.negb_even.
  by rewrite negb_involutive.
Qed.

Lemma elem_of_rowsDown (n r : nat) :
  r ∈ rowsDownFrom n ++ rowsDownFrom (n - 1) ↔ (1 ≤ r ≤ n)%nat.
Proof.
  rewrite elem_of_app, !elem_of_rowsDownFrom. split; [intros [[_ ?]|[_ ?]]; lia|]. intros Hr.
  destruct (Nat.even (n - r)) eqn:E; [by left|]. right.
  assert (r ≠ n) by (intros ->; by rewrite Nat.sub_diag in E).
  replace (n - 1 - r)%nat with (n - r - 1)%nat by lia.
  rewrite even_pred, E by lia. split; [done|lia].
Qed.

Lemma NoDup_rowsDown (n : nat) : NoDup (rowsDownFrom n ++ rowsDownFrom (n - 1)).
Proof.
  apply NoDup_app. split_and!.
  - apply NoDup_filter, NoDup_reverse, NoDup_seq.
  - intros r [E1 H1]%elem_of_rowsDownFrom [E2 H2]%elem_of_rowsDownFrom.
    replace (n - 1 - r)%nat with (n - r - 1)%nat in E2 by lia.
    rewrite even_pred, E1 in E2 by lia. done.
  - apply NoDup_filter, NoDup_reverse, NoDup_seq.
Qed.

Lemma elem_of_columnPairs (c : nat) (rl : Z * Z) :
  rl ∈ columnPairs c ↔ 0 ≤ rl.1 ∧ rl.1 ≤ rl.2 ∧ rl.1 + rl.2 = Z.of_nat c - 1.
Proof.
  unfold columnPairs. rewrite list_elem_of_filter, list_elem_of_fmap. split.
  - intros [Hle (k & -> & Hk%elem_of_seq)]. simpl in *. lia.
  - intros (H0 & Hle & Hsum). split; [done|]. exists (Z.to_nat rl.1). split.
    + destruct rl as [a b]; simpl in *. f_equal; lia.
    + apply elem_of_seq. lia.
Qed.

Lemma NoDup_columnPairs (c : nat) : NoDup (columnPairs c).
Proof.
  apply NoDup_filter, NoDup_fmap_2_strong; [|apply NoDup_seq].
  intros x y _ _ [= ?]. lia.
Qed.

Section SteffenPermutation.

Context {P : Type}.
Variable targetSeatName : P -> JSString.
Variable passengers : list P.
Variables rowCnt colCnt : nat.

Hypothesis names_NoDup : NoDup (targetSeatName <$> passengers).
Hypothesis columns_fit : Z.of_nat colCnt ≤ 65536.
Hypothesis seats_inside : ∀ p, p ∈ passengers ->
  ∃ (r : nat) (k : Z), (1 ≤ r ≤ rowCnt)%nat ∧ 0 ≤ k < Z.of_nat colCnt ∧
    targetSeatName p = seatToString (Z.of_nat r) (fromCharCode (65 + k)).

Lemma elem_of_seatedAt (p : P) (r : nat) (k : Z) :
  p ∈ seatedAt targetSeatName passengers r k ↔
  targetSeatName p = seatToString (Z.of_nat r) (fromCharCode (65 + k)) ∧ p ∈ passengers.
Proof. unfold seatedAt. by rewrite list_elem_of_filter. Qed.

Lemma elem_of_emitRow (p : P) (rightCol leftCol : Z) (r : nat) :
  p ∈ emitRow targetSeatName passengers rightCol leftCol r ↔
  p ∈ passengers ∧
  (targetSeatName p = seatToString (Z.of_nat r) (fromCharCode (65 + rightCol)) ∨
   leftCol ≠ rightCol ∧
   targetSeatName p = seatToString (Z.of_nat r) (fromCharCode (65 + leftCol))).
Proof.
  unfold emitRow. rewrite elem_of_app, elem_of_seatedAt.
  case_bool_decide; [rewrite elem_of_seatedAt | rewrite elem_of_nil]; tauto.
Qed.

Lemma NoDup_emitRow (rl : Z * Z) (r : nat) :
  rl ∈ columnPairs colCnt -> NoDup (emitRow targetSeatName passengers rl.1 rl.2 r).
Proof.
  intros Hrl%elem_of_columnPairs. apply NoDup_fmap_1 in names_NoDup as Hnd.
  unfold emitRow. apply NoDup_app. split_and!.
  - by apply NoDup_filter.
  - intros p [E1 _]%elem_of_seatedAt. case_bool_decide; [|apply not_elem_of_nil].
    intros [E2 _]%elem_of_seatedAt. rewrite E1 in E2.
    apply seatToString_inj in E2 as [_ E2]; [|lia..].
    apply fromCharCode_inj in E2; lia.
  - case_bool_decide; [by apply NoDup_filter | apply NoDup_nil_2].
Qed.

Lemma steffenSequence_NoDup : NoDup (steffenSequence targetSeatName passengers rowCnt colCnt).
Proof.
  unfold steffenSequence. apply NoDup_bind; [| |apply NoDup_columnPairs].
  - intros rl1 rl2 p H1 H2 (r1 & Hp1 & _)%list_elem_of_bind (r2 & Hp2 & _)%list_elem_of_bind.
    apply elem_of_columnPairs in H1, H2.
    apply elem_of_emitRow in Hp1 as [_ Hp1], Hp2 as [_ Hp2].
    destruct rl1 as [a1 b1], rl2 as [a2 b2]; simpl in *.
    assert (∀ x y, 0 ≤ x < 65536 -> 0 ≤ y < 65536 ->
              seatToString (Z.of_nat r1) (fromCharCode (65 + x)) =
              seatToString (Z.of_nat r2) (fromCharCode (65 + y)) -> x = y) as Hinj.
    { intros x y Hx Hy [_ E]%seatToString_inj; [|lia..]. by apply fromCharCode_inj in E. }
    destruct Hp1 as [E1|[? E1]], Hp2 as [E2|[? E2]]; rewrite E1 in E2;
      apply Hinj in E2; try lia; f_equal; lia.
  - intros rl Hrl. apply NoDup_bind; [| |apply NoDup_rowsDown].
    + intros r1 r2 p _ _ [_ Hp1]%elem_of_emitRow [_ Hp2]%elem_of_emitRow.
      assert (∀ x y, seatToString (Z.of_nat r1) x = seatToString (Z.of_nat r2) y -> r1 = r2) as Hinj.
      { intros x y [E _]%seatToString_inj; lia. }
      destruct Hp1 as [E1|[? E1]], Hp2 as [E2|[? E2]]; rewrite E1 in E2; by apply Hinj in E2.
    + intros r _. by apply NoDup_emitRow.
Qed.

Lemma elem_of_steffenSequence (p : P) :
  p ∈ steffenSequence targetSeatName passengers rowCnt colCnt ↔ p ∈ passengers.
Proof.
  unfold steffenSequence. rewrite list_elem_of_bind. split.
  - intros (rl & (r & [Hp _]%elem_of_emitRow & _)%list_elem_of_bind & _). done.
  - intros Hp. destruct (seats_inside p Hp) as (r & k & Hr & Hk & E).
    destruct (decide (k ≤ Z.of_nat colCnt - 1 - k)) as [Hle|Hgt].
    + exists (k, Z.of_nat colCnt - 1 - k). split; [|apply elem_of_columnPairs; simpl; lia].
      apply list_elem_of_bind. exists r. split; [|by apply elem_of_rowsDown].
      apply elem_of_emitRow. split; [done|]. by left.
    + exists (Z.of_nat colCnt - 1 - k, k). split; [|apply elem_of_columnPairs; simpl; lia].
      apply list_elem_of_bind. exists r. split; [|by apply elem_of_rowsDown].
      apply elem_of_emitRow. split; [done|]. right. simpl. split; [lia|done].
Qed.

Lemma steffenSequence_Permutation :
  steffenSequence targetSeatName passengers rowCnt colCnt ≡ₚ passengers.
Proof.
  apply NoDup_Permutation.
  - apply steffenSequence_NoDup.
  - by apply NoDup_fmap_1 in names_NoDup.
  - apply elem_of_steffenSequence.
Qed.

End SteffenPermutation.

(** ** The layout compiler *)

Lemma lookup_snoc_ne {A} (l : list A) (x : A) (i : nat) :
  i ≠ length l -> (l ++ [x]) !! i = l !! i.
Proof.
  intros Hi. destruct (decide (i < length l)%nat).
  - by rewrite lookup_app_l.
  - rewrite !lookup_ge_None_2; [done|lia|rewrite length_app; simpl; lia].
Qed.

Lemma fmap_id_option {A} (o : option A) : id <$> o = o.
Proof. by destruct o. Qed.

(** What [linkPrev] leaves at each index of a grid that was just extended by
    the cell [c0]. *)
Lemma linkPrev_lookup (prev : option nat) (g : list Cell) (c0 : Cell) (i : nat) :
  (∀ p, prev = Some p -> (p < length g)%nat) -> up c0 = None ->
  linkPrev prev (length g) (g ++ [c0]) !! i =
    if decide (i = length g) then Some (set_up prev c0)
    else (if decide (prev = Some i) then set_down (Some (length g)) else id) <$> g !! i.
Proof.
  intros Hp Hup. unfold linkPrev. destruct prev as [p|].
  - specialize (Hp p eq_refl). rewrite !list_lookup_alter.
    repeat case_decide; simplify_eq; try lia.
    + by rewrite list_lookup_middle.
    + by rewrite lookup_snoc_ne.
    + by rewrite lookup_snoc_ne, fmap_id_option.
  - case_decide as E.
    + subst. rewrite list_lookup_middle by done. f_equal. destruct c0; simpl in *. by subst.
    + rewrite decide_False by done. by rewrite lookup_snoc_ne, fmap_id_option.
Qed.

Lemma linkPrev_length (prev : option nat) (n : nat) (g : list Cell) :
  length (linkPrev prev n g) = length g.
Proof. unfold linkPrev. destruct prev; [by rewrite !length_alter|done]. Qed.

Lemma retouch_fields (st : GenState) (aisle : bool) (y : Z) (i : nat) (c : Cell) :
  row (retouch st aisle y i c) = row c ∧
  col (retouch st aisle y i c) = col c ∧
  contents (retouch st aisle y i c) = contents c ∧
  up (retouch st aisle y i c) = up c ∧
  left (retouch st aisle y i c) = left c ∧
  isSeat (retouch st aisle y i c) = isSeat c ∧
  down (retouch st aisle y i c) =
    (if decide (prevCell st = Some i) then Some (length (grid (aircraft st))) else down c) ∧
  right (retouch st aisle y i c) =
    (if aisle && bool_decide (i = prevAisle st)
     then Some (length (grid (aircraft st))) else right c).
Proof.
  unfold retouch, isSeat.
  destruct (aisle && bool_decide (i = prevAisle st)), (decide (prevCell st = Some i)); done.
Qed.

Lemma Extended_old (st st' : GenState) (aisle : bool) (y : Z) (cnew : Cell) (i : nat) (c0 : Cell) :
  Extended st st' aisle y cnew -> grid (aircraft st) !! i = Some c0 ->
  grid (aircraft st') !! i = Some (retouch st aisle y i c0).
Proof.
  intros E H. rewrite E, decide_False, H; [done|]. apply lookup_lt_Some in H. lia.
Qed.

Lemma Extended_inv (st st' : GenState) (aisle : bool) (y : Z) (cnew : Cell) (i : nat) (c : Cell) :
  Extended st st' aisle y cnew -> grid (aircraft st') !! i = Some c ->
  (i = length (grid (aircraft st)) ∧ c = set_up (prevCell st) cnew) ∨
  ((i < length (grid (aircraft st)))%nat ∧
   ∃ c0, grid (aircraft st) !! i = Some c0 ∧ c = retouch st aisle y i c0).
Proof.
  intros E H. rewrite E in H. case_decide.
  - left. by simplify_eq.
  - right. destruct (grid (aircraft st) !! i) as [c0|] eqn:Hold; [|done].
    simpl in H. simplify_eq. split; [by eapply lookup_lt_Some|by exists c0].
Qed.

Lemma prevCell_last (a : nat) (r : Z) (st : GenState) (p : nat) :
  GenInv a r st -> prevCell st = Some p ->
  (a < length (grid (aircraft st)))%nat ∧ S p = length (grid (aircraft st)).
Proof.
  intros inv. rewrite (gi_prevCell _ _ _ inv). case_decide; [|done]. intros [= <-]. lia.
Qed.

Section Extend.

Variables (a : nat) (r : Z) (st st' : GenState) (aisle : bool) (y : Z) (cnew : Cell).

Hypothesis inv : GenInv a r st.
Hypothesis extended : Extended st st' aisle y cnew.
Hypothesis new_length :
  length (grid (aircraft st')) = S (length (grid (aircraft st))).
Hypothesis new_start : startingCell (aircraft st') = startingCell (aircraft st).
Hypothesis new_prevCell : prevCell st' = Some (length (grid (aircraft st))).
Hypothesis new_prevAisle :
  prevAisle st' = if aisle then length (grid (aircraft st)) else prevAisle st.
Hypothesis new_up : up cnew = None.
Hypothesis new_down : down cnew = None.
Hypothesis new_right : right cnew = None.
Hypothesis new_contents : contents cnew = ∅.
Hypothesis new_left : left cnew = if aisle then Some (prevAisle st) else None.
Hypothesis new_kind :
  if aisle
  then row cnew = None ∧ col cnew = None ∧
       seats (aircraft st') = seats (aircraft st) ∧ cols (aircraft st') = cols (aircraft st)
  else ∃ k, row cnew = Some r ∧ col cnew = Some k ∧ 0 ≤ k < 65536 ∧
            seats (aircraft st') = seats (aircraft st) ++ [length (grid (aircraft st))] ∧
            cols (aircraft st') = {[k]} ∪ cols (aircraft st).

Local Ltac old_or_new H c0 H0 :=
  let Hlt := fresh "Hlt" in
  destruct (Extended_inv _ _ _ _ _ _ _ extended H) as [[-> ->]|[Hlt (c0 & H0 & ->)]].

Local Ltac fields i c0 :=
  match goal with
  | |- context [retouch st ?b y i c0] =>
      destruct (retouch_fields st b y i c0)
        as (Rrow & Rcol & Rcont & Rup & Rleft & Rseat & Rdown & Rright)
  | _ : context [retouch st ?b y i c0] |- _ =>
      destruct (retouch_fields st b y i c0)
        as (Rrow & Rcol & Rcont & Rup & Rleft & Rseat & Rdown & Rright)
  end.

Lemma new_isSeat : isSeat (set_up (prevCell st) cnew) = negb aisle.
Proof.
  unfold isSeat; simpl. destruct aisle.
  - destruct new_kind as (Hr & _). by rewrite Hr.
  - destruct new_kind as (k & Hr & Hc & _). by rewrite Hr, Hc.
Qed.

Lemma GenInv_extend : GenInv a r st'.
Proof.
  pose proof (gi_rowstart _ _ _ inv) as Ha. pose proof new_isSeat as Hns.
  destruct (gi_prevAisle _ _ _ inv) as (cpa & Hpa & Hpar & Hpas).
  assert (prevAisle st < length (grid (aircraft st)))%nat as Hpalt by (by eapply lookup_lt_Some).
  constructor.
  - rewrite new_start. apply inv.
  - rewrite new_length. lia.
  - apply inv.
  - rewrite new_prevCell, new_length, decide_True by lia. f_equal. lia.
  - rewrite new_prevAisle. destruct aisle eqn:Ea.
    + exists (set_up (prevCell st) cnew). rewrite extended, decide_True by done.
      split; [done|]. split; [done|]. by rewrite Hns.
    + exists (retouch st false y (prevAisle st) cpa).
      rewrite (Extended_old _ _ _ _ _ _ _ extended Hpa). fields (prevAisle st) cpa.
      split; [done|]. rewrite Rright, Rseat. done.
  - intros i c j H Hup. old_or_new H c0 H0.
    + simpl in Hup. apply (prevCell_last _ _ _ _ inv) in Hup. lia.
    + fields i c0. rewrite Rup in Hup. by eapply gi_up.
  - intros i c j H Hdown. old_or_new H c0 H0.
    + simpl in Hdown. congruence.
    + fields i c0. rewrite Rdown in Hdown. case_decide as Hp.
      * apply (prevCell_last _ _ _ _ inv) in Hp. simplify_eq. lia.
      * by eapply gi_down.
  - intros i c j H Hup. old_or_new H c0 H0.
    + simpl in Hup. destruct (prevCell_last _ _ _ _ inv Hup) as [_ Hj].
      destruct (lookup_lt_is_Some_2 (grid (aircraft st)) j) as [d0 Hd0]; [lia|].
      exists (retouch st aisle y j d0). rewrite (Extended_old _ _ _ _ _ _ _ extended Hd0).
      fields j d0. split; [done|]. by rewrite Rdown, decide_True.
    + fields i c0. rewrite Rup in Hup.
      destruct (gi_updown _ _ _ inv _ _ _ H0 Hup) as (d0 & Hd0 & Hdd).
      exists (retouch st aisle y j d0). rewrite (Extended_old _ _ _ _ _ _ _ extended Hd0).
      split; [done|]. clear Rrow Rcol Rcont Rup Rleft Rseat Rdown Rright. fields j d0.
      rewrite Rdown. case_decide as Hp; [|done].
      apply (prevCell_last _ _ _ _ inv) in Hp. pose proof (gi_up _ _ _ inv _ _ _ H0 Hup). lia.
  - intros i c j H Hdown. old_or_new H c0 H0.
    + simpl in Hdown. congruence.
    + fields i c0. rewrite Rdown in Hdown. case_decide as Hp.
      * simplify_eq. exists (set_up (prevCell st) cnew).
        rewrite extended, decide_True by done. done.
      * destruct (gi_downup _ _ _ inv _ _ _ H0 Hdown) as (d0 & Hd0 & Hdd).
        exists (retouch st aisle y j d0). rewrite (Extended_old _ _ _ _ _ _ _ extended Hd0).
        split; [done|]. clear Rrow Rcol Rcont Rup Rleft Rseat Rdown Rright. fields j d0.
        by rewrite Rup.
  - intros i c j H Hleft. old_or_new H c0 H0.
    + simpl in Hleft. rewrite new_left in Hleft. destruct aisle eqn:Ea; [|done].
      simplify_eq. exists (retouch st true y (prevAisle st) cpa).
      rewrite (Extended_old _ _ _ _ _ _ _ extended Hpa). split; [done|].
      fields (prevAisle st) cpa. rewrite Rright. simpl. by rewrite bool_decide_eq_true_2.
    + fields i c0. rewrite Rleft in Hleft.
      destruct (gi_leftright _ _ _ inv _ _ _ H0 Hleft) as (d0 & Hd0 & Hdd).
      exists (retouch st aisle y j d0). rewrite (Extended_old _ _ _ _ _ _ _ extended Hd0).
      split; [done|]. clear Rrow Rcol Rcont Rup Rleft Rseat Rdown Rright. fields j d0.
      rewrite Rright. destruct (aisle && bool_decide (j = prevAisle st)) eqn:E; [|done].
      apply andb_prop in E as [_ E%bool_decide_eq_true]. simplify_eq.
  - intros i c j H Hright. old_or_new H c0 H0.
    + simpl in Hright. congruence.
    + fields i c0. rewrite Rright in Hright.
      destruct (aisle && bool_decide (i = prevAisle st)) eqn:E.
      * apply andb_prop in E as [-> E%bool_decide_eq_true]. simplify_eq.
        exists (set_up (prevCell st) cnew). rewrite extended, decide_True by done.
        split; [done|]. simpl. by rewrite new_left.
      * destruct (gi_rightleft _ _ _ inv _ _ _ H0 Hright) as (d0 & Hd0 & Hdd).
        exists (retouch st aisle y j d0). rewrite (Extended_old _ _ _ _ _ _ _ extended Hd0).
        split; [done|]. clear Rrow Rcol Rcont Rup Rleft Rseat Rdown Rright. fields j d0.
        by rewrite Rleft.
  - intros i Hi. rewrite new_length in Hi.
    destruct (decide (i = length (grid (aircraft st)))) as [->|Hne].
    + exists (set_up (prevCell st) cnew). rewrite extended, decide_True by done.
      split; [done|]. simpl. rewrite (gi_prevCell _ _ _ inv), decide_True by lia. done.
    + destruct (gi_row_chain _ _ _ inv i) as (c0 & H0 & Hup); [lia|].
      exists (retouch st aisle y i c0). rewrite (Extended_old _ _ _ _ _ _ _ extended H0).
      split; [done|]. fields i c0. by rewrite Rup.
  - intros c H. old_or_new H c0 H0.
    + simpl. rewrite (gi_prevCell _ _ _ inv), decide_False by lia. done.
    + fields a c0. rewrite Rup. by eapply gi_row_first.
  - intros i c H Hs. old_or_new H c0 H0.
    + rewrite Hns in Hs. destruct aisle; [done|]. simpl. by rewrite new_left.
    + fields i c0. rewrite Rseat in Hs. rewrite Rleft, Rright.
      destruct (gi_seat_links _ _ _ inv _ _ H0 Hs) as [Hl Hr]. split; [done|].
      destruct (aisle && bool_decide (i = prevAisle st)) eqn:E; [|done].
      apply andb_prop in E as [_ E%bool_decide_eq_true]. simplify_eq. congruence.
  - intros i c H. old_or_new H c0 H0.
    + done.
    + fields i c0. rewrite Rcont. by eapply gi_contents.
  - assert (Forall (fun i => ∃ c, grid (aircraft st') !! i = Some c ∧ isSeat c = true)
              (seats (aircraft st))) as Hold.
    { eapply Forall_impl; [apply inv|]. intros i (c0 & H0 & Hs).
      exists (retouch st aisle y i c0). rewrite (Extended_old _ _ _ _ _ _ _ extended H0).
      split; [done|]. fields i c0. by rewrite Rseat. }
    destruct aisle.
    + destruct new_kind as (_ & _ & -> & _). done.
    + destruct new_kind as (k & _ & _ & _ & -> & _). apply Forall_app. split; [done|].
      apply Forall_singleton. exists (set_up (prevCell st) cnew).
      rewrite extended, decide_True by done. split; [done|]. by rewrite Hns.
  - intros k Hk. destruct aisle.
    + destruct new_kind as (_ & _ & _ & Hc). rewrite Hc in Hk. by eapply gi_cols.
    + destruct new_kind as (k' & _ & _ & Hk' & _ & Hc). rewrite Hc in Hk.
      apply elem_of_union in Hk as [->%elem_of_singleton|Hk]; [done|]. by eapply gi_cols.
  - intros i c H Hs. old_or_new H c0 H0.
    + rewrite Hns in Hs. destruct aisle; [done|].
      destruct new_kind as (k & Hr & Hc & _). exists r, k. simpl.
      split; [done|]. split; [done|]. split; [apply inv|]. split; [lia|done].
    + fields i c0. rewrite Rseat in Hs. rewrite Rrow, Rcol. by eapply gi_seat_rows.
  - destruct (gi_entry _ _ _ inv) as (c0 & H0 & Hs0).
    exists (retouch st aisle y 0 c0). rewrite (Extended_old _ _ _ _ _ _ _ extended H0).
    split; [done|]. fields 0%nat c0. by rewrite Rseat.
Qed.

End Extend.

Lemma genCell_seat_Extended (a : nat) (r x j : Z) (st : GenState) :
  GenInv a r st ->
  Extended st (genCell x r j char_S st) false (j * CELLSIZE)
    (newSeat x (j * CELLSIZE) r (fromCharCode (65 + seatIndex st))).
Proof.
  intros inv i. unfold genCell. simpl.
  rewrite linkPrev_lookup; [|intros p Hp; pose proof (prevCell_last _ _ _ _ inv Hp); lia|done].
  case_decide; [done|]. unfold retouch. simpl.
  destruct (grid (aircraft st) !! i); simpl; [|done]. by case_decide.
Qed.

Lemma genCell_aisle_Extended (a : nat) (r x j : Z) (st : GenState) :
  GenInv a r st ->
  Extended st (genCell x r j char_A st) true (j * CELLSIZE)
    (set_left (Some (prevAisle st)) (newCell x (j * CELLSIZE))).
Proof.
  intros inv i. unfold genCell. simpl.
  destruct (gi_prevAisle _ _ _ inv) as (cpa & Hpa%lookup_lt_Some & _).
  rewrite !alter_app_l by (rewrite ?length_alter; lia).
  pose proof (linkPrev_lookup (prevCell st)
    (alter (set_cy (j * CELLSIZE)) (prevAisle st)
       (alter (set_right (Some (length (grid (aircraft st))))) (prevAisle st)
          (grid (aircraft st))))) as L.
  rewrite !length_alter in L. rewrite L; clear L;
    [|intros p Hp; pose proof (prevCell_last _ _ _ _ inv Hp); lia|done].
  case_decide; [done|]. rewrite !list_lookup_alter. unfold retouch. simpl.
  destruct (decide (prevAisle st = i)) as [<-|Hne].
  - rewrite bool_decide_eq_true_2 by done.
    rewrite (decide_True (P := prevAisle st = prevAisle st)) by done.
    destruct (grid (aircraft st) !! prevAisle st); simpl; [|done]. by case_decide.
  - rewrite bool_decide_eq_false_2 by done.
    destruct (grid (aircraft st) !! i); simpl; [|done]. by case_decide.
Qed.

(** Which kind of symbol a code unit is. *)
Lemma symbol_cases (c : Z) :
  c = char_S ∨ c = char_A ∨ c = char_plus ∨ (c ≠ char_S ∧ c ≠ char_A ∧ c ≠ char_plus).
Proof. unfold char_S, char_A, char_plus. lia. Qed.

Lemma genCell_plus (x r j : Z) (st : GenState) :
  genCell x r j char_plus st =
  mkGen (aircraft st) (prevAisle st) (prevCell st) (seatIndex st + 1).
Proof. done. Qed.

Lemma genCell_other (x r j c : Z) (st : GenState) :
  c ≠ char_S -> c ≠ char_A -> c ≠ char_plus -> genCell x r j c st = st.
Proof.
  intros H1 H2 H3. unfold genCell.
  destruct (Z.eqb_spec c char_S); [done|]. destruct (Z.eqb_spec c char_A); [done|].
  destruct (Z.eqb_spec c char_plus); done.
Qed.

Lemma GenInv_seatIndex (a : nat) (r : Z) (st : GenState) (k : Z) :
  GenInv a r st -> GenInv a r (mkGen (aircraft st) (prevAisle st) (prevCell st) k).
Proof. intros []. by constructor. Qed.

Lemma fromCharCode_range (n : Z) : 0 ≤ fromCharCode n < 65536.
Proof. unfold fromCharCode. by apply Z.mod_pos_bound. Qed.

Lemma genCell_GenInv (a : nat) (r x j c : Z) (st : GenState) :
  GenInv a r st -> GenInv a r (genCell x r j c st).
Proof.
  intros inv.
  destruct (symbol_cases c) as [->|[->|[->|(H1 & H2 & H3)]]].
  - eapply GenInv_extend; [done|by eapply genCell_seat_Extended|..]; try done.
    + unfold genCell; simpl. rewrite linkPrev_length, length_app. simpl. lia.
    + exists (fromCharCode (65 + seatIndex st)).
      split; [done|]. split; [done|]. split; [apply fromCharCode_range|done].
  - eapply GenInv_extend; [done|by eapply genCell_aisle_Extended|..]; try done.
    unfold genCell; simpl. rewrite linkPrev_length, !length_alter, length_app. simpl. lia.
  - rewrite genCell_plus. by apply GenInv_seatIndex.
  - by rewrite genCell_other.
Qed.

Lemma genCells_GenInv (a : nat) (r x : Z) (symbols : JSString) :
  ∀ j st, GenInv a r st -> GenInv a r (genCells x r j symbols st).
Proof.
  induction symbols as [|c rest IH]; intros j st inv; simpl; [done|].
  by apply IH, genCell_GenInv.
Qed.

Lemma GenInv_close (a : nat) (r : Z) (st : GenState) :
  GenInv a r st -> BetweenRows (r + 1) st.
Proof.
  intros inv. pose proof (gi_rowstart _ _ _ inv) as Ha. pose proof (gi_rowIndex _ _ _ inv).
  unfold BetweenRows, rowStart. constructor; simpl; try apply inv.
  - lia.
  - lia.
  - by rewrite decide_False by lia.
  - intros i Hi. lia.
  - intros c Hc%lookup_lt_Some. lia.
  - intros i c Hc Hs. destruct (gi_seat_rows _ _ _ inv _ _ Hc Hs) as (rr & k & ? & ? & ? & Hlt & Hge).
    exists rr, k. split; [done|]. split; [done|]. split; [done|].
    apply lookup_lt_Some in Hc. split; [|lia]. intros _.
    destruct (decide (i < a)%nat); [specialize (Hlt ltac:(done))|specialize (Hge ltac:(lia))]; lia.
Qed.

Lemma genRow_GenInv (r x : Z) (symbols : JSString) (st : GenState) :
  BetweenRows r st -> BetweenRows (r + 1) (genRow x r symbols st).
Proof.
  intros inv. unfold genRow. eapply GenInv_close, genCells_GenInv. apply inv.
Qed.

Lemma genRepeat_GenInv (n : nat) (symbols : JSString) :
  ∀ x r st, BetweenRows r st ->
    BetweenRows (genRepeat n symbols (x, r, st)).1.2 (genRepeat n symbols (x, r, st)).2.
Proof.
  induction n as [|n IH]; intros x r st inv; simpl; [done|].
  by apply IH, genRow_GenInv.
Qed.

Lemma genInit_GenInv : BetweenRows genInit.1.2 genInit.2.
Proof.
  unfold BetweenRows, rowStart, genInit; simpl. constructor; simpl; try done; try lia.
  all: try (by exists (newCell 0 0)).
  all: try (intros k Hk; by apply not_elem_of_empty in Hk).
  all: repeat intro;
    repeat match goal with
           | H : [_] !! _ = Some _ |- _ => apply list_lookup_singleton_Some in H as [-> <-]
           end; simpl in *; try done; try lia.
Qed.

Lemma generate_GenInv (seatLayout : list RowSpec) :
  BetweenRows (fold_left genRowSpec seatLayout genInit).1.2
              (fold_left genRowSpec seatLayout genInit).2.
Proof.
  assert (∀ s, BetweenRows s.1.2 s.2 ->
            BetweenRows (fold_left genRowSpec seatLayout s).1.2
                        (fold_left genRowSpec seatLayout s).2) as H.
  { induction seatLayout as [|rs rest IH]; intros s inv; simpl; [done|].
    apply IH. destruct s as [[x r] st]. by apply genRepeat_GenInv. }
  apply H, genInit_GenInv.
Qed.

(** The compiled aircraft satisfies the invariant, seen between two rows. *)
Lemma generateAircraft_GenInv (seatLayout : list RowSpec) :
  ∃ r pa, GenInv (length (grid (generateAircraft seatLayout))) r
            (mkGen (generateAircraft seatLayout) pa None 0).
Proof.
  pose proof (generate_GenInv seatLayout) as H. unfold generateAircraft.
  destruct (fold_left genRowSpec seatLayout genInit) as [[x r] st]. simpl in *.
  by exists r, (prevAisle st).
Qed.

(** C6. In every grid produced by [generateAircraft], neighbor links are
    symmetric: if [A.right] is [B] then [B.left] is [A], if [A.left] is [B]
    then [B.right] is [A], and likewise for [up] and [down]. *)
Theorem neighbor_symmetry (seatLayout : list RowSpec) (A B : nat) (cellA : Cell) :
  grid (generateAircraft seatLayout) !! A = Some cellA ->
  (right cellA = Some B ->
     ∃ cellB, grid (generateAircraft seatLayout) !! B = Some cellB ∧ left cellB = Some A) ∧
  (left cellA = Some B ->
     ∃ cellB, grid (generateAircraft seatLayout) !! B = Some cellB ∧ right cellB = Some A) ∧
  (up cellA = Some B ->
     ∃ cellB, grid (generateAircraft seatLayout) !! B = Some cellB ∧ down cellB = Some A) ∧
  (down cellA = Some B ->
     ∃ cellB, grid (generateAircraft seatLayout) !! B = Some cellB ∧ up cellB = Some A).
Proof.
  intros HA. destruct (generateAircraft_GenInv seatLayout) as (r & pa & inv).
  split_and!; intros HB.
  - by eapply (gi_rightleft _ _ _ inv).
  - by eapply (gi_leftright _ _ _ inv).
  - by eapply (gi_updown _ _ _ inv).
  - by eapply (gi_downup _ _ _ inv).
Qed.

(** *** Seat letters *)

Lemma seatIds_extend (a : nat) (r : Z) (st st' : GenState) (aisle : bool) (y : Z) (cnew : Cell) :
  GenInv a r st -> Extended st st' aisle y cnew ->
  (fun i => match grid (aircraft st') !! i with
            | Some c => (row c, col c)
            | None => (None, None)
            end) <$> seats (aircraft st) = seatIds (aircraft st).
Proof.
  intros inv E. unfold seatIds. apply Forall_fmap_ext.
  eapply Forall_impl; [apply inv|]. intros i (c0 & H0 & _). cbv beta.
  rewrite (Extended_old _ _ _ _ _ _ _ E H0), H0.
  by destruct (retouch_fields st aisle y i c0) as (-> & -> & _).
Qed.

Lemma genCell_seatIds (a : nat) (r x j c : Z) (st : GenState) :
  GenInv a r st ->
  seatIds (aircraft (genCell x r j c st)) =
  seatIds (aircraft st) ++
  (if decide (c = char_S) then [(Some r, Some (fromCharCode (65 + seatIndex st)))] else []).
Proof.
  intros inv.
  destruct (symbol_cases c) as [->|[->|[->|(H1 & H2 & H3)]]].
  - rewrite decide_True by done.
    pose proof (genCell_seat_Extended a r x j st inv) as E.
    unfold seatIds at 1. replace (seats (aircraft (genCell x r j char_S st)))
      with (seats (aircraft st) ++ [length (grid (aircraft st))]) by done.
    rewrite fmap_app, (seatIds_extend _ _ _ _ _ _ _ inv E). f_equal.
    simpl. rewrite E, decide_True by done. done.
  - rewrite decide_False, app_nil_r by done.
    pose proof (genCell_aisle_Extended a r x j st inv) as E.
    unfold seatIds at 1. replace (seats (aircraft (genCell x r j char_A st)))
      with (seats (aircraft st)) by done.
    by rewrite (seatIds_extend _ _ _ _ _ _ _ inv E).
  - by rewrite decide_False, app_nil_r.
  - by rewrite genCell_other, decide_False, app_nil_r.
Qed.

Lemma genCell_seatIndex (x r j c : Z) (st : GenState) :
  seatIndex (genCell x r j c st) =
  seatIndex st + (if decide (c = char_S ∨ c = char_plus) then 1 else 0).
Proof.
  destruct (symbol_cases c) as [->|[->|[->|(H1 & H2 & H3)]]].
  - rewrite decide_True by (by left). done.
  - rewrite decide_False by (unfold char_A, char_S, char_plus; lia). simpl. lia.
  - rewrite decide_True by (by right). done.
  - rewrite genCell_other, decide_False by tauto. lia.
Qed.

Lemma genCell_length (x r j c : Z) (st : GenState) :
  length (grid (aircraft (genCell x r j c st))) =
  (length (grid (aircraft st)) + (if decide (c = char_S ∨ c = char_A) then 1 else 0))%nat.
Proof.
  destruct (symbol_cases c) as [->|[->|[->|(H1 & H2 & H3)]]].
  - rewrite decide_True by (by left). unfold genCell; simpl.
    rewrite linkPrev_length, length_app. simpl. done.
  - rewrite decide_True by (by right). unfold genCell; simpl.
    rewrite linkPrev_length, !length_alter, length_app. simpl. done.
  - rewrite decide_False by (unfold char_A, char_S, char_plus; lia). simpl. lia.
  - rewrite genCell_other, decide_False by tauto. lia.
Qed.

Lemma slotsBefore_snoc (pre rest : JSString) (c : Z) :
  slotsBefore ((pre ++ [c]) ++ rest) (length (pre ++ [c])) =
  slotsBefore (pre ++ c :: rest) (length pre) +
  (if decide (c = char_S ∨ c = char_plus) then 1 else 0).
Proof.
  unfold slotsBefore. rewrite !take_app_length, filter_app, length_app, filter_cons.
  case_decide; simpl; lia.
Qed.

Lemma genCells_seatIds (a : nat) (r x : Z) (symbols : JSString) :
  ∀ pre j st, GenInv a r st ->
    seatIndex st = slotsBefore (pre ++ symbols) (length pre) ->
    seatIds (aircraft (genCells x r j symbols st)) =
    seatIds (aircraft st) ++
    ((fun i => (Some r, Some (fromCharCode (65 + slotsBefore (pre ++ symbols) i)))) <$>
     filter (fun i => (pre ++ symbols) !! i = Some char_S)
       (seq (length pre) (length symbols))).
Proof.
  induction symbols as [|c rest IH]; intros pre j st inv Hidx; simpl.
  - by rewrite app_nil_r.
  - rewrite (IH (pre ++ [c])); [|by apply genCell_GenInv|].
    + rewrite (genCell_seatIds a) by done. rewrite <- !app_assoc. f_equal.
      rewrite filter_cons, list_lookup_middle by done. rewrite length_app. simpl.
      replace (length pre + 1)%nat with (S (length pre)) by lia. simpl.
      destruct (decide (c = char_S)) as [->|Hc].
      * rewrite decide_True by done. simpl. by rewrite Hidx.
      * rewrite decide_False by congruence. done.
    + rewrite genCell_seatIndex, Hidx. symmetry. apply slotsBefore_snoc.
Qed.

Lemma genRow_seatIds (r x : Z) (symbols : JSString) (st : GenState) :
  BetweenRows r st ->
  seatIds (aircraft (genRow x r symbols st)) =
  seatIds (aircraft st) ++ rowSeatIds r symbols.
Proof.
  intros inv. unfold genRow. fold (rowStart st).
  by rewrite (genCells_seatIds _ r x symbols [] 0 _ inv).
Qed.

Lemma seatIdsFrom_cons (r : Z) (symbols : JSString) (patterns : list JSString) :
  seatIdsFrom r (symbols :: patterns) = rowSeatIds r symbols ++ seatIdsFrom (r + 1) patterns.
Proof.
  unfold seatIdsFrom. rewrite imap_cons. simpl. rewrite Z.add_0_r. f_equal. f_equal.
  apply imap_ext. intros i y _. simpl. f_equal. lia.
Qed.

Lemma seatIdsFrom_app (r : Z) (l k : list JSString) :
  seatIdsFrom r (l ++ k) = seatIdsFrom r l ++ seatIdsFrom (r + Z.of_nat (length l)) k.
Proof.
  revert r. induction l as [|s l IH]; intros r; simpl.
  - by rewrite Z.add_0_r.
  - rewrite !seatIdsFrom_cons, IH, <- app_assoc. do 3 f_equal. lia.
Qed.

Lemma genRepeat_seatIds (n : nat) (symbols : JSString) :
  ∀ x r st, BetweenRows r st ->
    seatIds (aircraft (genRepeat n symbols (x, r, st)).2) =
      seatIds (aircraft st) ++ seatIdsFrom r (replicate n symbols) ∧
    (genRepeat n symbols (x, r, st)).1.2 = r + Z.of_nat n.
Proof.
  induction n as [|n IH]; intros x r st inv; simpl.
  - rewrite app_nil_r. split; [done|lia].
  - destruct (IH (x + CELLSIZE) (r + 1) (genRow (x + CELLSIZE) r symbols st))
      as [-> ->]; [by apply genRow_GenInv|].
    rewrite genRow_seatIds, seatIdsFrom_cons, <- app_assoc by done. split; [done|lia].
Qed.

Lemma generate_seatIds (seatLayout : list RowSpec) :
  ∀ s, BetweenRows s.1.2 s.2 ->
    seatIds (aircraft (fold_left genRowSpec seatLayout s).2) =
    seatIds (aircraft s.2) ++ seatIdsFrom s.1.2 (layoutRows seatLayout).
Proof.
  induction seatLayout as [|rs rest IH]; intros [[x r] st] inv; simpl in *.
  - by rewrite app_nil_r.
  - unfold genRowSpec at 2.
    destruct (genRepeat_seatIds (Z.to_nat (repeat rs)) (layout rs) x r st inv) as [E1 E2].
    pose proof (genRepeat_GenInv (Z.to_nat (repeat rs)) (layout rs) x r st inv) as inv'.
    rewrite IH by done. rewrite E1, E2.
    unfold layoutRows. simpl. fold (layoutRows rest).
    by rewrite seatIdsFrom_app, length_replicate, <- app_assoc.
Qed.

Lemma genCells_length (x r : Z) (symbols : JSString) :
  ∀ j st, length (grid (aircraft (genCells x r j symbols st))) =
          (length (grid (aircraft st)) + cellCount symbols)%nat.
Proof.
  unfold cellCount.
  induction symbols as [|c rest IH]; intros j st; simpl; [lia|].
  rewrite IH, genCell_length, filter_cons. case_decide; simpl; lia.
Qed.

Lemma genRepeat_length (n : nat) (symbols : JSString) :
  ∀ s, length (grid (aircraft (genRepeat n symbols s).2)) =
       (length (grid (aircraft s.2)) + n * cellCount symbols)%nat.
Proof.
  induction n as [|n IH]; intros [[x r] st]; simpl; [lia|].
  rewrite IH. simpl. unfold genRow. rewrite genCells_length. simpl. lia.
Qed.

Lemma sum_list_with_replicate {A} (f : A -> nat) (n : nat) (x : A) :
  sum_list_with f (replicate n x) = (n * f x)%nat.
Proof. induction n as [|n IH]; simpl; [done|]. rewrite IH. lia. Qed.

Lemma generate_length (seatLayout : list RowSpec) :
  ∀ s, length (grid (aircraft (fold_left genRowSpec seatLayout s).2)) =
       (length (grid (aircraft s.2)) + sum_list_with cellCount (layoutRows seatLayout))%nat.
Proof.
  induction seatLayout as [|rs rest IH]; intros s; simpl; [lia|].
  rewrite IH. unfold genRowSpec. rewrite genRepeat_length.
  rewrite sum_list_with_app, sum_list_with_replicate. fold (layoutRows rest). lia.
Qed.

(** C7. Within each compiled row the seats get sequential column letters
    from [A] on, by a counter that advances on [S] and on [+] and on nothing
    else: the seats of the aircraft are, row after row, the [S] positions of
    the row's pattern, each with the letter whose index is the number of
    [S] and [+] strictly before it; only [S] and [A] make a cell, so [+]
    reserves a letter without making a seat or a cell. *)
Theorem seat_letters (seatLayout : list RowSpec) :
  seatIds (generateAircraft seatLayout) = seatIdsFrom 1 (layoutRows seatLayout) ∧
  length (seats (generateAircraft seatLayout)) =
    sum_list_with (fun symbols => length (seatPositions symbols)) (layoutRows seatLayout) ∧
  length (grid (generateAircraft seatLayout)) =
    S (sum_list_with cellCount (layoutRows seatLayout)).
Proof.
  assert (seatIds (generateAircraft seatLayout) = seatIdsFrom 1 (layoutRows seatLayout)) as E.
  { unfold generateAircraft. by rewrite (generate_seatIds seatLayout genInit genInit_GenInv). }
  split_and!; [done| |].
  - apply (f_equal length) in E. unfold seatIds in E. rewrite length_fmap in E. rewrite E.
    clear E. generalize 1. induction (layoutRows seatLayout) as [|s l IH]; intros r.
    + done.
    + rewrite seatIdsFrom_cons, length_app, IH. unfold rowSeatIds.
      by rewrite length_fmap.
  - unfold generateAircraft. rewrite generate_length. done.
Qed.

(** *** What the strategies keep of the queue *)

Lemma cols_size (seatLayout : list RowSpec) :
  Z.of_nat (size (cols (generateAircraft seatLayout))) ≤ 65536.
Proof.
  destruct (generateAircraft_GenInv seatLayout) as (r & pa & inv).
  pose proof (gi_cols _ _ _ inv) as Hc. simpl in Hc.
  assert (cols (generateAircraft seatLayout) ⊆ list_to_set (seqZ 0 65536)) as Hsub.
  { intros k Hk. apply elem_of_list_to_set, elem_of_seqZ. specialize (Hc k Hk). lia. }
  apply subseteq_size in Hsub.
  rewrite size_list_to_set, length_seqZ in Hsub by apply NoDup_seqZ. lia.
Qed.

(** X17. The three strategies beside the Steffen method keep every
    passenger: back-to-front, front-to-back and random return a permutation
    of every queue, for every aircraft and every outcome of the random
    draws; front-to-back twice is the identity; random keeps length and
    membership. *)
Theorem siblings_permute {P : Type} (random : nat -> nat) (a : Aircraft)
    (passengers : list P) :
  arrangeBackFront passengers a ≡ₚ passengers ∧
  arrangeFrontBack passengers a ≡ₚ passengers ∧
  arrangeFrontBack (arrangeFrontBack passengers a) a = passengers ∧
  arrangeRandom random passengers a ≡ₚ passengers ∧
  length (arrangeRandom random passengers a) = length passengers ∧
  (∀ p, p ∈ arrangeRandom random passengers a ↔ p ∈ passengers).
Proof.
  pose proof (arrangeRandom_Permutation random passengers a) as Hr.
  split_and!.
  - done.
  - apply reverse_Permutation.
  - apply reverse_involutive.
  - done.
  - by rewrite Hr.
  - intros p. by rewrite Hr.
Qed.

(** C4. The defect of [arrangeSteffen]: the strategy looks the seats up over
    the rows 1 to [rowCount] and the first [colCount] letters, which are
    counts of the rows and letters that have a seat, not the last row and
    the last letter.  On the one-row layout [S+AS], whose seats are 1A and
    1C, it sweeps the letters A and B and returns a queue without the
    passenger of 1C, which is no permutation of its input. *)
Lemma steffen_drops_passenger :
  ∃ sorted,
    arrange (fun _ => 0%nat) MethodSteffen
      (initWorld [mkRowSpec 1 (str "S+AS")] MethodSteffen) (seq 0 2) = Some sorted ∧
    ¬ sorted ≡ₚ seq 0 2.
Proof.
  exists [0%nat]. split; [by vm_compute|].
  intros H%Permutation_length. done.
Qed.

(** The same defect on a cabin with an exit row, a row of the aisle alone
    between two pairs of rows [SAS]: [rowCount] is 4, the sweep ends at row
    4, and the two passengers of row 5 are left out of the queue. *)
Lemma steffen_drops_last_row :
  ∃ sorted,
    arrange (fun _ => 0%nat) MethodSteffen
      (initWorld [mkRowSpec 2 (str "SAS"); mkRowSpec 1 (str "A"); mkRowSpec 2 (str "SAS")]
         MethodSteffen) (seq 0 8) = Some sorted ∧
    length sorted = 6%nat ∧ (6%nat ∉ sorted) ∧ (7%nat ∉ sorted).
Proof.
  exists [1; 0; 3; 2; 5; 4]%nat. split; [by vm_compute|]. split; [done|].
  split; intros H; repeat (apply elem_of_cons in H as [H|H]; [done|]); by apply elem_of_nil in H.
Qed.

(** ** One passenger's tick *)

Lemma alter_lookup_insert {A} (f : A -> A) (l : list A) (i : nat) (x : A) :
  l !! i = Some x -> alter f i l = <[i := f x]> l.
Proof.
  intros H. apply list_eq. intros j.
  rewrite list_lookup_alter, list_lookup_insert.
  pose proof (lookup_lt_Some _ _ _ H).
  destruct (decide (i = j)) as [->|]; [|by rewrite decide_False by tauto].
  by rewrite decide_True, H.
Qed.

Lemma fromOption_Ok {A} (e : Exn) (o : option A) (a : A) :
  fromOption e o = Ok a -> o = Some a.
Proof. destruct o; simpl; congruence. Qed.

Lemma bind_Ok {A B} (m : Result A) (f : A -> Result B) (b : B) :
  m ≫= f = Ok b -> ∃ a, m = Ok a ∧ f a = Ok b.
Proof. destruct m as [a|e]; simpl; [by exists a|done]. Qed.

(** A call of [move] that returns. *)
Lemma move_Ok (p : nat) (newCell : option nat) (w w' : World) :
  move p newCell w = Ok w' ->
  ∃ this c n, pax w !! p = Some this ∧ cell this = Some c ∧ newCell = Some n ∧
    w' = mkWorld (set_grid (moveCells p c n (grid (plane w))) (plane w))
           (<[p := set_cell (Some n) this]> (pax w)) (draws w) (console w).
Proof.
  unfold move. intros (this & Hthis%fromOption_Ok & H)%bind_Ok.
  apply bind_Ok in H as (c & Hc%fromOption_Ok & H).
  apply bind_Ok in H as (n & Hn%fromOption_Ok & H). simpl in *. subst newCell.
  exists this, c, n. split_and!; try done.
  injection H as <-. unfold set_cells, set_pax, moveCells; simpl.
  by rewrite (alter_lookup_insert _ _ _ _ Hthis).
Qed.

Lemma alter_insert_eq {A} (f : A -> A) (l : list A) (i : nat) (x : A) :
  (i < length l)%nat -> alter f i (<[i := x]> l) = <[i := f x]> l.
Proof.
  intros H. rewrite (alter_lookup_insert f _ i x) by (by apply list_lookup_insert_eq).
  apply list_insert_insert_eq.
Qed.

Lemma set_grid_id (a : Aircraft) : set_grid (grid a) a = a.
Proof. by destruct a. Qed.

Lemma loadingStep_Ok (deltaT : Z) (p : nat) (dir : Cell -> option nat)
    (st : State) (this : Passenger) (w w' : World) :
  pax w !! p = Some this -> state this = Some st ->
  (st = LoadingUp ∧ dir = up ∨ st = LoadingDown ∧ dir = down) ->
  loadingStep p deltaT dir w = Ok w' ->
  ∃ this',
    Transition (grid (plane w)) p this (grid (plane w')) this' ∧
    pax w' = <[p := this']> (pax w) ∧
    plane w' = set_grid (grid (plane w')) (plane w).
Proof.
  intros Hthis Hst Hdir. unfold loadingStep, getPax. rewrite Hthis. simpl.
  pose proof (lookup_lt_Some _ _ _ Hthis) as Hlt.
  destruct (Z.leb_spec (timeToTransition this - deltaT) 0) as [Hle|Hgt].
  - intros (c & Hc%fromOption_Ok & H)%bind_Ok.
    apply bind_Ok in H as (here & Hhere%fromOption_Ok & H).
    apply bind_Ok in H as (w2 & Hmove & H). simpl in Hhere.
    apply move_Ok in Hmove as (this1 & c1 & n & Hthis1 & Hc1 & Hn & ->). simpl in *.
    rewrite (alter_lookup_insert _ _ _ _ Hthis) in Hthis1.
    rewrite list_lookup_insert_eq in Hthis1 by done. injection Hthis1 as <-.
    simpl in Hc1. rewrite Hc in Hc1. injection Hc1 as <-.
    rewrite (alter_lookup_insert _ _ _ _ Hthis), list_insert_insert_eq in H.
    unfold getPax in H. simpl in H. rewrite list_lookup_insert_eq in H by done. simpl in H.
    assert (Transition (grid (plane w)) p this (moveCells p c n (grid (plane w)))
              ((if bool_decide (n = targetSeat this) then set_state (Some Seated) else id)
                 (set_cell (Some n)
                    (set_timeToTransition (timeToTransition this - deltaT) this)))) as T.
    { apply (t_lateral _ _ _ st c here n); try done.
      destruct Hdir as [[-> ->]|[-> ->]]; [by left|by right]. }
    eexists. split_and!.
    + destruct (bool_decide (Some n = Some (targetSeat this))); injection H as <-; apply T.
    + destruct (decide (n = targetSeat this)) as [E|E].
      * rewrite bool_decide_eq_true_2 in H by (by rewrite E). injection H as <-. simpl.
        rewrite bool_decide_eq_true_2 by done. by rewrite alter_insert_eq.
      * rewrite bool_decide_eq_false_2 in H by congruence. injection H as <-. simpl.
        by rewrite bool_decide_eq_false_2.
    + destruct (bool_decide (Some n = Some (targetSeat this))); injection H as <-; done.
  - intros [= <-]. simpl. eexists. split; [apply (t_wait _ _ _ (timeToTransition this - deltaT))|].
    + destruct Hdir as [[-> _]|[-> _]]; [by left|by right].
    + rewrite (alter_lookup_insert _ _ _ _ Hthis). split; [done|]. by rewrite set_grid_id.
Qed.

(** A call of [Passenger.simulate] that returns changes the grid and the
    passenger by one [Transition], and nothing else but the count of luggage
    draws and the console. *)
Lemma simulatePassenger_Ok (luggage : nat -> Z) (deltaT : Z) (p : nat) (w w' : World) :
  simulatePassenger luggage deltaT p w = Ok w' ->
  ∃ this this',
    pax w !! p = Some this ∧
    Transition (grid (plane w)) p this (grid (plane w')) this' ∧
    pax w' = <[p := this']> (pax w) ∧
    plane w' = set_grid (grid (plane w')) (plane w).
Proof.
  unfold simulatePassenger. intros (this & Hthis%fromOption_Ok & H)%bind_Ok.
  exists this.
  pose proof (lookup_lt_Some _ _ _ Hthis) as Hlt.
  assert (∃ this', pax w !! p = Some this ∧
            Transition (grid (plane w)) p this (grid (plane w)) this' ∧
            pax w = <[p := this']> (pax w) ∧
            plane w = set_grid (grid (plane w)) (plane w)) as Hidle.
  { exists this. split_and!; [done|constructor|by rewrite list_insert_id|by rewrite set_grid_id]. }
  destruct (state this) as [[| | |]|] eqn:Hst.
  - by injection H as <-.
  - apply bind_Ok in H as (c & Hc%fromOption_Ok & H).
    apply bind_Ok in H as (here & Hhere%fromOption_Ok & H).
    apply bind_Ok in H as (target & Htarget%fromOption_Ok & H).
    apply bind_Ok in H as (upHit & HupHit & H).
    destruct upHit.
    { injection H as <-. eexists. split; [done|].
      destruct (up here) as [u|] eqn:Hu; [|done].
      apply bind_Ok in HupHit as (k & Hk%fromOption_Ok & [= Hhit]).
      apply andb_prop in Hhit as [H1 H2].
      split; [by eapply (t_loadUp _ _ _ c here u k target)|]. simpl.
      rewrite (alter_lookup_insert _ _ _ _ Hthis), alter_insert_eq by done.
      split; [done|]. by rewrite set_grid_id. }
    apply bind_Ok in H as (downHit & HdownHit & H).
    destruct downHit.
    { injection H as <-. eexists. split; [done|].
      destruct (down here) as [d|] eqn:Hd; [|done].
      apply bind_Ok in HdownHit as (k & Hk%fromOption_Ok & [= Hhit]).
      apply andb_prop in Hhit as [H1 H2].
      split; [by eapply (t_loadDown _ _ _ c here d k target)|]. simpl.
      rewrite (alter_lookup_insert _ _ _ _ Hthis), alter_insert_eq by done.
      split; [done|]. by rewrite set_grid_id. }
    destruct (right here) as [n|] eqn:Hn.
    + apply bind_Ok in H as (k & Hk%fromOption_Ok & H).
      destruct (isEmpty k) eqn:Hempty; simpl in H.
      * apply move_Ok in H as (this1 & c1 & n1 & Hthis1 & Hc1 & [= <-] & ->).
        rewrite Hthis in Hthis1. injection Hthis1 as <-.
        rewrite Hc in Hc1. injection Hc1 as <-. simpl.
        eexists. split; [done|]. split; [by eapply (t_right _ _ _ c here n k)|]. done.
      * by injection H as <-.
    + injection H as <-. simpl. done.
  - destruct (loadingStep_Ok deltaT p up LoadingUp this w w' Hthis Hst) as (this' & ?);
      [by left|done|]. by exists this'.
  - destruct (loadingStep_Ok deltaT p down LoadingDown this w w' Hthis Hst) as (this' & ?);
      [by right|done|]. by exists this'.
  - by injection H as <-.
Qed.

(** ** The completion scenario *)

(** C3, as the code has it: on the one-row layout [SSASS], back to front,
    with tick length 100 and luggage duration 0, the run completes with all
    four passengers seated, after 10 iterations. *)
Theorem completion_scenario (random : nat -> nat) :
  ∃ s, simulate random (fun _ => true) (Some 100) (Some (fun _ => 0)) oneRow MethodBtf
         = Finished s ∧
       status s = AllSeated 4 10 ∧ iterCount s = 10 ∧ pendingPax s = [] ∧
       length (seats (plane (world s))) = 4%nat ∧
       Forall (fun this => state this = Some Seated ∧ cell this = Some (targetSeat this))
         (pax (world s)).
Proof.
  eexists. split; [by vm_compute|]. simpl.
  split_and!; try done. repeat constructor.
Qed.

(** C3 fails as stated: the run does not complete in as many ticks as there
    are seats. *)
Lemma completion_not_in_seat_count :
  ¬ ∃ s, simulate (fun _ => 0%nat) (fun _ => true) (Some 100) (Some (fun _ => 0)) oneRow MethodBtf
           = Finished s ∧
         runState s = Completed ∧
         iterCount s = Z.of_nat (length (seats (plane (world s)))).
Proof.
  intros (s & Hs & _ & Hn).
  vm_compute in Hs. injection Hs as <-. vm_compute in Hn. done.
Qed.

(** ** The loop *)

Lemma pop_Some {A} (l rest : list A) (x : A) : pop l = Some (x, rest) -> l = rest ++ [x].
Proof.
  unfold pop. destruct (reverse l) as [|y r] eqn:E; [done|]. intros [= -> <-].
  by rewrite <- (reverse_involutive l), E, reverse_cons.
Qed.

Lemma pop_None {A} (l : list A) : pop l = None -> l = [].
Proof.
  unfold pop. destruct (reverse l) as [|y r] eqn:E; [|done]. intros _.
  by rewrite <- (reverse_involutive l), E.
Qed.

(** What the admission step does. *)
Lemma admitPassenger_cases (s : Sim) :
  admitPassenger s = Throw BadReference ∨
  admitPassenger s = Ok s ∨
  ∃ p rest start,
    pendingPax s = rest ++ [p] ∧
    grid (plane (world s)) !! startingCell (plane (world s)) = Some start ∧
    isEmpty start = true ∧
    admitPassenger s = Ok (mkSim (initializeAt p (startingCell (plane (world s))) Searching (world s))
                    rest (activePax s ++ [p]) (iterCount s) (status s)).
Proof.
  unfold admitPassenger, board, getCell.
  destruct (grid (plane (world s)) !! startingCell (plane (world s))) as [start|] eqn:Hs;
    simpl; [|by left].
  right. destruct (pop (pendingPax s)) as [[p rest]|] eqn:Hp; [|by left].
  destruct (isEmpty start) eqn:He; [|by left].
  right. exists p, rest, start. split_and!; try done. by apply pop_Some.
Qed.

Lemma bind_Throw {A B} (m : Result A) (f : A -> Result B) (e : Exn) :
  m ≫= f = Throw e -> m = Throw e ∨ ∃ a, m = Ok a ∧ f a = Throw e.
Proof.
  destruct m as [a|e']; simpl; intros H; [right; by exists a|left; by injection H as ->].
Qed.

Lemma fromOption_Throw {A} (e e' : Exn) (o : option A) : fromOption e o = Throw e' -> e' = e.
Proof. destruct o; simpl; congruence. Qed.

Local Ltac throws H :=
  repeat match type of H with
         | _ ≫= _ = Throw _ =>
             let a := fresh "a" in let Ha := fresh "Ha" in
             apply bind_Throw in H as [H|(a & Ha & H)]
         | fromOption _ _ = Throw _ => apply fromOption_Throw in H; subst; unfold tickExn; tauto
         | Ok _ = Throw _ => discriminate H
         | (if ?b then _ else _) = Throw _ => destruct b
         | match ?o with Some _ => _ | None => _ end = Throw _ => destruct o
         end.

Lemma move_Throw (p : nat) (newCell : option nat) (w : World) (e : Exn) :
  move p newCell w = Throw e -> tickExn e.
Proof. unfold move, getPax. intros H. throws H. Qed.

Lemma loadingStep_Throw (p : nat) (deltaT : Z) (dir : Cell -> option nat) (w : World) (e : Exn) :
  loadingStep p deltaT dir w = Throw e -> tickExn e.
Proof.
  unfold loadingStep, getPax, getCell. intros H. throws H. by apply move_Throw in H.
Qed.

Lemma simulatePassenger_Throw (luggage : nat -> Z) (deltaT : Z) (p : nat) (w : World) (e : Exn) :
  simulatePassenger luggage deltaT p w = Throw e -> tickExn e.
Proof.
  unfold simulatePassenger, getPax, getCell. intros H.
  apply bind_Throw in H as [H|(this & Hthis & H)]; [throws H|].
  destruct (state this) as [[| | |]|]; try done; try (by apply loadingStep_Throw in H).
  throws H. by apply move_Throw in H.
Qed.

Lemma simulateAll_Throw (luggage : nat -> Z) (deltaT : Z) (active : list nat) (e : Exn) :
  ∀ w, simulateAll luggage deltaT active w = Throw e -> tickExn e.
Proof.
  induction active as [|p rest IH]; intros w; simpl; [done|].
  intros [H|(w' & _ & H)]%bind_Throw; [by apply simulatePassenger_Throw in H|by eapply IH].
Qed.

(** C5. In each pass through the loop, from one tick to the next, at most
    one passenger is admitted, and only when the entry cell was empty at the
    start of the pass; the exception of [Aircraft.board] never leaves the
    loop body. *)
Theorem admission_throttling (luggage : nat -> Z) (tickLengthms : Z) (s : Sim) :
  (∀ e, loopBody luggage tickLengthms s = Ok e ->
     (activePax (bodyState e) = activePax s ∧ pendingPax (bodyState e) = pendingPax s) ∨
     (∃ p start,
        activePax (bodyState e) = activePax s ++ [p] ∧
        pendingPax s = pendingPax (bodyState e) ++ [p] ∧
        grid (plane (world s)) !! startingCell (plane (world s)) = Some start ∧
        isEmpty start = true)) ∧
  (∀ p, loopBody luggage tickLengthms s ≠ Throw (BoardingFull p)).
Proof.
  unfold loopBody.
  destruct (admitPassenger_cases s) as [Ha|[Ha|(p & rest & start & Hp & Hs & He & Ha)]];
    rewrite Ha; simpl.
  - split; [done|]. intros p [=].
  - split.
    + intros e He. left.
      destruct (allSeated (world s) (activePax s)); [by injection He as <-|].
      apply bind_Ok in He as (w & _ & [= <-]). done.
    + intros p Hthrow. destruct (allSeated (world s) (activePax s)); [done|].
      apply bind_Throw in Hthrow as [H|(w & _ & H)]; [|done].
      apply simulateAll_Throw in H as [H|H]; done.
  - split.
    + intros e H. right. exists p, start.
      destruct (allSeated _ _); [by injection H as <-|].
      apply bind_Ok in H as (w & _ & [= <-]). done.
    + intros q Hthrow. destruct (allSeated _ _); [done|].
      apply bind_Throw in Hthrow as [H|(w & _ & H)]; [|done].
      apply simulateAll_Throw in H as [H|H]; done.
Qed.

(** *** The iteration ceiling *)

Section Ceiling.

Variable luggage : nat -> Z.
Variable run : nat -> bool.
Variable tickLengthms : Z.

Lemma simLoop_S (fuel : nat) (s : Sim) :
  simLoop luggage run tickLengthms (S fuel) s =
  if loopCond run s then
    match loopBody luggage tickLengthms s with
    | Throw e => Rejected e
    | Ok (Break s') => Finished (afterLoop run s')
    | Ok (Continue s') => simLoop luggage run tickLengthms fuel s'
    end
  else Finished (afterLoop run s).
Proof. done. Qed.

Lemma simLoop_0 (s : Sim) :
  simLoop luggage run tickLengthms 0 s =
  if loopCond run s then OutOfFuel else Finished (afterLoop run s).
Proof. done. Qed.

Lemma admitPassenger_counters (s s1 : Sim) :
  admitPassenger s = Ok s1 -> iterCount s1 = iterCount s ∧ status s1 = status s.
Proof.
  destruct (admitPassenger_cases s) as [Ha|[Ha|(p & rest & start & _ & _ & _ & Ha)]];
    rewrite Ha; intros [=]; by subst.
Qed.

Lemma loopBody_counters (s : Sim) (e : BodyEnd) :
  loopBody luggage tickLengthms s = Ok e ->
  match e with
  | Break s' => iterCount s' = iterCount s ∧ ∃ n, status s' = AllSeated n (iterCount s)
  | Continue s' => iterCount s' = iterCount s + 1 ∧ status s' = status s
  end.
Proof.
  unfold loopBody. intros (s1 & [Hi Hs]%admitPassenger_counters & H)%bind_Ok.
  destruct (allSeated _ _).
  - injection H as <-. simpl. rewrite Hi. split; [done|]. by eexists.
  - apply bind_Ok in H as (w & _ & [= <-]). simpl. by rewrite Hi, Hs.
Qed.

(** With fuel for the passes that are left, the loop ends, and it ends in
    one of three ways. *)
Lemma simLoop_outcome (fuel : nat) :
  ∀ s, 0 ≤ iterCount s ≤ maxIterations -> maxIterations - iterCount s ≤ Z.of_nat fuel ->
    match simLoop luggage run tickLengthms fuel s with
    | OutOfFuel => False
    | Rejected _ => True
    | Finished s' =>
        iterCount s ≤ iterCount s' ≤ maxIterations ∧
        ((∃ n, status s' = AllSeated n (iterCount s') ∧ iterCount s' < maxIterations) ∨
         (status s' = SimulationAborted (iterCount s') ∧ run (Z.to_nat (iterCount s')) = false) ∨
         (status s' = status s ∧ iterCount s' = maxIterations ∧
          run (Z.to_nat maxIterations) = true))
    end.
Proof.
  induction fuel as [|fuel IH]; intros s Hs Hfuel.
  - rewrite simLoop_0. unfold loopCond, afterLoop.
    destruct (run (Z.to_nat (iterCount s))) eqn:Hrun; simpl.
    + destruct (Z.ltb_spec (iterCount s) maxIterations); [lia|].
      split; [lia|]. right; right. assert (iterCount s = maxIterations) as E by lia.
      by rewrite <- E.
    + split; [lia|]. right; left. done.
  - rewrite simLoop_S. unfold loopCond, afterLoop.
    destruct (run (Z.to_nat (iterCount s))) eqn:Hrun; simpl.
    + destruct (Z.ltb_spec (iterCount s) maxIterations) as [Hlt|Hge].
      * destruct (loopBody luggage tickLengthms s) as [[s'|s']|e] eqn:Hbody; [| |done].
        -- apply loopBody_counters in Hbody as [Hi (n & Hn)].
           rewrite Hi, Hrun. split; [lia|]. left. exists n. by rewrite Hi.
        -- apply loopBody_counters in Hbody as [Hi Hst].
           specialize (IH s' ltac:(lia) ltac:(lia)).
           destruct (simLoop luggage run tickLengthms fuel s') as [s''| |]; [|done|done].
           destruct IH as [Hb Hcases]. split; [lia|]. by rewrite <- Hst.
      * split; [lia|]. right; right. assert (iterCount s = maxIterations) as E by lia.
        by rewrite <- E.
    + split; [lia|]. right; left. done.
Qed.

End Ceiling.

Lemma steffenLoop_total {P : Type} (seatMap : gmap JSString P) (rowCnt c : nat) :
  ∀ fuel k sorted, (k + fuel = c)%nat ->
    is_Some (steffenLoop fuel seatMap rowCnt (Z.of_nat k) (Z.of_nat c - 1 - Z.of_nat k) sorted).
Proof.
  induction fuel as [|fuel IH]; intros k sorted Hk; simpl.
  - destruct (Z.leb_spec (Z.of_nat k) (Z.of_nat c - 1 - Z.of_nat k)); [lia|done].
  - destruct (Z.leb_spec (Z.of_nat k) (Z.of_nat c - 1 - Z.of_nat k)); [|done].
    replace (Z.of_nat k + 1) with (Z.of_nat (S k)) by lia.
    replace (Z.of_nat c - 1 - Z.of_nat k - 1) with (Z.of_nat c - 1 - Z.of_nat (S k)) by lia.
    apply IH. lia.
Qed.

Lemma arrangeSteffen_total {P : Type} (targetSeatName : P -> JSString) (passengers : list P)
    (a : Aircraft) :
  is_Some (arrangeSteffen targetSeatName passengers a).
Proof.
  unfold arrangeSteffen, colCount. generalize (size (cols a)) (size (rows a)). intros c n.
  destruct (steffenLoop_total (buildSeatMap targetSeatName passengers) n c c 0 [] eq_refl)
    as [l Hl].
  change (Z.of_nat 0) with 0 in Hl. rewrite Z.sub_0_r in Hl. rewrite Hl. done.
Qed.

Lemma initSim_total (random : nat -> nat) (seatLayout : list RowSpec) (m : Method) :
  ∃ pending, initSim random seatLayout m =
    Some (mkSim (initWorld seatLayout m) pending [] 0
            (Boarding (length (seats (plane (initWorld seatLayout m)))) m)).
Proof.
  unfold initSim.
  assert (is_Some (arrange random m (initWorld seatLayout m)
                     (seq 0 (length (seats (plane (initWorld seatLayout m))))))) as [l Hl].
  { destruct m; simpl; try done. apply arrangeSteffen_total. }
  exists l. by rewrite Hl.
Qed.

(** C8, as the code has it. The loop makes at most [maxIterations] = 10000
    passes.  A run whose counter reached the ceiling is never reported
    completed; it is left without a message, the stalled outcome, when the
    run flag is still set at that moment, and it is reported aborted when
    the flag was cleared during the last wait. *)
Theorem iteration_ceiling (random : nat -> nat) (run : nat -> bool)
    (tickLengthms : option Z) (luggageDistribution : option (nat -> Z))
    (seatLayout : list RowSpec) (m : Method) :
  simulate random run tickLengthms luggageDistribution seatLayout m ≠ OutOfFuel ∧
  ∀ s, simulate random run tickLengthms luggageDistribution seatLayout m = Finished s ->
    0 ≤ iterCount s ≤ maxIterations ∧
    (runState s = Completed -> iterCount s < maxIterations) ∧
    (iterCount s = maxIterations ->
     runState s = if run (Z.to_nat maxIterations) then Stalled else Aborted).
Proof.
  unfold simulate. destruct (initSim_total random seatLayout m) as (pending & ->).
  set (s0 := mkSim _ _ _ _ _).
  pose proof (simLoop_outcome (default (fun _ => 10000) luggageDistribution) run
                (default 500 tickLengthms) (Z.to_nat maxIterations) s0) as H.
  specialize (H ltac:(unfold maxIterations; simpl; lia) ltac:(unfold maxIterations; simpl; lia)).
  destruct (simLoop _ _ _ _ s0) as [s| |]; [|done|done].
  split; [done|]. intros s' [= <-]. destruct H as [Hb Hcases]. simpl in Hb.
  split; [lia|]. unfold runState.
  destruct Hcases as [(n & -> & Hlt)|[(-> & Hrun)|(-> & Hi & Hrun)]].
  - split; [done|lia].
  - split; [done|]. intros E. by rewrite <- E, Hrun.
  - split; [done|]. intros _. by rewrite Hrun.
Qed.

(** The stalled run, pass by pass. *)
Lemma stalled_pass (luggage : nat -> Z) (tickLengthms k : Z) (log : list LogEntry) :
  loopBody luggage tickLengthms (stalledSim k log) =
  Ok (Continue (stalledSim (k + 1) (log ++ [FailedToFindSeat 1]))).
Proof. done. Qed.

Lemma stalled_loop (luggage : nat -> Z) (tickLengthms : Z) (fuel : nat) :
  ∀ k log, 0 ≤ k -> k + Z.of_nat fuel = maxIterations ->
    ∃ log', simLoop luggage runUntilCeiling tickLengthms fuel (stalledSim k log) =
            Finished (mkSim (world (stalledSim maxIterations log')) [] [0%nat] maxIterations
                        (SimulationAborted maxIterations)).
Proof.
  induction fuel as [|fuel IH]; intros k log Hk Hfuel.
  - rewrite simLoop_0. assert (k = maxIterations) as -> by lia. by exists log.
  - rewrite simLoop_S. unfold loopCond, runUntilCeiling. simpl iterCount.
    rewrite Z2Nat.id by done.
    destruct (Z.ltb_spec k maxIterations); [|lia]. simpl andb. cbv iota.
    rewrite stalled_pass. apply IH; lia.
Qed.

(** C8 fails as stated: in the stall scenario, with the run flag cleared
    during the last wait, the counter reaches the ceiling with the passenger
    still searching, and the run is reported aborted, not stalled. *)
Lemma ceiling_reported_aborted :
  ∃ s, simulate (fun _ => 0%nat) runUntilCeiling None None stallLayout MethodBtf = Finished s ∧
       iterCount s = maxIterations ∧
       allSeated (world s) (activePax s) = false ∧
       runState s = Aborted.
Proof.
  unfold simulate.
  assert (initSim (fun _ => 0%nat) stallLayout MethodBtf =
          Some (mkSim (initWorld stallLayout MethodBtf) [0%nat] [] 0 (Boarding 1 MethodBtf)))
    as -> by (by vm_compute).
  assert (Z.to_nat maxIterations = S (Z.to_nat (maxIterations - 1))) as -> by (by vm_compute).
  rewrite simLoop_S.
  assert (loopCond runUntilCeiling
            (mkSim (initWorld stallLayout MethodBtf) [0%nat] [] 0 (Boarding 1 MethodBtf)) = true)
    as -> by (by vm_compute).
  assert (loopBody (default (fun _ => 10000) None) (default 500 None)
            (mkSim (initWorld stallLayout MethodBtf) [0%nat] [] 0 (Boarding 1 MethodBtf)) =
          Ok (Continue (stalledSim 1 [FailedToFindSeat 1]))) as -> by (by vm_compute).
  destruct (stalled_loop (default (fun _ => 10000) None) (default 500 None)
              (Z.to_nat (maxIterations - 1)) 1 [FailedToFindSeat 1]) as (log' & ->).
  - done.
  - unfold maxIterations. lia.
  - eexists. split; [done|]. done.
Qed.

(** ** Lifting an invariant of the symbol loop to the whole compiler *)

Section Lift.

(** [K symbols a st]: what holds with [symbols] left to read in a row that
    started at index [a]; [KB g]: what holds of the grid between two rows;
    [fits]: what is asked of a pattern. *)
Variable K : JSString -> nat -> GenState -> Prop.
Variable KB : list Cell -> Prop.
Variable fits : JSString -> Prop.

Hypothesis K_step : ∀ a r x j c rest st,
  GenInv a r st -> K (c :: rest) a st -> K rest a (genCell x r j c st).
Hypothesis K_start : ∀ r symbols st,
  BetweenRows r st -> KB (grid (aircraft st)) -> fits symbols ->
  K symbols (length (grid (aircraft st))) (rowStart st).
Hypothesis K_end : ∀ a r st, GenInv a r st -> K [] a st -> KB (grid (aircraft st)).
Hypothesis KB_init : KB (grid (aircraft genInit.2)).

Lemma genCells_lift (a : nat) (r x : Z) (symbols : JSString) :
  ∀ j st, GenInv a r st -> K symbols a st ->
    K [] a (genCells x r j symbols st).
Proof.
  induction symbols as [|c rest IH]; intros j st inv HK; simpl; [done|].
  apply IH; [by apply genCell_GenInv|by eapply K_step].
Qed.

Lemma genRow_lift (r x : Z) (symbols : JSString) (st : GenState) :
  BetweenRows r st -> KB (grid (aircraft st)) -> fits symbols ->
  KB (grid (aircraft (genRow x r symbols st))).
Proof.
  intros inv HKB Hfits. unfold genRow. fold (rowStart st).
  eapply K_end; [by eapply genCells_GenInv|].
  apply genCells_lift; [done|]. by eapply K_start.
Qed.

Lemma genRepeat_lift (n : nat) (symbols : JSString) :
  fits symbols -> ∀ x r st, BetweenRows r st -> KB (grid (aircraft st)) ->
    KB (grid (aircraft (genRepeat n symbols (x, r, st)).2)).
Proof.
  intros Hfits. induction n as [|n IH]; intros x r st inv HKB; simpl; [done|].
  apply IH; [by apply genRow_GenInv|by apply genRow_lift].
Qed.

Lemma generate_lift (seatLayout : list RowSpec) :
  Forall (fun rs => fits (layout rs)) seatLayout ->
  KB (grid (generateAircraft seatLayout)).
Proof.
  intros Hfits.
  assert (∀ s, BetweenRows s.1.2 s.2 -> KB (grid (aircraft s.2)) ->
            KB (grid (aircraft (fold_left genRowSpec seatLayout s).2))) as H.
  { induction Hfits as [|rs rest Hrs _ IH]; intros [[x r] st] inv HKB; simpl; [done|].
    apply IH.
    - by apply genRepeat_GenInv.
    - by apply genRepeat_lift. }
  apply (H genInit genInit_GenInv KB_init).
Qed.

End Lift.

(** ** Seats in letter order, while letters do not wrap *)

(** The fields of an old cell that an iteration leaves alone. *)
Lemma Extended_fields (st st' : GenState) (aisle : bool) (y : Z) (cnew : Cell) (i : nat) (c : Cell) :
  Extended st st' aisle y cnew -> grid (aircraft st') !! i = Some c ->
  (i < length (grid (aircraft st)))%nat ->
  ∃ c0, grid (aircraft st) !! i = Some c0 ∧ row c = row c0 ∧ col c = col c0 ∧
        up c = up c0 ∧ isSeat c = isSeat c0.
Proof.
  intros E H Hlt. destruct (Extended_inv _ _ _ _ _ _ _ E H) as [[-> _]|[_ (c0 & H0 & ->)]]; [lia|].
  exists c0. destruct (retouch_fields st aisle y i c0) as (? & ? & ? & ? & ? & ? & _). done.
Qed.

Lemma Extended_new (st st' : GenState) (aisle : bool) (y : Z) (cnew : Cell) (c : Cell) :
  Extended st st' aisle y cnew ->
  grid (aircraft st') !! length (grid (aircraft st)) = Some c ->
  c = set_up (prevCell st) cnew.
Proof. intros E H. rewrite E, decide_True in H by done. by injection H. Qed.

Lemma Extended_bound (st st' : GenState) (aisle : bool) (y : Z) (cnew : Cell) (i : nat) (c : Cell) :
  Extended st st' aisle y cnew -> grid (aircraft st') !! i = Some c ->
  (i ≤ length (grid (aircraft st)))%nat.
Proof.
  intros E H. destruct (Extended_inv _ _ _ _ _ _ _ E H) as [[-> _]|[? _]]; lia.
Qed.

(** Old pairs of seats stay ordered when a cell is added. *)
Lemma SeatsOrdered_old (st st' : GenState) (aisle : bool) (y : Z) (cnew : Cell) :
  Extended st st' aisle y cnew -> SeatsOrdered (grid (aircraft st)) ->
  ∀ i i' c c', (i < i')%nat -> (i' < length (grid (aircraft st)))%nat ->
    grid (aircraft st') !! i = Some c -> grid (aircraft st') !! i' = Some c' ->
    isSeat c = true -> isSeat c' = true -> row c = row c' ->
    (∃ k k', col c = Some k ∧ col c' = Some k' ∧ k < k') ∧
    ∀ m, (i < m ≤ i')%nat -> ∃ d, grid (aircraft st') !! m = Some d ∧ up d = Some (m - 1)%nat.
Proof.
  intros E Hord i i' c c' Hii Hlt Hc Hc' Hs Hs' Hrow.
  destruct (Extended_fields _ _ _ _ _ _ _ E Hc) as (c0 & H0 & R0 & C0 & _ & S0); [lia|].
  destruct (Extended_fields _ _ _ _ _ _ _ E Hc') as (c0' & H0' & R0' & C0' & _ & S0'); [lia|].
  destruct (Hord i i' c0 c0' Hii H0 H0') as [Hcol Hchain]; [congruence..|].
  split; [by rewrite C0, C0'|].
  intros m Hm. destruct (Hchain m Hm) as (d0 & Hd0 & Hup).
  exists (retouch st aisle y m d0). rewrite (Extended_old _ _ _ _ _ _ _ E Hd0).
  split; [done|]. by destruct (retouch_fields st aisle y m d0) as (_ & _ & _ & -> & _).
Qed.

Lemma slotCount_cons (c : Z) (rest : JSString) :
  slotCount (c :: rest) =
  (if decide (c = char_S ∨ c = char_plus) then 1 else 0) + slotCount rest.
Proof. unfold slotCount. rewrite filter_cons. case_decide; simpl; lia. Qed.

Lemma slotCount_nonneg (symbols : JSString) : 0 ≤ slotCount symbols.
Proof. unfold slotCount. lia. Qed.

Lemma fromCharCode_small (n : Z) : 0 ≤ n < 65536 -> fromCharCode n = n.
Proof. intros H. unfold fromCharCode. by apply Z.mod_small. Qed.

Lemma NoWrap_step (a : nat) (r x j c : Z) (rest : JSString) (st : GenState) :
  GenInv a r st ->
  NoWrapInv a st ∧ seatIndex st + slotCount (c :: rest) ≤ 65471 ->
  NoWrapInv a (genCell x r j c st) ∧ seatIndex (genCell x r j c st) + slotCount rest ≤ 65471.
Proof.
  intros inv [[Hidx Hcur Hord] Hfit]. rewrite slotCount_cons in Hfit.
  pose proof (slotCount_nonneg rest) as Hrest.
  pose proof (gi_rowstart _ _ _ inv) as Ha.
  rewrite genCell_seatIndex. split; [|lia].
  destruct (symbol_cases c) as [->|[->|[->|(H1 & H2 & H3)]]].
  - rewrite decide_True in Hfit by (by left).
    pose proof (genCell_seat_Extended a r x j st inv) as E.
    assert (fromCharCode (65 + seatIndex st) = 65 + seatIndex st) as Hletter
      by (apply fromCharCode_small; lia).
    constructor.
    + rewrite genCell_seatIndex. rewrite decide_True by (by left). lia.
    + intros i c k Hi Hc Hk. rewrite genCell_seatIndex, decide_True by (by left).
      destruct (Extended_inv _ _ _ _ _ _ _ E Hc) as [[-> ->]|[Hlt (c0 & H0 & ->)]].
      * simpl in Hk. injection Hk as <-. lia.
      * destruct (retouch_fields st false (j * CELLSIZE) i c0) as (_ & Rc & _).
        rewrite Rc in Hk. specialize (Hcur i c0 k Hi H0 Hk). lia.
    + intros i i' c c' Hii Hc Hc' Hs Hs' Hrow.
      pose proof (Extended_bound _ _ _ _ _ _ _ E Hc') as Hb.
      destruct (decide (i' = length (grid (aircraft st)))) as [->|Hne].
      * apply (Extended_new _ _ _ _ _ _ E) in Hc'. subst c'. simpl in Hrow.
        destruct (Extended_fields _ _ _ _ _ _ _ E Hc) as (c0 & H0 & R0 & C0 & _ & S0); [done|].
        rewrite S0 in Hs. rewrite R0 in Hrow.
        destruct (gi_seat_rows _ _ _ inv _ _ H0 Hs) as (rr & k & Hr & Hk & _ & Hlt & Hge).
        assert (a ≤ i)%nat as Hai.
        { destruct (decide (a ≤ i)%nat); [done|]. rewrite Hr in Hrow. injection Hrow as ->.
          specialize (Hlt ltac:(lia)). lia. }
        split.
        -- exists k, (65 + seatIndex st). rewrite C0, Hk. simpl. rewrite Hletter.
           split; [done|]. split; [done|]. by eapply Hcur.
        -- intros m Hm. destruct (decide (m = length (grid (aircraft st)))) as [->|Hm'].
           ++ exists (set_up (prevCell st)
                        (newSeat x (j * CELLSIZE) r (fromCharCode (65 + seatIndex st)))).
              rewrite E, decide_True by done. split; [done|]. simpl.
              rewrite (gi_prevCell _ _ _ inv), decide_True by lia. done.
           ++ destruct (gi_row_chain _ _ _ inv m) as (d0 & Hd0 & Hup); [lia|].
              exists (retouch st false (j * CELLSIZE) m d0).
              rewrite (Extended_old _ _ _ _ _ _ _ E Hd0). split; [done|].
              by destruct (retouch_fields st false (j * CELLSIZE) m d0) as (_ & _ & _ & -> & _).
      * eapply (SeatsOrdered_old _ _ _ _ _ E Hord); try done. lia.
  - pose proof (genCell_aisle_Extended a r x j st inv) as E.
    constructor.
    + rewrite genCell_seatIndex. case_decide; lia.
    + intros i c k Hi Hc Hk. rewrite genCell_seatIndex.
      destruct (Extended_inv _ _ _ _ _ _ _ E Hc) as [[-> ->]|[Hlt (c0 & H0 & ->)]]; [done|].
      destruct (retouch_fields st true (j * CELLSIZE) i c0) as (_ & Rc & _).
      rewrite Rc in Hk. specialize (Hcur i c0 k Hi H0 Hk). case_decide; lia.
    + intros i i' c c' Hii Hc Hc' Hs Hs' Hrow.
      pose proof (Extended_bound _ _ _ _ _ _ _ E Hc') as Hb.
      destruct (decide (i' = length (grid (aircraft st)))) as [->|Hne].
      * apply (Extended_new _ _ _ _ _ _ E) in Hc'. by subst c'.
      * eapply (SeatsOrdered_old _ _ _ _ _ E Hord); try done. lia.
  - rewrite genCell_plus. constructor; simpl; [lia| |done].
    intros i c k Hi Hc Hk. specialize (Hcur i c k Hi Hc Hk). lia.
  - rewrite genCell_other by done. constructor; [done| |done].
    intros i ci k Hi Hc Hk. by eapply Hcur.
Qed.

(** The seats of a compiled grid are linked in letter order when no row has
    more symbols [S] and [+] than there are letters before the wrap. *)
Lemma generate_SeatsOrdered (seatLayout : list RowSpec) :
  Forall (fun rs => slotCount (layout rs) ≤ 65471) seatLayout ->
  SeatsOrdered (grid (generateAircraft seatLayout)).
Proof.
  apply (generate_lift
           (fun symbols a st => NoWrapInv a st ∧ seatIndex st + slotCount symbols ≤ 65471)
           SeatsOrdered (fun symbols => slotCount symbols ≤ 65471)).
  - intros a r x j c rest st inv HK. by eapply NoWrap_step.
  - intros r symbols st inv Hord Hfits. split; [|simpl; lia].
    constructor; simpl; [done| |done].
    intros i c k Hi Hc%lookup_lt_Some. lia.
  - intros a r st _ [[] _]. done.
  - intros i i' c c' Hii Hc Hc'. apply lookup_lt_Some in Hc'. simpl in Hc'. lia.
Qed.

(** ** What a run never changes *)

Lemma topo_fields (g g0 : list Cell) (i : nat) (c : Cell) :
  topo g = topo g0 -> g !! i = Some c ->
  ∃ c0, g0 !! i = Some c0 ∧ up c = up c0 ∧ down c = down c0 ∧ left c = left c0 ∧
        right c = right c0 ∧ row c = row c0 ∧ col c = col c0 ∧ isSeat c = isSeat c0.
Proof.
  intros Ht Hc. apply (f_equal (fun l => l !! i)) in Ht. unfold topo in Ht.
  rewrite !list_lookup_fmap, Hc in Ht. simpl in Ht.
  destruct (g0 !! i) as [c0|]; [|done]. exists c0. simpl in Ht.
  assert (set_contents ∅ c = set_contents ∅ c0) as E by congruence.
  pose proof (f_equal up E) as Eup. pose proof (f_equal down E) as Edown.
  pose proof (f_equal left E) as Eleft. pose proof (f_equal right E) as Eright.
  pose proof (f_equal row E) as Erow. pose proof (f_equal col E) as Ecol.
  simpl in *. unfold isSeat. rewrite Erow, Ecol. done.
Qed.

Lemma topo_sym_fields (g g0 : list Cell) (i : nat) (c0 : Cell) :
  topo g = topo g0 -> g0 !! i = Some c0 ->
  ∃ c, g !! i = Some c ∧ up c = up c0 ∧ down c = down c0 ∧ left c = left c0 ∧
       right c = right c0 ∧ row c = row c0 ∧ col c = col c0 ∧ isSeat c = isSeat c0.
Proof.
  intros Ht Hc. symmetry in Ht. destruct (topo_fields g0 g i c0 Ht Hc) as (c & ? & ?).
  exists c. split; [done|]. split_and!; symmetry; tauto.
Qed.

Lemma topo_alter_contents (f : Cell -> Cell) (i : nat) (g : list Cell) :
  (∀ k, set_contents ∅ (f k) = set_contents ∅ k) -> topo (alter f i g) = topo g.
Proof.
  intros Hf. unfold topo. apply list_eq. intros j.
  rewrite !list_lookup_fmap, list_lookup_alter. case_decide; [subst|done].
  destruct (g !! j); simpl; [|done]. by rewrite Hf.
Qed.

Lemma topo_moveCells (p c n : nat) (g : list Cell) : topo (moveCells p c n g) = topo g.
Proof. unfold moveCells. by rewrite !topo_alter_contents. Qed.

Section RunInvariantFacts.

Variable g0 : list Cell.
Variable start : nat.
Variable Srch : nat -> Prop.
Variable LU LD : nat -> nat -> Prop.

Hypothesis Srch_start : Srch start.
Hypothesis Srch_right : ∀ c here n,
  Srch c -> g0 !! c = Some here -> right here = Some n -> Srch n.
Hypothesis LU_enter : ∀ c here u k t target,
  Srch c -> g0 !! c = Some here -> up here = Some u -> g0 !! u = Some k ->
  g0 !! t = Some target -> isSeat target = true ->
  strictEq (row k) (row target) = true -> geq (col k) (col target) = true -> LU c t.
Hypothesis LD_enter : ∀ c here d k t target,
  Srch c -> g0 !! c = Some here -> down here = Some d -> g0 !! d = Some k ->
  g0 !! t = Some target -> isSeat target = true ->
  strictEq (row k) (row target) = true -> leq (col k) (col target) = true -> LD c t.
Hypothesis LU_move : ∀ c here n t,
  LU c t -> g0 !! c = Some here -> up here = Some n -> n ≠ t -> LU n t.
Hypothesis LD_move : ∀ c here n t,
  LD c t -> g0 !! c = Some here -> down here = Some n -> n ≠ t -> LD n t.

Lemma Transition_PaxOk (g g' : list Cell) (p : nat) (this this' : Passenger) :
  topo g = topo g0 -> PaxOk g0 Srch LU LD this -> Transition g p this g' this' ->
  topo g' = topo g0 ∧ PaxOk g0 Srch LU LD this'.
Proof.
  intros Ht [Htarget Hstate] T.
  destruct T as [ |t Hl|c here u k target t Hs Hc Hhere Hu Hk Htg H1 H2
                 |c here d k target t Hs Hc Hhere Hd Hk Htg H1 H2
                 |c here n k Hs Hc Hhere Hn Hk He
                 |st c here n t Hs Hc Hhere Hdir].
  - done.
  - split; [done|]. split; [done|]. simpl. by destruct Hl as [Hl|Hl]; rewrite Hl in *.
  - split; [done|]. split; [done|]. simpl. exists c. split; [done|].
    rewrite Hs in Hstate. destruct Hstate as (c' & Hc' & Hsr). simplify_eq.
    destruct (topo_fields _ _ _ _ Ht Hhere) as (here0 & Hh0 & Eup & _).
    destruct (topo_fields _ _ _ _ Ht Hk) as (k0 & Hk0 & _ & _ & _ & _ & Er & Ec & _).
    destruct (topo_fields _ _ _ _ Ht Htg) as (tg0 & Ht0 & _ & _ & _ & _ & Er' & Ec' & Es').
    destruct Htarget as (t0 & Ht0' & Hseat). rewrite Ht0 in Ht0'. injection Ht0' as <-.
    eapply (LU_enter c' here0 u k0 _ tg0); try done; congruence.
  - split; [done|]. split; [done|]. simpl. exists c. split; [done|].
    rewrite Hs in Hstate. destruct Hstate as (c' & Hc' & Hsr). simplify_eq.
    destruct (topo_fields _ _ _ _ Ht Hhere) as (here0 & Hh0 & _ & Edown & _).
    destruct (topo_fields _ _ _ _ Ht Hk) as (k0 & Hk0 & _ & _ & _ & _ & Er & Ec & _).
    destruct (topo_fields _ _ _ _ Ht Htg) as (tg0 & Ht0 & _ & _ & _ & _ & Er' & Ec' & Es').
    destruct Htarget as (t0 & Ht0' & Hseat). rewrite Ht0 in Ht0'. injection Ht0' as <-.
    eapply (LD_enter c' here0 d k0 _ tg0); try done; congruence.
  - rewrite topo_moveCells. split; [done|]. split; [done|]. simpl. rewrite Hs.
    exists n. split; [done|].
    rewrite Hs in Hstate. destruct Hstate as (c' & Hc' & Hsr). simplify_eq.
    destruct (topo_fields _ _ _ _ Ht Hhere) as (here0 & Hh0 & _ & _ & _ & Eright & _).
    eapply Srch_right; [done..|congruence].
  - rewrite topo_moveCells. split; [done|].
    destruct (topo_fields _ _ _ _ Ht Hhere) as (here0 & Hh0 & Eup & Edown & _).
    case_bool_decide as E.
    + split; [done|]. done.
    + split; [done|]. simpl. rewrite Hs.
      destruct Hdir as [[-> Hn]|[-> Hn]]; rewrite Hs in Hstate;
        destruct Hstate as (c' & Hc' & Hl); simplify_eq; exists n; (split; [done|]).
      * eapply LU_move; [done..|congruence|done].
      * eapply LD_move; [done..|congruence|done].
Qed.

Lemma PaxInv_insert (w w' : World) (p : nat) (this' : Passenger) :
  PaxInv g0 start Srch LU LD w ->
  topo (grid (plane w')) = topo g0 -> startingCell (plane w') = startingCell (plane w) ->
  pax w' = <[p := this']> (pax w) -> PaxOk g0 Srch LU LD this' ->
  PaxInv g0 start Srch LU LD w'.
Proof.
  intros [Ht Hs Hp] Ht' Hs' Hpax Hok. constructor; [done|congruence|].
  intros q this Hq. rewrite Hpax in Hq.
  apply list_lookup_insert_Some in Hq as [(-> & <- & _)|[_ Hq]]; [done|by eapply Hp].
Qed.

Lemma simulatePassenger_PaxInv (luggage : nat -> Z) (deltaT : Z) (p : nat) (w w' : World) :
  PaxInv g0 start Srch LU LD w -> simulatePassenger luggage deltaT p w = Ok w' ->
  PaxInv g0 start Srch LU LD w'.
Proof.
  intros inv (this & this' & Hthis & T & Hpax & Hplane)%simulatePassenger_Ok.
  destruct (Transition_PaxOk _ _ _ _ _ (pi_topo _ _ _ _ _ _ inv)
              (pi_pax _ _ _ _ _ _ inv _ _ Hthis) T) as [Ht' Hok].
  eapply PaxInv_insert; try done. by rewrite Hplane.
Qed.

Lemma simulateAll_PaxInv (luggage : nat -> Z) (deltaT : Z) (active : list nat) :
  ∀ w w', PaxInv g0 start Srch LU LD w -> simulateAll luggage deltaT active w = Ok w' ->
    PaxInv g0 start Srch LU LD w'.
Proof.
  induction active as [|p rest IH]; intros w w' inv; simpl.
  - by intros [= <-].
  - intros (w1 & H1 & H)%bind_Ok. eapply IH; [|done]. by eapply simulatePassenger_PaxInv.
Qed.

Lemma initializeAt_PaxInv (p : nat) (w : World) :
  PaxInv g0 start Srch LU LD w ->
  PaxInv g0 start Srch LU LD (initializeAt p (startingCell (plane w)) Searching w).
Proof.
  intros inv. destruct (pax w !! p) as [this|] eqn:Hthis.
  - eapply (PaxInv_insert w _ p (set_state (Some Searching) (set_cell (Some start) this)));
      try done.
    + simpl. rewrite topo_alter_contents by done. apply inv.
    + simpl. rewrite (pi_start _ _ _ _ _ _ inv).
      rewrite (alter_lookup_insert _ _ _ _ Hthis).
      apply alter_insert_eq. by eapply lookup_lt_Some.
    + destruct (pi_pax _ _ _ _ _ _ inv _ _ Hthis) as [Htarget _].
      split; [done|]. simpl. by exists start.
  - destruct inv as [Ht Hs Hp]. constructor; simpl.
    + by rewrite topo_alter_contents.
    + done.
    + intros q this Hq. rewrite !list_lookup_alter, Hthis in Hq.
      destruct (decide (p = q)) as [<-|]; [by destruct (decide (p = p))|by eapply Hp].
Qed.

Lemma admitPassenger_PaxInv (s s1 : Sim) :
  PaxInv g0 start Srch LU LD (world s) -> admitPassenger s = Ok s1 ->
  PaxInv g0 start Srch LU LD (world s1).
Proof.
  intros inv.
  destruct (admitPassenger_cases s) as [Ha|[Ha|(p & rest & c & _ & _ & _ & Ha)]];
    rewrite Ha; intros [= <-]; [done|]. simpl. by apply initializeAt_PaxInv.
Qed.

Lemma loopBody_PaxInv (luggage : nat -> Z) (tickLengthms : Z) (s : Sim) (e : BodyEnd) :
  PaxInv g0 start Srch LU LD (world s) -> loopBody luggage tickLengthms s = Ok e ->
  PaxInv g0 start Srch LU LD (world (bodyState e)).
Proof.
  intros inv. unfold loopBody. intros (s1 & H1 & H)%bind_Ok.
  apply admitPassenger_PaxInv in H1; [|done].
  destruct (allSeated _ _); [by injection H as <-|].
  apply bind_Ok in H as (w & Hw & [= <-]). simpl. by eapply simulateAll_PaxInv.
Qed.

Lemma TickBoundary_PaxInv (luggage : nat -> Z) (run : nat -> bool) (tickLengthms : Z)
    (s0 s : Sim) :
  PaxInv g0 start Srch LU LD (world s0) -> TickBoundary luggage run tickLengthms s0 s ->
  PaxInv g0 start Srch LU LD (world s).
Proof.
  intros inv0. induction 1 as [|s s' _ IH _ Hbody]; [done|].
  by apply (loopBody_PaxInv _ _ _ _ IH Hbody).
Qed.

End RunInvariantFacts.

(** ** Where a tick can read a property of [null] *)

Lemma move_TypeError (p : nat) (newCell : option nat) (w : World) :
  move p newCell w = Throw TypeError ->
  ∃ this, pax w !! p = Some this ∧ (cell this = None ∨ newCell = None).
Proof.
  unfold move, getPax. destruct (pax w !! p) as [this|] eqn:Hthis; simpl; [|done].
  intros H. exists this. split; [done|].
  destruct (cell this); simpl in H; [|by left].
  destruct newCell; simpl in H; [done|by right].
Qed.

Lemma loadingStep_TypeError (p : nat) (deltaT : Z) (dir : Cell -> option nat) (w : World) :
  loadingStep p deltaT dir w = Throw TypeError ->
  ∃ this, pax w !! p = Some this ∧
    (cell this = None ∨
     ∃ c here, cell this = Some c ∧ grid (plane w) !! c = Some here ∧ dir here = None).
Proof.
  unfold loadingStep, getPax, getCell.
  destruct (pax w !! p) as [this|] eqn:Hthis; simpl; [|done].
  intros H. exists this. split; [done|].
  destruct (timeToTransition this - deltaT <=? 0); [|done].
  destruct (cell this) as [c|] eqn:Hc; simpl in H; [|by left]. right.
  destruct (grid (plane w) !! c) as [here|] eqn:Hhere; simpl in H; [|done].
  exists c, here. split; [done|]. split; [done|].
  apply bind_Throw in H as [H|(w2 & Hw2 & H)].
  - apply move_TypeError in H as (this1 & Hthis1 & [Hnone|Hnone]); [|done].
    simpl in Hthis1. rewrite (alter_lookup_insert _ _ _ _ Hthis) in Hthis1.
    rewrite list_lookup_insert_eq in Hthis1 by (by eapply lookup_lt_Some).
    injection Hthis1 as <-. simpl in Hnone. congruence.
  - apply bind_Throw in H as [H|(this2 & _ & H)].
    + by apply fromOption_Throw in H.
    + by destruct (bool_decide _).
Qed.

Lemma simulatePassenger_TypeError (luggage : nat -> Z) (deltaT : Z) (p : nat) (w : World) :
  simulatePassenger luggage deltaT p w = Throw TypeError ->
  ∃ this, pax w !! p = Some this ∧
    ((cell this = None ∧ state this ≠ None ∧ state this ≠ Some Seated) ∨
     ∃ c here, cell this = Some c ∧ grid (plane w) !! c = Some here ∧
       (state this = Some LoadingUp ∧ up here = None ∨
        state this = Some LoadingDown ∧ down here = None)).
Proof.
  unfold simulatePassenger, getPax, getCell.
  destruct (pax w !! p) as [this|] eqn:Hthis; simpl; [|done].
  intros H. exists this. split; [done|].
  destruct (state this) as [[| | |]|] eqn:Hst; [done| | | |done].
  - destruct (cell this) as [c|] eqn:Hc; simpl in H; [|by left]. exfalso.
    destruct (grid (plane w) !! c) as [here|]; simpl in H; [|done].
    destruct (grid (plane w) !! targetSeat this) as [target|]; simpl in H; [|done].
    apply bind_Throw in H as [H|(upHit & _ & H)].
    { destruct (up here) as [u|]; [|done]. by destruct (grid (plane w) !! u). }
    destruct upHit; [done|].
    apply bind_Throw in H as [H|(downHit & _ & H)].
    { destruct (down here) as [d|]; [|done]. by destruct (grid (plane w) !! d). }
    destruct downHit; [done|].
    destruct (right here) as [r|]; [|done].
    destruct (grid (plane w) !! r) as [k|]; simpl in H; [|done].
    destruct (isEmpty k); simpl in H; [|done].
    apply move_TypeError in H as (this1 & Hthis1 & [?|?]); [|done]. congruence.
  - apply loadingStep_TypeError in H as (this1 & Hthis1 & H).
    rewrite Hthis in Hthis1. injection Hthis1 as <-.
    destruct H as [H|(c & here & Hc & Hhere & Hn)]; [by left|].
    right. exists c, here. split_and!; try done. by left.
  - apply loadingStep_TypeError in H as (this1 & Hthis1 & H).
    rewrite Hthis in Hthis1. injection Hthis1 as <-.
    destruct H as [H|(c & here & Hc & Hhere & Hn)]; [by left|].
    right. exists c, here. split_and!; try done. by right.
Qed.

(** ** Walking along a row *)

Lemma walk_up_chain (g : list Cell) (lo : nat) :
  ∀ n, (∀ m, (lo < m ≤ lo + n)%nat -> ∃ d, g !! m = Some d ∧ up d = Some (m - 1)%nat) ->
    walk up g n (lo + n) = Some lo.
Proof.
  induction n as [|n IH]; intros H; simpl.
  - f_equal. lia.
  - destruct (H (lo + S n)%nat) as (d & -> & Hup); [lia|]. simpl. rewrite Hup. simpl.
    replace (lo + S n - 1)%nat with (lo + n)%nat by lia.
    apply IH. intros m Hm. apply H. lia.
Qed.

Lemma walk_down_chain (g : list Cell) :
  ∀ n lo, (∀ m, (lo ≤ m < lo + n)%nat -> ∃ d, g !! m = Some d ∧ down d = Some (S m)) ->
    walk down g n lo = Some (lo + n)%nat.
Proof.
  induction n as [|n IH]; intros lo H; simpl.
  - f_equal. lia.
  - destruct (H lo) as (d & -> & Hdown); [lia|]. simpl. rewrite Hdown. simpl.
    rewrite IH; [f_equal; lia|]. intros m Hm. apply H. lia.
Qed.

Section SeatChains.

Variable seatLayout : list RowSpec.
Hypothesis no_wrap : Forall (fun rs => slotCount (layout rs) ≤ 65471) seatLayout.

Let g0 := grid (generateAircraft seatLayout).

(** The seat in view from the aisle has a letter at or after the target's:
    the target is further up the row. *)
Lemma seat_above (u t : nat) (cu ct : Cell) :
  g0 !! u = Some cu -> g0 !! t = Some ct -> isSeat ct = true ->
  strictEq (row cu) (row ct) = true -> geq (col cu) (col ct) = true ->
  ∃ k, walk up g0 k u = Some t.
Proof.
  intros Hu Ht Hs Hrow%bool_decide_eq_true Hcol.
  pose proof (generate_SeatsOrdered seatLayout no_wrap) as Hord. fold g0 in Hord.
  assert (isSeat cu = true) as Hsu.
  { unfold isSeat, geq in *. rewrite Hrow. destruct (row ct); [|done]. by destruct (col cu). }
  destruct (lt_eq_lt_dec t u) as [[Hlt| -> ]|Hgt].
  - destruct (Hord t u ct cu Hlt Ht Hu Hs Hsu (eq_sym Hrow)) as [_ Hchain].
    exists (u - t)%nat. pose proof (walk_up_chain g0 t (u - t)) as W.
    replace (t + (u - t))%nat with u in W by lia.
    apply W. intros m Hm. apply Hchain. lia.
  - by exists 0%nat.
  - destruct (Hord u t cu ct Hgt Hu Ht Hsu Hs Hrow) as [(k & k' & Hk & Hk' & Hkk) _].
    unfold geq in Hcol. rewrite Hk, Hk' in Hcol. lia.
Qed.

Lemma seat_below (u t : nat) (cu ct : Cell) :
  g0 !! u = Some cu -> g0 !! t = Some ct -> isSeat ct = true ->
  strictEq (row cu) (row ct) = true -> leq (col cu) (col ct) = true ->
  ∃ k, walk down g0 k u = Some t.
Proof.
  intros Hu Ht Hs Hrow%bool_decide_eq_true Hcol.
  pose proof (generate_SeatsOrdered seatLayout no_wrap) as Hord. fold g0 in Hord.
  destruct (generateAircraft_GenInv seatLayout) as (r & pa & inv).
  assert (isSeat cu = true) as Hsu.
  { unfold isSeat, leq in *. rewrite Hrow. destruct (row ct); [|done]. by destruct (col cu). }
  destruct (lt_eq_lt_dec t u) as [[Hlt| -> ]|Hgt].
  - destruct (Hord t u ct cu Hlt Ht Hu Hs Hsu (eq_sym Hrow)) as [(k & k' & Hk & Hk' & Hkk) _].
    unfold leq in Hcol. rewrite Hk, Hk' in Hcol. lia.
  - by exists 0%nat.
  - destruct (Hord u t cu ct Hgt Hu Ht Hsu Hs Hrow) as [_ Hchain].
    exists (t - u)%nat. pose proof (walk_down_chain g0 (t - u) u) as W.
    replace (u + (t - u))%nat with t in W by lia.
    apply W. intros m Hm.
    destruct (Hchain (S m)) as (d & Hd & Hup); [lia|].
    destruct (gi_updown _ _ _ inv _ _ _ Hd Hup) as (e & He & Hdown).
    exists e. simpl in He. rewrite Nat.sub_0_r in He. done.
Qed.

End SeatChains.

(** ** Loading passengers have a neighbor to step to *)

Lemma initWorld_PaxInv (Srch : nat -> Prop) (LU LD : nat -> nat -> Prop)
    (seatLayout : list RowSpec) (m : Method) :
  PaxInv (grid (generateAircraft seatLayout)) 0 Srch LU LD (initWorld seatLayout m).
Proof.
  destruct (generateAircraft_GenInv seatLayout) as (r & pa & inv).
  constructor; simpl.
  - done.
  - apply (gi_start _ _ _ inv).
  - intros p this Hp. apply list_lookup_fmap_Some in Hp as (t & -> & Ht).
    split; [|done]. simpl.
    pose proof (gi_seats _ _ _ inv) as Hseats. simpl in Hseats.
    rewrite Forall_forall in Hseats. apply Hseats. by eapply list_elem_of_lookup_2.
Qed.

Lemma initSim_world (random : nat -> nat) (seatLayout : list RowSpec) (m : Method) (s0 : Sim) :
  initSim random seatLayout m = Some s0 -> world s0 = initWorld seatLayout m.
Proof.
  destruct (initSim_total random seatLayout m) as (pending & ->). by intros [= <-].
Qed.

Lemma Towards_step (dir : Cell -> option nat) (g0 : list Cell) (c t : nat) :
  Towards dir g0 c t ->
  ∃ here n, g0 !! c = Some here ∧ dir here = Some n ∧
            (n = t ∨ Towards dir g0 n t).
Proof.
  intros [k Hk]. simpl in Hk.
  destruct (g0 !! c) as [here|] eqn:Hc; simpl in Hk; [|done].
  destruct (dir here) as [n|] eqn:Hn; simpl in Hk; [|done].
  exists here, n. split; [done|]. split; [done|].
  destruct k as [|k]; [left; by injection Hk|right; by exists k].
Qed.

Section LoadingSafe.

Variable seatLayout : list RowSpec.
Hypothesis no_wrap : Forall (fun rs => slotCount (layout rs) ≤ 65471) seatLayout.

Let g0 := grid (generateAircraft seatLayout).

Local Abbreviation Safe := (PaxInv g0 0 (fun _ => True) (Towards up g0) (Towards down g0)).

Lemma Safe_enter_up (c : nat) (here : Cell) (u : nat) (k : Cell) (t : nat) (target : Cell) :
  True -> g0 !! c = Some here -> up here = Some u -> g0 !! u = Some k ->
  g0 !! t = Some target -> isSeat target = true ->
  strictEq (row k) (row target) = true -> geq (col k) (col target) = true ->
  Towards up g0 c t.
Proof.
  intros _ Hc Hu Hk Ht Hseat H1 H2.
  destruct (seat_above seatLayout no_wrap u t k target Hk Ht Hseat H1 H2) as [n Hn].
  exists n. simpl. fold g0. rewrite Hc. simpl. rewrite Hu. done.
Qed.

Lemma Safe_enter_down (c : nat) (here : Cell) (d : nat) (k : Cell) (t : nat) (target : Cell) :
  True -> g0 !! c = Some here -> down here = Some d -> g0 !! d = Some k ->
  g0 !! t = Some target -> isSeat target = true ->
  strictEq (row k) (row target) = true -> leq (col k) (col target) = true ->
  Towards down g0 c t.
Proof.
  intros _ Hc Hd Hk Ht Hseat H1 H2.
  destruct (seat_below seatLayout no_wrap d t k target Hk Ht Hseat H1 H2) as [n Hn].
  exists n. simpl. fold g0. rewrite Hc. simpl. rewrite Hd. done.
Qed.

Lemma Towards_move (dir : Cell -> option nat) (c : nat) (here : Cell) (n t : nat) :
  Towards dir g0 c t -> g0 !! c = Some here -> dir here = Some n -> n ≠ t ->
  Towards dir g0 n t.
Proof.
  intros (here' & n' & Hc & Hn & Hcases)%Towards_step Hhere Hdir Hne.
  rewrite Hhere in Hc. injection Hc as <-. rewrite Hdir in Hn. injection Hn as <-.
  by destruct Hcases.
Qed.

Lemma Safe_simulatePassenger_Ok (luggage : nat -> Z) (deltaT : Z) (p : nat) (w w' : World) :
  Safe w -> simulatePassenger luggage deltaT p w = Ok w' -> Safe w'.
Proof.
  apply simulatePassenger_PaxInv; try done.
  - apply Safe_enter_up.
  - apply Safe_enter_down.
  - apply (Towards_move up).
  - apply (Towards_move down).
Qed.

Lemma Safe_TickBoundary (luggage : nat -> Z) (run : nat -> bool) (tickLengthms : Z)
    (random : nat -> nat) (m : Method) (s0 s : Sim) :
  initSim random seatLayout m = Some s0 ->
  TickBoundary luggage run tickLengthms s0 s -> Safe (world s).
Proof.
  intros Hinit Hs.
  eapply (TickBoundary_PaxInv g0 0 (fun _ => True) (Towards up g0) (Towards down g0));
    [..|apply Hs]; try done.
  - apply Safe_enter_up.
  - apply Safe_enter_down.
  - apply (Towards_move up).
  - apply (Towards_move down).
  - rewrite (initSim_world _ _ _ _ Hinit). apply initWorld_PaxInv.
Qed.

Lemma Safe_neighbor (w : World) (p : nat) (this : Passenger) (dir : Cell -> option nat) (c : nat) :
  topo (grid (plane w)) = topo g0 -> (dir = up ∨ dir = down) ->
  Towards dir g0 c (targetSeat this) ->
  ∃ here n, grid (plane w) !! c = Some here ∧ dir here = Some n.
Proof.
  intros Ht Hdir (here0 & n & Hc & Hn & _)%Towards_step.
  destruct (topo_sym_fields _ _ _ _ Ht Hc) as (here & Hhere & Eup & Edown & _).
  exists here, n. split; [done|]. destruct Hdir as [-> | ->]; congruence.
Qed.

Lemma Safe_simulatePassenger (luggage : nat -> Z) (deltaT : Z) (p : nat) (w : World) :
  Safe w -> simulatePassenger luggage deltaT p w ≠ Throw TypeError.
Proof.
  intros inv (this & Hthis & H)%simulatePassenger_TypeError.
  destruct (pi_pax _ _ _ _ _ _ inv _ _ Hthis) as [_ Hstate].
  destruct H as [(Hnone & H1 & H2)|(c & here & Hc & Hhere & [[Hs Hn]|[Hs Hn]])].
  - destruct (state this) as [[| | |]|]; try done;
      destruct Hstate as (c & Hc & _); congruence.
  - rewrite Hs in Hstate. destruct Hstate as (c' & Hc' & Hto).
    rewrite Hc in Hc'. injection Hc' as <-.
    destruct (Safe_neighbor w p this up c (pi_topo _ _ _ _ _ _ inv) ltac:(by left) Hto)
      as (here' & n & ? & ?). congruence.
  - rewrite Hs in Hstate. destruct Hstate as (c' & Hc' & Hto).
    rewrite Hc in Hc'. injection Hc' as <-.
    destruct (Safe_neighbor w p this down c (pi_topo _ _ _ _ _ _ inv) ltac:(by right) Hto)
      as (here' & n & ? & ?). congruence.
Qed.

Lemma Safe_simulateAll (luggage : nat -> Z) (deltaT : Z) (active : list nat) :
  ∀ w, Safe w -> simulateAll luggage deltaT active w ≠ Throw TypeError.
Proof.
  induction active as [|p rest IH]; intros w inv; simpl; [done|].
  intros [H|(w' & Hw' & H)]%bind_Throw.
  - by eapply Safe_simulatePassenger.
  - eapply IH; [|done]. by eapply Safe_simulatePassenger_Ok.
Qed.

Lemma Safe_loopBody (luggage : nat -> Z) (tickLengthms : Z) (s : Sim) :
  Safe (world s) -> loopBody luggage tickLengthms s ≠ Throw TypeError.
Proof.
  intros inv. unfold loopBody. intros [H|(s1 & H1 & H)]%bind_Throw.
  - destruct (admitPassenger_cases s) as [Ha|[Ha|(p & rest & c & _ & _ & _ & Ha)]];
      rewrite Ha in H; done.
  - assert (Safe (world s1)) as inv1.
    { destruct (admitPassenger_cases s) as [Ha|[Ha|(p & rest & c & _ & _ & _ & Ha)]];
        rewrite Ha in H1; [done|by injection H1 as <-|].
      injection H1 as <-. simpl. by apply initializeAt_PaxInv. }
    destruct (allSeated _ _); [done|].
    apply bind_Throw in H as [H|(w & _ & H)]; [|done].
    by eapply Safe_simulateAll.
Qed.

End LoadingSafe.

(** C10, as the code has it. When no row pattern has more than 65471
    symbols [S] and [+], so that column letters do not wrap around, then at
    every tick boundary of a run every passenger in state [LoadingUp] stands
    in a cell whose [up] neighbor exists, every passenger in state
    [LoadingDown] in a cell whose [down] neighbor exists, and no pass through
    the loop body reads a property of [null]. *)
Theorem loading_neighbor_present (luggage : nat -> Z) (run : nat -> bool) (tickLengthms : Z)
    (random : nat -> nat) (seatLayout : list RowSpec) (m : Method) (s0 s : Sim) :
  Forall (fun rs => slotCount (layout rs) ≤ 65471) seatLayout ->
  initSim random seatLayout m = Some s0 ->
  TickBoundary luggage run tickLengthms s0 s ->
  (∀ p this, pax (world s) !! p = Some this ->
     (state this = Some LoadingUp ->
        ∃ c here n, cell this = Some c ∧ grid (plane (world s)) !! c = Some here ∧
                    up here = Some n) ∧
     (state this = Some LoadingDown ->
        ∃ c here n, cell this = Some c ∧ grid (plane (world s)) !! c = Some here ∧
                    down here = Some n)) ∧
  loopBody luggage tickLengthms s ≠ Throw TypeError.
Proof.
  intros Hfit Hinit Hs.
  pose proof (Safe_TickBoundary seatLayout Hfit luggage run tickLengthms random m s0 s Hinit Hs)
    as inv.
  split; [|by eapply Safe_loopBody].
  intros p this Hthis. destruct (pi_pax _ _ _ _ _ _ inv _ _ Hthis) as [_ Hstate].
  split; intros Hst; rewrite Hst in Hstate; destruct Hstate as (c & Hc & Hto).
  - destruct (Safe_neighbor seatLayout (world s) p this up c (pi_topo _ _ _ _ _ _ inv)
                ltac:(by left) Hto) as (here & n & ? & ?).
    by exists c, here, n.
  - destruct (Safe_neighbor seatLayout (world s) p this down c (pi_topo _ _ _ _ _ _ inv)
                ltac:(by right) Hto) as (here & n & ? & ?).
    by exists c, here, n.
Qed.

(** ** Aisle cells of different rows *)

Lemma AislesApart_old (st st' : GenState) (aisle : bool) (y : Z) (cnew : Cell) :
  Extended st st' aisle y cnew -> AislesApart (grid (aircraft st)) ->
  ∀ i j c d, (i < j)%nat -> (j < length (grid (aircraft st)))%nat ->
    grid (aircraft st') !! i = Some c -> grid (aircraft st') !! j = Some d ->
    isSeat c = false -> isSeat d = false ->
    ∃ m e, (i < m ≤ j)%nat ∧ grid (aircraft st') !! m = Some e ∧ up e = None.
Proof.
  intros E Hap i j c d Hij Hlt Hc Hd Hs Hs'.
  destruct (Extended_fields _ _ _ _ _ _ _ E Hc) as (c0 & H0 & _ & _ & _ & S0); [lia|].
  destruct (Extended_fields _ _ _ _ _ _ _ E Hd) as (d0 & H0' & _ & _ & _ & S0'); [lia|].
  destruct (Hap i j c0 d0 Hij H0 H0') as (m & e0 & Hm & He0 & Hup); [congruence..|].
  exists m, (retouch st aisle y m e0). split; [done|].
  rewrite (Extended_old _ _ _ _ _ _ _ E He0). split; [done|].
  by destruct (retouch_fields st aisle y m e0) as (_ & _ & _ & -> & _).
Qed.

Lemma aisleCount_cons (c : Z) (rest : JSString) :
  aisleCount (c :: rest) = ((if decide (c = char_A) then 1 else 0) + aisleCount rest)%nat.
Proof. unfold aisleCount. rewrite filter_cons. by case_decide. Qed.

Lemma OneAisle_step (a : nat) (r x j c : Z) (rest : JSString) (st : GenState) :
  GenInv a r st ->
  (∃ seen, OneAisleInv a seen st ∧ (aisleCount (c :: rest) ≤ if seen then 0 else 1)%nat) ->
  ∃ seen, OneAisleInv a seen (genCell x r j c st) ∧
          (aisleCount rest ≤ if seen then 0 else 1)%nat.
Proof.
  intros inv (seen & [Hseen Hap] & Hfit). rewrite aisleCount_cons in Hfit.
  pose proof (gi_rowstart _ _ _ inv) as Ha.
  destruct (symbol_cases c) as [->|[->|[->|(H1 & H2 & H3)]]].
  - rewrite decide_False in Hfit by done.
    pose proof (genCell_seat_Extended a r x j st inv) as E.
    exists seen. split; [|done]. constructor.
    + intros Hfalse i c Hi Hc.
      destruct (Extended_inv _ _ _ _ _ _ _ E Hc) as [[-> ->]|[Hlt (c0 & H0 & ->)]]; [done|].
      destruct (retouch_fields st false (j * CELLSIZE) i c0) as (_ & _ & _ & _ & _ & -> & _).
      by eapply Hseen.
    + intros i i' c d Hii Hc Hd Hs Hs'.
      pose proof (Extended_bound _ _ _ _ _ _ _ E Hd) as Hb.
      destruct (decide (i' = length (grid (aircraft st)))) as [->|Hne].
      * apply (Extended_new _ _ _ _ _ _ E) in Hd. by subst d.
      * eapply (AislesApart_old _ _ _ _ _ E Hap); try done. lia.
  - rewrite decide_True in Hfit by done. destruct seen; [lia|].
    pose proof (genCell_aisle_Extended a r x j st inv) as E.
    exists true. split; [|lia]. constructor; [done|].
    intros i i' c d Hii Hc Hd Hs Hs'.
    pose proof (Extended_bound _ _ _ _ _ _ _ E Hd) as Hb.
    destruct (decide (i' = length (grid (aircraft st)))) as [->|Hne].
    + destruct (Extended_fields _ _ _ _ _ _ _ E Hc) as (c0 & H0 & _ & _ & _ & S0); [done|].
      assert (i < a)%nat as Hia.
      { destruct (decide (i < a)%nat); [done|].
        rewrite (Hseen eq_refl i c0) in S0 by (done || lia). congruence. }
      destruct (decide (a = length (grid (aircraft st)))) as [Hal|Hal].
      * exists a, (set_up (prevCell st)
                     (set_left (Some (prevAisle st)) (newCell x (j * CELLSIZE)))).
        split; [lia|]. rewrite E, decide_True by done. split; [done|]. simpl.
        rewrite (gi_prevCell _ _ _ inv). by rewrite decide_False by lia.
      * destruct (lookup_lt_is_Some_2 (grid (aircraft st)) a) as [e0 He0]; [lia|].
        exists a, (retouch st true (j * CELLSIZE) a e0). split; [lia|].
        rewrite (Extended_old _ _ _ _ _ _ _ E He0). split; [done|].
        destruct (retouch_fields st true (j * CELLSIZE) a e0) as (_ & _ & _ & -> & _).
        by eapply gi_row_first.
    + eapply (AislesApart_old _ _ _ _ _ E Hap); try done. lia.
  - rewrite decide_False in Hfit by done. exists seen. by split.
  - rewrite decide_False in Hfit by done. rewrite genCell_other by done. exists seen. by split.
Qed.

(** Cells that are not seats lie in different rows when no row has two
    aisle cells. *)
Lemma generate_AislesApart (seatLayout : list RowSpec) :
  Forall (fun rs => (aisleCount (layout rs) ≤ 1)%nat) seatLayout ->
  AislesApart (grid (generateAircraft seatLayout)).
Proof.
  apply (generate_lift
           (fun symbols a st =>
              ∃ seen, OneAisleInv a seen st ∧ (aisleCount symbols ≤ if seen then 0 else 1)%nat)
           AislesApart (fun symbols => (aisleCount symbols ≤ 1)%nat)).
  - intros a r x j c rest st inv HK. by eapply OneAisle_step.
  - intros r symbols st inv Hap Hfits. exists false. split; [|done].
    constructor; simpl; [|done]. intros _ i c Hi Hc%lookup_lt_Some. lia.
  - intros a r st _ (seen & [] & _). done.
  - intros i j c d Hij Hc Hd. apply lookup_lt_Some in Hd. simpl in Hd. lia.
Qed.

Lemma walk_up_index (g : list Cell) :
  (∀ i c j, g !! i = Some c -> up c = Some j -> i = S j) ->
  ∀ k c c', walk up g k c = Some c' ->
    c = (c' + k)%nat ∧
    ∀ m, (c' < m ≤ c)%nat -> ∃ d, g !! m = Some d ∧ up d = Some (m - 1)%nat.
Proof.
  intros Hup. induction k as [|k IH]; intros c c' H; simpl in H.
  - injection H as <-. split; [lia|]. intros m Hm. lia.
  - destruct (g !! c) as [here|] eqn:Hc; simpl in H; [|done].
    destruct (up here) as [n|] eqn:Hn; simpl in H; [|done].
    pose proof (Hup _ _ _ Hc Hn) as ->.
    destruct (IH _ _ H) as [-> Hchain]. split; [lia|].
    intros m Hm. destruct (decide (m = S (c' + k))) as [->|Hne].
    + exists here. split; [done|]. rewrite Hn. f_equal. lia.
    + apply Hchain. lia.
Qed.

Lemma walk_down_index (g : list Cell) :
  (∀ i c j, g !! i = Some c -> down c = Some j -> j = S i) ->
  ∀ k c c', walk down g k c = Some c' ->
    c' = (c + k)%nat ∧
    ∀ m, (c ≤ m < c')%nat -> ∃ d, g !! m = Some d ∧ down d = Some (S m).
Proof.
  intros Hdown. induction k as [|k IH]; intros c c' H; simpl in H.
  - injection H as <-. split; [lia|]. intros m Hm. lia.
  - destruct (g !! c) as [here|] eqn:Hc; simpl in H; [|done].
    destruct (down here) as [n|] eqn:Hn; simpl in H; [|done].
    pose proof (Hdown _ _ _ Hc Hn) as ->.
    destruct (IH _ _ H) as [-> Hchain]. split; [lia|].
    intros m Hm. destruct (decide (m = c)) as [->|Hne].
    + by exists here.
    + apply Hchain. lia.
Qed.

Section AisleOccupancy.

Variable seatLayout : list RowSpec.
Hypothesis one_aisle : Forall (fun rs => (aisleCount (layout rs) ≤ 1)%nat) seatLayout.

Let g0 := grid (generateAircraft seatLayout).

(** From a cell that is not a seat, only seats lie up and down the row. *)
Lemma NotSeat_up (c : nat) : NotSeat g0 c -> SeatsOnly up g0 c.
Proof.
  intros (here & Hc & Hs) k c' Hwalk.
  destruct (generateAircraft_GenInv seatLayout) as (r & pa & inv).
  pose proof (generate_AislesApart seatLayout one_aisle) as Hap. fold g0 in Hap.
  destruct (walk_up_index g0 (gi_up _ _ _ inv) _ _ _ Hwalk) as [Hci Hchain].
  destruct (Hchain (S c')) as (d & Hd & Hup); [lia|].
  destruct (gi_updown _ _ _ inv _ _ _ Hd Hup) as (k' & Hk' & _).
  simpl in Hk'. rewrite Nat.sub_0_r in Hk'. exists k'. split; [done|].
  destruct (isSeat k') eqn:Hsk; [done|]. exfalso.
  destruct (Hap c' c k' here) as (m & e & Hm & He & Hnone); [lia|done..|].
  destruct (Hchain m Hm) as (e' & He' & Hsome). congruence.
Qed.

Lemma NotSeat_down (c : nat) : NotSeat g0 c -> SeatsOnly down g0 c.
Proof.
  intros (here & Hc & Hs) k c' Hwalk.
  destruct (generateAircraft_GenInv seatLayout) as (r & pa & inv).
  pose proof (generate_AislesApart seatLayout one_aisle) as Hap. fold g0 in Hap.
  destruct (walk_down_index g0 (gi_down _ _ _ inv) _ _ _ Hwalk) as [Hci Hchain].
  assert (∀ m, (c < m ≤ c')%nat -> ∃ d, g0 !! m = Some d ∧ up d = Some (m - 1)%nat) as Hups.
  { intros m Hm. destruct (Hchain (m - 1)%nat) as (d & Hd & Hdown); [lia|].
    destruct (gi_downup _ _ _ inv _ _ _ Hd Hdown) as (e & He & Hup).
    exists e. replace (S (m - 1)) with m in He by lia. done. }
  destruct (Hups c') as (k' & Hk' & _); [lia|].
  exists k'. split; [done|].
  destruct (isSeat k') eqn:Hsk; [done|]. exfalso.
  destruct (Hap c c' here k') as (m & e & Hm & He & Hnone); [lia|done..|].
  destruct (Hups m Hm) as (e' & He' & Hsome). congruence.
Qed.

Lemma SeatsOnly_move (dir : Cell -> option nat) (c : nat) (here : Cell) (n t : nat) :
  SeatsOnly dir g0 c -> g0 !! c = Some here -> dir here = Some n -> n ≠ t ->
  SeatsOnly dir g0 n.
Proof.
  intros Hsafe Hc Hn _ k c' Hwalk. apply (Hsafe (S k)).
  change (walk dir g0 (S (S k)) c) with (c0 ← g0 !! c; j ← dir c0; walk dir g0 (S k) j).
  rewrite Hc. simpl. rewrite Hn. done.
Qed.

Lemma SeatsOnly_next (dir : Cell -> option nat) (c : nat) (here : Cell) (n : nat) :
  SeatsOnly dir g0 c -> g0 !! c = Some here -> dir here = Some n ->
  ∃ k', g0 !! n = Some k' ∧ isSeat k' = true.
Proof.
  intros Hsafe Hc Hn. apply (Hsafe 0%nat). simpl. rewrite Hc. simpl. by rewrite Hn.
Qed.

Lemma NotSeat_right (c : nat) (here : Cell) (n : nat) :
  NotSeat g0 c -> g0 !! c = Some here -> right here = Some n -> NotSeat g0 n.
Proof.
  intros _ Hc Hn. destruct (generateAircraft_GenInv seatLayout) as (r & pa & inv).
  destruct (gi_rightleft _ _ _ inv _ _ _ Hc Hn) as (d & Hd & Hleft).
  exists d. split; [done|]. destruct (isSeat d) eqn:Hs; [|done].
  destruct (gi_seat_links _ _ _ inv _ _ Hd Hs) as [Hl _]. congruence.
Qed.

Local Abbreviation Queue :=
  (PaxInv g0 0 (NotSeat g0) (fun c _ => SeatsOnly up g0 c) (fun c _ => SeatsOnly down g0 c)).

Lemma Queue_simulatePassenger (luggage : nat -> Z) (deltaT : Z) (p : nat) (w w' : World) :
  Queue w -> simulatePassenger luggage deltaT p w = Ok w' -> Queue w'.
Proof.
  apply simulatePassenger_PaxInv.
  - apply NotSeat_right.
  - intros c here u k t target Hns _ _ _ _ _ _ _. by apply NotSeat_up.
  - intros c here d k t target Hns _ _ _ _ _ _ _. by apply NotSeat_down.
  - apply (SeatsOnly_move up).
  - apply (SeatsOnly_move down).
Qed.

Lemma NotSeat_entry : NotSeat g0 0.
Proof. destruct (generateAircraft_GenInv seatLayout) as (r & pa & inv). apply inv. Qed.

Lemma moveCells_lookup (p c n : nat) (g : list Cell) (i : nat) (ci' : Cell) :
  moveCells p c n g !! i = Some ci' ->
  ∃ ci, g !! i = Some ci ∧ isSeat ci' = isSeat ci ∧
    ((n = i ∧ (contents ci' = {[p]} ∪ contents ci ∨
               contents ci' = {[p]} ∪ (contents ci ∖ {[p]}))) ∨
     (n ≠ i ∧ (contents ci' = contents ci ∨ contents ci' = contents ci ∖ {[p]}))).
Proof.
  unfold moveCells. rewrite !list_lookup_alter.
  destruct (decide (n = i)) as [->|Hn].
  - destruct (decide (c = i)) as [->|Hc]; destruct (g !! i) as [ci|]; simpl; try done;
      intros [= <-]; exists ci; (split; [done|]); (split; [done|]); left; (split; [done|]);
      simpl; auto.
  - destruct (decide (c = i)) as [->|Hc]; destruct (g !! i) as [ci|]; simpl; try done;
      intros [= <-]; exists ci; (split; [done|]); (split; [done|]); right; (split; [done|]);
      simpl; auto.
Qed.

Lemma isEmpty_contents (k : Cell) : isEmpty k = true -> contents k = ∅.
Proof. unfold isEmpty. intros H%bool_decide_eq_true. by apply leibniz_equiv, size_empty_inv. Qed.

Lemma size_enter_empty (p : nat) : size ({[p]} ∪ (∅ : gset nat)) = 1%nat.
Proof. by rewrite union_empty_r_L, size_singleton. Qed.

Lemma size_leave (X : gset nat) (p : nat) : (size (X ∖ {[p]}) ≤ size X)%nat.
Proof. by apply subseteq_size, subseteq_difference_l. Qed.

Lemma Queue_Occupancy (g g' : list Cell) (p : nat) (this this' : Passenger) :
  topo g = topo g0 ->
  PaxOk g0 (NotSeat g0) (fun c _ => SeatsOnly up g0 c) (fun c _ => SeatsOnly down g0 c) this ->
  Occupancy g -> Transition g p this g' this' -> Occupancy g'.
Proof.
  intros Ht [_ Hstate] Hocc T.
  destruct T as [ |t Hl|c here u k target t Hs Hc Hhere Hu Hk Htg H1 H2
                 |c here d k target t Hs Hc Hhere Hd Hk Htg H1 H2
                 |c here n k Hs Hc Hhere Hn Hk He
                 |st c here n t Hs Hc Hhere Hdir]; try done.
  - intros i ci' Hi Hseat.
    destruct (moveCells_lookup _ _ _ _ _ _ Hi) as (ci & Hci & Es & Hcases).
    rewrite Es in Hseat. specialize (Hocc i ci Hci Hseat).
    destruct Hcases as [[-> [-> | ->]]|[_ [-> | ->]]].
    + rewrite Hk in Hci. injection Hci as <-.
      rewrite (isEmpty_contents _ He). by rewrite size_enter_empty.
    + rewrite Hk in Hci. injection Hci as <-.
      rewrite (isEmpty_contents _ He).
      replace ((∅ : gset nat) ∖ {[p]}) with (∅ : gset nat)
        by (symmetry; apply leibniz_equiv, empty_difference; done).
      by rewrite size_enter_empty.
    + done.
    + pose proof (size_leave (contents ci) p). lia.
  - assert (∃ k', g0 !! n = Some k' ∧ isSeat k' = true) as (k' & Hk' & Hsk').
    { destruct (topo_fields _ _ _ _ Ht Hhere) as (here0 & Hh0 & Eup & Edown & _).
      rewrite Hs in Hstate.
      destruct Hdir as [[-> Hn]|[-> Hn]]; destruct Hstate as (c' & Hc' & Hsafe);
        rewrite Hc in Hc'; injection Hc' as <-.
      - eapply (SeatsOnly_next up); [done..|congruence].
      - eapply (SeatsOnly_next down); [done..|congruence]. }
    destruct (topo_sym_fields _ _ _ _ Ht Hk') as (kn & Hkn & _ & _ & _ & _ & _ & _ & Esn).
    intros i ci' Hi Hseat.
    destruct (moveCells_lookup _ _ _ _ _ _ Hi) as (ci & Hci & Es & Hcases).
    rewrite Es in Hseat. specialize (Hocc i ci Hci Hseat).
    destruct Hcases as [[-> _]|[_ [-> | ->]]].
    + rewrite Hkn in Hci. injection Hci as <-. congruence.
    + done.
    + pose proof (size_leave (contents ci) p). lia.
Qed.

Local Abbreviation Orderly w := (Queue w ∧ Occupancy (grid (plane w))).

Lemma Orderly_simulatePassenger (luggage : nat -> Z) (deltaT : Z) (p : nat) (w w' : World) :
  Orderly w -> simulatePassenger luggage deltaT p w = Ok w' -> Orderly w'.
Proof.
  intros [Hq Hocc] H. split; [by eapply Queue_simulatePassenger|].
  apply simulatePassenger_Ok in H as (this & this' & Hthis & T & _ & _).
  eapply Queue_Occupancy; [apply Hq|by eapply (pi_pax _ _ _ _ _ _ Hq)|done..].
Qed.

Lemma Orderly_simulateAll (luggage : nat -> Z) (deltaT : Z) (active : list nat) :
  ∀ w w', Orderly w -> simulateAll luggage deltaT active w = Ok w' -> Orderly w'.
Proof.
  induction active as [|p rest IH]; intros w w' inv; simpl.
  - by intros [= <-].
  - intros (w1 & H1 & H)%bind_Ok. eapply IH; [|done]. by eapply Orderly_simulatePassenger.
Qed.

Lemma Orderly_admitPassenger (s s1 : Sim) :
  Orderly (world s) -> admitPassenger s = Ok s1 -> Orderly (world s1).
Proof.
  intros [Hq Hocc].
  destruct (admitPassenger_cases s) as [Ha|[Ha|(p & rest & c & _ & Hc & He & Ha)]];
    rewrite Ha; intros [= <-]; [done|]. simpl. split.
  - apply initializeAt_PaxInv; [apply NotSeat_entry|done].
  - intros i ci' Hi Hseat. simpl in Hi. rewrite list_lookup_alter in Hi.
    destruct (decide (startingCell (plane (world s)) = i)) as [<-|Hne].
    + rewrite Hc in Hi. injection Hi as <-. simpl.
      rewrite (isEmpty_contents _ He). by rewrite size_enter_empty.
    + by eapply Hocc.
Qed.

Lemma Orderly_loopBody (luggage : nat -> Z) (tickLengthms : Z) (s : Sim) (e : BodyEnd) :
  Orderly (world s) -> loopBody luggage tickLengthms s = Ok e -> Orderly (world (bodyState e)).
Proof.
  intros inv. unfold loopBody. intros (s1 & H1 & H)%bind_Ok.
  apply Orderly_admitPassenger in H1; [|done].
  destruct (allSeated _ _); [by injection H as <-|].
  apply bind_Ok in H as (w & Hw & [= <-]). simpl. by eapply Orderly_simulateAll.
Qed.

Lemma Orderly_init (m : Method) : Orderly (initWorld seatLayout m).
Proof.
  split; [apply initWorld_PaxInv|].
  destruct (generateAircraft_GenInv seatLayout) as (r & pa & inv).
  intros i c Hc _. simpl in Hc. rewrite (gi_contents _ _ _ inv _ _ Hc), size_empty. lia.
Qed.

Lemma Orderly_TickBoundary (luggage : nat -> Z) (run : nat -> bool) (tickLengthms : Z)
    (random : nat -> nat) (m : Method) (s0 s : Sim) :
  initSim random seatLayout m = Some s0 ->
  TickBoundary luggage run tickLengthms s0 s -> Orderly (world s).
Proof.
  intros Hinit. induction 1 as [|s s' _ IH _ Hbody].
  - rewrite (initSim_world _ _ _ _ Hinit). apply Orderly_init.
  - apply (Orderly_loopBody _ _ _ _ IH Hbody).
Qed.

End AisleOccupancy.

(** C2, as the code has it. When no row pattern has more than one [A], then
    at every tick boundary of a run every cell that is not a seat, that is
    the entry cell and every aisle cell, holds at most one passenger. *)
Theorem aisle_occupancy (luggage : nat -> Z) (run : nat -> bool) (tickLengthms : Z)
    (random : nat -> nat) (seatLayout : list RowSpec) (m : Method) (s0 s : Sim) :
  Forall (fun rs => (aisleCount (layout rs) ≤ 1)%nat) seatLayout ->
  initSim random seatLayout m = Some s0 ->
  TickBoundary luggage run tickLengthms s0 s ->
  ∀ i c, grid (plane (world s)) !! i = Some c -> isSeat c = false ->
         (size (contents c) ≤ 1)%nat.
Proof.
  intros Hfit Hinit Hs.
  by destruct (Orderly_TickBoundary seatLayout Hfit luggage run tickLengthms random m s0 s
                 Hinit Hs) as [_ Hocc].
Qed.

(** ** The scenarios, run *)

Lemma afterTicks_TickBoundary (luggage : nat -> Z) (run : nat -> bool) (tickLengthms : Z)
    (s0 : Sim) (n : nat) :
  ∀ s s', TickBoundary luggage run tickLengthms s0 s ->
    afterTicks luggage run tickLengthms n s = Some s' ->
    TickBoundary luggage run tickLengthms s0 s'.
Proof.
  induction n as [|n IH]; intros s s' Hs; simpl.
  - by intros [= <-].
  - destruct (loopCond run s) eqn:Hcond; [|done].
    destruct (loopBody luggage tickLengthms s) as [[s1|s1]|e] eqn:Hbody; try done.
    apply IH. by eapply boundary_tick.
Qed.

(** C2 fails as stated: with two aisles in a row, the passenger of seat 1B
    walks from the first aisle cell through seat 1A into the second aisle
    cell without testing it, while the passenger of seat 2A waits there for
    the aisle cell of row 2 to clear: after six ticks that aisle cell holds
    both. *)
Lemma aisle_holds_two :
  ∃ s0 s c this1 this2,
    initSim (fun _ => 0%nat) twoAisles MethodBtf = Some s0 ∧
    TickBoundary firstSlow (fun _ => true) 100 s0 s ∧
    grid (plane (world s)) !! 3%nat = Some c ∧ isSeat c = false ∧
    contents c = {[1%nat; 2%nat]} ∧ size (contents c) = 2%nat ∧
    pax (world s) !! 1%nat = Some this1 ∧ cell this1 = Some 3%nat ∧
    pax (world s) !! 2%nat = Some this2 ∧ cell this2 = Some 3%nat.
Proof.
  eexists _, _, _, _, _. split; [by vm_compute|]. split_and!.
  - eapply (afterTicks_TickBoundary _ _ _ _ 6); [apply boundary_start|by vm_compute].
  - by vm_compute.
  - done.
  - by vm_compute.
  - by vm_compute.
  - by vm_compute.
  - done.
  - by vm_compute.
  - done.
Qed.

(** Seat cells are shared as well: in the completion scenario, after nine
    ticks, the passenger bound for seat 1A stands in the cell of seat 1B,
    which its own passenger occupies. *)
Lemma occupancy_two_in_seat :
  ∃ s0 s this c,
    initSim (fun _ => 0%nat) oneRow MethodBtf = Some s0 ∧
    TickBoundary (fun _ => 0) (fun _ => true) 100 s0 s ∧
    pax (world s) !! 0%nat = Some this ∧
    cell this = Some 2%nat ∧ targetSeat this ≠ 2%nat ∧
    grid (plane (world s)) !! 2%nat = Some c ∧
    size (contents c) = 2%nat.
Proof.
  eexists oneRowStart, _, _, _. split; [by vm_compute|]. split_and!.
  - eapply (afterTicks_TickBoundary _ _ _ _ 9); [apply boundary_start|by vm_compute].
  - by vm_compute.
  - done.
  - done.
  - by vm_compute.
  - by vm_compute.
Qed.

(** C10 fails as stated: on a row whose letter counter wraps around, the
    passenger of the last seat takes the wrong direction, reaches the end of
    the row in state [LoadingUp], and the next move reads [null]. *)
Lemma loading_without_neighbor :
  ∃ s0 s this here,
    initSim (fun _ => 0%nat) wrapLayout MethodBtf = Some s0 ∧
    TickBoundary (fun _ => 0) (fun _ => true) 100 s0 s ∧
    1%nat ∈ activePax s ∧
    pax (world s) !! 1%nat = Some this ∧
    targetSeat this ∈ seats (plane (world s)) ∧
    state this = Some LoadingUp ∧ timeToTransition this - 100 ≤ 0 ∧
    cell this = Some 1%nat ∧
    grid (plane (world s)) !! 1%nat = Some here ∧ up here = None ∧
    loopBody (fun _ => 0) 100 s = Throw TypeError.
Proof.
  eexists _, _, _, _. split; [by vm_compute|]. split_and!.
  - eapply (afterTicks_TickBoundary _ _ _ _ 3); [apply boundary_start|by vm_compute].
  - set_solver.
  - by vm_compute.
  - simpl. set_solver.
  - done.
  - done.
  - done.
  - by vm_compute.
  - done.
  - by vm_compute.
Qed.

(** ** The theorems at work on the one-row layout *)


Lemma aisle_occupancy_witness :
  ∃ s0 s c,
    initSim (fun _ => 0%nat) oneRow MethodBtf = Some s0 ∧
    afterTicks (fun _ => 0) (fun _ => true) 100 5 s0 = Some s ∧
    grid (plane (world s)) !! 3%nat = Some c ∧ isSeat c = false ∧
    (size (contents c) ≤ 1)%nat.
Proof.
  eexists oneRowStart, _, _.
  split; [vm_compute; reflexivity|]. split; [vm_compute; reflexivity|].
  split; [vm_compute; reflexivity|]. split; [reflexivity|].
  eapply (aisle_occupancy (fun _ => 0) (fun _ => true) 100 (fun _ => 0%nat) oneRow MethodBtf
            oneRowStart) with (i := 3%nat).
  - repeat constructor.
  - vm_compute; reflexivity.
  - eapply (afterTicks_TickBoundary _ _ _ _ 5); [apply boundary_start|vm_compute; reflexivity].
  - vm_compute; reflexivity.
  - reflexivity.
Defined.

Lemma admission_throttling_witness :
  ∃ e, loopBody (fun _ => 0) 100 oneRowStart = Ok e ∧
    ((activePax (bodyState e) = activePax oneRowStart ∧
      pendingPax (bodyState e) = pendingPax oneRowStart) ∨
     (∃ p start,
        activePax (bodyState e) = activePax oneRowStart ++ [p] ∧
        pendingPax oneRowStart = pendingPax (bodyState e) ++ [p] ∧
        grid (plane (world oneRowStart)) !! startingCell (plane (world oneRowStart))
          = Some start ∧
        isEmpty start = true)).
Proof.
  eexists. split; [vm_compute; reflexivity|].
  apply (proj1 (admission_throttling (fun _ => 0) 100 oneRowStart)).
  vm_compute; reflexivity.
Defined.

Lemma neighbor_symmetry_witness :
  ∃ cellB, grid (generateAircraft oneRow) !! 3%nat = Some cellB ∧ left cellB = Some 0%nat.
Proof.
  refine (proj1 (neighbor_symmetry oneRow 0%nat 3%nat _ _) _);
    [vm_compute; reflexivity|reflexivity].
Defined.

Lemma iteration_ceiling_witness :
  ∃ s, simulate (fun _ => 0%nat) (fun _ => true) (Some 100) (Some (fun _ => 0)) oneRow MethodBtf
         = Finished s ∧
    0 ≤ iterCount s ≤ maxIterations ∧
    (runState s = Completed -> iterCount s < maxIterations) ∧
    (iterCount s = maxIterations -> runState s = Stalled).
Proof.
  eexists. split; [vm_compute; reflexivity|].
  apply (proj2 (iteration_ceiling (fun _ => 0%nat) (fun _ => true) (Some 100)
                  (Some (fun _ => 0)) oneRow MethodBtf)).
  vm_compute; reflexivity.
Defined.

Lemma findSeat_never_raises_witness :
  ∃ r, findSeat (generateAircraft oneRow) (str "1C") = Ok r ∧
    ((unparsable (str "1C") ∧ r = None) ∨
     ∃ targetRow targetCol, parsedAs (str "1C") targetRow targetCol ∧
       match r with
       | Some seat =>
           ∃ before after, seats (generateAircraft oneRow) = before ++ seat :: after ∧
             seatNamed (generateAircraft oneRow) targetRow targetCol seat ∧
             Forall (fun s => ¬ seatNamed (generateAircraft oneRow) targetRow targetCol s)
               before
       | None =>
           Forall (fun s => ¬ seatNamed (generateAircraft oneRow) targetRow targetCol s)
             (seats (generateAircraft oneRow))
       end).
Proof.
  apply (findSeat_never_raises (generateAircraft oneRow) (str "1C")).
  assert (seats (generateAircraft oneRow) = [1; 2; 4; 5]%nat) as -> by (vm_compute; reflexivity).
  repeat (constructor; [eexists; vm_compute; reflexivity|]). constructor.
Defined.

Lemma loading_neighbor_present_witness :
  ∃ s0 s this,
    initSim (fun _ => 0%nat) oneRow MethodBtf = Some s0 ∧
    afterTicks (fun _ => 0) (fun _ => true) 100 9 s0 = Some s ∧
    pax (world s) !! 0%nat = Some this ∧ state this = Some LoadingUp ∧
    ∃ c here n, cell this = Some c ∧ grid (plane (world s)) !! c = Some here ∧
                up here = Some n.
Proof.
  eexists oneRowStart, _, _.
  split; [vm_compute; reflexivity|]. split; [vm_compute; reflexivity|].
  split; [vm_compute; reflexivity|]. split; [reflexivity|].
  refine (proj1 (proj1 (loading_neighbor_present (fun _ => 0) (fun _ => true) 100
                           (fun _ => 0%nat) oneRow MethodBtf oneRowStart _ _ _ _)
                    0%nat _ _) _).
  - repeat constructor. vm_compute. discriminate.
  - vm_compute; reflexivity.
  - eapply (afterTicks_TickBoundary _ _ _ _ 9); [apply boundary_start|vm_compute; reflexivity].
  - vm_compute; reflexivity.
  - reflexivity.
Defined.

(** * Further properties *)

Lemma uintToString_digits (d : Decimal.uint) : Forall (fun c => isDigit c = true) (uintToString d).
Proof. induction d; simpl; constructor; done. Qed.

Lemma stringToNumber_acc (d : Decimal.uint) (acc : positive) :
  fold_left (fun a c => 10 * a + (c - 48)) (uintToString d) (Z.pos acc) =
  Z.pos (Pos.of_uint_acc d acc).
Proof.
  revert acc. induction d; intros acc; simpl; [done|..]; rewrite <- IHd; f_equal; lia.
Qed.

Lemma stringToNumber_uint (d : Decimal.uint) :
  stringToNumber (uintToString d) = Z.of_N (Pos.of_uint d).
Proof.
  unfold stringToNumber. induction d; simpl; [done|done|..];
    by rewrite <- stringToNumber_acc.
Qed.

Lemma stringToNumber_numberToString (n : Z) : 0 ≤ n -> stringToNumber (numberToString n) = n.
Proof.
  intros Hn. unfold numberToString. rewrite stringToNumber_uint.
  change (Pos.of_uint ?d) with (N.of_uint d).
  rewrite DecimalN.Unsigned.of_to. lia.
Qed.

Lemma numberToString_nonempty (n : Z) : numberToString n ≠ [].
Proof.
  unfold numberToString. destruct (Z.to_N n) as [|p]; [done|]. simpl.
  pose proof (DecimalPos.Unsigned.to_uint_nonnil p) as H.
  destruct (Pos.to_uint p); done.
Qed.

Lemma span_all (f : Z -> bool) (s rest : JSString) :
  Forall (fun c => f c = true) s ->
  span f (s ++ rest) = (s ++ (span f rest).1, (span f rest).2).
Proof.
  induction 1 as [|c s Hc _ IH]; simpl.
  - by destruct (span f rest).
  - rewrite Hc, IH. done.
Qed.

Lemma regexMatch_seatToString (r k : Z) :
  regexMatch (seatToString r k) = if isUpper k then Some (numberToString r, [k]) else None.
Proof.
  destruct (isUpper k) eqn:Hk.
  - unfold seatToString, numberToString.
    pose proof (numberToString_nonempty r) as Hne. unfold numberToString in Hne.
    pose proof (uintToString_digits (N.to_uint (Z.to_N r))) as Hd.
    destruct (uintToString (N.to_uint (Z.to_N r))) as [|d ds] eqn:E; [done|].
    assert (isDigit k = false) as Hn by (unfold isDigit, isUpper in *; lia).
    cbn [regexMatch app]. unfold matchHere.
    change (d :: ds ++ [k]) with ((d :: ds) ++ [k]).
    rewrite (span_all _ _ _ Hd). cbn [span]. rewrite Hn. cbn [fst snd span]. rewrite Hk.
    by rewrite app_nil_r.
  - destruct (regexMatch (seatToString r k)) as [[digits letters]|] eqn:E; [|done].
    apply regexMatch_sound in E as (pre & post & Hs & _ & Hl & _ & Hup).
    destruct letters as [|l letters]; [done|]. apply Forall_cons in Hup as [Hup _].
    assert (l ∈ seatToString r k) as Hin by (rewrite Hs, !elem_of_app, elem_of_cons; tauto).
    unfold seatToString in Hin. apply elem_of_app in Hin as [Hin|Hin].
    + pose proof (uintToString_digits (N.to_uint (Z.to_N r))) as Hd.
      rewrite Forall_forall in Hd. specialize (Hd l Hin).
      unfold isDigit, isUpper in *. lia.
    + apply list_elem_of_singleton in Hin as ->. congruence.
Qed.

(** X1. On a compiled aircraft whose column letters do not wrap around,
    [findSeat] applied to the name of a seat, as [Seat.toString] gives it,
    returns that very seat when its letter is one of [A] to [Z], and null
    when it is not: the regular expression has no letter to match. *)
Theorem findSeat_own_name (seatLayout : list RowSpec) (i : nat) (c : Cell) (r k : Z) :
  Forall (fun rs => slotCount (layout rs) ≤ 65471) seatLayout ->
  i ∈ seats (generateAircraft seatLayout) ->
  grid (generateAircraft seatLayout) !! i = Some c -> row c = Some r -> col c = Some k ->
  findSeat (generateAircraft seatLayout) (seatToString r k) =
    Ok (if isUpper k then Some i else None).
Proof.
  intros Hfit Hi Hc Hr Hk. unfold findSeat. rewrite regexMatch_seatToString.
  destruct (isUpper k) eqn:Hup; [|done].
  destruct (generateAircraft_GenInv seatLayout) as (r0 & pa & inv).
  pose proof (gi_seats _ _ _ inv) as Hseats. simpl in Hseats.
  pose proof (generate_SeatsOrdered seatLayout Hfit) as Hord.
  assert (0 ≤ r) as Hr0.
  { destruct (gi_seat_rows _ _ _ inv i c Hc) as (rr & kk & Hrr & _ & ? & _).
    - unfold isSeat. by rewrite Hr, Hk.
    - simpl in Hrr. rewrite Hr in Hrr. injection Hrr as <-. lia. }
  assert (seatMatches (generateAircraft seatLayout) (numberToString r) [k] i) as Hmatch.
  { exists c, r, k. by rewrite stringToNumber_numberToString. }
  destruct (findSeatLoop_spec (generateAircraft seatLayout) (numberToString r) [k]
              (seats (generateAircraft seatLayout))) as (res & -> & Hres).
  { eapply Forall_impl; [exact Hseats|]. intros j (cj & -> & _). by eexists. }
  f_equal. destruct res as [seat|].
  - destruct Hres as (before & after & _ & (c' & r' & k' & Hc' & Hr' & Hk' & -> & [= <-]) & _).
    rewrite stringToNumber_numberToString in Hr' by done.
    f_equal. destruct (lt_eq_lt_dec seat i) as [[Hlt| -> ]|Hgt]; [exfalso| done |exfalso].
    + destruct (Hord seat i c' c Hlt Hc' Hc) as [(k1 & k2 & E1 & E2 & Hlt') _];
        [unfold isSeat; by rewrite Hr', Hk'|unfold isSeat; by rewrite Hr, Hk|congruence|].
      rewrite Hk' in E1. rewrite Hk in E2. injection E1 as <-. injection E2 as <-. lia.
    + destruct (Hord i seat c c' Hgt Hc Hc') as [(k1 & k2 & E1 & E2 & Hlt') _];
        [unfold isSeat; by rewrite Hr, Hk|unfold isSeat; by rewrite Hr', Hk'|congruence|].
      rewrite Hk' in E2. rewrite Hk in E1. injection E1 as <-. injection E2 as <-. lia.
  - rewrite Forall_forall in Hres. by destruct (Hres i Hi).
Qed.

Section AircraftLift.

Variable Q : Aircraft -> Prop.
Hypothesis Q_step : ∀ a r x j c st,
  GenInv a r st -> Q (aircraft st) -> Q (aircraft (genCell x r j c st)).
Hypothesis Q_init : Q (aircraft genInit.2).

Lemma genCells_Q (a : nat) (r x : Z) (symbols : JSString) :
  ∀ j st, GenInv a r st -> Q (aircraft st) -> Q (aircraft (genCells x r j symbols st)).
Proof.
  induction symbols as [|c rest IH]; intros j st inv HQ; simpl; [done|].
  apply IH; [by apply genCell_GenInv|by eapply Q_step].
Qed.

Lemma genRepeat_Q (n : nat) (symbols : JSString) :
  ∀ x r st, BetweenRows r st -> Q (aircraft st) ->
    Q (aircraft (genRepeat n symbols (x, r, st)).2).
Proof.
  induction n as [|n IH]; intros x r st inv HQ; simpl; [done|].
  apply IH; [by apply genRow_GenInv|].
  unfold genRow. eapply genCells_Q; [apply inv|done].
Qed.

Lemma generateAircraft_Q (seatLayout : list RowSpec) : Q (generateAircraft seatLayout).
Proof.
  assert (∀ s, BetweenRows s.1.2 s.2 -> Q (aircraft s.2) ->
            Q (aircraft (fold_left genRowSpec seatLayout s).2)) as H.
  { induction seatLayout as [|rs rest IH]; intros [[x r] st] inv HQ; simpl; [done|].
    apply IH; [by apply genRepeat_GenInv|by apply genRepeat_Q]. }
  apply (H genInit genInit_GenInv Q_init).
Qed.

End AircraftLift.

Lemma isSeatAt_old (st st' : GenState) (aisle : bool) (y : Z) (cnew : Cell) (i : nat) :
  Extended st st' aisle y cnew -> (i < length (grid (aircraft st)))%nat ->
  isSeatAt (grid (aircraft st')) i = isSeatAt (grid (aircraft st)) i.
Proof.
  intros E Hi. unfold isSeatAt. destruct (lookup_lt_is_Some_2 _ _ Hi) as [c0 H0].
  rewrite (Extended_old _ _ _ _ _ _ _ E H0), H0.
  by destruct (retouch_fields st aisle y i c0) as (_ & _ & _ & _ & _ & -> & _).
Qed.

Lemma seatCells_extend (st st' : GenState) (aisle : bool) (y : Z) (cnew : Cell) :
  Extended st st' aisle y cnew ->
  length (grid (aircraft st')) = S (length (grid (aircraft st))) ->
  seatCells (grid (aircraft st')) =
  seatCells (grid (aircraft st)) ++
  (if isSeat cnew then [length (grid (aircraft st))] else []).
Proof.
  intros E Hlen. unfold seatCells. rewrite Hlen, seq_S, filter_app. simpl. f_equal.
  - apply (filter_ext_in (fun i => isSeatAt (grid (aircraft st')) i = true)
             (fun i => isSeatAt (grid (aircraft st)) i = true)). intros i Hi. apply elem_of_seq in Hi as [_ Hi]. simpl in Hi.
    by rewrite (isSeatAt_old _ _ _ _ _ _ E) by lia.
  - assert (isSeatAt (grid (aircraft st')) (length (grid (aircraft st))) = isSeat cnew) as Hn.
    { unfold isSeatAt. pose proof (E (length (grid (aircraft st)))) as En.
      rewrite decide_True in En by done. by rewrite En. }
    rewrite filter_cons, filter_nil, Hn.
    destruct (isSeat cnew); by case_decide.
Qed.

Lemma genCell_seatCells (a : nat) (r x j c : Z) (st : GenState) :
  GenInv a r st -> seats (aircraft st) = seatCells (grid (aircraft st)) ->
  seats (aircraft (genCell x r j c st)) = seatCells (grid (aircraft (genCell x r j c st))).
Proof.
  intros inv HQ.
  destruct (symbol_cases c) as [->|[->|[->|(H1 & H2 & H3)]]].
  - rewrite (seatCells_extend _ _ _ _ _ (genCell_seat_Extended a r x j st inv)).
    + simpl. by rewrite HQ.
    + rewrite genCell_length. rewrite decide_True by (by left). lia.
  - rewrite (seatCells_extend _ _ _ _ _ (genCell_aisle_Extended a r x j st inv)).
    + simpl. by rewrite app_nil_r.
    + rewrite genCell_length. rewrite decide_True by (by right). lia.
  - done.
  - by rewrite genCell_other.
Qed.

Lemma generate_seatCells (seatLayout : list RowSpec) :
  seats (generateAircraft seatLayout) = seatCells (grid (generateAircraft seatLayout)).
Proof.
  apply (generateAircraft_Q (fun a => seats a = seatCells (grid a))).
  - intros a r x j c st. apply genCell_seatCells.
  - done.
Qed.

Lemma seatCells_NoDup (g : list Cell) : NoDup (seatCells g).
Proof. apply NoDup_filter, NoDup_seq. Qed.

(** X2. The seat list of a compiled aircraft is the list of the seat cells
    of its grid, in grid order: every seat cell is in it, once, and nothing
    else is. *)
Theorem seats_are_the_seat_cells (seatLayout : list RowSpec) :
  seats (generateAircraft seatLayout) = seatCells (grid (generateAircraft seatLayout)) ∧
  NoDup (seats (generateAircraft seatLayout)) ∧
  ∀ i, i ∈ seats (generateAircraft seatLayout) ↔
       ∃ c, grid (generateAircraft seatLayout) !! i = Some c ∧ isSeat c = true.
Proof.
  rewrite generate_seatCells. split; [done|]. split; [apply seatCells_NoDup|].
  intros i. unfold seatCells, isSeatAt. rewrite list_elem_of_filter, elem_of_seq. split.
  - intros [Hs _]. destruct (grid (generateAircraft seatLayout) !! i) as [c|]; [|done].
    by exists c.
  - intros (c & Hc & Hs). rewrite Hc. split; [done|]. apply lookup_lt_Some in Hc. lia.
Qed.

(** The rows and the letters that have a seat. *)
Lemma genCell_rows_cols (a : nat) (r x j c : Z) (st : GenState) :
  GenInv a r st ->
  rows (aircraft st) = list_to_set (omap fst (seatIds (aircraft st))) ∧
  cols (aircraft st) = list_to_set (omap snd (seatIds (aircraft st))) ->
  rows (aircraft (genCell x r j c st)) =
    list_to_set (omap fst (seatIds (aircraft (genCell x r j c st)))) ∧
  cols (aircraft (genCell x r j c st)) =
    list_to_set (omap snd (seatIds (aircraft (genCell x r j c st)))).
Proof.
  intros inv [Hr Hc]. rewrite (genCell_seatIds a) by done.
  pose proof (gi_rowIndex _ _ _ inv) as Hrow.
  destruct (symbol_cases c) as [->|[->|[->|(H1 & H2 & H3)]]].
  - rewrite decide_True by done. rewrite !omap_app, !list_to_set_app_L. simpl.
    destruct (Z.eqb_spec r 0) as [->|_]; [lia|].
    rewrite <- Hr, <- Hc, !union_empty_r_L. split; apply union_comm_L.
  - rewrite decide_False by (unfold char_A, char_S; lia). by rewrite !app_nil_r.
  - rewrite decide_False by (unfold char_plus, char_S; lia). by rewrite !app_nil_r.
  - rewrite genCell_other, decide_False, !app_nil_r by done. done.
Qed.

Lemma rows_cols_seatIds (seatLayout : list RowSpec) :
  rows (generateAircraft seatLayout) =
    list_to_set (omap fst (seatIdsFrom 1 (layoutRows seatLayout))) ∧
  cols (generateAircraft seatLayout) =
    list_to_set (omap snd (seatIdsFrom 1 (layoutRows seatLayout))).
Proof.
  pose proof (generate_seatIds seatLayout genInit genInit_GenInv) as Hids.
  simpl in Hids. fold (generateAircraft seatLayout) in Hids. rewrite <- Hids.
  apply (generateAircraft_Q (fun a => rows a = list_to_set (omap fst (seatIds a)) ∧
                                      cols a = list_to_set (omap snd (seatIds a)))).
  - intros a r x j c st. apply genCell_rows_cols.
  - done.
Qed.

Lemma elem_of_rowSeatIds (r : Z) (symbols : JSString) (x : option Z * option Z) :
  x ∈ rowSeatIds r symbols ↔
  ∃ p, symbols !! p = Some char_S ∧
       x = (Some r, Some (fromCharCode (65 + slotsBefore symbols p))).
Proof.
  unfold rowSeatIds, seatPositions. rewrite list_elem_of_fmap. split.
  - intros (p & -> & [Hp _]%list_elem_of_filter). by exists p.
  - intros (p & Hp & ->). exists p. split; [done|].
    apply list_elem_of_filter. split; [done|].
    apply elem_of_seq. apply lookup_lt_Some in Hp. lia.
Qed.

Lemma elem_of_seatIdsFrom (patterns : list JSString) :
  ∀ r x, x ∈ seatIdsFrom r patterns ↔
    ∃ n symbols, patterns !! n = Some symbols ∧ x ∈ rowSeatIds (r + Z.of_nat n) symbols.
Proof.
  induction patterns as [|s rest IH]; intros r x.
  - split; [by intros ?%elem_of_nil|by intros (n & symbols & ? & _)].
  - rewrite seatIdsFrom_cons, elem_of_app, IH. split.
    + intros [H|(n & symbols & Hn & H)].
      * exists 0%nat, s. by rewrite Z.add_0_r.
      * exists (S n), symbols. split; [done|].
        by replace (r + Z.of_nat (S n)) with (r + 1 + Z.of_nat n) by lia.
    + intros ([|n] & symbols & Hn & H).
      * left. simpl in Hn. injection Hn as <-. by rewrite Z.add_0_r in H.
      * right. exists n, symbols. split; [done|].
        by replace (r + 1 + Z.of_nat n) with (r + Z.of_nat (S n)) by lia.
Qed.

Lemma rowSeatIds_rows (r : Z) (symbols : JSString) :
  (list_to_set (omap fst (rowSeatIds r symbols)) : gset Z) =
  if decide (char_S ∈ symbols) then {[r]} else ∅.
Proof.
  apply set_eq. intros x. rewrite elem_of_list_to_set, list_elem_of_omap.
  setoid_rewrite elem_of_rowSeatIds. case_decide as HS.
  - rewrite elem_of_singleton. split.
    + intros (y & (p & _ & ->) & [= ->]). done.
    + intros ->. apply list_elem_of_lookup in HS as [p Hp].
      eexists. split; [by exists p|done].
  - split; [|by intros ?%not_elem_of_empty].
    intros (y & (p & Hp & _) & _). destruct HS. by eapply list_elem_of_lookup_2.
Qed.

Lemma seatIdsFrom_rows (patterns : list JSString) :
  ∀ r, size (list_to_set (omap fst (seatIdsFrom r patterns)) : gset Z) =
         length (filter (fun symbols => char_S ∈ symbols) patterns) ∧
       ∀ x, x ∈ (list_to_set (omap fst (seatIdsFrom r patterns)) : gset Z) -> r ≤ x.
Proof.
  induction patterns as [|s rest IH]; intros r.
  - split; [done|]. intros x Hx. by apply not_elem_of_empty in Hx.
  - rewrite seatIdsFrom_cons, omap_app, list_to_set_app_L, rowSeatIds_rows, filter_cons.
    destruct (IH (r + 1)) as [Hsize Hge]. case_decide.
    + split.
      * rewrite size_union, size_singleton, Hsize; [done|].
        intros x ->%elem_of_singleton Hx. specialize (Hge _ Hx). lia.
      * intros x [->%elem_of_singleton|Hx]%elem_of_union; [lia|]. specialize (Hge _ Hx). lia.
    + rewrite !union_empty_l_L. split; [done|]. intros x Hx. specialize (Hge _ Hx). lia.
Qed.

(** X3. What [addCell] has recorded when the aircraft is compiled: [rows]
    holds the numbers of the rows that have a seat, [cols] the letters that
    some seat has, and [rowCount] is the number of rows with a seat, not the
    number of rows. *)
Theorem rows_and_cols_recorded (seatLayout : list RowSpec) :
  (∀ r, r ∈ rows (generateAircraft seatLayout) ↔
        ∃ n symbols, layoutRows seatLayout !! n = Some symbols ∧ char_S ∈ symbols ∧
                     r = 1 + Z.of_nat n) ∧
  (∀ k, k ∈ cols (generateAircraft seatLayout) ↔
        ∃ symbols p, symbols ∈ layoutRows seatLayout ∧ symbols !! p = Some char_S ∧
                     k = fromCharCode (65 + slotsBefore symbols p)) ∧
  rowCount (generateAircraft seatLayout) =
    Z.of_nat (length (filter (fun symbols => char_S ∈ symbols) (layoutRows seatLayout))).
Proof.
  destruct (rows_cols_seatIds seatLayout) as [Hr Hc]. split_and!.
  - intros r. rewrite Hr, elem_of_list_to_set, list_elem_of_omap.
    setoid_rewrite elem_of_seatIdsFrom. setoid_rewrite elem_of_rowSeatIds. split.
    + intros (y & (n & symbols & Hn & p & Hp & ->) & [= <-]).
      exists n, symbols. split; [done|]. split; [by eapply list_elem_of_lookup_2|done].
    + intros (n & symbols & Hn & [p Hp]%list_elem_of_lookup & ->).
      exists (Some (1 + Z.of_nat n), Some (fromCharCode (65 + slotsBefore symbols p))).
      split; [|done]. exists n, symbols. split; [done|]. by exists p.
  - intros k. rewrite Hc, elem_of_list_to_set, list_elem_of_omap.
    setoid_rewrite elem_of_seatIdsFrom. setoid_rewrite elem_of_rowSeatIds. split.
    + intros (y & (n & symbols & Hn & p & Hp & ->) & [= <-]).
      exists symbols, p. split; [by eapply list_elem_of_lookup_2|done].
    + intros (symbols & p & [n Hn]%list_elem_of_lookup & Hp & ->).
      exists (Some (1 + Z.of_nat n), Some (fromCharCode (65 + slotsBefore symbols p))).
      split; [|done]. exists n, symbols. split; [done|]. by exists p.
  - unfold rowCount. rewrite Hr. f_equal. apply seatIdsFrom_rows.
Qed.

Lemma walk_snoc (dir : Cell -> option nat) (g : list Cell) (k : nat) :
  ∀ a b d e, walk dir g k a = Some b -> g !! b = Some d -> dir d = Some e ->
    walk dir g (S k) a = Some e.
Proof.
  induction k as [|k IH]; intros a b d e Hw Hb Hd.
  - simpl in Hw. injection Hw as ->. simpl. by rewrite Hb; simpl; rewrite Hd.
  - cbn [walk] in Hw |- *.
    destruct (g !! a) as [c|]; [|done]. simpl in *.
    destruct (dir c) as [j|]; [|done]. simpl in *. by eapply IH.
Qed.

Lemma walk_last (dir : Cell -> option nat) (g : list Cell) (k : nat) :
  ∀ a e, walk dir g (S k) a = Some e ->
    ∃ b d, walk dir g k a = Some b ∧ g !! b = Some d ∧ dir d = Some e.
Proof.
  induction k as [|k IH]; intros a e Hw.
  - simpl in Hw. destruct (g !! a) as [c|] eqn:Ha; [|done]. simpl in Hw.
    destruct (dir c) as [j|] eqn:Hj; [|done]. simpl in Hw. injection Hw as ->.
    by exists a, c.
  - cbn [walk] in Hw. destruct (g !! a) as [c|] eqn:Ha; [|done]. simpl in Hw.
    destruct (dir c) as [j|] eqn:Hj; [|done]. simpl in Hw.
    destruct (IH _ _ Hw) as (b & d & Hb & Hd & He).
    exists b, d. split; [|done]. cbn [walk]. rewrite Ha. simpl. by rewrite Hj.
Qed.

(** A walk along [left] links, read backwards, is a walk along [right]
    links when the links are symmetric. *)
Lemma walk_left_right (g : list Cell) :
  (∀ i c j, g !! i = Some c -> left c = Some j ->
            ∃ d, g !! j = Some d ∧ right d = Some i) ->
  ∀ k i j, walk left g k i = Some j -> walk right g k j = Some i.
Proof.
  intros Hsym. induction k as [|k IH]; intros i j Hw.
  - simpl in *. by injection Hw as ->.
  - cbn [walk] in Hw. destruct (g !! i) as [c|] eqn:Hi; [|done]. simpl in Hw.
    destruct (left c) as [i'|] eqn:Hl; [|done]. simpl in Hw.
    destruct (Hsym _ _ _ Hi Hl) as (d & Hd & Hr).
    eapply walk_snoc; [by apply IH|done|done].
Qed.

Lemma walk_left_old (st st' : GenState) (aisle : bool) (y : Z) (cnew : Cell) (k : nat) :
  Extended st st' aisle y cnew ->
  ∀ i j, walk left (grid (aircraft st)) k i = Some j ->
         walk left (grid (aircraft st')) k i = Some j.
Proof.
  intros E. induction k as [|k IH]; intros i j Hw; [done|].
  cbn [walk] in Hw |- *. destruct (grid (aircraft st) !! i) as [c|] eqn:Hi; [|done].
  rewrite (Extended_old _ _ _ _ _ _ _ E Hi). simpl in *.
  destruct (retouch_fields st aisle y i c) as (_ & _ & _ & _ & -> & _).
  destruct (left c) as [i'|]; [|done]. simpl in *. by apply IH.
Qed.

Lemma genCell_aisle_path (a : nat) (r x j c : Z) (st : GenState) :
  GenInv a r st ->
  (∀ i ci, grid (aircraft st) !! i = Some ci -> isSeat ci = false ->
           ∃ k, walk left (grid (aircraft st)) k i = Some 0%nat) ->
  ∀ i ci, grid (aircraft (genCell x r j c st)) !! i = Some ci -> isSeat ci = false ->
          ∃ k, walk left (grid (aircraft (genCell x r j c st))) k i = Some 0%nat.
Proof.
  intros inv HQ.
  destruct (symbol_cases c) as [->|[->|[->|(H1 & H2 & H3)]]].
  - pose proof (genCell_seat_Extended a r x j st inv) as E. intros i ci Hi Hs.
    destruct (Extended_inv _ _ _ _ _ _ _ E Hi) as [[-> ->]|[_ (c0 & H0 & ->)]]; [done|].
    destruct (retouch_fields st false (j * CELLSIZE) i c0) as (_ & _ & _ & _ & _ & Es & _).
    rewrite Es in Hs. destruct (HQ _ _ H0 Hs) as [k Hk].
    exists k. by eapply walk_left_old.
  - pose proof (genCell_aisle_Extended a r x j st inv) as E. intros i ci Hi Hs.
    destruct (Extended_inv _ _ _ _ _ _ _ E Hi) as [[-> ->]|[_ (c0 & H0 & ->)]].
    + destruct (gi_prevAisle _ _ _ inv) as (cpa & Hpa & _ & Hns).
      destruct (HQ _ _ Hpa Hns) as [k Hk].
      exists (S k). cbn [walk]. rewrite Hi.
      change (walk left (grid (aircraft (genCell x r j char_A st))) k (prevAisle st)
              = Some 0%nat).
      by eapply walk_left_old.
    + destruct (retouch_fields st true (j * CELLSIZE) i c0) as (_ & _ & _ & _ & _ & Es & _).
      rewrite Es in Hs. destruct (HQ _ _ H0 Hs) as [k Hk].
      exists k. by eapply walk_left_old.
  - done.
  - by rewrite genCell_other.
Qed.

(** From every cell that is not a seat, the [left] links lead back to the
    entry cell. *)
Lemma generate_walk_left (seatLayout : list RowSpec) (i : nat) (ci : Cell) :
  grid (generateAircraft seatLayout) !! i = Some ci -> isSeat ci = false ->
  ∃ k, walk left (grid (generateAircraft seatLayout)) k i = Some 0%nat.
Proof.
  revert i ci.
  apply (generateAircraft_Q (fun a => ∀ i ci, grid a !! i = Some ci -> isSeat ci = false ->
                               ∃ k, walk left (grid a) k i = Some 0%nat)).
  - intros a0 r0 x j c0 st. apply genCell_aisle_path.
  - intros i ci Hi _. simpl in Hi. apply list_lookup_singleton_Some in Hi as [-> _].
    by exists 0%nat.
Qed.

(** X4. In a compiled grid the cells reached from the entry cell along
    [right] links are exactly the cells that are not seats: every aisle cell
    is on the boarding path, and no seat is. *)
Theorem aisle_path (seatLayout : list RowSpec) (i : nat) :
  (∃ k, walk right (grid (generateAircraft seatLayout)) k
          (startingCell (generateAircraft seatLayout)) = Some i) ↔
  (∃ c, grid (generateAircraft seatLayout) !! i = Some c ∧ isSeat c = false).
Proof.
  destruct (generateAircraft_GenInv seatLayout) as (r & pa & inv).
  pose proof (gi_start _ _ _ inv) as Hstart. simpl in Hstart. rewrite Hstart.
  split.
  - intros [[|k] Hk].
    + simpl in Hk. injection Hk as <-. apply (gi_entry _ _ _ inv).
    + apply walk_last in Hk as (b & d & _ & Hb & Hd).
      destruct (gi_rightleft _ _ _ inv _ _ _ Hb Hd) as (c & Hc & Hl). simpl in Hc.
      exists c. split; [done|]. destruct (isSeat c) eqn:Hs; [|done].
      destruct (gi_seat_links _ _ _ inv _ _ Hc Hs) as [Hno _]. congruence.
  - intros (c & Hc & Hs).
    destruct (generate_walk_left seatLayout i c Hc Hs) as [k Hk].
    exists k. apply walk_left_right; [|done]. apply (gi_leftright _ _ _ inv).
Qed.

(** The corners found by the loop: they enclose the origin and every cell,
    and each is the origin's coordinate or the coordinate of a cell. *)
Lemma boxStep_fold (g : list Cell) :
  ∀ x1 y1 x2 y2, x1 ≤ 0 ≤ x2 -> y1 ≤ 0 ≤ y2 ->
    ∃ x1' y1' x2' y2', fold_left boxStep g (x1, y1, x2, y2) = (x1', y1', x2', y2') ∧
      x1' ≤ x1 ∧ x2 ≤ x2' ∧ y1' ≤ y1 ∧ y2 ≤ y2' ∧
      (∀ c, c ∈ g -> x1' ≤ cx c ≤ x2' ∧ y1' ≤ cy c ≤ y2') ∧
      (x1' = x1 ∨ ∃ c, c ∈ g ∧ cx c = x1') ∧ (x2' = x2 ∨ ∃ c, c ∈ g ∧ cx c = x2') ∧
      (y1' = y1 ∨ ∃ c, c ∈ g ∧ cy c = y1') ∧ (y2' = y2 ∨ ∃ c, c ∈ g ∧ cy c = y2').
Proof.
  induction g as [|c g IH]; intros x1 y1 x2 y2 Hx Hy.
  - exists x1, y1, x2, y2. split; [done|]. split_and!; try lia; try (by left).
    intros c Hc. by apply elem_of_nil in Hc.
  - cbn [fold_left]. unfold boxStep at 2.
    set (xs := if cx c <? x1 then (cx c, x2) else if x2 <? cx c then (x1, cx c) else (x1, x2)).
    set (ys := if cy c <? y1 then (cy c, y2) else if y2 <? cy c then (y1, cy c) else (y1, y2)).
    assert (xs.1 ≤ x1 ∧ x2 ≤ xs.2 ∧ xs.1 ≤ cx c ≤ xs.2 ∧
            (xs.1 = x1 ∨ cx c = xs.1) ∧ (xs.2 = x2 ∨ cx c = xs.2)) as Hxs.
    { unfold xs. destruct (Z.ltb_spec (cx c) x1); [simpl; lia|].
      destruct (Z.ltb_spec x2 (cx c)); simpl; lia. }
    assert (ys.1 ≤ y1 ∧ y2 ≤ ys.2 ∧ ys.1 ≤ cy c ≤ ys.2 ∧
            (ys.1 = y1 ∨ cy c = ys.1) ∧ (ys.2 = y2 ∨ cy c = ys.2)) as Hys.
    { unfold ys. destruct (Z.ltb_spec (cy c) y1); [simpl; lia|].
      destruct (Z.ltb_spec y2 (cy c)); simpl; lia. }
    destruct xs as [x1n x2n], ys as [y1n y2n]. simpl in Hxs, Hys.
    destruct (IH x1n y1n x2n y2n ltac:(lia) ltac:(lia))
      as (x1' & y1' & x2' & y2' & -> & ? & ? & ? & ? & Hall & Ha & Hb & Hc & Hd).
    exists x1', y1', x2', y2'. split; [done|]. split_and!; try lia.
    + intros d [->|Hd']%elem_of_cons; [lia|by apply Hall].
    + destruct Ha as [->|(d & ? & ?)]; [|right; exists d; split; [by right|done]].
      destruct Hxs as (_ & _ & _ & [->| <-] & _); [by left|right; exists c; split; [left|done]].
    + destruct Hb as [->|(d & ? & ?)]; [|right; exists d; split; [by right|done]].
      destruct Hxs as (_ & _ & _ & _ & [->| <-]); [by left|right; exists c; split; [left|done]].
    + destruct Hc as [->|(d & ? & ?)]; [|right; exists d; split; [by right|done]].
      destruct Hys as (_ & _ & _ & [->| <-] & _); [by left|right; exists c; split; [left|done]].
    + destruct Hd as [->|(d & ? & ?)]; [|right; exists d; split; [by right|done]].
      destruct Hys as (_ & _ & _ & _ & [->| <-]); [by left|right; exists c; split; [left|done]].
Qed.

(** X5. The box computed by [updateBoundingBox] encloses the origin and
    every cell of the grid, each with its side of [CELLSIZE], and it is the
    smallest such box: each of its sides is that of the origin cell or of
    some cell of the grid. *)
Theorem bounding_box_encloses (g : list Cell) :
  let b := updateBoundingBox g in
  (BoundingBox.x b ≤ 0 ∧ BoundingBox.y b ≤ 0 ∧
   CELLSIZE ≤ BoundingBox.x b + BoundingBox.width b ∧
   CELLSIZE ≤ BoundingBox.y b + BoundingBox.height b) ∧
  (∀ c, c ∈ g ->
     BoundingBox.x b ≤ cx c ∧ cx c + CELLSIZE ≤ BoundingBox.x b + BoundingBox.width b ∧
     BoundingBox.y b ≤ cy c ∧ cy c + CELLSIZE ≤ BoundingBox.y b + BoundingBox.height b) ∧
  (BoundingBox.x b = 0 ∨ ∃ c, c ∈ g ∧ cx c = BoundingBox.x b) ∧
  (BoundingBox.y b = 0 ∨ ∃ c, c ∈ g ∧ cy c = BoundingBox.y b) ∧
  (BoundingBox.x b + BoundingBox.width b = CELLSIZE ∨
   ∃ c, c ∈ g ∧ cx c + CELLSIZE = BoundingBox.x b + BoundingBox.width b) ∧
  (BoundingBox.y b + BoundingBox.height b = CELLSIZE ∨
   ∃ c, c ∈ g ∧ cy c + CELLSIZE = BoundingBox.y b + BoundingBox.height b).
Proof.
  unfold updateBoundingBox.
  destruct (boxStep_fold g 0 0 0 0 ltac:(lia) ltac:(lia))
    as (x1 & y1 & x2 & y2 & -> & ? & ? & ? & ? & Hall & Ha & Hb & Hc & Hd).
  cbn zeta. cbn [BoundingBox.x BoundingBox.y BoundingBox.width BoundingBox.height].
  unfold CELLSIZE. split_and!; try lia.
  - intros c Hc'. specialize (Hall c Hc'). lia.
  - destruct Ha as [->|(c & ? & ?)]; [by left|right; by exists c].
  - destruct Hc as [->|(c & ? & ?)]; [by left|right; by exists c].
  - destruct Hb as [->|(c & ? & ?)]; [left; lia|right; exists c; split; [done|lia]].
  - destruct Hd as [->|(c & ? & ?)]; [left; lia|right; exists c; split; [done|lia]].
Qed.

Section Shuffle.

Context {P : Type}.

Lemma shuffleFrom_ext (r1 r2 : nat -> nat) (i : nat) :
  (∀ k, (k ≤ i)%nat -> r1 k = r2 k) ->
  ∀ array : list P, shuffleFrom r1 i array = shuffleFrom r2 i array.
Proof.
  induction i as [|i IH]; intros Hr array; simpl; [done|].
  rewrite (Hr (S i)) by lia. apply IH. intros k Hk. apply Hr. lia.
Qed.

Lemma swap_app (i j : nat) (pre suf : list P) :
  (i < length pre)%nat -> (j < length pre)%nat ->
  swap i j (pre ++ suf) = swap i j pre ++ suf.
Proof.
  intros Hi Hj. unfold swap. rewrite !lookup_app_l by done.
  destruct (lookup_lt_is_Some_2 _ _ Hi) as [a ->].
  destruct (lookup_lt_is_Some_2 _ _ Hj) as [b ->].
  rewrite insert_app_l by done. rewrite insert_app_l by (by rewrite length_insert). done.
Qed.

Lemma swap_length (i j : nat) (array : list P) : length (swap i j array) = length array.
Proof.
  unfold swap. destruct (array !! i); [|done]. destruct (array !! j); [|done].
  by rewrite !length_insert.
Qed.

Lemma swap_lookup_l (i j : nat) (array : list P) (z : P) :
  (i < length array)%nat -> array !! j = Some z -> swap i j array !! i = Some z.
Proof.
  intros Hi Hj. unfold swap. destruct (lookup_lt_is_Some_2 _ _ Hi) as [a Ha].
  rewrite Ha, Hj. destruct (decide (i = j)) as [->|Hne].
  - rewrite list_lookup_insert_eq by (by rewrite length_insert). congruence.
  - rewrite list_lookup_insert_ne by done. by rewrite list_lookup_insert_eq.
Qed.

Lemma shuffleFrom_reaches (i : nat) :
  ∀ pre pre' suf : list P, length pre = S i -> pre ≡ₚ pre' ->
    ∃ random, shuffleFrom random i (pre ++ suf) = pre' ++ suf.
Proof.
  induction i as [|i IH]; intros pre pre' suf Hlen Hperm.
  - exists (fun _ => 0%nat). simpl.
    destruct pre as [|a [|]]; simpl in Hlen; try lia.
    by apply Permutation_singleton_l in Hperm as ->.
  - assert (length pre' = S (S i)) as Hlen' by (by rewrite <- Hperm).
    destruct (decide (pre' = [])) as [->|Hne]; [done|].
    destruct (exists_last Hne) as (q & z & ->).
    assert (z ∈ pre) as [j Hj]%list_elem_of_lookup by (rewrite Hperm; apply elem_of_app; right; left).
    pose proof (lookup_lt_Some _ _ _ Hj) as Hjlt.
    set (s := swap (S i) j pre).
    assert (s !! S i = Some z) as Hlast by (apply swap_lookup_l; [lia|done]).
    assert (length s = S (S i)) as Hs by (unfold s; by rewrite swap_length).
    assert (s = take (S i) s ++ [z]) as Es.
    { rewrite <- (take_S_r _ _ _ Hlast). by rewrite take_ge by lia. }
    assert (take (S i) s ≡ₚ q) as Hq.
    { apply (inj (.++ [z])). rewrite <- Es. unfold s. by rewrite swap_Permutation. }
    destruct (IH (take (S i) s) q (z :: suf)) as [random Hr].
    { rewrite length_take. lia. }
    { done. }
    exists (fun k => if decide (k = S i) then j else random k).
    cbn [shuffleFrom]. rewrite decide_True by done.
    rewrite Nat.mod_small by lia.
    rewrite swap_app by lia. fold s. rewrite Es, <- !app_assoc. cbn [app].
    rewrite <- Hr. apply shuffleFrom_ext. intros k Hk. rewrite decide_False by lia. done.
Qed.

(** X6. Every ordering of the array is the result of [shuffleArray] for
    some sequence of random draws. *)
Theorem shuffleArray_reaches_every_order (array target : list P) :
  array ≡ₚ target -> ∃ random, shuffleArray random array = target.
Proof.
  intros Hperm. unfold shuffleArray. destruct array as [|a array].
  - apply Permutation_nil in Hperm as ->. by exists (fun _ => 0%nat).
  - destruct (shuffleFrom_reaches (length array) (a :: array) target []) as [random Hr];
      [done|done|].
    exists random. rewrite !app_nil_r in Hr. simpl. by rewrite Nat.sub_0_r, <- Hr.
Qed.

End Shuffle.

Section SteffenKeys.

Context {P : Type}.
Variable targetSeatName : P -> JSString.
Variable seatMap : gmap JSString P.

Lemma omap_bind_list {A B C} (f : B -> option C) (g : A -> list B) (l : list A) :
  omap f (l ≫= g) = l ≫= (fun x => omap f (g x)).
Proof.
  induction l as [|x l IH]; [done|]. cbn [mbind list_bind]. by rewrite omap_app, IH.
Qed.

Lemma boardRow_keys (rightCol leftCol : Z) (r : nat) (sorted : list P) :
  boardRow seatMap rightCol leftCol r sorted =
  sorted ++ omap (seatMap !!.) (rowKeys rightCol leftCol r).
Proof.
  unfold boardRow, rowKeys, pushSeat, seatToString. cbn [omap list_omap].
  destruct (seatMap !! (numberToString (Z.of_nat r) ++ [fromCharCode (65 + rightCol)]));
    case_bool_decide; cbn [omap list_omap];
    try destruct (seatMap !! (numberToString (Z.of_nat r) ++ [fromCharCode (65 + leftCol)]));
    by rewrite <- ?app_assoc, ?app_nil_r.
Qed.

Lemma sweepRows_keys (rightCol leftCol : Z) (n : nat) :
  ∀ sorted,
    sweepRows seatMap rightCol leftCol n sorted =
    sorted ++ omap (seatMap !!.) (rowsDownFrom n ≫= rowKeys rightCol leftCol).
Proof.
  induction (lt_wf n) as [n _ IH]. intros sorted.
  destruct n as [|[|n]].
  - by rewrite rowsDownFrom_0, app_nil_r.
  - rewrite rowsDownFrom_1. cbn [sweepRows]. rewrite boardRow_keys.
    cbn [mbind list_bind]. by rewrite app_nil_r.
  - cbn [sweepRows]. rewrite IH by lia. rewrite boardRow_keys.
    rewrite rowsDownFrom_SS. cbn [mbind list_bind]. by rewrite omap_app, <- app_assoc.
Qed.

Lemma steffenLoop_keys (rowCnt c : nat) :
  ∀ fuel k sorted, (k + fuel = c)%nat ->
    steffenLoop fuel seatMap rowCnt (Z.of_nat k) (Z.of_nat c - 1 - Z.of_nat k) sorted =
    Some (sorted ++
          omap (seatMap !!.)
            (filter (fun rl : Z * Z => rl.1 ≤ rl.2)
               ((fun k => (Z.of_nat k, Z.of_nat c - 1 - Z.of_nat k)) <$> seq k fuel) ≫=
             fun rl => (rowsDownFrom rowCnt ++ rowsDownFrom (rowCnt - 1)) ≫=
                       rowKeys rl.1 rl.2)).
Proof.
  induction fuel as [|fuel IH]; intros k sorted Hk.
  - simpl. destruct (Z.leb_spec (Z.of_nat k) (Z.of_nat c - 1 - Z.of_nat k)); [lia|].
    by rewrite app_nil_r.
  - cbn [steffenLoop seq fmap list_fmap]. rewrite filter_cons. cbn [fst snd].
    destruct (Z.leb_spec (Z.of_nat k) (Z.of_nat c - 1 - Z.of_nat k)) as [Hle|Hgt].
    + rewrite decide_True by done.
      replace (Z.of_nat k + 1) with (Z.of_nat (S k)) by lia.
      replace (Z.of_nat c - 1 - Z.of_nat k - 1) with (Z.of_nat c - 1 - Z.of_nat (S k)) by lia.
      rewrite IH by lia. rewrite !sweepRows_keys.
      f_equal. cbn [mbind list_bind]. rewrite bind_app, !omap_app, <- !app_assoc. done.
    + rewrite decide_False by lia.
      replace (filter _ _) with (@nil (Z * Z)); [by rewrite app_nil_r|].
      symmetry. apply filter_none.
      intros [a b] (i & [= -> ->] & Hi%elem_of_seq)%list_elem_of_fmap. simpl. lia.
Qed.

End SteffenKeys.

Lemma arrangeSteffen_keys {P : Type} (targetSeatName : P -> JSString) (passengers : list P)
    (a : Aircraft) :
  arrangeSteffen targetSeatName passengers a =
  Some (reverse (omap (buildSeatMap targetSeatName passengers !!.)
                   (steffenKeys (size (rows a)) (size (cols a))))).
Proof.
  unfold arrangeSteffen, steffenKeys, columnPairs, colCount.
  generalize (size (cols a)) (size (rows a)). intros c n.
  pose proof (steffenLoop_keys (buildSeatMap targetSeatName passengers) n c c 0 [] eq_refl) as H.
  change (Z.of_nat 0) with 0 in H. rewrite Z.sub_0_r in H. rewrite H. done.
Qed.

Lemma elem_of_rowKeys (rightCol leftCol : Z) (r : nat) (key : JSString) :
  key ∈ rowKeys rightCol leftCol r ↔
  key = seatToString (Z.of_nat r) (fromCharCode (65 + rightCol)) ∨
  leftCol ≠ rightCol ∧ key = seatToString (Z.of_nat r) (fromCharCode (65 + leftCol)).
Proof.
  unfold rowKeys. rewrite elem_of_cons. case_bool_decide.
  - rewrite list_elem_of_singleton. tauto.
  - rewrite elem_of_nil. tauto.
Qed.

Lemma elem_of_steffenKeys (rowCnt colCnt : nat) (key : JSString) :
  key ∈ steffenKeys rowCnt colCnt ↔
  ∃ (r : nat) (k : Z), (1 ≤ r ≤ rowCnt)%nat ∧ 0 ≤ k < Z.of_nat colCnt ∧
    key = seatToString (Z.of_nat r) (fromCharCode (65 + k)).
Proof.
  unfold steffenKeys. rewrite list_elem_of_bind. split.
  - intros ([a b] & (r & Hkey%elem_of_rowKeys & Hr%elem_of_rowsDown)%list_elem_of_bind
            & Hrl%elem_of_columnPairs). simpl in *.
    destruct Hkey as [->|[_ ->]]; [exists r, a|exists r, b]; (split; [done|]); (split; [lia|done]).
  - intros (r & k & Hr & Hk & ->).
    destruct (decide (k ≤ Z.of_nat colCnt - 1 - k)) as [Hle|Hgt].
    + exists (k, Z.of_nat colCnt - 1 - k). split; [|apply elem_of_columnPairs; simpl; lia].
      apply list_elem_of_bind. exists r. split; [|by apply elem_of_rowsDown].
      apply elem_of_rowKeys. by left.
    + exists (Z.of_nat colCnt - 1 - k, k). split; [|apply elem_of_columnPairs; simpl; lia].
      apply list_elem_of_bind. exists r. split; [|by apply elem_of_rowsDown].
      apply elem_of_rowKeys. right. simpl. split; [lia|done].
Qed.

Lemma NoDup_steffenKeys (rowCnt colCnt : nat) :
  Z.of_nat colCnt ≤ 65536 -> NoDup (steffenKeys rowCnt colCnt).
Proof.
  intros Hfit. unfold steffenKeys. apply NoDup_bind; [| |apply NoDup_columnPairs].
  - intros [a1 b1] [a2 b2] key H1%elem_of_columnPairs H2%elem_of_columnPairs
      (r1 & Hk1%elem_of_rowKeys & _)%list_elem_of_bind
      (r2 & Hk2%elem_of_rowKeys & _)%list_elem_of_bind. simpl in *.
    assert (∀ x y, 0 ≤ x < 65536 -> 0 ≤ y < 65536 ->
              seatToString (Z.of_nat r1) (fromCharCode (65 + x)) =
              seatToString (Z.of_nat r2) (fromCharCode (65 + y)) -> x = y) as Hinj.
    { intros x y Hx Hy [_ E]%seatToString_inj; [|lia..]. by apply fromCharCode_inj in E. }
    destruct Hk1 as [E1|[? E1]], Hk2 as [E2|[? E2]]; rewrite E1 in E2;
      apply Hinj in E2; try lia; f_equal; lia.
  - intros [a b] Hrl%elem_of_columnPairs. simpl in *.
    apply NoDup_bind; [| |apply NoDup_rowsDown].
    + intros r1 r2 key _ _ Hk1%elem_of_rowKeys Hk2%elem_of_rowKeys.
      assert (∀ x y, seatToString (Z.of_nat r1) x = seatToString (Z.of_nat r2) y -> r1 = r2)
        as Hinj.
      { intros x y [E _]%seatToString_inj; lia. }
      destruct Hk1 as [E1|[? E1]], Hk2 as [E2|[? E2]]; rewrite E1 in E2; by apply Hinj in E2.
    + intros r _. unfold rowKeys. case_bool_decide; [|apply NoDup_singleton].
      apply NoDup_cons. split; [|apply NoDup_singleton].
      intros [_ E]%list_elem_of_singleton%seatToString_inj; [|lia..].
      apply fromCharCode_inj in E; lia.
Qed.

Lemma NoDup_omap_lookup {P : Type} (name : P -> JSString) (m : gmap JSString P)
    (keys : list JSString) :
  (∀ k p, m !! k = Some p -> name p = k) -> NoDup keys -> NoDup (omap (m !!.) keys).
Proof.
  intros Hname. induction 1 as [|k keys Hk _ IH]; [constructor|].
  cbn [omap list_omap]. destruct (m !! k) as [p|] eqn:Hp; [|done].
  apply NoDup_cons. split; [|done].
  intros (k' & Hk' & Hp')%list_elem_of_omap.
  apply Hname in Hp, Hp'. congruence.
Qed.

Lemma buildSeatMap_lookup {P : Type} (name : P -> JSString) (l : list P) (k : JSString) :
  buildSeatMap name l !! k = last (filter (fun p => name p = k) l).
Proof.
  unfold buildSeatMap. rewrite seatMap_lookup, lookup_empty. by destruct (last _).
Qed.

(** X7. What [arrangeSteffen] keeps of a queue, on a compiled aircraft: it
    returns no passenger twice, and it returns exactly the passengers who
    are the last of the queue with their seat name and whose seat name lies
    in the rectangle of rows 1 to [rowCount] and of the first [colCount]
    letters. *)
Theorem arrangeSteffen_keeps {P : Type} (targetSeatName : P -> JSString)
    (seatLayout : list RowSpec) (passengers : list P) :
  ∃ sorted,
    arrangeSteffen targetSeatName passengers (generateAircraft seatLayout) = Some sorted ∧
    NoDup sorted ∧
    ∀ p, p ∈ sorted ↔
         last (filter (fun q => targetSeatName q = targetSeatName p) passengers) = Some p ∧
         ∃ (r : nat) (k : Z),
           (1 ≤ r ≤ size (rows (generateAircraft seatLayout)))%nat ∧
           0 ≤ k < Z.of_nat (size (cols (generateAircraft seatLayout))) ∧
           targetSeatName p = seatToString (Z.of_nat r) (fromCharCode (65 + k)).
Proof.
  eexists. split; [apply arrangeSteffen_keys|].
  assert (∀ k p, buildSeatMap targetSeatName passengers !! k = Some p -> targetSeatName p = k)
    as Hname.
  { intros k p. rewrite buildSeatMap_lookup. intros Hl.
    assert (p ∈ filter (fun q => targetSeatName q = k) passengers) as Hp.
    { apply last_Some in Hl as [l' ->]. apply elem_of_app. right. by left. }
    by apply list_elem_of_filter in Hp as [? _]. }
  split.
  - apply NoDup_reverse, (NoDup_omap_lookup targetSeatName); [done|].
    apply NoDup_steffenKeys, cols_size.
  - intros p. rewrite elem_of_reverse, list_elem_of_omap.
    setoid_rewrite elem_of_steffenKeys. split.
    + intros (key & Hkey & Hp). pose proof (Hname _ _ Hp) as <-.
      by rewrite <- buildSeatMap_lookup.
    + intros [Hlast Hkey]. exists (targetSeatName p). by rewrite buildSeatMap_lookup.
Qed.

Lemma Transition_state (g g' : list Cell) (p : nat) (this this' : Passenger) :
  Transition g p this g' this' ->
  (is_Some (state this') ↔ is_Some (state this)) ∧
  (state this = None ∨ state this = Some Seated -> g' = g ∧ this' = this) ∧
  (state this' = Some Seated -> state this ≠ Some Seated ->
   cell this' = Some (targetSeat this')) ∧
  targetSeat this' = targetSeat this.
Proof.
  intros T.
  destruct T as [ |t Hl|c here u k target t Hs Hc Hhere Hu Hk Htg H1 H2
                 |c here d k target t Hs Hc Hhere Hd Hk Htg H1 H2
                 |c here n k Hs Hc Hhere Hn Hk He
                 |st c here n t Hs Hc Hhere Hdir]; simpl.
  all: rewrite ?Hs; repeat case_bool_decide; simpl; rewrite ?Hs.
  all: split_and!; try done; try (split; by eexists).
  all: try (intros [?|?]; try destruct Hl; congruence).
  all: try (intros ? ?; try destruct Hl; congruence).
  all: try (intros [?|[=]]; [congruence|]; by destruct Hdir as [[-> _]|[-> _]]).
  all: try (intros [=]; by destruct Hdir as [[-> _]|[-> _]]).
Qed.

Lemma Transition_cell (g g' : list Cell) (p : nat) (this this' : Passenger) :
  Transition g p this g' this' -> is_Some (cell this) -> is_Some (cell this').
Proof.
  intros T Hc.
  destruct T as [ |t Hl|c here u k target t Hs _ Hhere Hu Hk Htg H1 H2
                 |c here d k target t Hs _ Hhere Hd Hk Htg H1 H2
                 |c here n k Hs _ Hhere Hn Hk He
                 |st c here n t Hs _ Hhere Hdir]; simpl; try done.
  case_bool_decide; by eexists.
Qed.

Lemma Transition_contents (g g' : list Cell) (p : nat) (this this' : Passenger) :
  Transition g p this g' this' ->
  (∀ c k, g !! c = Some k -> (p ∈ contents k ↔ cell this = Some c)) ->
  ∀ c k', g' !! c = Some k' ->
    ∃ k, g !! c = Some k ∧
         (p ∈ contents k' ↔ cell this' = Some c) ∧
         (∀ q, q ≠ p -> q ∈ contents k' ↔ q ∈ contents k).
Proof.
  intros T Hp.
  assert (∀ c k', g !! c = Some k' -> cell this' = cell this ->
            ∃ k, g !! c = Some k ∧ (p ∈ contents k' ↔ cell this' = Some c) ∧
                 (∀ q, q ≠ p -> q ∈ contents k' ↔ q ∈ contents k)) as Hsame.
  { intros c k' Hc E. exists k'. rewrite E. split; [done|]. split; [by apply Hp|done]. }
  assert (∀ c n t (f : Passenger -> Passenger),
            cell this = Some c -> (∀ x, cell (f x) = cell x) ->
            ∀ i k', moveCells p c n g !! i = Some k' ->
              ∃ k, g !! i = Some k ∧
                   (p ∈ contents k' ↔
                    cell (f (set_cell (Some n) (set_timeToTransition t this))) = Some i) ∧
                   (∀ q, q ≠ p -> q ∈ contents k' ↔ q ∈ contents k)) as Hmove.
  { intros c n t f Hc Hf i k'. rewrite Hf. simpl. unfold moveCells.
    rewrite !list_lookup_alter.
    destruct (decide (n = i)) as [->|Hn], (decide (c = i)) as [->|Hci];
      (destruct (g !! i) as [k|] eqn:Hi; simpl; [|done]);
      pose proof (Hp i k Hi) as Hpi; rewrite Hc in Hpi;
      intros [= <-]; exists k; (split; [done|]); simpl; split.
    - split; [done|]. intros _. apply elem_of_union. left. by apply elem_of_singleton.
    - intros q Hq. rewrite elem_of_union, elem_of_difference, !elem_of_singleton. tauto.
    - split; [done|]. intros _. apply elem_of_union. left. by apply elem_of_singleton.
    - intros q Hq. rewrite elem_of_union, elem_of_singleton. tauto.
    - rewrite elem_of_difference, elem_of_singleton. split; [tauto|]. intros [=]. done.
    - intros q Hq. rewrite elem_of_difference, elem_of_singleton. tauto.
    - split; [|intros [=]; done]. intros Hin. apply Hpi in Hin. congruence.
    - done. }
  destruct T as [ |t Hl|c here u k target t Hs Hc Hhere Hu Hk Htg H1 H2
                 |c here d k target t Hs Hc Hhere Hd Hk Htg H1 H2
                 |c here n k Hs Hc Hhere Hn Hk He
                 |st c here n t Hs Hc Hhere Hdir]; try (intros; by apply Hsame).
  - intros i k' Hi.
    destruct (Hmove c n (timeToTransition this) id Hc ltac:(done) i k' Hi) as (k0 & ? & ? & ?).
    exists k0. by destruct this.
  - intros i k' Hi.
    apply (Hmove c n t (if bool_decide (n = targetSeat this)
                        then set_state (Some Seated) else id) Hc); [|done].
    intros x. by case_bool_decide.
Qed.

Section RunInvFacts.

Variable queue : list nat.
Hypothesis queue_NoDup : NoDup queue.

Lemma RunInv_simulatePassenger (luggage : nat -> Z) (deltaT : Z) (p : nat) (w w' : World)
    (pending active : list nat) :
  RunInv queue w pending active -> simulatePassenger luggage deltaT p w = Ok w' ->
  RunInv queue w' pending active.
Proof.
  intros inv (this & this' & Hthis & T & Hpax & Hplane)%simulatePassenger_Ok.
  pose proof (lookup_lt_Some _ _ _ Hthis) as Hlt.
  destruct (Transition_state _ _ _ _ _ T) as (Hsome & Hidle & Hseat & Htarget).
  assert (∀ q that, pax w' !! q = Some that ->
            (q = p ∧ that = this') ∨ (q ≠ p ∧ pax w !! q = Some that)) as Hlook.
  { intros q that. rewrite Hpax. destruct (decide (q = p)) as [->|Hne].
    - rewrite list_lookup_insert_eq by done. intros [= <-]. by left.
    - rewrite list_lookup_insert_ne by done. by right. }
  constructor.
  - apply inv.
  - intros q Hq. destruct (ri_pending _ _ _ _ inv q Hq) as (that & Hthat & Hc & Hs).
    destruct (decide (q = p)) as [->|Hne].
    + rewrite Hthis in Hthat. injection Hthat as <-.
      destruct (Hidle (or_introl Hs)) as [_ ->]. exists this. by rewrite Hpax, list_insert_id.
    + exists that. by rewrite Hpax, list_lookup_insert_ne.
  - intros q Hq. destruct (ri_active _ _ _ _ inv q Hq) as (that & Hthat & Hs).
    destruct (decide (q = p)) as [->|Hne].
    + rewrite Hthis in Hthat. injection Hthat as <-. exists this'.
      rewrite Hpax, list_lookup_insert_eq by done. split; [done|]. by apply Hsome.
    + exists that. by rewrite Hpax, list_lookup_insert_ne.
  - intros q that Hq Hs. destruct (Hlook _ _ Hq) as [[-> ->]|[_ Hold]].
    + apply (ri_boarded _ _ _ _ inv p this Hthis). by apply Hsome.
    + by apply (ri_boarded _ _ _ _ inv q that).
  - intros c k' q Hc. rewrite Hplane in Hc. simpl in Hc.
    destruct (Transition_contents _ _ _ _ _ T) with (c := c) (k' := k')
      as (k & Hk & Hpin & Hother); [|done|].
    { intros c0 k0 Hc0. rewrite (ri_contents _ _ _ _ inv c0 k0 p Hc0). rewrite Hthis. split.
      - by intros (? & [= <-] & ?).
      - intros ?. by exists this. }
    destruct (decide (q = p)) as [->|Hne].
    + rewrite Hpin, Hpax, list_lookup_insert_eq by done. split.
      * intros ?. by exists this'.
      * by intros (? & [= <-] & ?).
    + rewrite (Hother q Hne), (ri_contents _ _ _ _ inv c k q Hk).
      by rewrite Hpax, list_lookup_insert_ne.
  - intros q that Hq Hs. destruct (Hlook _ _ Hq) as [[-> ->]|[_ Hold]].
    + destruct (decide (state this = Some Seated)) as [E|E].
      * destruct (Hidle (or_intror E)) as [_ ->]. by apply (ri_seated _ _ _ _ inv p).
      * by apply Hseat.
    + by apply (ri_seated _ _ _ _ inv q).
  - intros q that Hq. destruct (Hlook _ _ Hq) as [[-> ->]|[_ Hold]];
      [|by apply (ri_cell _ _ _ _ inv q)].
    pose proof (ri_cell _ _ _ _ inv p this Hthis) as Hold.
    destruct (state this) as [st|] eqn:Hst.
    + split; [intros _; apply Hsome; by eexists|]. intros _.
      destruct Hold as [_ [c Hc]]; [by eexists|].
      pose proof (Transition_cell _ _ _ _ _ T) as [n Hn]; [by eexists|by eexists].
    + destruct (Hidle (or_introl eq_refl)) as [_ ->]. by rewrite Hst.
Qed.

Lemma RunInv_simulateAll (luggage : nat -> Z) (deltaT : Z) (l : list nat)
    (pending active : list nat) :
  ∀ w w', RunInv queue w pending active -> simulateAll luggage deltaT l w = Ok w' ->
    RunInv queue w' pending active.
Proof.
  induction l as [|p l IH]; intros w w' inv; simpl.
  - by intros [= <-].
  - intros (w1 & H1 & H)%bind_Ok. eapply IH; [|done]. by eapply RunInv_simulatePassenger.
Qed.

Lemma RunInv_initializeAt (w : World) (p : nat) (rest active : list nat) :
  RunInv queue w (rest ++ [p]) active ->
  RunInv queue (initializeAt p (startingCell (plane w)) Searching w) rest (active ++ [p]).
Proof.
  intros inv.
  assert (NoDup (rest ++ [p])) as Hnd.
  { pose proof queue_NoDup as H. rewrite <- (ri_queue _ _ _ _ inv) in H.
    by apply NoDup_app in H as (? & _). }
  apply NoDup_app in Hnd as (_ & Hnotin & _).
  destruct (ri_pending _ _ _ _ inv p) as (this & Hthis & Hc & Hs);
    [apply elem_of_app; right; by left|].
  pose proof (lookup_lt_Some _ _ _ Hthis) as Hlt.
  set (start := startingCell (plane w)).
  set (this' := set_state (Some Searching) (set_cell (Some start) this)).
  assert (pax (initializeAt p start Searching w) = <[p := this']> (pax w)) as Hpax.
  { unfold initializeAt. simpl. rewrite (alter_lookup_insert _ _ _ _ Hthis).
    by rewrite alter_insert_eq. }
  assert (grid (plane (initializeAt p start Searching w)) =
          alter (enter p) start (grid (plane w))) as Hgrid by done.
  assert (∀ q that, pax (initializeAt p start Searching w) !! q = Some that ->
            (q = p ∧ that = this') ∨ (q ≠ p ∧ pax w !! q = Some that)) as Hlook.
  { intros q that. rewrite Hpax. destruct (decide (q = p)) as [->|Hne].
    - rewrite list_lookup_insert_eq by done. intros [= <-]. by left.
    - rewrite list_lookup_insert_ne by done. by right. }
  constructor.
  - rewrite reverse_app. simpl. rewrite <- (ri_queue _ _ _ _ inv), <- app_assoc. done.
  - intros q Hq. assert (q ≠ p) as Hne.
    { intros ->. apply (Hnotin p Hq). by left. }
    rewrite Hpax, list_lookup_insert_ne by done.
    apply (ri_pending _ _ _ _ inv). apply elem_of_app. by left.
  - intros q [Hq| ->%list_elem_of_singleton]%elem_of_app.
    + assert (q ≠ p) as Hne.
      { intros ->. destruct (ri_active _ _ _ _ inv p Hq) as (that & Hthat & [st Hst]).
        rewrite Hthis in Hthat. injection Hthat as <-. congruence. }
      rewrite Hpax, list_lookup_insert_ne by done. by apply (ri_active _ _ _ _ inv).
    + exists this'. rewrite Hpax, list_lookup_insert_eq by done. split; [done|]. by eexists.
  - intros q that Hq Hst. apply elem_of_app. destruct (Hlook _ _ Hq) as [[-> ->]|[_ Hold]].
    + right. by left.
    + left. by apply (ri_boarded _ _ _ _ inv q that).
  - intros c k' q. rewrite Hgrid, list_lookup_alter, Hpax.
    destruct (decide (start = c)) as [<-|Hsc].
    + destruct (grid (plane w) !! start) as [k|] eqn:Hk; simpl; [|done]. intros [= <-]. simpl.
      pose proof (ri_contents _ _ _ _ inv start k q Hk) as Hq.
      destruct (decide (q = p)) as [->|Hne].
      * rewrite list_lookup_insert_eq by done. split; [intros _; by exists this'|].
        intros _. apply elem_of_union. left. by apply elem_of_singleton.
      * rewrite list_lookup_insert_ne by done.
        rewrite <- Hq, elem_of_union, elem_of_singleton. tauto.
    + intros Hk. pose proof (ri_contents _ _ _ _ inv c k' q Hk) as Hq.
      destruct (decide (q = p)) as [->|Hne].
      * rewrite list_lookup_insert_eq by done. split.
        -- intros Hin. apply Hq in Hin as (that & Hthat & Hcell).
           rewrite Hthis in Hthat. injection Hthat as <-. congruence.
        -- intros (? & [= <-] & [= ?]). done.
      * by rewrite list_lookup_insert_ne.
  - intros q that Hq Hst. destruct (Hlook _ _ Hq) as [[-> ->]|[_ Hold]]; [done|].
    by apply (ri_seated _ _ _ _ inv q).
  - intros q that Hq. destruct (Hlook _ _ Hq) as [[-> ->]|[_ Hold]];
      [split; by eexists|by apply (ri_cell _ _ _ _ inv q)].
Qed.

Lemma RunInv_admitPassenger (s s1 : Sim) :
  RunInv queue (world s) (pendingPax s) (activePax s) -> admitPassenger s = Ok s1 ->
  RunInv queue (world s1) (pendingPax s1) (activePax s1).
Proof.
  intros inv.
  destruct (admitPassenger_cases s) as [Ha|[Ha|(p & rest & c & Hp & _ & _ & Ha)]];
    rewrite Ha; intros [= <-]; [done|]. simpl.
  apply RunInv_initializeAt. by rewrite <- Hp.
Qed.

Lemma RunInv_loopBody (luggage : nat -> Z) (tickLengthms : Z) (s : Sim) (e : BodyEnd) :
  RunInv queue (world s) (pendingPax s) (activePax s) ->
  loopBody luggage tickLengthms s = Ok e ->
  RunInv queue (world (bodyState e)) (pendingPax (bodyState e)) (activePax (bodyState e)).
Proof.
  intros inv. unfold loopBody. intros (s1 & H1 & H)%bind_Ok.
  apply RunInv_admitPassenger in H1; [|done].
  destruct (allSeated _ _); [by injection H as <-|].
  apply bind_Ok in H as (w & Hw & [= <-]). simpl. by eapply RunInv_simulateAll.
Qed.

Lemma RunInv_TickBoundary (luggage : nat -> Z) (run : nat -> bool) (tickLengthms : Z)
    (s0 s : Sim) :
  RunInv queue (world s0) (pendingPax s0) (activePax s0) ->
  TickBoundary luggage run tickLengthms s0 s ->
  RunInv queue (world s) (pendingPax s) (activePax s).
Proof.
  intros inv0. induction 1 as [|s s' _ IH _ Hbody]; [done|].
  by apply (RunInv_loopBody _ _ _ _ IH Hbody).
Qed.

End RunInvFacts.

(** The queue a run starts with has no passenger twice, and all its
    passengers exist. *)
Lemma initSim_queue (random : nat -> nat) (seatLayout : list RowSpec) (m : Method) (s0 : Sim) :
  initSim random seatLayout m = Some s0 ->
  world s0 = initWorld seatLayout m ∧ activePax s0 = [] ∧ NoDup (pendingPax s0) ∧
  ∀ p, p ∈ pendingPax s0 -> (p < length (seats (generateAircraft seatLayout)))%nat.
Proof.
  unfold initSim. intros (pending & Harr & [= <-])%bind_Some. simpl.
  split; [done|]. split; [done|].
  set (n := length (seats (generateAircraft seatLayout))) in *.
  assert (∀ l, l ≡ₚ seq 0 n -> NoDup l ∧ ∀ p, p ∈ l -> (p < n)%nat) as Hperm.
  { intros l Hl. split; [rewrite Hl; apply NoDup_seq|].
    intros p Hp. rewrite Hl in Hp. apply elem_of_seq in Hp. lia. }
  destruct m; simpl in Harr.
  - injection Harr as <-. apply Hperm, arrangeRandom_Permutation.
  - injection Harr as <-. by apply Hperm.
  - injection Harr as <-. apply Hperm. unfold arrangeFrontBack. by rewrite reverse_Permutation.
  - rewrite arrangeSteffen_keys in Harr. injection Harr as <-.
    set (name := fun p : nat => _).
    assert (∀ k p, buildSeatMap name (seq 0 n) !! k = Some p -> name p = k ∧ (p < n)%nat)
      as Hname.
    { intros k p. rewrite buildSeatMap_lookup. intros Hl.
      assert (p ∈ filter (fun q => name q = k) (seq 0 n)) as Hp.
      { apply last_Some in Hl as [l' ->]. apply elem_of_app. right. by left. }
      apply list_elem_of_filter in Hp as [? Hp]. split; [done|].
      apply elem_of_seq in Hp. lia. }
    split.
    + apply NoDup_reverse, (NoDup_omap_lookup name).
      * intros k p Hp. by apply Hname in Hp as [? _].
      * apply NoDup_steffenKeys, cols_size.
    + intros p (k & _ & Hp)%elem_of_reverse%list_elem_of_omap. by apply Hname in Hp as [_ ?].
  - injection Harr as <-. by apply Hperm.
Qed.

Lemma initSim_RunInv (random : nat -> nat) (seatLayout : list RowSpec) (m : Method) (s0 : Sim) :
  initSim random seatLayout m = Some s0 ->
  RunInv (pendingPax s0) (world s0) (pendingPax s0) (activePax s0).
Proof.
  intros (Hw & Ha & Hnd & Hlt)%initSim_queue. rewrite Hw, Ha.
  destruct (generateAircraft_GenInv seatLayout) as (r & pa & inv).
  assert (∀ p this, pax (initWorld seatLayout m) !! p = Some this ->
            cell this = None ∧ state this = None) as Hnew.
  { intros p this. simpl. rewrite list_lookup_fmap.
    destruct (seats (generateAircraft seatLayout) !! p); simpl; [|done]. by intros [= <-]. }
  constructor.
  - by rewrite reverse_nil, app_nil_r.
  - intros p Hp%Hlt. apply lookup_lt_is_Some_2 in Hp as [t Ht].
    exists (newPassenger t). simpl. by rewrite list_lookup_fmap, Ht.
  - intros p Hp. by apply elem_of_nil in Hp.
  - intros p this Hp [st Hst]. apply Hnew in Hp as [_ ?]. congruence.
  - intros c k p Hk. simpl in Hk. rewrite (gi_contents _ _ _ inv c k Hk). split.
    + intros Hp. by apply not_elem_of_empty in Hp.
    + intros (this & Hp & Hc). apply Hnew in Hp as [? _]. congruence.
  - intros p this Hp Hst. apply Hnew in Hp as [_ ?]. congruence.
  - intros p this Hp. apply Hnew in Hp as [-> ->]. done.
Qed.

(** X8. At every tick boundary the passengers that have boarded are the end
    of the arranged queue, in reverse order, each once; and a passenger has
    a state, and a cell, exactly when it has boarded. *)
Theorem boarding_order (luggage : nat -> Z) (run : nat -> bool) (tickLengthms : Z)
    (random : nat -> nat) (seatLayout : list RowSpec) (m : Method) (s0 s : Sim) :
  initSim random seatLayout m = Some s0 ->
  TickBoundary luggage run tickLengthms s0 s ->
  pendingPax s ++ reverse (activePax s) = pendingPax s0 ∧
  NoDup (pendingPax s ++ activePax s) ∧
  ∀ p this, pax (world s) !! p = Some this ->
    (is_Some (state this) ↔ p ∈ activePax s) ∧ (is_Some (cell this) ↔ p ∈ activePax s).
Proof.
  intros Hinit Hs.
  destruct (initSim_queue _ _ _ _ Hinit) as (_ & _ & Hnd & _).
  pose proof (RunInv_TickBoundary _ Hnd luggage run tickLengthms s0 s
                (initSim_RunInv _ _ _ _ Hinit) Hs) as inv.
  split; [apply inv|]. split.
  - rewrite <- (ri_queue _ _ _ _ inv) in Hnd.
    apply NoDup_app in Hnd as (H1 & H2 & H3). apply NoDup_app. split_and!; [done| |].
    + intros p Hp Hp'. apply (H2 p Hp). by apply elem_of_reverse.
    + apply NoDup_reverse in H3. by rewrite reverse_involutive in H3.
  - intros p this Hp.
    assert (is_Some (state this) ↔ p ∈ activePax s) as Hst.
    { split; [by apply (ri_boarded _ _ _ _ inv)|].
      intros Hin. destruct (ri_active _ _ _ _ inv p Hin) as (that & Hthat & ?). congruence. }
    split; [done|]. by rewrite (ri_cell _ _ _ _ inv p this Hp).
Qed.

(** X9. At every tick boundary the [contents] sets of the cells and the
    [cell] fields of the passengers say the same: a passenger is in the
    contents of a cell exactly when that cell is its cell. *)
Theorem contents_agree_with_cells (luggage : nat -> Z) (run : nat -> bool) (tickLengthms : Z)
    (random : nat -> nat) (seatLayout : list RowSpec) (m : Method) (s0 s : Sim) :
  initSim random seatLayout m = Some s0 ->
  TickBoundary luggage run tickLengthms s0 s ->
  ∀ c k p, grid (plane (world s)) !! c = Some k ->
    (p ∈ contents k ↔ ∃ this, pax (world s) !! p = Some this ∧ cell this = Some c).
Proof.
  intros Hinit Hs.
  destruct (initSim_queue _ _ _ _ Hinit) as (_ & _ & Hnd & _).
  apply (RunInv_TickBoundary _ Hnd luggage run tickLengthms s0 s
           (initSim_RunInv _ _ _ _ Hinit) Hs).
Qed.

Lemma simulateAll_seated (luggage : nat -> Z) (deltaT : Z) (p : nat) (this : Passenger)
    (l : list nat) :
  state this = Some Seated ->
  ∀ w w', pax w !! p = Some this -> simulateAll luggage deltaT l w = Ok w' ->
    pax w' !! p = Some this.
Proof.
  intros Hst. induction l as [|q l IH]; intros w w' Hp; simpl.
  - by intros [= <-].
  - intros (w1 & (that & that' & Hthat & T & Hpax & _)%simulatePassenger_Ok & H)%bind_Ok.
    apply (IH w1 w'); [|done]. rewrite Hpax.
    destruct (decide (q = p)) as [->|Hne]; [|by rewrite list_lookup_insert_ne].
    rewrite Hp in Hthat. injection Hthat as <-.
    destruct (Transition_state _ _ _ _ _ T) as (_ & Hidle & _).
    destruct (Hidle (or_intror Hst)) as [_ ->]. by rewrite list_insert_id.
Qed.

Lemma loopBody_seated (queue : list nat) (luggage : nat -> Z) (tickLengthms : Z)
    (s : Sim) (e : BodyEnd) (p : nat) (this : Passenger) :
  NoDup queue -> RunInv queue (world s) (pendingPax s) (activePax s) ->
  loopBody luggage tickLengthms s = Ok e ->
  pax (world s) !! p = Some this -> state this = Some Seated ->
  pax (world (bodyState e)) !! p = Some this.
Proof.
  intros Hnd inv Hbody Hp Hst. unfold loopBody in Hbody.
  apply bind_Ok in Hbody as (s1 & H1 & H).
  assert (pax (world s1) !! p = Some this) as Hp1.
  { destruct (admitPassenger_cases s) as [Ha|[Ha|(x & rest & c & Hx & _ & _ & Ha)]];
      rewrite Ha in H1; [done|by injection H1 as <-|]. injection H1 as <-.
    assert (x ≠ p) as Hne.
    { intros ->. rewrite <- (ri_queue _ _ _ _ inv), Hx in Hnd.
      apply NoDup_app in Hnd as (_ & Hdisj & _). apply (Hdisj p).
      - apply elem_of_app. right. by left.
      - apply elem_of_reverse. apply (ri_boarded _ _ _ _ inv p this Hp). by eexists. }
    simpl. rewrite !list_lookup_alter. by rewrite !decide_False by done. }
  destruct (allSeated _ _); [by injection H as <-|].
  apply bind_Ok in H as (w & Hw & [= <-]). simpl. by eapply simulateAll_seated.
Qed.

(** X10. A passenger in state [Seated] is in its own seat, and nothing
    changes it for the rest of the run. *)
Theorem seated_for_good (luggage : nat -> Z) (run : nat -> bool) (tickLengthms : Z)
    (random : nat -> nat) (seatLayout : list RowSpec) (m : Method) (s0 s : Sim)
    (p : nat) (this : Passenger) :
  initSim random seatLayout m = Some s0 ->
  TickBoundary luggage run tickLengthms s0 s ->
  pax (world s) !! p = Some this -> state this = Some Seated ->
  cell this = Some (targetSeat this) ∧
  ∀ s', TickBoundary luggage run tickLengthms s s' -> pax (world s') !! p = Some this.
Proof.
  intros Hinit Hs Hp Hst.
  destruct (initSim_queue _ _ _ _ Hinit) as (_ & _ & Hnd & _).
  pose proof (RunInv_TickBoundary _ Hnd luggage run tickLengthms s0 s
                (initSim_RunInv _ _ _ _ Hinit) Hs) as inv.
  split; [by apply (ri_seated _ _ _ _ inv p)|].
  intros s' Hs'. induction Hs' as [|s1 s2 Hs1 IH _ Hbody]; [done|].
  apply (loopBody_seated _ luggage tickLengthms s1 (Continue s2) p this Hnd); try done.
  by apply (RunInv_TickBoundary _ Hnd luggage run tickLengthms s s1 inv).
Qed.

Section Outcome.

Variable luggage : nat -> Z.
Variable run : nat -> bool.
Variable tickLengthms : Z.

Lemma TickBoundary_first (s0 s1 s : Sim) :
  loopCond run s0 = true -> loopBody luggage tickLengthms s0 = Ok (Continue s1) ->
  TickBoundary luggage run tickLengthms s1 s -> TickBoundary luggage run tickLengthms s0 s.
Proof.
  intros Hc Hb. induction 1 as [|s s' _ IH Hc' Hb'].
  - eapply boundary_tick; [apply boundary_start|done|done].
  - by eapply boundary_tick.
Qed.

(** How a run that returns has ended: at a tick boundary where the loop
    condition failed, or at the [break] of the pass that followed one. *)
Lemma simLoop_Finished (fuel : nat) :
  ∀ s0 s, simLoop luggage run tickLengthms fuel s0 = Finished s ->
    ∃ s1, TickBoundary luggage run tickLengthms s0 s1 ∧
      ((loopCond run s1 = false ∧ s = afterLoop run s1) ∨
       (∃ s2, loopCond run s1 = true ∧
              loopBody luggage tickLengthms s1 = Ok (Break s2) ∧ s = afterLoop run s2)).
Proof.
  induction fuel as [|fuel IH]; intros s0 s.
  - rewrite simLoop_0. destruct (loopCond run s0) eqn:Hc; [done|]. intros [= <-].
    exists s0. split; [apply boundary_start|by left].
  - rewrite simLoop_S. destruct (loopCond run s0) eqn:Hc.
    + destruct (loopBody luggage tickLengthms s0) as [[s2|s1]|e] eqn:Hb; [| |done].
      * intros [= <-]. exists s0. split; [apply boundary_start|]. right. by exists s2.
      * intros (s1' & Hs1' & H)%IH. exists s1'. split; [|done]. by eapply TickBoundary_first.
    + intros [= <-]. exists s0. split; [apply boundary_start|by left].
Qed.

Lemma TickBoundary_status (s0 s : Sim) :
  TickBoundary luggage run tickLengthms s0 s -> status s = status s0.
Proof.
  induction 1 as [|s s' _ IH _ Hb]; [done|].
  apply loopBody_counters in Hb as [_ ->]. done.
Qed.

End Outcome.

Lemma allSeated_true (w : World) (active : list nat) :
  allSeated w active = true ->
  ∀ p, p ∈ active -> ∃ this, pax w !! p = Some this ∧ state this = Some Seated.
Proof.
  unfold allSeated. intros H%bool_decide_eq_true%length_zero_iff_nil p Hp.
  destruct (isSeated w p) eqn:E.
  - unfold isSeated in E. destruct (pax w !! p) as [this|]; [|done].
    exists this. split; [done|]. by apply bool_decide_eq_true in E.
  - assert (p ∈ filter (fun p => isSeated w p = false) active) as Hin
      by (by apply list_elem_of_filter).
    rewrite H in Hin. by apply elem_of_nil in Hin.
Qed.

(** The target seats of the passengers never change. *)
Lemma Transition_target_list (l : list Passenger) (p : nat) (this this' : Passenger) :
  l !! p = Some this -> targetSeat this' = targetSeat this ->
  targetSeat <$> <[p := this']> l = targetSeat <$> l.
Proof.
  intros Hp Ht. rewrite list_fmap_insert, Ht. apply list_insert_id.
  by rewrite list_lookup_fmap, Hp.
Qed.

Lemma simulateAll_targets (luggage : nat -> Z) (deltaT : Z) (l : list nat) :
  ∀ w w', simulateAll luggage deltaT l w = Ok w' ->
    targetSeat <$> pax w' = targetSeat <$> pax w.
Proof.
  induction l as [|q l IH]; intros w w'; simpl.
  - by intros [= <-].
  - intros (w1 & (that & that' & Hthat & T & Hpax & _)%simulatePassenger_Ok & H)%bind_Ok.
    rewrite (IH _ _ H), Hpax. apply (Transition_target_list _ _ that); [done|].
    by destruct (Transition_state _ _ _ _ _ T) as (_ & _ & _ & ?).
Qed.

Lemma admitPassenger_targets (s s1 : Sim) :
  admitPassenger s = Ok s1 ->
  targetSeat <$> pax (world s1) = targetSeat <$> pax (world s).
Proof.
  destruct (admitPassenger_cases s) as [Ha|[Ha|(x & rest & c & _ & _ & _ & Ha)]];
    rewrite Ha; intros [= <-]; [done|]. simpl.
  apply list_eq. intros i. rewrite !list_lookup_fmap, !list_lookup_alter.
  repeat case_decide; try done; subst; by destruct (pax (world s) !! _).
Qed.

Lemma TickBoundary_targets (luggage : nat -> Z) (run : nat -> bool) (tickLengthms : Z)
    (s0 s : Sim) :
  TickBoundary luggage run tickLengthms s0 s ->
  targetSeat <$> pax (world s) = targetSeat <$> pax (world s0).
Proof.
  induction 1 as [|s s' _ IH _ Hb]; [done|]. rewrite <- IH.
  unfold loopBody in Hb. apply bind_Ok in Hb as (s1 & H1 & H).
  rewrite <- (admitPassenger_targets _ _ H1).
  destruct (allSeated _ _); [done|].
  apply bind_Ok in H as (w & Hw & [= <-]). simpl. by eapply simulateAll_targets.
Qed.

Lemma admitPassenger_post (s sa : Sim) :
  admitPassenger s = Ok sa ->
  pendingPax sa = [] ∨
  ∃ start q, grid (plane (world sa)) !! startingCell (plane (world sa)) = Some start ∧
             q ∈ contents start.
Proof.
  unfold admitPassenger, board, getCell.
  destruct (grid (plane (world s)) !! startingCell (plane (world s))) as [start|] eqn:Hs;
    simpl; [|done].
  destruct (pop (pendingPax s)) as [[x rest]|] eqn:Hp.
  - destruct (isEmpty start) eqn:He.
    + intros [= <-]. right. simpl. rewrite list_lookup_alter, decide_True, Hs by done.
      exists (enter x start), x. split; [done|]. simpl.
      apply elem_of_union. left. by apply elem_of_singleton.
    + intros [= <-]. right. exists start.
      destruct (decide (contents start = ∅)) as [E|E].
      * unfold isEmpty in He. rewrite E, size_empty in He. by rewrite bool_decide_eq_true_2 in He.
      * apply set_choose_L in E as [q Hq]. by exists q.
  - intros [= <-]. left. by apply pop_None.
Qed.

(** X11. A run that is reported completed has seated every passenger of
    its queue, each alone in its own seat, and has nobody left to board. *)
Theorem completed_means_seated (random : nat -> nat) (run : nat -> bool)
    (tickLengthms : option Z) (luggageDistribution : option (nat -> Z))
    (seatLayout : list RowSpec) (m : Method) (s : Sim) :
  simulate random run tickLengthms luggageDistribution seatLayout m = Finished s ->
  runState s = Completed ->
  ∃ s0, initSim random seatLayout m = Some s0 ∧
    pendingPax s = [] ∧ activePax s = reverse (pendingPax s0) ∧
    ∀ p, p ∈ pendingPax s0 ->
      ∃ this seat, pax (world s) !! p = Some this ∧ state this = Some Seated ∧
        cell this = Some (targetSeat this) ∧
        seats (generateAircraft seatLayout) !! p = Some (targetSeat this) ∧
        grid (plane (world s)) !! targetSeat this = Some seat ∧ contents seat = {[p]}.
Proof.
  unfold simulate. destruct (initSim random seatLayout m) as [s0|] eqn:Hinit; [|done].
  set (luggage := default _ luggageDistribution). set (tick := default _ tickLengthms).
  intros (s1 & Hs1 & Hend)%simLoop_Finished Hdone. exists s0. split; [done|].
  destruct (initSim_queue _ _ _ _ Hinit) as (Hw0 & _ & Hnd & _).
  assert (status s0 = Boarding (length (seats (generateAircraft seatLayout))) m) as Hst0.
  { unfold initSim in Hinit. apply bind_Some in Hinit as (? & _ & [= <-]). done. }
  pose proof (TickBoundary_status _ _ _ _ _ Hs1) as Hst1.
  destruct Hend as [[_ ->]|(s2 & _ & Hbody & ->)].
  { exfalso. unfold runState, afterLoop in Hdone.
    destruct (run _); simpl in Hdone; [|done]. by rewrite Hst1, Hst0 in Hdone. }
  assert (afterLoop run s2 = s2) as ->.
  { unfold afterLoop in *. by destruct (run _). }
  clear Hdone.
  pose proof (RunInv_TickBoundary _ Hnd luggage run tick s0 s1
                (initSim_RunInv _ _ _ _ Hinit) Hs1) as inv1.
  assert (PaxInv (grid (generateAircraft seatLayout)) 0 (fun _ => True) (fun _ _ => True)
            (fun _ _ => True) (world s1)) as pinv1.
  { eapply (TickBoundary_PaxInv _ 0 (fun _ => True) (fun _ _ => True) (fun _ _ => True));
      [..|apply Hs1]; try done.
    rewrite Hw0. apply initWorld_PaxInv. }
  pose proof (TickBoundary_targets _ _ _ _ _ Hs1) as Htg1.
  unfold loopBody in Hbody. apply bind_Ok in Hbody as (sa & Ha & H).
  pose proof (RunInv_admitPassenger _ Hnd _ _ inv1 Ha) as inv.
  assert (PaxInv (grid (generateAircraft seatLayout)) 0 (fun _ => True) (fun _ _ => True)
            (fun _ _ => True) (world sa)) as pinv.
  { by eapply (admitPassenger_PaxInv _ 0 (fun _ => True) (fun _ _ => True) (fun _ _ => True)). }
  pose proof (admitPassenger_targets _ _ Ha) as Htg. rewrite Htg1, Hw0 in Htg.
  simpl in Htg. rewrite <- list_fmap_compose, list_fmap_id in Htg.
  pose proof (admitPassenger_post _ _ Ha) as Hpost.
  destruct (allSeated (world sa) (activePax sa)) eqn:Hall; [|by destruct (simulateAll _ _ _ _)].
  injection H as <-. simpl.
  pose proof (allSeated_true _ _ Hall) as Hseated.
  destruct (generateAircraft_GenInv seatLayout) as (r & pa & ginv).
  assert (∀ q that, pax (world sa) !! q = Some that -> is_Some (cell that) ->
            cell that = Some (targetSeat that) ∧ state that = Some Seated ∧
            seats (generateAircraft seatLayout) !! q = Some (targetSeat that) ∧
            targetSeat that ≠ 0%nat) as Hin.
  { intros q that Hq Hc.
    assert (q ∈ activePax sa) as Hact.
    { apply (ri_boarded _ _ _ _ inv q that Hq). by apply (ri_cell _ _ _ _ inv q that Hq). }
    destruct (Hseated q Hact) as (that' & Hq' & Hst). rewrite Hq in Hq'. injection Hq' as <-.
    split; [by apply (ri_seated _ _ _ _ inv q)|]. split; [done|].
    assert (seats (generateAircraft seatLayout) !! q = Some (targetSeat that)) as Hseat.
    { by rewrite <- Htg, list_lookup_fmap, Hq. }
    split; [done|]. intros E0.
    destruct (pi_pax _ _ _ _ _ _ pinv q that Hq) as [(t & Ht & Hts) _].
    destruct (gi_entry _ _ _ ginv) as (c0 & Hc0 & Hns). simpl in Hc0.
    rewrite E0, Hc0 in Ht. injection Ht as <-. congruence. }
  assert (pendingPax sa = []) as Hempty.
  { destruct Hpost as [?|(start & q & Hstart & Hq)]; [done|]. exfalso.
    rewrite (pi_start _ _ _ _ _ _ pinv) in Hstart.
    apply (ri_contents _ _ _ _ inv 0%nat start q Hstart) in Hq as (that & Hthat & Hc).
    destruct (Hin q that Hthat ltac:(by eexists)) as (Hc' & _ & _ & Hne). congruence. }
  split; [done|].
  pose proof (ri_queue _ _ _ _ inv) as Hq. rewrite Hempty in Hq. simpl in Hq.
  split; [by rewrite <- Hq, reverse_involutive|].
  intros p Hp. rewrite <- Hq in Hp. apply elem_of_reverse in Hp.
  rewrite reverse_involutive in Hp.
  destruct (Hseated p Hp) as (this & Hthis & Hst).
  pose proof (ri_seated _ _ _ _ inv p this Hthis Hst) as Hc.
  destruct (Hin p this Hthis ltac:(by eexists)) as (_ & _ & Hseat & _).
  destruct (pi_pax _ _ _ _ _ _ pinv p this Hthis) as [(t & Ht & _) _].
  destruct (topo_sym_fields _ _ _ _ (pi_topo _ _ _ _ _ _ pinv) Ht) as (seat & Hgrid & _).
  exists this, seat. split_and!; try done.
  apply set_eq. intros q. rewrite (ri_contents _ _ _ _ inv _ seat q Hgrid), elem_of_singleton.
  split.
  - intros (that & Hthat & Hcq).
    destruct (Hin q that Hthat ltac:(by eexists)) as (Hcq' & _ & Hseatq & _).
    assert (targetSeat that = targetSeat this) as E by congruence.
    rewrite E in Hseatq.
    eapply NoDup_lookup; [|exact Hseatq|exact Hseat].
    rewrite generate_seatCells. apply seatCells_NoDup.
  - intros ->. by exists this.
Qed.

Lemma PaxInv_weaken (g0 : list Cell) (start : nat) (Srch Srch' : nat -> Prop)
    (LU LD : nat -> nat -> Prop) (w : World) :
  (∀ c, Srch c -> Srch' c) ->
  PaxInv g0 start Srch LU LD w -> PaxInv g0 start Srch' LU LD w.
Proof.
  intros Himp [Ht Hs Hp]. constructor; [done|done|].
  intros p this Hthis. destruct (Hp p this Hthis) as [Htarget Hstate]. split; [done|].
  destruct (state this) as [[| | |]|]; try done.
  destruct Hstate as (c & ? & ?). exists c. split; [done|]. by apply Himp.
Qed.

Section NoThrow.

Variable seatLayout : list RowSpec.
Hypothesis no_wrap : Forall (fun rs => slotCount (layout rs) ≤ 65471) seatLayout.

Let g0 := grid (generateAircraft seatLayout).

Local Abbreviation Valid :=
  (PaxInv g0 0 (fun c => is_Some (g0 !! c)) (Towards up g0) (Towards down g0)).

Lemma Valid_start : is_Some (g0 !! 0%nat).
Proof.
  destruct (generateAircraft_GenInv seatLayout) as (r & pa & inv).
  destruct (gi_entry _ _ _ inv) as (c & Hc & _). by exists c.
Qed.

Lemma Valid_link (dir : Cell -> option nat) (c : nat) (here : Cell) (n : nat) :
  dir = up ∨ dir = down ∨ dir = right ->
  g0 !! c = Some here -> dir here = Some n -> is_Some (g0 !! n).
Proof.
  destruct (generateAircraft_GenInv seatLayout) as (r & pa & inv).
  intros [->|[->| ->]] Hc Hn.
  - destruct (gi_updown _ _ _ inv _ _ _ Hc Hn) as (d & Hd & _). by exists d.
  - destruct (gi_downup _ _ _ inv _ _ _ Hc Hn) as (d & Hd & _). by exists d.
  - destruct (gi_rightleft _ _ _ inv _ _ _ Hc Hn) as (d & Hd & _). by exists d.
Qed.

Lemma Valid_simulatePassenger_Ok (luggage : nat -> Z) (deltaT : Z) (p : nat) (w w' : World) :
  Valid w -> simulatePassenger luggage deltaT p w = Ok w' -> Valid w'.
Proof.
  apply simulatePassenger_PaxInv; try done.
  - intros c here n _ Hc Hn. eapply (Valid_link right); [tauto|done|done].
  - intros c here u k t target _. by apply (Safe_enter_up seatLayout no_wrap c here u k t target I).
  - intros c here d k t target _.
    by apply (Safe_enter_down seatLayout no_wrap c here d k t target I).
  - apply (Towards_move seatLayout up).
  - apply (Towards_move seatLayout down).
Qed.

Lemma Valid_lookup (w : World) (c : nat) :
  Valid w -> is_Some (g0 !! c) ->
  ∃ here here0, grid (plane w) !! c = Some here ∧ g0 !! c = Some here0 ∧
    up here = up here0 ∧ down here = down here0 ∧ right here = right here0.
Proof.
  intros inv [here0 H0].
  destruct (topo_sym_fields _ _ _ _ (pi_topo _ _ _ _ _ _ inv) H0)
    as (here & ? & ? & ? & ? & ? & _).
  by exists here, here0.
Qed.

Lemma Valid_loadingStep (deltaT : Z) (p : nat) (dir : Cell -> option nat) (w : World)
    (this : Passenger) (e : Exn) :
  Valid w -> pax w !! p = Some this -> dir = up ∨ dir = down ->
  Towards dir g0 (default 0%nat (cell this)) (targetSeat this) -> is_Some (cell this) ->
  loadingStep p deltaT dir w = Throw e -> e = TypeError.
Proof.
  intros inv Hthis Hdir Hto [c Hc]. rewrite Hc in Hto. simpl in Hto.
  apply Towards_step in Hto as (here0 & n & H0 & Hn & _).
  destruct (Valid_lookup w c inv ltac:(by eexists)) as (here & here0' & Hhere & H0' & Eu & Ed & _).
  rewrite H0 in H0'. injection H0' as <-.
  pose proof (lookup_lt_Some _ _ _ Hthis) as Hlt.
  unfold loadingStep, getPax, getCell. rewrite Hthis. simpl.
  destruct (timeToTransition this - deltaT <=? 0); [|done].
  rewrite Hc. simpl. rewrite Hhere. simpl.
  assert (dir here = Some n) as Hdn by (destruct Hdir as [-> | ->]; congruence).
  rewrite Hdn. unfold move, getPax. simpl.
  rewrite (alter_lookup_insert _ _ _ _ Hthis), list_lookup_insert_eq by done. simpl.
  rewrite Hc. simpl.
  rewrite list_lookup_alter, decide_True by done.
  rewrite list_lookup_insert_eq by done. simpl. by destruct (bool_decide _).
Qed.

Lemma Valid_neighbor (w : World) (dir : Cell -> option nat) (c : nat) (here : Cell) (n : nat) :
  Valid w -> dir = up ∨ dir = down ∨ dir = right ->
  grid (plane w) !! c = Some here -> dir here = Some n ->
  is_Some (grid (plane w) !! n).
Proof.
  intros inv Hdir Hhere Hn.
  destruct (topo_fields _ _ _ _ (pi_topo _ _ _ _ _ _ inv) Hhere)
    as (here0 & H0 & Eu & Ed & _ & Er & _).
  assert (dir here0 = Some n) as Hn0 by (destruct Hdir as [->|[->| ->]]; congruence).
  destruct (Valid_lookup w n inv (Valid_link dir c here0 n Hdir H0 Hn0)) as (k & _ & ? & _).
  by exists k.
Qed.

Lemma Valid_simulatePassenger (luggage : nat -> Z) (deltaT : Z) (p : nat) (w : World) (e : Exn) :
  Valid w -> is_Some (pax w !! p) -> simulatePassenger luggage deltaT p w ≠ Throw e.
Proof.
  intros inv [this Hthis] H.
  destruct (pi_pax _ _ _ _ _ _ inv _ _ Hthis) as [(target0 & Ht0 & _) Hstate].
  assert (e = TypeError) as ->.
  { unfold simulatePassenger, getPax, getCell in H. rewrite Hthis in H. simpl in H.
    destruct (state this) as [[| | |]|] eqn:Hst; [done| | | |done].
    - destruct Hstate as (c & Hc & Hvalid). rewrite Hc in H. simpl in H.
      destruct (Valid_lookup w c inv Hvalid) as (here & _ & Hhere & _).
      destruct (Valid_lookup w (targetSeat this) inv ltac:(by eexists)) as (target & _ & Htg & _).
      rewrite Hhere, Htg in H. simpl in H. exfalso.
      match type of H with
      | ?m ≫= _ = _ => assert (∃ b : bool, m = Ok b) as [upHit EupHit]
      end.
      { destruct (up here) as [u|] eqn:Hu; [|by eexists].
        destruct (Valid_neighbor w up c here u inv ltac:(tauto) Hhere Hu) as [k Hk].
        rewrite Hk. simpl. by eexists. }
      rewrite EupHit in H. simpl in H. destruct upHit; [done|].
      match type of H with
      | ?m ≫= _ = _ => assert (∃ b : bool, m = Ok b) as [downHit EdownHit]
      end.
      { destruct (down here) as [d|] eqn:Hd; [|by eexists].
        destruct (Valid_neighbor w down c here d inv ltac:(tauto) Hhere Hd) as [k Hk].
        rewrite Hk. simpl. by eexists. }
      rewrite EdownHit in H. simpl in H. destruct downHit; [done|].
      destruct (right here) as [r|] eqn:Hr; [|done].
      destruct (Valid_neighbor w right c here r inv ltac:(tauto) Hhere Hr) as [k Hk].
      rewrite Hk in H. simpl in H. destruct (negb (isEmpty k)); [done|].
      unfold move, getPax in H. rewrite Hthis in H. simpl in H. rewrite Hc in H. done.
    - destruct Hstate as (c & Hc & Hto).
      eapply (Valid_loadingStep deltaT p up w this);
        [done|done|by left|by rewrite Hc|by eexists|done].
    - destruct Hstate as (c & Hc & Hto).
      eapply (Valid_loadingStep deltaT p down w this);
        [done|done|by right|by rewrite Hc|by eexists|done]. }
  revert H. apply (Safe_simulatePassenger seatLayout).
  eapply PaxInv_weaken; [|exact inv]. done.
Qed.

Lemma Valid_simulateAll (luggage : nat -> Z) (deltaT : Z) (active : list nat) (e : Exn) :
  ∀ w, Valid w -> (∀ p, p ∈ active -> (p < length (pax w))%nat) ->
    simulateAll luggage deltaT active w ≠ Throw e.
Proof.
  induction active as [|p rest IH]; intros w inv Hlt; simpl; [done|].
  intros [H|(w' & Hw' & H)]%bind_Throw.
  - revert H. apply Valid_simulatePassenger; [done|].
    apply lookup_lt_is_Some_2, Hlt. by left.
  - revert H. apply IH; [by eapply Valid_simulatePassenger_Ok|].
    intros q Hq. apply simulatePassenger_Ok in Hw' as (? & ? & _ & _ & -> & _).
    rewrite length_insert. apply Hlt. by right.
Qed.

Lemma Valid_loopBody (queue : list nat) (luggage : nat -> Z) (tickLengthms : Z) (s : Sim)
    (e : Exn) :
  NoDup queue -> RunInv queue (world s) (pendingPax s) (activePax s) -> Valid (world s) ->
  loopBody luggage tickLengthms s ≠ Throw e.
Proof.
  intros Hnd rinv inv. unfold loopBody.
  assert (∃ s1, admitPassenger s = Ok s1) as [s1 H1].
  { destruct (admitPassenger_cases s) as [Ha|[Ha|(p & rest & c & _ & _ & _ & Ha)]];
      [|by eexists..]. exfalso.
    unfold admitPassenger, getCell in Ha. rewrite (pi_start _ _ _ _ _ _ inv) in Ha.
    destruct (Valid_lookup (world s) 0 inv Valid_start) as (here & _ & Hhere & _).
    rewrite Hhere in Ha. simpl in Ha.
    destruct (pop (pendingPax s)) as [[x rest]|]; [|done].
    destruct (isEmpty here) eqn:He; [|done].
    unfold board, getCell in Ha. rewrite (pi_start _ _ _ _ _ _ inv), Hhere in Ha. simpl in Ha.
    by rewrite He in Ha. }
  rewrite H1. simpl.
  destruct (allSeated _ _); [done|].
  intros [H|(w & _ & H)]%bind_Throw; [|done].
  revert H. apply Valid_simulateAll.
  - eapply admitPassenger_PaxInv; [apply Valid_start|exact inv|exact H1].
  - intros p Hp. pose proof (RunInv_admitPassenger _ Hnd _ _ rinv H1) as rinv1.
    destruct (ri_active _ _ _ _ rinv1 p Hp) as (this & Hthis & _).
    by eapply lookup_lt_Some.
Qed.

Lemma Valid_TickBoundary (luggage : nat -> Z) (run : nat -> bool) (tickLengthms : Z)
    (random : nat -> nat) (m : Method) (s0 s : Sim) :
  initSim random seatLayout m = Some s0 ->
  TickBoundary luggage run tickLengthms s0 s -> Valid (world s).
Proof.
  intros Hinit Hs.
  eapply (TickBoundary_PaxInv g0 0 (fun c => is_Some (g0 !! c)) (Towards up g0)
            (Towards down g0)); [..|apply Hs].
  - apply Valid_start.
  - intros c here n _ Hc Hn. eapply (Valid_link right); [tauto|done|done].
  - intros c here u k t target _. by apply (Safe_enter_up seatLayout no_wrap c here u k t target I).
  - intros c here d k t target _.
    by apply (Safe_enter_down seatLayout no_wrap c here d k t target I).
  - apply (Towards_move seatLayout up).
  - apply (Towards_move seatLayout down).
  - rewrite (initSim_world _ _ _ _ Hinit). apply initWorld_PaxInv.
Qed.

Lemma Valid_simLoop (luggage : nat -> Z) (run : nat -> bool) (tickLengthms : Z)
    (random : nat -> nat) (m : Method) (s0 : Sim) (e : Exn) (fuel : nat) :
  initSim random seatLayout m = Some s0 ->
  ∀ s, TickBoundary luggage run tickLengthms s0 s ->
       simLoop luggage run tickLengthms fuel s ≠ Rejected e.
Proof.
  intros Hinit. destruct (initSim_queue _ _ _ _ Hinit) as (_ & _ & Hnd & _).
  induction fuel as [|fuel IH]; intros s Hs.
  - rewrite simLoop_0. by destruct (loopCond run s).
  - rewrite simLoop_S. destruct (loopCond run s) eqn:Hc; [|done].
    destruct (loopBody luggage tickLengthms s) as [[s2|s1]|e'] eqn:Hb; [done| |].
    + apply IH. by eapply boundary_tick.
    + exfalso. revert Hb. apply (Valid_loopBody (pendingPax s0)); [done| |].
      * by apply (RunInv_TickBoundary _ Hnd luggage run tickLengthms s0 s
                    (initSim_RunInv _ _ _ _ Hinit)).
      * by eapply Valid_TickBoundary.
Qed.

End NoThrow.

(** X12. On a layout whose rows have at most 65471 symbols [S] and [+],
    the simulation never throws: it returns. *)
Theorem simulate_returns (random : nat -> nat) (run : nat -> bool)
    (tickLengthms : option Z) (luggageDistribution : option (nat -> Z))
    (seatLayout : list RowSpec) (m : Method) :
  Forall (fun rs => slotCount (layout rs) ≤ 65471) seatLayout ->
  ∃ s, simulate random run tickLengthms luggageDistribution seatLayout m = Finished s.
Proof.
  intros Hfit. unfold simulate.
  destruct (initSim_total random seatLayout m) as (pending & Hinit). rewrite Hinit.
  set (s0 := mkSim _ _ _ _ _).
  pose proof (simLoop_outcome (default (fun _ => 10000) luggageDistribution) run
                (default 500 tickLengthms) (Z.to_nat maxIterations) s0) as Hout.
  pose proof (Valid_simLoop seatLayout Hfit (default (fun _ => 10000) luggageDistribution) run
                (default 500 tickLengthms) random m s0) as Hno.
  destruct (simLoop _ _ _ _ s0) as [s|e|] eqn:E.
  - by exists s.
  - exfalso. apply (Hno e (Z.to_nat maxIterations) Hinit s0); [apply boundary_start|done].
  - exfalso. apply Hout; simpl; unfold maxIterations; lia.
Qed.

(** ** Seats in sight of the aisle *)

Lemma inView_old (a : nat) (r : Z) (st st' : GenState) (aisle : bool) (y : Z) (cnew : Cell)
    (dir : Cell -> option nat) (cmp : option Z -> option Z -> bool) (c t : nat) :
  GenInv a r st -> Extended st st' aisle y cnew -> dir = up ∨ dir = down ->
  inView (grid (aircraft st)) dir cmp c t = true ->
  inView (grid (aircraft st')) dir cmp c t = true.
Proof.
  intros inv E Hdir. unfold inView.
  destruct (grid (aircraft st) !! c) as [here|] eqn:Hc; [|done].
  destruct (grid (aircraft st) !! t) as [target|] eqn:Ht; [|done].
  destruct (dir here) as [n|] eqn:Hn; [|done].
  destruct (grid (aircraft st) !! n) as [k|] eqn:Hk; [|done].
  rewrite (Extended_old _ _ _ _ _ _ _ E Hc), (Extended_old _ _ _ _ _ _ _ E Ht).
  destruct (retouch_fields st aisle y c here) as (_ & _ & _ & Eup & _ & _ & Edown & _).
  destruct (retouch_fields st aisle y t target) as (-> & -> & _).
  assert (dir (retouch st aisle y c here) = Some n) as ->.
  { destruct Hdir as [-> | ->]; [congruence|]. rewrite Edown.
    case_decide as Hp; [|done]. exfalso.
    pose proof (prevCell_last _ _ _ _ inv Hp) as [_ Hlast].
    pose proof (gi_down _ _ _ inv _ _ _ Hc Hn). apply lookup_lt_Some in Hk. lia. }
  rewrite (Extended_old _ _ _ _ _ _ _ E Hk).
  by destruct (retouch_fields st aisle y n k) as (-> & -> & _).
Qed.

Lemma Sighted_old (a : nat) (r : Z) (st st' : GenState) (aisle : bool) (y : Z) (cnew : Cell)
    (view : list Cell -> nat -> nat -> bool) (t : nat) :
  GenInv a r st -> Extended st st' aisle y cnew ->
  (∀ c, view (grid (aircraft st)) c t = true -> view (grid (aircraft st')) c t = true) ->
  Sighted (grid (aircraft st)) view t -> Sighted (grid (aircraft st')) view t.
Proof.
  intros inv E Hview (c & here & Hc & Hs & Hv).
  exists c, (retouch st aisle y c here). split; [by apply (Extended_old _ _ _ _ _ _ _ E)|].
  destruct (retouch_fields st aisle y c here) as (_ & _ & _ & _ & _ & -> & _).
  split; [done|]. by apply Hview.
Qed.

Lemma inSight_old (a : nat) (r : Z) (st st' : GenState) (aisle : bool) (y : Z) (cnew : Cell)
    (c t : nat) :
  GenInv a r st -> Extended st st' aisle y cnew ->
  inSight (grid (aircraft st)) c t = true -> inSight (grid (aircraft st')) c t = true.
Proof.
  intros inv E [H|H]%orb_prop; apply orb_true_iff; [left|right];
    (eapply inView_old; [done|done| |done]); [by left|by right].
Qed.

Lemma Sighted_down (g : list Cell) (t : nat) :
  Sighted g (fun g => inView g down leq) t -> Sighted g inSight t.
Proof.
  intros (c & here & Hc & Hs & Hv). exists c, here. split; [done|]. split; [done|].
  unfold inSight. rewrite Hv. apply orb_true_r.
Qed.

Lemma retouch_isSeat (st : GenState) (aisle : bool) (y : Z) (i : nat) (c : Cell) :
  isSeat (retouch st aisle y i c) = isSeat c.
Proof. by destruct (retouch_fields st aisle y i c) as (_ & _ & _ & _ & _ & -> & _). Qed.

(** The old seats stay in sight when a cell is added. *)
Lemma Sighted_kept (a : nat) (r : Z) (st st' : GenState) (aisle : bool) (y : Z) (cnew : Cell)
    (t : nat) (target : Cell) (bound : nat) :
  GenInv a r st -> Extended st st' aisle y cnew ->
  (bound ≤ length (grid (aircraft st)))%nat ->
  (∀ t target, (t < bound)%nat -> grid (aircraft st) !! t = Some target ->
     isSeat target = true -> Sighted (grid (aircraft st)) inSight t) ->
  (t < bound)%nat -> grid (aircraft st') !! t = Some target -> isSeat target = true ->
  Sighted (grid (aircraft st')) inSight t.
Proof.
  intros inv E Hb Hold Ht Htarget Hs.
  destruct (Extended_fields _ _ _ _ _ _ _ E Htarget) as (t0 & Ht0 & _ & _ & _ & Es); [lia|].
  eapply Sighted_old; [done|done|intros c; by eapply inSight_old|].
  eapply Hold; [done|done|congruence].
Qed.

Lemma Sight_step (a : nat) (r x j c : Z) (rest : JSString) (st : GenState) :
  GenInv a r st ->
  NoWrapInv a st ∧ seatIndex st + slotCount (c :: rest) ≤ 65471 ->
  SightInv (c :: rest) a st -> SightInv rest a (genCell x r j c st).
Proof.
  intros inv [[Hidx Hcur Hord] Hfit] HS.
  rewrite slotCount_cons in Hfit. pose proof (slotCount_nonneg rest) as Hrest.
  pose proof (gi_rowstart _ _ _ inv) as Ha.
  unfold SightInv in *. cbv zeta in *.
  destruct (symbol_cases c) as [->|[->|[->|(H1 & H2 & H3)]]].
  - rewrite decide_True in Hfit by (by left).
    pose proof (genCell_seat_Extended a r x j st inv) as E.
    assert (fromCharCode (65 + seatIndex st) = 65 + seatIndex st) as Hletter
      by (apply fromCharCode_small; lia).
    destruct HS as [(Hall & Hold & Hcome)|(f & here & Haf & Hf & Hns & Hbefore & Hafter)].
    + left. split_and!.
      * intros i ci Hi Hci.
        destruct (Extended_inv _ _ _ _ _ _ _ E Hci) as [[-> ->]|[_ (c0 & H0 & ->)]]; [done|].
        rewrite retouch_isSeat. by eapply Hall.
      * intros t target Hta Ht Hs. eapply (Sighted_kept a r st _ _ _ _ t target a); try done. lia.
      * intros _. assert (char_A ∈ char_S :: rest) as HA by (apply Hcome; right; left).
        by apply elem_of_cons in HA as [HA|HA].
    + pose proof (lookup_lt_Some _ _ _ Hf) as Hflt.
      right. exists f, (retouch st false (j * CELLSIZE) f here). split_and!.
      * done.
      * by apply (Extended_old _ _ _ _ _ _ _ E).
      * by rewrite retouch_isSeat.
      * intros t target Htf Ht Hs. eapply (Sighted_kept a r st _ _ _ _ t target f); try done. lia.
      * intros t target Hft Ht Hs.
        destruct (Extended_inv _ _ _ _ _ _ _ E Ht) as [[-> ->]|[Hlt (t0 & Ht0 & ->)]].
        -- set (n := length (grid (aircraft st))) in *.
           assert (prevCell st = Some (n - 1)%nat) as Hprev
             by (rewrite (gi_prevCell _ _ _ inv), decide_True by lia; done).
           destruct (grid (aircraft st) !! (n - 1)%nat) as [cp|] eqn:Hcp;
             [|apply lookup_ge_None in Hcp; lia].
           assert (grid (aircraft (genCell x r j char_S st)) !! n =
                   Some (set_up (prevCell st)
                           (newSeat x (j * CELLSIZE) r (fromCharCode (65 + seatIndex st)))))
             as Hnew by (rewrite E, decide_True by done; done).
           destruct (isSeat cp) eqn:Hsp.
           ++ destruct (Hafter (n - 1)%nat cp) as (c' & h' & Hc' & Hns' & Hv); [|done|done|].
              { destruct (decide (f = n - 1)%nat) as [->|]; [congruence|lia]. }
              exists c', (retouch st false (j * CELLSIZE) c' h').
              split; [by apply (Extended_old _ _ _ _ _ _ _ E)|].
              split; [by rewrite retouch_isSeat|].
              unfold inView in Hv |- *. rewrite Hc', Hcp in Hv.
              destruct (down h') as [d|] eqn:Hd; [|done].
              destruct (grid (aircraft st) !! d) as [k|] eqn:Hk; [|done].
              apply andb_prop in Hv as [Hrow%bool_decide_eq_true Hcol].
              rewrite (Extended_old _ _ _ _ _ _ _ E Hc'), Hnew.
              destruct (retouch_fields st false (j * CELLSIZE) c' h')
                as (_ & _ & _ & _ & _ & _ & -> & _).
              rewrite decide_False by (rewrite Hprev; intros [= <-]; congruence).
              rewrite Hd, (Extended_old _ _ _ _ _ _ _ E Hk).
              destruct (retouch_fields st false (j * CELLSIZE) d k) as (-> & -> & _).
              simpl.
              destruct (gi_seat_rows _ _ _ inv _ _ Hcp Hsp) as (rr & kk & Hr & Hkk & _ & _ & Hge).
              rewrite Hge in Hr by lia. rewrite Hrow, Hr.
              apply andb_true_intro. split; [by apply bool_decide_eq_true|].
              rewrite Hkk in Hcol. unfold leq in *. destruct (col k) as [kc|]; [|done].
              pose proof (Hcur (n - 1)%nat cp kk ltac:(lia) Hcp Hkk). rewrite Hletter. lia.
           ++ exists (n - 1)%nat, (retouch st false (j * CELLSIZE) (n - 1) cp).
              split; [by apply (Extended_old _ _ _ _ _ _ _ E)|].
              split; [by rewrite retouch_isSeat|].
              unfold inView. rewrite (Extended_old _ _ _ _ _ _ _ E Hcp), Hnew.
              destruct (retouch_fields st false (j * CELLSIZE) (n - 1) cp)
                as (_ & _ & _ & _ & _ & _ & -> & _).
              rewrite decide_True by done. fold n. rewrite Hnew. simpl.
              apply andb_true_intro. split; [by apply bool_decide_eq_true|]. lia.
        -- rewrite retouch_isSeat in Hs.
           eapply Sighted_old; [done|done| |by eapply Hafter].
           intros c0 Hv. eapply inView_old; [done|done|by right|done].
  - pose proof (genCell_aisle_Extended a r x j st inv) as E.
    set (n := length (grid (aircraft st))) in *.
    assert (grid (aircraft (genCell x r j char_A st)) !! n =
            Some (set_up (prevCell st)
                    (set_left (Some (prevAisle st)) (newCell x (j * CELLSIZE)))))
      as Hnew by (rewrite E, decide_True by done; done).
    destruct HS as [(Hall & Hold & Hcome)|(f & here & Haf & Hf & Hns & Hbefore & Hafter)].
    + right. eexists n, _. split_and!; [lia|exact Hnew|done| |].
      * intros t target Htn Ht Hs.
        destruct (decide (t < a)%nat) as [Hta|Hta].
        { eapply (Sighted_kept a r st _ _ _ _ t target a); try done. lia. }
        destruct (Extended_inv _ _ _ _ _ _ _ E Ht) as [[-> ->]|[_ (t0 & Ht0 & ->)]]; [done|].
        rewrite retouch_isSeat in Hs.
        assert (prevCell st = Some (n - 1)%nat) as Hprev
          by (rewrite (gi_prevCell _ _ _ inv), decide_True by lia; done).
        destruct (grid (aircraft st) !! (n - 1)%nat) as [cp|] eqn:Hcp;
          [|apply lookup_ge_None in Hcp; lia].
        assert (isSeat cp = true) as Hsp by (eapply (Hall (n - 1)%nat); [lia|done]).
        eexists n, _. split; [exact Hnew|]. split; [done|].
        unfold inSight. apply orb_true_iff. left.
        unfold inView. rewrite Hnew, (Extended_old _ _ _ _ _ _ _ E Ht0). cbn [up set_up]. rewrite Hprev.
        rewrite (Extended_old _ _ _ _ _ _ _ E Hcp).
        destruct (retouch_fields st true (j * CELLSIZE) (n - 1) cp) as (-> & -> & _).
        destruct (retouch_fields st true (j * CELLSIZE) t t0) as (-> & -> & _).
        destruct (gi_seat_rows _ _ _ inv _ _ Hcp Hsp) as (rr & kk & Hr & Hkk & _ & _ & Hge).
        destruct (gi_seat_rows _ _ _ inv _ _ Ht0 Hs) as (rr' & kk' & Hr' & Hkk' & _ & _ & Hge').
        rewrite Hge in Hr by lia. rewrite Hge' in Hr' by lia.
        rewrite Hr, Hr', Hkk, Hkk'. simpl.
        apply andb_true_intro. split; [by apply bool_decide_eq_true|].
        destruct (decide (t = n - 1)%nat) as [->|Hne].
        -- rewrite Hcp in Ht0. injection Ht0 as <-. rewrite Hkk in Hkk'. injection Hkk' as <-. lia.
        -- destruct (Hord t (n - 1)%nat t0 cp) as [(k1 & k2 & E1 & E2 & Hlt) _];
             [lia|done|done|done|done|congruence|].
           rewrite Hkk' in E1. rewrite Hkk in E2. injection E1 as <-. injection E2 as <-. lia.
      * intros t target Hnt Ht _. pose proof (Extended_bound _ _ _ _ _ _ _ E Ht). lia.
    + pose proof (lookup_lt_Some _ _ _ Hf) as Hflt.
      right. exists f, (retouch st true (j * CELLSIZE) f here). split_and!.
      * done.
      * by apply (Extended_old _ _ _ _ _ _ _ E).
      * by rewrite retouch_isSeat.
      * intros t target Htf Ht Hs. eapply (Sighted_kept a r st _ _ _ _ t target f); try done.
        fold n. lia.
      * intros t target Hft Ht Hs.
        destruct (Extended_inv _ _ _ _ _ _ _ E Ht) as [[-> ->]|[Hlt (t0 & Ht0 & ->)]]; [done|].
        rewrite retouch_isSeat in Hs.
        eapply Sighted_old; [done|done| |by eapply Hafter].
        intros c0 Hv. eapply inView_old; [done|done|by right|done].
  - rewrite genCell_plus. simpl.
    destruct HS as [(Hall & Hold & Hcome)|HB]; [left|by right].
    split_and!; [done|done|]. intros Hp.
    assert (char_A ∈ char_plus :: rest) as HA.
    { apply Hcome. destruct Hp as [Hp|Hp]; [by left|right; by right]. }
    by apply elem_of_cons in HA as [HA|HA].
  - rewrite genCell_other by done.
    destruct HS as [(Hall & Hold & Hcome)|HB]; [left|by right].
    split_and!; [done|done|]. intros Hp.
    assert (char_A ∈ c :: rest) as HA.
    { apply Hcome. destruct Hp as [Hp|Hp]; [by left|right; by right]. }
    apply elem_of_cons in HA as [HA|HA]; [by subst|done].
Qed.

(** When no row wraps its letters and every row with a seat has an aisle
    cell, every seat is in sight from a cell that is not a seat. *)
Lemma generate_AllSighted (seatLayout : list RowSpec) :
  Forall (fun rs => slotCount (layout rs) ≤ 65471 ∧ hasAisle (layout rs)) seatLayout ->
  AllSighted (grid (generateAircraft seatLayout)).
Proof.
  intros Hfits.
  apply (generate_lift
           (fun symbols a st =>
              (NoWrapInv a st ∧ seatIndex st + slotCount symbols ≤ 65471) ∧
              SightInv symbols a st)
           (fun g => SeatsOrdered g ∧ AllSighted g)
           (fun symbols => slotCount symbols ≤ 65471 ∧ hasAisle symbols)); [| | | |done].
  - intros a r x j c rest st inv [HN HS]. split; [by eapply NoWrap_step|by eapply Sight_step].
  - intros r symbols st inv [Hord Hall] [Hfit Hhas]. split.
    + split; [|simpl; lia]. constructor; simpl; [done| |done].
      intros i c k Hi Hc%lookup_lt_Some. lia.
    + left. simpl. split_and!.
      * intros i c Hi Hc%lookup_lt_Some. lia.
      * intros t target _ Ht Hs. by eapply Hall.
      * intros [Hlt|HS]; [lia|by apply Hhas].
  - intros a r st inv [[[_ _ Hord] _] HS]. split; [done|].
    destruct HS as [(Hall & Hold & Hcome)|(f & here & Haf & Hf & Hns & Hbefore & Hafter)].
    + intros t target Ht Hs. destruct (decide (t < a)%nat); [by eapply Hold|]. exfalso.
      assert (char_A ∈ @nil Z) as HA by (apply Hcome; left; apply lookup_lt_Some in Ht; lia).
      by apply elem_of_nil in HA.
    + intros t target Ht Hs. destruct (lt_eq_lt_dec t f) as [[Hlt| -> ]|Hgt].
      * by eapply Hbefore.
      * congruence.
      * apply Sighted_down. by eapply Hafter.
  - split.
    + intros i i' c c' Hii Hc Hc'. apply lookup_lt_Some in Hc'. simpl in Hc'. lia.
    + intros t target Ht Hs. simpl in Ht. apply list_lookup_singleton_Some in Ht as [_ <-]. done.
Qed.

(** ** A searching passenger never walks past its row *)

Lemma topo_lookup_None (g g0 : list Cell) (i : nat) :
  topo g = topo g0 -> g !! i = None -> g0 !! i = None.
Proof.
  intros Ht Hi. destruct (g0 !! i) as [c0|] eqn:H0; [|done].
  destruct (topo_sym_fields _ _ _ _ Ht H0) as (c & Hc & _). congruence.
Qed.

Lemma inView_topo (g g0 : list Cell) (dir : Cell -> option nat)
    (cmp : option Z -> option Z -> bool) (c t : nat) :
  topo g = topo g0 -> dir = up ∨ dir = down ->
  inView g dir cmp c t = inView g0 dir cmp c t.
Proof.
  intros Ht Hdir. unfold inView.
  destruct (g !! c) as [here|] eqn:Hc; [|by rewrite (topo_lookup_None _ _ _ Ht Hc)].
  destruct (topo_fields _ _ _ _ Ht Hc) as (here0 & -> & Eup & Edown & _).
  destruct (g !! t) as [target|] eqn:Htg; [|by rewrite (topo_lookup_None _ _ _ Ht Htg)].
  destruct (topo_fields _ _ _ _ Ht Htg) as (target0 & -> & _ & _ & _ & _ & Er & Ec & _).
  assert (dir here = dir here0) as -> by (by destruct Hdir as [-> | ->]).
  destruct (dir here0) as [n|]; [|done].
  destruct (g !! n) as [k|] eqn:Hk; [|by rewrite (topo_lookup_None _ _ _ Ht Hk)].
  destruct (topo_fields _ _ _ _ Ht Hk) as (k0 & -> & _ & _ & _ & _ & Er' & Ec' & _).
  by rewrite Er, Ec, Er', Ec'.
Qed.

Lemma inSight_topo (g g0 : list Cell) (c t : nat) :
  topo g = topo g0 -> inSight g c t = inSight g0 c t.
Proof.
  intros Ht. unfold inSight.
  rewrite (inView_topo g g0 up) by (done || by left).
  by rewrite (inView_topo g g0 down) by (done || by right).
Qed.

Lemma walk_right_topo (g g0 : list Cell) (k : nat) :
  topo g = topo g0 -> ∀ c, walk right g k c = walk right g0 k c.
Proof.
  intros Ht. induction k as [|k IH]; intros c; [done|]. cbn [walk].
  destruct (g !! c) as [here|] eqn:Hc.
  - destruct (topo_fields _ _ _ _ Ht Hc) as (here0 & -> & _ & _ & _ & Er & _). simpl.
    rewrite Er. destruct (right here0); simpl; [apply IH|done].
  - by rewrite (topo_lookup_None _ _ _ Ht Hc).
Qed.

Lemma RowAhead_topo (g g0 : list Cell) (c t : nat) :
  topo g = topo g0 -> RowAhead g0 c t -> RowAhead g c t.
Proof.
  intros Ht (k & c' & Hw & Hs). exists k, c'.
  by rewrite (walk_right_topo g g0 k Ht), (inSight_topo g g0 c' t Ht).
Qed.

(** A searching passenger that has its row ahead and not in sight has a
    cell to its right, from which the row is still ahead. *)
Lemma RowAhead_right (g g0 : list Cell) (c t : nat) (here : Cell) :
  topo g = topo g0 -> RowAhead g0 c t -> g !! c = Some here ->
  inView g up geq c t = false -> inView g down leq c t = false ->
  ∃ n, right here = Some n ∧ RowAhead g0 n t.
Proof.
  intros Ht (k & c' & Hw & Hsight) Hhere Hup Hdown.
  destruct (topo_fields _ _ _ _ Ht Hhere) as (here0 & Hhere0 & _ & _ & _ & Er & _).
  destruct k as [|k].
  { simpl in Hw. injection Hw as <-. rewrite <- (inSight_topo _ _ _ _ Ht) in Hsight.
    unfold inSight in Hsight. by rewrite Hup, Hdown in Hsight. }
  cbn [walk] in Hw. rewrite Hhere0 in Hw. simpl in Hw. rewrite <- Er in Hw.
  destruct (right here) as [n|]; [|done]. simpl in Hw.
  exists n. split; [done|]. by exists k, c'.
Qed.

(** The two tests of a searching passenger, as [simulatePassenger] computes
    them. *)
Lemma viewTest_Ok (w : World) (dir : Cell -> option nat) (cmp : option Z -> option Z -> bool)
    (c t : nat) (here target : Cell) (b : bool) :
  grid (plane w) !! c = Some here -> grid (plane w) !! t = Some target ->
  match dir here with
  | Some u => k ← getCell w u; Ok (strictEq (row k) (row target) && cmp (col k) (col target))
  | None => Ok false
  end = Ok b ->
  b = inView (grid (plane w)) dir cmp c t.
Proof.
  intros Hc Ht. unfold inView, getCell. rewrite Hc, Ht.
  destruct (dir here) as [u|]; [|congruence].
  destruct (grid (plane w) !! u); simpl; congruence.
Qed.

(** What a call of [Passenger.simulate] does for a searching passenger. *)
Lemma simulatePassenger_Searching (luggage : nat -> Z) (deltaT : Z) (p : nat) (w w' : World)
    (this : Passenger) :
  pax w !! p = Some this -> state this = Some Searching ->
  simulatePassenger luggage deltaT p w = Ok w' ->
  ∃ c here, cell this = Some c ∧ grid (plane w) !! c = Some here ∧
    if inView (grid (plane w)) up geq c (targetSeat this)
    then w' = startLoading luggage p LoadingUp w
    else if inView (grid (plane w)) down leq c (targetSeat this)
    then w' = startLoading luggage p LoadingDown w
    else match right here with
         | Some n => ∃ k, grid (plane w) !! n = Some k ∧
                          if isEmpty k then move p (Some n) w = Ok w' else w' = w
         | None => w' = mkWorld (plane w) (pax w) (draws w)
                          (console w ++ [FailedToFindSeat (targetSeat this)])
         end.
Proof.
  intros Hthis Hst. unfold simulatePassenger, getPax. rewrite Hthis. simpl. rewrite Hst.
  intros (c & Hc%fromOption_Ok & H)%bind_Ok.
  apply bind_Ok in H as (here & Hhere%fromOption_Ok & H).
  apply bind_Ok in H as (target & Htarget%fromOption_Ok & H).
  apply bind_Ok in H as (upHit & HupHit & H).
  apply (viewTest_Ok w up geq c (targetSeat this)) in HupHit; [|done..]. subst upHit.
  exists c, here. split; [done|]. split; [done|].
  destruct (inView (grid (plane w)) up geq c (targetSeat this)); [by injection H|].
  apply bind_Ok in H as (downHit & HdownHit & H).
  apply (viewTest_Ok w down leq c (targetSeat this)) in HdownHit; [|done..]. subst downHit.
  destruct (inView (grid (plane w)) down leq c (targetSeat this)); [by injection H|].
  destruct (right here) as [n|]; [|by injection H].
  apply bind_Ok in H as (k & Hk%fromOption_Ok & H). exists k. split; [done|].
  destruct (isEmpty k); simpl in H; [done|by injection H].
Qed.

Lemma loadingStep_console (p : nat) (deltaT : Z) (dir : Cell -> option nat) (w w' : World) :
  loadingStep p deltaT dir w = Ok w' -> console w' = console w.
Proof.
  unfold loadingStep. intros (this & Hthis & H)%bind_Ok.
  destruct (timeToTransition this - deltaT <=? 0); [|by injection H as <-].
  apply bind_Ok in H as (c & Hc & H). apply bind_Ok in H as (here & Hhere & H).
  apply bind_Ok in H as (w2 & Hmove & H). apply bind_Ok in H as (this' & Hthis' & H).
  apply move_Ok in Hmove as (this1 & c1 & n & _ & _ & _ & ->).
  by destruct (bool_decide _); injection H as <-.
Qed.

Lemma simulatePassenger_quiet (luggage : nat -> Z) (deltaT : Z) (p : nat) (w w' : World)
    (this : Passenger) :
  pax w !! p = Some this -> state this ≠ Some Searching ->
  simulatePassenger luggage deltaT p w = Ok w' -> console w' = console w.
Proof.
  intros Hthis Hst. unfold simulatePassenger, getPax. rewrite Hthis. simpl.
  destruct (state this) as [[| | |]|]; [by intros [= <-]|done| | |by intros [= <-]];
    apply loadingStep_console.
Qed.

Lemma Transition_Searching (g g' : list Cell) (p : nat) (this this' : Passenger) :
  Transition g p this g' this' -> state this' = Some Searching -> state this = Some Searching.
Proof.
  intros T.
  destruct T as [ |t Hl|c here u k target t Hs Hc Hhere Hu Hk Htg H1 H2
                 |c here d k target t Hs Hc Hhere Hd Hk Htg H1 H2
                 |c here n k Hs Hc Hhere Hn Hk He
                 |st c here n t Hs Hc Hhere Hdir]; simpl; try done.
  case_bool_decide; simpl; [done|]. rewrite Hs.
  destruct Hdir as [[-> _]|[-> _]]; done.
Qed.

Section Course.

Variable seatLayout : list RowSpec.
Hypothesis fits :
  Forall (fun rs => slotCount (layout rs) ≤ 65471 ∧ hasAisle (layout rs)) seatLayout.

Let g0 := grid (generateAircraft seatLayout).

Local Abbreviation Plain := (PaxInv g0 0 (fun _ => True) (fun _ _ => True) (fun _ _ => True)).

(** On entry, the row of every seat is ahead. *)
Lemma entry_RowAhead (t : nat) (target : Cell) :
  g0 !! t = Some target -> isSeat target = true -> RowAhead g0 0 t.
Proof.
  intros Ht Hs.
  destruct (generate_AllSighted seatLayout fits t target Ht Hs) as (c & here & Hc & Hns & Hv).
  destruct (generate_walk_left seatLayout c here Hc Hns) as [k Hk].
  destruct (generateAircraft_GenInv seatLayout) as (r & pa & inv).
  exists k, c. split; [|done].
  apply walk_left_right; [|done]. apply (gi_leftright _ _ _ inv).
Qed.

Lemma Plain_simulatePassenger (luggage : nat -> Z) (deltaT : Z) (p : nat) (w w' : World) :
  Plain w -> simulatePassenger luggage deltaT p w = Ok w' -> Plain w'.
Proof. by apply simulatePassenger_PaxInv. Qed.

Lemma Course_simulatePassenger (luggage : nat -> Z) (deltaT : Z) (p : nat) (w w' : World) :
  topo (grid (plane w)) = topo g0 -> OnCourse g0 w ->
  simulatePassenger luggage deltaT p w = Ok w' ->
  OnCourse g0 w' ∧ console w' = console w.
Proof.
  intros Ht Hcourse Hsim.
  destruct (simulatePassenger_Ok _ _ _ _ _ Hsim) as (this & this' & Hthis & T & Hpax & Hplane).
  destruct (decide (state this = Some Searching)) as [Hst|Hst].
  - destruct (simulatePassenger_Searching _ _ _ _ _ _ Hthis Hst Hsim)
      as (c & here & Hcell & Hhere & Hcases).
    destruct (Hcourse p this Hthis Hst) as (c1 & Hc1 & Hahead).
    rewrite Hcell in Hc1. injection Hc1 as <-.
    assert (∀ w1 st, w1 = startLoading luggage p st w -> st ≠ Searching ->
              OnCourse g0 w1 ∧ console w1 = console w) as Hload.
    { intros w1 st -> Hne. split; [|done]. intros q that Hq Hsq. simpl in Hq.
      rewrite !list_lookup_alter in Hq. case_decide; [|by eapply Hcourse].
      subst q. rewrite decide_True, Hthis in Hq by done.
      simpl in Hq. injection Hq as <-. simpl in Hsq. congruence. }
    destruct (inView (grid (plane w)) up geq c (targetSeat this)) eqn:Hup;
      [by eapply (Hload _ LoadingUp)|].
    destruct (inView (grid (plane w)) down leq c (targetSeat this)) eqn:Hdown;
      [by eapply (Hload _ LoadingDown)|].
    destruct (RowAhead_right _ _ _ _ _ Ht Hahead Hhere Hup Hdown) as (n & Hn & Hahead').
    rewrite Hn in Hcases. destruct Hcases as (kc & Hkc & Hmove).
    destruct (isEmpty kc); [|by subst].
    apply move_Ok in Hmove as (this1 & c1 & n1 & Hthis1 & Hc1 & [= <-] & ->).
    split; [|done]. intros q that Hq Hsq. simpl in Hq.
    apply list_lookup_insert_Some in Hq as [(-> & <- & _)|[_ Hq]]; [|by eapply Hcourse].
    rewrite Hthis in Hthis1. injection Hthis1 as <-.
    exists n. by split.
  - split.
    + intros q that Hq Hsq. rewrite Hpax in Hq.
      apply list_lookup_insert_Some in Hq as [(-> & <- & _)|[_ Hq]]; [|by eapply Hcourse].
      exfalso. apply Hst. by eapply Transition_Searching.
    + by eapply simulatePassenger_quiet.
Qed.

Lemma Course_simulateAll (luggage : nat -> Z) (deltaT : Z) (active : list nat) :
  ∀ w w', Plain w -> OnCourse g0 w -> simulateAll luggage deltaT active w = Ok w' ->
    Plain w' ∧ OnCourse g0 w' ∧ console w' = console w.
Proof.
  induction active as [|p rest IH]; intros w w' inv Hcourse; simpl.
  - by intros [= <-].
  - intros (w1 & H1 & H)%bind_Ok.
    destruct (Course_simulatePassenger _ _ _ _ _ (pi_topo _ _ _ _ _ _ inv) Hcourse H1)
      as [Hcourse1 Hlog1].
    destruct (IH w1 w' (Plain_simulatePassenger _ _ _ _ _ inv H1) Hcourse1 H)
      as (inv' & Hcourse' & Hlog').
    split; [done|]. split; [done|]. congruence.
Qed.

Lemma Course_admitPassenger (s s1 : Sim) :
  Plain (world s) -> OnCourse g0 (world s) -> admitPassenger s = Ok s1 ->
  Plain (world s1) ∧ OnCourse g0 (world s1) ∧ console (world s1) = console (world s).
Proof.
  intros inv Hcourse H1.
  split; [by eapply admitPassenger_PaxInv|].
  destruct (admitPassenger_cases s) as [Ha|[Ha|(p & rest & c & _ & _ & _ & Ha)]];
    rewrite Ha in H1; [done|by injection H1 as <-|].
  injection H1 as <-. split; [|done]. intros q that Hq Hsq. simpl in Hq.
  rewrite !list_lookup_alter in Hq. case_decide; [|by eapply Hcourse]. subst q.
  rewrite decide_True in Hq by done.
  destruct (pax (world s) !! p) as [this|] eqn:Hthis; [|done].
  simpl in Hq. injection Hq as <-. simpl.
  rewrite (pi_start _ _ _ _ _ _ inv). exists 0%nat. split; [done|].
  destruct (pi_pax _ _ _ _ _ _ inv _ _ Hthis) as [(target & Htarget & Hseat) _].
  by eapply entry_RowAhead.
Qed.

Lemma Course_loopBody (luggage : nat -> Z) (tickLengthms : Z) (s : Sim) (e : BodyEnd) :
  Plain (world s) -> OnCourse g0 (world s) -> loopBody luggage tickLengthms s = Ok e ->
  Plain (world (bodyState e)) ∧ OnCourse g0 (world (bodyState e)) ∧
  console (world (bodyState e)) = console (world s).
Proof.
  intros inv Hcourse. unfold loopBody. intros (s1 & H1 & H)%bind_Ok.
  destruct (Course_admitPassenger _ _ inv Hcourse H1) as (inv1 & Hcourse1 & Hlog1).
  destruct (allSeated _ _); [by injection H as <-|].
  apply bind_Ok in H as (w & Hw & [= <-]). simpl.
  destruct (Course_simulateAll _ _ _ _ _ inv1 Hcourse1 Hw) as (inv' & Hcourse' & Hlog').
  split; [done|]. split; [done|]. congruence.
Qed.

Lemma Course_TickBoundary (luggage : nat -> Z) (run : nat -> bool) (tickLengthms : Z)
    (s0 s : Sim) :
  Plain (world s0) -> OnCourse g0 (world s0) ->
  TickBoundary luggage run tickLengthms s0 s ->
  Plain (world s) ∧ OnCourse g0 (world s) ∧ console (world s) = console (world s0).
Proof.
  intros inv0 Hcourse0. induction 1 as [|s s' _ (inv & Hcourse & Hlog) _ Hbody]; [done|].
  destruct (Course_loopBody _ _ _ _ inv Hcourse Hbody) as (inv' & Hcourse' & Hlog').
  split; [done|]. split; [done|]. simpl in Hlog'. congruence.
Qed.

End Course.

(** X13. On a layout whose rows keep their letters below the wrap and have
    an aisle cell whenever they have a seat, no passenger ever walks past
    its row: at every tick boundary each searching passenger stands in a
    cell from which a cell that has its seat in sight lies ahead along the
    [right] links, and the message that a passenger failed to find its seat
    is never logged. *)
Theorem row_always_ahead (luggage : nat -> Z) (run : nat -> bool) (tickLengthms : Z)
    (random : nat -> nat) (seatLayout : list RowSpec) (m : Method) (s0 s : Sim) :
  Forall (fun rs => slotCount (layout rs) ≤ 65471 ∧ hasAisle (layout rs)) seatLayout ->
  initSim random seatLayout m = Some s0 ->
  TickBoundary luggage run tickLengthms s0 s ->
  (∀ p this, pax (world s) !! p = Some this -> state this = Some Searching ->
     ∃ c, cell this = Some c ∧ RowAhead (grid (plane (world s))) c (targetSeat this)) ∧
  console (world s) = console (world s0) ∧
  ∀ seat, FailedToFindSeat seat ∉ console (world s).
Proof.
  intros Hfits Hinit Hs. pose proof (initSim_world _ _ _ _ Hinit) as Hw0.
  destruct (Course_TickBoundary seatLayout Hfits luggage run tickLengthms s0 s)
    as (inv & Hcourse & Hlog); [| |done|].
  - rewrite Hw0. apply initWorld_PaxInv.
  - rewrite Hw0. intros p this Hp Hst. simpl in Hp.
    apply list_lookup_fmap_Some in Hp as (t & -> & _). done.
  - split; [|split; [done|]].
    + intros p this Hp Hst. destruct (Hcourse p this Hp Hst) as (c & Hc & Hahead).
      exists c. split; [done|]. eapply RowAhead_topo; [apply inv|done].
    + intros seat. rewrite Hlog, Hw0. simpl. intros H.
      destruct m; simpl in H; repeat (apply elem_of_cons in H as [H|H]; [done|]);
        by apply elem_of_nil in H.
Qed.

(** ** Every pass makes progress *)

Lemma waits_wait (deltaT t : Z) :
  0 < deltaT -> 0 < t - deltaT -> waits deltaT t = S (waits deltaT (t - deltaT)).
Proof.
  intros Hd Ht. unfold waits.
  replace (t - 1) with ((t - deltaT - 1) + 1 * deltaT) by lia.
  rewrite Z.div_add by lia.
  pose proof (Z.div_pos (t - deltaT - 1) deltaT ltac:(lia) Hd) as H.
  revert H. generalize ((t - deltaT - 1) / deltaT). lia.
Qed.

Lemma waits_mono (deltaT t L : Z) : 0 < deltaT -> t ≤ L -> (waits deltaT t ≤ waits deltaT L)%nat.
Proof.
  intros Hd Ht. unfold waits.
  pose proof (Z.div_le_mono (t - 1) (L - 1) deltaT Hd ltac:(lia)) as H.
  revert H. generalize ((t - 1) / deltaT) ((L - 1) / deltaT). lia.
Qed.

Lemma sum_list_fmap_insert {A} (f : A -> nat) (l : list A) (i : nat) (x y : A) :
  l !! i = Some x ->
  (sum_list (f <$> <[i := y]> l) + f x = sum_list (f <$> l) + f y)%nat.
Proof.
  revert i. induction l as [|a l IH]; intros [|i] H; try done.
  - injection H as ->. simpl. lia.
  - specialize (IH i H). change (<[S i := y]> (a :: l)) with (a :: <[i := y]> l).
    rewrite !fmap_cons. cbn [sum_list sum_list_with]. lia.
Qed.

Lemma sum_list_fmap_const {A} (f : A -> nat) (l : list A) (n : nat) :
  (∀ x, x ∈ l -> f x = n) -> sum_list (f <$> l) = (length l * n)%nat.
Proof.
  induction l as [|a l IH]; intros H; [done|].
  rewrite fmap_cons. cbn [sum_list sum_list_with length]. rewrite (H a) by left.
  rewrite IH; [simpl; lia|]. intros x Hx. apply H. by right.
Qed.

(** The aisle runs through the grid in the order of the indices. *)
Lemma generate_right_index (seatLayout : list RowSpec) (i : nat) (c : Cell) (n : nat) :
  grid (generateAircraft seatLayout) !! i = Some c -> right c = Some n -> (i < n)%nat.
Proof.
  revert i c n.
  apply (generateAircraft_Q (fun a => ∀ i c n, grid a !! i = Some c -> right c = Some n ->
                               (i < n)%nat)).
  - intros a r x j c st inv HQ.
    destruct (symbol_cases c) as [->|[->|[->|(H1 & H2 & H3)]]].
    + pose proof (genCell_seat_Extended a r x j st inv) as E. intros i ci n Hi Hn.
      destruct (Extended_inv _ _ _ _ _ _ _ E Hi) as [[-> ->]|[_ (c0 & H0 & ->)]]; [done|].
      destruct (retouch_fields st false (j * CELLSIZE) i c0) as (_ & _ & _ & _ & _ & _ & _ & Er).
      rewrite Er in Hn. simpl in Hn. by eapply HQ.
    + pose proof (genCell_aisle_Extended a r x j st inv) as E. intros i ci n Hi Hn.
      destruct (Extended_inv _ _ _ _ _ _ _ E Hi) as [[-> ->]|[Hlt (c0 & H0 & ->)]]; [done|].
      destruct (retouch_fields st true (j * CELLSIZE) i c0) as (_ & _ & _ & _ & _ & _ & _ & Er).
      rewrite Er in Hn. simpl in Hn. case_bool_decide; [|by eapply HQ].
      injection Hn as <-. done.
    + done.
    + by rewrite genCell_other.
  - intros i c n Hi Hn. simpl in Hi. apply list_lookup_singleton_Some in Hi as [_ <-]. done.
Qed.

(** What a call of a loading passenger does to the passengers. *)
Lemma loadingStep_cases (deltaT : Z) (p : nat) (dir : Cell -> option nat) (w w' : World)
    (this : Passenger) :
  pax w !! p = Some this -> loadingStep p deltaT dir w = Ok w' ->
  (0 < timeToTransition this - deltaT ∧
   pax w' = <[p := set_timeToTransition (timeToTransition this - deltaT) this]> (pax w)) ∨
  (timeToTransition this - deltaT ≤ 0 ∧
   ∃ c here n, cell this = Some c ∧ grid (plane w) !! c = Some here ∧ dir here = Some n ∧
     pax w' = <[p := (if bool_decide (n = targetSeat this)
                      then set_state (Some Seated) else id)
                       (set_cell (Some n)
                          (set_timeToTransition (timeToTransition this - deltaT) this))]>
                (pax w)).
Proof.
  intros Hthis. unfold loadingStep, getPax. rewrite Hthis. simpl.
  pose proof (lookup_lt_Some _ _ _ Hthis) as Hlt.
  destruct (Z.leb_spec (timeToTransition this - deltaT) 0) as [Hle|Hgt].
  - intros (c & Hc%fromOption_Ok & H)%bind_Ok.
    apply bind_Ok in H as (here & Hhere%fromOption_Ok & H).
    apply bind_Ok in H as (w2 & Hmove & H). simpl in Hhere.
    apply move_Ok in Hmove as (this1 & c1 & n & Hthis1 & Hc1 & Hn & ->). simpl in *.
    rewrite (alter_lookup_insert _ _ _ _ Hthis) in Hthis1.
    rewrite list_lookup_insert_eq in Hthis1 by done. injection Hthis1 as <-.
    simpl in Hc1. rewrite Hc in Hc1. injection Hc1 as <-.
    rewrite (alter_lookup_insert _ _ _ _ Hthis), list_insert_insert_eq in H.
    unfold getPax in H. simpl in H. rewrite list_lookup_insert_eq in H by done. simpl in H.
    right. split; [done|]. exists c, here, n. split_and!; try done.
    destruct (decide (n = targetSeat this)) as [E|E].
    + rewrite bool_decide_eq_true_2 in H by (by rewrite E). injection H as <-. simpl.
      rewrite bool_decide_eq_true_2 by done. by rewrite alter_insert_eq.
    + rewrite bool_decide_eq_false_2 in H by congruence. injection H as <-. simpl.
      by rewrite bool_decide_eq_false_2.
  - intros [= <-]. left. split; [lia|]. simpl. by rewrite (alter_lookup_insert _ _ _ _ Hthis).
Qed.

Lemma Stuck_same (w w1 : World) (p : nat) :
  pax w1 = pax w -> plane w1 = plane w -> Stuck w1 p -> Stuck w p.
Proof. unfold Stuck. by intros -> ->. Qed.

(** A loading passenger that steps towards its seat gets closer to it. *)
Lemma Towards_apart (seatLayout : list RowSpec) (dir : Cell -> option nat) (c t n : nat)
    (here : Cell) :
  dir = up ∨ dir = down -> Towards dir (grid (generateAircraft seatLayout)) c t ->
  grid (generateAircraft seatLayout) !! c = Some here -> dir here = Some n ->
  apart c t = S (apart n t).
Proof.
  destruct (generateAircraft_GenInv seatLayout) as (r & pa & inv).
  intros Hdir [k Hk] Hc Hn. unfold apart. destruct Hdir as [-> | ->].
  - destruct (walk_up_index _ (gi_up _ _ _ inv) _ _ _ Hk) as [-> _].
    pose proof (gi_up _ _ _ inv _ _ _ Hc Hn). lia.
  - destruct (walk_down_index _ (gi_down _ _ _ inv) _ _ _ Hk) as [-> _].
    pose proof (gi_down _ _ _ inv _ _ _ Hc Hn). lia.
Qed.

Lemma PaxInv_plain (g0 : list Cell) (start : nat) (Srch : nat -> Prop)
    (LU LD : nat -> nat -> Prop) (w : World) :
  PaxInv g0 start Srch LU LD w ->
  PaxInv g0 start (fun _ => True) (fun _ _ => True) (fun _ _ => True) w.
Proof.
  intros [Ht Hs Hp]. constructor; [done|done|].
  intros p this Hthis. destruct (Hp p this Hthis) as [Htarget Hstate]. split; [done|].
  destruct (state this) as [[| | |]|]; try done;
    destruct Hstate as (c & ? & ?); by exists c.
Qed.

Section Progress.

Variable seatLayout : list RowSpec.
Hypothesis fits :
  Forall (fun rs => slotCount (layout rs) ≤ 65471 ∧ hasAisle (layout rs)) seatLayout.
Variable luggage : nat -> Z.
Variable deltaT L : Z.
Hypothesis tick_positive : 0 < deltaT.
Hypothesis luggage_bounded : ∀ k, luggage k ≤ L.

Let g0 := grid (generateAircraft seatLayout).
Let G := length g0.
Let W := waits deltaT L.

Local Abbreviation Valid :=
  (PaxInv g0 0 (fun c => is_Some (g0 !! c)) (Towards up g0) (Towards down g0)).
Local Abbreviation total := (totalEffort G W deltaT).

Lemma fits_no_wrap : Forall (fun rs => slotCount (layout rs) ≤ 65471) seatLayout.
Proof. eapply Forall_impl; [exact fits|]. by intros rs [? _]. Qed.

Lemma total_insert (w w' : World) (p : nat) (this that : Passenger) :
  pax w !! p = Some this -> pax w' = <[p := that]> (pax w) ->
  (effort G W deltaT that < effort G W deltaT this)%nat -> (total w' < total w)%nat.
Proof.
  intros Hthis Hpax Hlt. unfold totalEffort. rewrite Hpax.
  pose proof (sum_list_fmap_insert (effort G W deltaT) _ _ _ that Hthis). lia.
Qed.

Lemma effort_loadingStep (p : nat) (dir : Cell -> option nat) (w w' : World) (this : Passenger)
    (st : State) (c : nat) :
  Valid w -> pax w !! p = Some this -> state this = Some st ->
  st = LoadingUp ∧ dir = up ∨ st = LoadingDown ∧ dir = down ->
  cell this = Some c -> Towards dir g0 c (targetSeat this) ->
  loadingStep p deltaT dir w = Ok w' -> (total w' < total w)%nat.
Proof.
  intros inv Hthis Hst Hdir Hc Hto Hstep.
  destruct (loadingStep_cases _ _ _ _ _ _ Hthis Hstep)
    as [[Hgt Hpax]|(Hle & c' & here & n & Hc' & Hhere & Hn & Hpax)].
  - eapply total_insert; [done|done|]. unfold effort. simpl. rewrite Hst, Hc.
    pose proof (waits_wait deltaT (timeToTransition this) tick_positive Hgt) as Hw.
    destruct Hdir as [[-> _]|[-> _]]; lia.
  - rewrite Hc in Hc'. injection Hc' as <-.
    destruct (topo_fields _ _ _ _ (pi_topo _ _ _ _ _ _ inv) Hhere)
      as (here0 & Hhere0 & Eu & Ed & _).
    assert (dir here0 = Some n) as Hn0 by (destruct Hdir as [[_ ->]|[_ ->]]; congruence).
    assert (dir = up ∨ dir = down) as Hdir' by (destruct Hdir as [[_ ->]|[_ ->]]; tauto).
    pose proof (Towards_apart seatLayout dir c (targetSeat this) n here0 Hdir' Hto Hhere0 Hn0) as Hap.
    eapply total_insert; [done|done|]. unfold effort at 2. rewrite Hst, Hc.
    assert (0 < waits deltaT (timeToTransition this) + apart c (targetSeat this))%nat as Hpos
      by lia.
    case_bool_decide.
    + unfold effort. simpl.
      destruct Hdir as [[-> _]|[-> _]]; lia.
    + unfold effort. simpl. rewrite Hst.
      assert (waits deltaT (timeToTransition this - deltaT) = 0%nat) as ->.
      { unfold waits.
        pose proof (Z.div_lt_upper_bound (timeToTransition this - deltaT - 1) deltaT 0
                      tick_positive ltac:(lia)) as H0.
        revert H0. generalize ((timeToTransition this - deltaT - 1) / deltaT). lia. }
      destruct Hdir as [[-> _]|[-> _]]; lia.
Qed.

(** A call of [Passenger.simulate] lowers the total, or changes neither the
    passengers nor the grid, and then the passenger is stuck. *)
Lemma effort_simulatePassenger (p : nat) (w w' : World) :
  Valid w -> OnCourse g0 w -> simulatePassenger luggage deltaT p w = Ok w' ->
  (total w' < total w)%nat ∨ (pax w' = pax w ∧ plane w' = plane w ∧ Stuck w p).
Proof.
  intros inv Hcourse Hsim. pose proof (pi_topo _ _ _ _ _ _ inv) as Ht.
  assert (∃ this, pax w !! p = Some this) as [this Hthis].
  { unfold simulatePassenger in Hsim. apply bind_Ok in Hsim as (this & Hthis%fromOption_Ok & _).
    by exists this. }
  pose proof (lookup_lt_Some _ _ _ Hthis) as Hlt.
  destruct (pi_pax _ _ _ _ _ _ inv _ _ Hthis) as [(target0 & Ht0 & _) Hstate].
  apply lookup_lt_Some in Ht0. fold G in Ht0.
  destruct (state this) as [[| | |]|] eqn:Hst.
  - right. assert (w' = w) as ->.
    { unfold simulatePassenger, getPax in Hsim. rewrite Hthis in Hsim. simpl in Hsim.
      rewrite Hst in Hsim. by injection Hsim. }
    split; [done|]. split; [done|]. exists this. split; [done|]. right. by left.
  - destruct (simulatePassenger_Searching _ _ _ _ _ _ Hthis Hst Hsim)
      as (c & here & Hcell & Hhere & Hcases).
    destruct Hstate as (c1 & Hc1 & [here0 Hhere0]). rewrite Hcell in Hc1. injection Hc1 as <-.
    pose proof (lookup_lt_Some _ _ _ Hhere0) as Hc. fold G in Hc.
    destruct (Hcourse p this Hthis Hst) as (c1 & Hc1 & Hahead).
    rewrite Hcell in Hc1. injection Hc1 as <-.
    assert (∀ st, st = LoadingUp ∨ st = LoadingDown ->
              w' = startLoading luggage p st w -> (total w' < total w)%nat) as Hload.
    { intros st Hst' ->.
      eapply (total_insert _ _ p this
                (set_timeToTransition (luggage (draws w)) (set_state (Some st) this)));
        [done| |].
      - simpl. by rewrite (alter_lookup_insert _ _ _ _ Hthis), alter_insert_eq.
      - unfold effort. simpl. rewrite Hst, Hcell.
        pose proof (waits_mono deltaT _ L tick_positive (luggage_bounded (draws w))) as Hw.
        fold W in Hw. unfold apart. destruct Hst' as [-> | ->]; lia. }
    destruct (inView (grid (plane w)) up geq c (targetSeat this)) eqn:Hup;
      [left; apply (Hload LoadingUp); tauto|].
    destruct (inView (grid (plane w)) down leq c (targetSeat this)) eqn:Hdown;
      [left; apply (Hload LoadingDown); tauto|].
    destruct (RowAhead_right _ _ _ _ _ Ht Hahead Hhere Hup Hdown) as (n & Hn & _).
    rewrite Hn in Hcases. destruct Hcases as (kc & Hkc & Hmove).
    destruct (isEmpty kc) eqn:Hempty.
    + left. apply move_Ok in Hmove as (this1 & c1 & n1 & Hthis1 & Hc1 & [= <-] & ->).
      rewrite Hthis in Hthis1. injection Hthis1 as <-.
      eapply (total_insert _ _ p this (set_cell (Some n) this)); [done|done|].
      unfold effort. simpl. rewrite Hst, Hcell.
      destruct (topo_fields _ _ _ _ Ht Hhere) as (here0' & Hhere0' & _ & _ & _ & Er & _).
      rewrite Hn in Er.
      pose proof (generate_right_index seatLayout c here0' n Hhere0' (eq_sym Er)). lia.
    + right. subst w'. split; [done|]. split; [done|]. exists this. split; [done|].
      right. right. split; [done|]. by exists c, here, n, kc.
  - left. destruct Hstate as (c & Hc & Hto).
    unfold simulatePassenger, getPax in Hsim. rewrite Hthis in Hsim. simpl in Hsim.
    rewrite Hst in Hsim.
    eapply (effort_loadingStep p up w w' this LoadingUp c); try done. by left.
  - left. destruct Hstate as (c & Hc & Hto).
    unfold simulatePassenger, getPax in Hsim. rewrite Hthis in Hsim. simpl in Hsim.
    rewrite Hst in Hsim.
    eapply (effort_loadingStep p down w w' this LoadingDown c); try done. by right.
  - right. assert (w' = w) as ->.
    { unfold simulatePassenger, getPax in Hsim. rewrite Hthis in Hsim. simpl in Hsim.
      rewrite Hst in Hsim. by injection Hsim. }
    split; [done|]. split; [done|]. exists this. split; [done|]. by left.
Qed.

Lemma effort_simulateAll (active : list nat) :
  ∀ w w', Valid w -> OnCourse g0 w -> simulateAll luggage deltaT active w = Ok w' ->
    (total w' < total w)%nat ∨
    (pax w' = pax w ∧ plane w' = plane w ∧ ∀ p, p ∈ active -> Stuck w p).
Proof.
  induction active as [|p rest IH]; intros w w' inv Hcourse; simpl.
  - intros [= <-]. right. split; [done|]. split; [done|]. by intros p ?%elem_of_nil.
  - intros (w1 & H1 & H)%bind_Ok.
    pose proof (Valid_simulatePassenger_Ok seatLayout fits_no_wrap _ _ _ _ _ inv H1) as inv1.
    destruct (Course_simulatePassenger seatLayout _ _ _ _ _ (pi_topo _ _ _ _ _ _ inv) Hcourse H1)
      as [Hcourse1 _].
    destruct (IH w1 w' inv1 Hcourse1 H) as [Hlt|(Hpax & Hplane & Hstuck)];
      destruct (effort_simulatePassenger p w w1 inv Hcourse H1) as [Hlt1|(Hpax1 & Hplane1 & Hs1)].
    + left. lia.
    + left. unfold totalEffort in *. rewrite <- Hpax1. done.
    + left. unfold totalEffort in *. rewrite Hpax. done.
    + right. split; [congruence|]. split; [congruence|].
      intros q [->|Hq]%elem_of_cons; [done|].
      eapply Stuck_same; [exact Hpax1|exact Hplane1|by apply Hstuck].
Qed.

(** The passengers of a run cannot all be stuck: the one that is furthest
    along the aisle has a free cell to its right. *)
Lemma not_all_stuck (queue : list nat) (w : World) (pending active : list nat) :
  RunInv queue w pending active -> Valid w ->
  allSeated w active = false -> (∀ p, p ∈ active -> Stuck w p) -> False.
Proof.
  intros rinv inv Hall Hstuck. pose proof (pi_topo _ _ _ _ _ _ inv) as Ht.
  destruct (generateAircraft_GenInv seatLayout) as (r & pa & ginv).
  assert (∀ n p this c, (G ≤ c + n)%nat -> p ∈ active -> pax w !! p = Some this ->
            state this = Some Searching -> cell this = Some c -> False) as Hfront.
  { induction n as [|n IH]; intros p this c Hn Hp Hthis Hst Hc;
      destruct (Hstuck p Hp) as (this1 & Hthis1 & Hcases);
      rewrite Hthis in Hthis1; injection Hthis1 as <-;
      destruct Hcases as [Hs|[Hs|(_ & c1 & here & nx & k & Hc1 & Hhere & Hnx & Hk & Hfull)]];
      try congruence; rewrite Hc in Hc1; injection Hc1 as <-;
      destruct (topo_fields _ _ _ _ Ht Hhere) as (here0 & Hhere0 & _ & _ & _ & Er & _).
    - apply lookup_lt_Some in Hhere0. fold G in Hhere0. lia.
    - rewrite Hnx in Er. symmetry in Er.
      pose proof (generate_right_index seatLayout c here0 nx Hhere0 Er) as Hlt.
      assert (∃ q, q ∈ contents k) as [q Hq].
      { apply size_pos_elem_of. unfold isEmpty in Hfull.
        apply bool_decide_eq_false in Hfull. lia. }
      apply (ri_contents _ _ _ _ rinv nx k q Hk) in Hq as (that & Hthat & Hcq).
      assert (is_Some (state that)) as Hsome
        by (apply (ri_cell _ _ _ _ rinv q that Hthat); by eexists).
      pose proof (ri_boarded _ _ _ _ rinv q that Hthat Hsome) as Hqa.
      destruct (Hstuck q Hqa) as (that1 & Hthat1 & Hcases).
      rewrite Hthat in Hthat1. injection Hthat1 as <-.
      destruct Hcases as [Hs|[Hs|(Hs & _)]].
      + rewrite Hs in Hsome. by destruct Hsome.
      + pose proof (ri_seated _ _ _ _ rinv q that Hthat Hs) as Hseat.
        rewrite Hcq in Hseat. injection Hseat as ->.
        destruct (pi_pax _ _ _ _ _ _ inv _ _ Hthat) as [(target0 & Ht0 & Hseat0) _].
        destruct (gi_rightleft _ _ _ ginv _ _ _ Hhere0 Er) as (d & Hd & Hl).
        change (g0 !! targetSeat that = Some d) in Hd. rewrite Ht0 in Hd. injection Hd as <-.
        destruct (gi_seat_links _ _ _ ginv _ _ Ht0 Hseat0) as [Hno _]. congruence.
      + eapply (IH q that nx); [lia|done..]. }
  unfold allSeated in Hall. apply bool_decide_eq_false in Hall.
  destruct (filter (fun p => isSeated w p = false) active) as [|p l] eqn:Hf; [done|].
  assert (p ∈ filter (fun p => isSeated w p = false) active) as Hp by (rewrite Hf; left).
  apply list_elem_of_filter in Hp as [Hns Hp].
  destruct (Hstuck p Hp) as (this & Hthis & Hcases).
  destruct (ri_active _ _ _ _ rinv p Hp) as (this1 & Hthis1 & Hsome).
  rewrite Hthis in Hthis1. injection Hthis1 as <-.
  unfold isSeated in Hns. rewrite Hthis in Hns. apply bool_decide_eq_false in Hns.
  destruct Hcases as [Hs|[Hs|(Hs & c & here & _ & _ & Hc & Hhere & _)]].
  - rewrite Hs in Hsome. by destruct Hsome.
  - done.
  - destruct (topo_fields _ _ _ _ Ht Hhere) as (here0 & Hhere0%lookup_lt_Some & _).
    eapply (Hfront G p this c); [lia|done..].
Qed.

Lemma effort_admitPassenger (queue : list nat) (s s1 : Sim) :
  RunInv queue (world s) (pendingPax s) (activePax s) ->
  admitPassenger s = Ok s1 -> (total (world s1) ≤ total (world s))%nat.
Proof.
  intros rinv H1.
  destruct (admitPassenger_cases s) as [Ha|[Ha|(p & rest & c & Hpend & _ & _ & Ha)]];
    rewrite Ha in H1; [done|by injection H1 as <-|].
  injection H1 as <-. simpl.
  destruct (ri_pending _ _ _ _ rinv p) as (this & Hthis & _ & Hst);
    [rewrite Hpend; apply elem_of_app; right; left|].
  apply Nat.lt_le_incl.
  eapply (total_insert _ _ p this
            (set_state (Some Searching) (set_cell (Some (startingCell (plane (world s)))) this)));
    [done| |].
  - simpl. rewrite (alter_lookup_insert _ _ _ _ Hthis), alter_insert_eq; [done|].
    by eapply lookup_lt_Some.
  - unfold effort. simpl. rewrite Hst. lia.
Qed.

(** A pass that does not end the loop lowers the total. *)
Lemma effort_loopBody (queue : list nat) (s s' : Sim) :
  NoDup queue -> RunInv queue (world s) (pendingPax s) (activePax s) ->
  Valid (world s) -> OnCourse g0 (world s) ->
  loopBody luggage deltaT s = Ok (Continue s') ->
  (total (world s') < total (world s))%nat.
Proof.
  intros Hnd rinv inv Hcourse. unfold loopBody. intros (s1 & H1 & H)%bind_Ok.
  pose proof (RunInv_admitPassenger _ Hnd _ _ rinv H1) as rinv1.
  pose proof (effort_admitPassenger _ _ _ rinv H1) as Hle.
  assert (Valid (world s1)) as inv1.
  { eapply admitPassenger_PaxInv; [|exact inv|exact H1]. apply (Valid_start seatLayout). }
  destruct (Course_admitPassenger seatLayout fits _ _ (PaxInv_plain _ _ _ _ _ _ inv) Hcourse H1)
    as (_ & Hcourse1 & _).
  destruct (allSeated _ _) eqn:Hall; [done|].
  apply bind_Ok in H as (w & Hw & [= <-]). simpl.
  destruct (effort_simulateAll _ _ _ inv1 Hcourse1 Hw) as [Hlt|(_ & _ & Hstuck)]; [lia|].
  exfalso. by eapply not_all_stuck.
Qed.

Lemma boundary_invariants (run : nat -> bool) (random : nat -> nat) (m : Method) (s0 s : Sim) :
  initSim random seatLayout m = Some s0 -> TickBoundary luggage run deltaT s0 s ->
  NoDup (pendingPax s0) ∧ RunInv (pendingPax s0) (world s) (pendingPax s) (activePax s) ∧
  Valid (world s) ∧ OnCourse g0 (world s).
Proof.
  intros Hinit Hs. destruct (initSim_queue _ _ _ _ Hinit) as (Hw0 & _ & Hnd & _).
  split; [done|]. split.
  { by apply (RunInv_TickBoundary _ Hnd luggage run deltaT s0 s (initSim_RunInv _ _ _ _ Hinit)). }
  split; [by eapply (Valid_TickBoundary seatLayout fits_no_wrap)|].
  destruct (Course_TickBoundary seatLayout fits luggage run deltaT s0 s) as (_ & Hc & _);
    [| |done|done].
  - rewrite Hw0. apply initWorld_PaxInv.
  - rewrite Hw0. intros p this Hp Hst. simpl in Hp.
    apply list_lookup_fmap_Some in Hp as (t & -> & _). done.
Qed.

(** With the total at most [n] and [n] passes left before the ceiling, the
    loop ends at its [break]. *)
Lemma simLoop_completes (run : nat -> bool) (random : nat -> nat) (m : Method) (s0 : Sim) :
  initSim random seatLayout m = Some s0 -> (∀ k, run k = true) ->
  ∀ n s fuel, TickBoundary luggage run deltaT s0 s -> (total (world s) ≤ n)%nat ->
    0 ≤ iterCount s -> iterCount s + Z.of_nat n < maxIterations -> (n < fuel)%nat ->
    ∃ s', simLoop luggage run deltaT fuel s = Finished s' ∧ runState s' = Completed ∧
          iterCount s' ≤ iterCount s + Z.of_nat n.
Proof.
  intros Hinit Hrun. induction n as [|n IH]; intros s fuel Hs Htot Hi Hceil Hfuel;
    (destruct fuel as [|fuel]; [lia|]); rewrite simLoop_S;
    destruct (boundary_invariants run random m s0 s Hinit Hs) as (Hnd & rinv & inv & Hcourse);
    (assert (loopCond run s = true) as ->
       by (unfold loopCond; rewrite Hrun; apply andb_true_intro; split; [done|];
           apply Z.ltb_lt; lia));
    destruct (loopBody luggage deltaT s) as [[s2|s2]|e] eqn:Hbody.
  all: try (exfalso; revert Hbody;
            by apply (Valid_loopBody seatLayout fits_no_wrap (pendingPax s0))).
  all: try (pose proof (loopBody_counters _ _ _ _ Hbody) as [Hcount [k Hstatus]];
            exists (afterLoop run s2); unfold afterLoop; rewrite Hrun;
            split; [done|]; split; [unfold runState; by rewrite Hstatus|lia]).
  - pose proof (effort_loopBody _ _ _ Hnd rinv inv Hcourse Hbody). lia.
  - pose proof (effort_loopBody _ _ _ Hnd rinv inv Hcourse Hbody) as Hlt.
    pose proof (loopBody_counters _ _ _ _ Hbody) as [Hcount _].
    destruct (IH s2 fuel) as (s' & Hloop & Hdone & Hiter);
      [by eapply boundary_tick; [exact Hs| |exact Hbody];
          unfold loopCond; rewrite Hrun; apply andb_true_intro; split; [done|];
          apply Z.ltb_lt; lia
      |lia|lia|lia|lia|].
    exists s'. split; [done|]. split; [done|]. lia.
Qed.

Lemma total_initWorld (m : Method) :
  total (initWorld seatLayout m) = passBound (generateAircraft seatLayout) deltaT L.
Proof.
  unfold totalEffort, passBound. simpl.
  rewrite (sum_list_fmap_const _ _ (2 * G + W + 2)%nat).
  - by rewrite length_fmap.
  - intros this (t & -> & _)%list_elem_of_fmap. done.
Qed.

End Progress.

(** X14. Boarding completes: on a layout whose rows keep their letters
    below the wrap and have an aisle cell whenever they have a seat, with a
    tick length and luggage durations that are whole numbers of
    milliseconds ([wholeMs]), the tick length positive and the durations at
    most [L], and a run that is never cancelled, the simulation ends with
    the message that all passengers are seated, after at most [passBound]
    passes, provided that this bound is below the iteration ceiling.  The
    bound counts the waits of a passenger by a division of whole numbers: a
    tick length or a duration with a fractional part is outside the
    statement. *)
Theorem boarding_completes (random : nat -> nat) (run : nat -> bool)
    (tickLengthms : option Z) (luggageDistribution : option (nat -> Z))
    (seatLayout : list RowSpec) (m : Method) (L : Z) :
  Forall (fun rs => slotCount (layout rs) ≤ 65471 ∧ hasAisle (layout rs)) seatLayout ->
  0 < default 500 tickLengthms ->
  wholeMs (default 500 tickLengthms) ->
  (∀ k, wholeMs (default (fun _ => 10000) luggageDistribution k)) ->
  (∀ k, default (fun _ => 10000) luggageDistribution k ≤ L) ->
  (∀ k, run k = true) ->
  Z.of_nat (passBound (generateAircraft seatLayout) (default 500 tickLengthms) L)
    < maxIterations ->
  ∃ s, simulate random run tickLengthms luggageDistribution seatLayout m = Finished s ∧
       runState s = Completed ∧
       iterCount s ≤
         Z.of_nat (passBound (generateAircraft seatLayout) (default 500 tickLengthms) L).
Proof.
  intros Hfits Htick _ _ Hlug Hrun Hbound. unfold simulate.
  destruct (initSim_total random seatLayout m) as (pending & Hinit). rewrite Hinit.
  set (s0 := mkSim _ _ _ _ _) in *.
  destruct (simLoop_completes seatLayout Hfits (default (fun _ => 10000) luggageDistribution)
              (default 500 tickLengthms) L Htick Hlug run random m s0 Hinit Hrun
              (passBound (generateAircraft seatLayout) (default 500 tickLengthms) L)
              s0 (Z.to_nat maxIterations))
    as (s & Hloop & Hdone & Hiter).
  - apply boundary_start.
  - unfold s0. simpl. by rewrite total_initWorld.
  - done.
  - simpl. lia.
  - unfold maxIterations in *. lia.
  - exists s. split; [done|]. split; [done|]. simpl in Hiter. lia.
Qed.

(** ** Boarding on schedule *)

Section AislePath.

Variable seatLayout : list RowSpec.
Let g0 := grid (generateAircraft seatLayout).

(** The walk from the entry cell only meets cells that are not seats, at
    growing indices. *)
Lemma walk_right_NotSeat (k c : nat) : walk right g0 k 0 = Some c -> NotSeat g0 c.
Proof.
  destruct (generateAircraft_GenInv seatLayout) as (r & pa & inv).
  destruct k as [|k]; intros Hk.
  - simpl in Hk. injection Hk as <-. apply (gi_entry _ _ _ inv).
  - apply walk_last in Hk as (b & d & _ & Hb & Hd).
    destruct (gi_rightleft _ _ _ inv _ _ _ Hb Hd) as (e & He & Hl).
    exists e. split; [done|]. destruct (isSeat e) eqn:Hs; [|done].
    destruct (gi_seat_links _ _ _ inv _ _ He Hs) as [Hno _]. congruence.
Qed.

Lemma walk_right_grows (k : nat) :
  ∀ a c, walk right g0 k a = Some c -> (a + k ≤ c)%nat.
Proof.
  induction k as [|k IH]; intros a c Hk.
  - simpl in Hk. injection Hk as <-. lia.
  - cbn [walk] in Hk. destruct (g0 !! a) as [here|] eqn:Ha; [|done]. simpl in Hk.
    destruct (right here) as [n|] eqn:Hn; [|done]. simpl in Hk.
    pose proof (generate_right_index seatLayout a here n Ha Hn).
    specialize (IH n c Hk). lia.
Qed.

Lemma walk_right_lt (k1 k2 : nat) :
  ∀ a c1 c2, (k1 < k2)%nat -> walk right g0 k1 a = Some c1 -> walk right g0 k2 a = Some c2 ->
    (c1 < c2)%nat.
Proof.
  revert k2. induction k1 as [|k1 IH]; intros k2 a c1 c2 Hlt H1 H2.
  - simpl in H1. injection H1 as <-. pose proof (walk_right_grows k2 a c2 H2).
    destruct k2 as [|k2]; [lia|]. cbn [walk] in H2.
    destruct (g0 !! a) as [here|] eqn:Ha; [|done]. simpl in H2.
    destruct (right here) as [n|] eqn:Hn; [|done]. simpl in H2.
    pose proof (generate_right_index seatLayout a here n Ha Hn).
    pose proof (walk_right_grows k2 n c2 H2). lia.
  - destruct k2 as [|k2]; [lia|]. cbn [walk] in H1, H2.
    destruct (g0 !! a) as [here|] eqn:Ha; [|done]. simpl in H1, H2.
    destruct (right here) as [n|] eqn:Hn; [|done]. simpl in H1, H2.
    eapply (IH k2 n); [lia|done|done].
Qed.

(** A cell has one position along the aisle. *)
Lemma walk_right_inj (k1 k2 c : nat) :
  walk right g0 k1 0 = Some c -> walk right g0 k2 0 = Some c -> k1 = k2.
Proof.
  intros H1 H2. destruct (lt_eq_lt_dec k1 k2) as [[Hlt|Heq]|Hgt]; [|done|].
  - pose proof (walk_right_lt k1 k2 0 c c Hlt H1 H2). lia.
  - pose proof (walk_right_lt k2 k1 0 c c Hgt H2 H1). lia.
Qed.

End AislePath.

Lemma admitPassenger_inv (s s1 : Sim) :
  admitPassenger s = Ok s1 ->
  (s1 = s ∧
   (pendingPax s = [] ∨
    ∃ start, grid (plane (world s)) !! startingCell (plane (world s)) = Some start ∧
             isEmpty start = false)) ∨
  (∃ p rest start,
     pendingPax s = rest ++ [p] ∧
     grid (plane (world s)) !! startingCell (plane (world s)) = Some start ∧
     isEmpty start = true ∧
     s1 = mkSim (initializeAt p (startingCell (plane (world s))) Searching (world s))
            rest (activePax s ++ [p]) (iterCount s) (status s)).
Proof.
  unfold admitPassenger, board, getCell.
  destruct (grid (plane (world s)) !! startingCell (plane (world s))) as [start|] eqn:Hs;
    simpl; [|done].
  destruct (pop (pendingPax s)) as [[p rest]|] eqn:Hp.
  - destruct (isEmpty start) eqn:He.
    + intros [= <-]. right. exists p, rest, start. split_and!; try done. by apply pop_Some.
    + intros [= <-]. left. split; [done|]. right. by exists start.
  - intros [= <-]. left. split; [done|]. left. by apply pop_None.
Qed.

Lemma apart_le (c t n : nat) : (c < n)%nat -> (t < n)%nat -> (apart c t ≤ n)%nat.
Proof. unfold apart. lia. Qed.

Section Schedule.

Variable seatLayout : list RowSpec.
Hypothesis fits :
  Forall (fun rs => slotCount (layout rs) ≤ 65471 ∧ hasAisle (layout rs)) seatLayout.
Hypothesis one_aisle : Forall (fun rs => (aisleCount (layout rs) ≤ 1)%nat) seatLayout.
Variable luggage : nat -> Z.
Variable deltaT L : Z.
Hypothesis tick_positive : 0 < deltaT.
Hypothesis luggage_bounded : ∀ k, luggage k ≤ L.
Variable queue : list nat.
Hypothesis queue_NoDup : NoDup queue.

Let g0 := grid (generateAircraft seatLayout).

Local Abbreviation Valid :=
  (PaxInv g0 0 (fun c => is_Some (g0 !! c)) (Towards up g0) (Towards down g0)).
Local Abbreviation Queue :=
  (PaxInv g0 0 (NotSeat g0) (fun c _ => SeatsOnly up g0 c) (fun c _ => SeatsOnly down g0 c)).
Local Abbreviation Good w pending active :=
  (Valid w ∧ Queue w ∧ OnCourse g0 w ∧ RunInv queue w pending active).
Local Abbreviation K := (slot deltaT L).

Lemma Good_simulatePassenger (p : nat) (w w' : World) (pending active : list nat) :
  Good w pending active -> simulatePassenger luggage deltaT p w = Ok w' ->
  Good w' pending active.
Proof.
  intros (inv & qinv & Hcourse & rinv) H. split_and!.
  - by eapply (Valid_simulatePassenger_Ok seatLayout (fits_no_wrap seatLayout fits)).
  - by eapply (Queue_simulatePassenger seatLayout one_aisle).
  - by eapply (Course_simulatePassenger seatLayout); [apply inv| |].
  - by eapply RunInv_simulatePassenger.
Qed.

(** A passenger that stands in a cell of the aisle: it has boarded before
    the passenger of number [r] when it is further along. *)
Lemma aisle_occupant (w : World) (pending active : list nat) (n k : nat) (kc : Cell) :
  Good w pending active ->
  grid (plane w) !! n = Some kc -> isEmpty kc = false -> walk right g0 k 0 = Some n ->
  ∃ q rq that, active !! rq = Some q ∧ pax w !! q = Some that ∧ cell that = Some n ∧
    (state that = Some Searching ∨ state that = Some LoadingUp ∨
     state that = Some LoadingDown).
Proof.
  intros (inv & qinv & Hcourse & rinv) Hkc Hfull Hwalk.
  assert (∃ q, q ∈ contents kc) as [q Hq].
  { apply size_pos_elem_of. unfold isEmpty in Hfull.
    apply bool_decide_eq_false in Hfull. lia. }
  apply (ri_contents _ _ _ _ rinv n kc q Hkc) in Hq as (that & Hthat & Hcq).
  assert (is_Some (state that)) as Hsome
    by (apply (ri_cell _ _ _ _ rinv q that Hthat); by eexists).
  pose proof (ri_boarded _ _ _ _ rinv q that Hthat Hsome) as Hqa.
  apply list_elem_of_lookup in Hqa as [rq Hrq].
  exists q, rq, that. split_and!; try done.
  destruct Hsome as [st Hst]. destruct st; try tauto. exfalso.
  pose proof (ri_seated _ _ _ _ rinv q that Hthat Hst) as Hseat.
  rewrite Hcq in Hseat. injection Hseat as ->.
  destruct (pi_pax _ _ _ _ _ _ inv _ _ Hthat) as [(target0 & Ht0 & Hseat0) _].
  destruct (walk_right_NotSeat seatLayout _ _ Hwalk) as (d & Hd & Hns).
  fold g0 in Hd. rewrite Ht0 in Hd. injection Hd as <-. congruence.
Qed.

(** A passenger in the aisle is on schedule for the cell it occupies. *)
Lemma OnTime_aisle (tick rq : nat) (that : Passenger) (n k : nat) :
  OnTime g0 deltaT L tick rq that -> cell that = Some n -> walk right g0 k 0 = Some n ->
  state that = Some Searching ∨ state that = Some LoadingUp ∨ state that = Some LoadingDown ->
  (tick ≤ k + rq * K + waits deltaT L + 1)%nat ∧
  (state that = Some Searching -> tick ≤ k + rq * K)%nat.
Proof.
  intros Hon Hc Hwalk Hst. unfold OnTime in Hon.
  assert (∀ k2, AislePos g0 that k2 -> k2 = k) as Hpos.
  { intros k2 (c2 & Hc2 & Hw2). rewrite Hc in Hc2. injection Hc2 as <-.
    by eapply (walk_right_inj seatLayout). }
  assert (∀ c d, cell that = Some c -> g0 !! c = Some d -> isSeat d = true -> False) as Hseat.
  { intros c d Hc' Hd Hs. rewrite Hc in Hc'. injection Hc' as <-.
    destruct (walk_right_NotSeat seatLayout _ _ Hwalk) as (d' & Hd' & Hns).
    fold g0 in Hd'. rewrite Hd in Hd'. injection Hd' as <-. congruence. }
  destruct Hst as [Hst|[Hst|Hst]]; rewrite Hst in Hon.
  - destruct Hon as (k2 & Hk2 & Hle). apply Hpos in Hk2 as ->. split; [lia|done].
  - split; [|by rewrite Hst].
    destruct Hon as [(k2 & Hk2 & Hle)|(c & d & Hc' & Hd & Hs & _)];
      [apply Hpos in Hk2 as ->; lia|].
    exfalso. exact (Hseat _ _ Hc' Hd Hs).
  - split; [|by rewrite Hst].
    destruct Hon as [(k2 & Hk2 & Hle)|(c & d & Hc' & Hd & Hs & _)];
      [apply Hpos in Hk2 as ->; lia|].
    exfalso. exact (Hseat _ _ Hc' Hd Hs).
Qed.

(** The call of a loading passenger keeps it on schedule. *)
Lemma OnTime_loadingStep (r p : nat) (w w' : World) (tick : nat) (this : Passenger)
    (st : State) (dir : Cell -> option nat) :
  Valid w -> Queue w -> pax w !! p = Some this -> state this = Some st ->
  st = LoadingUp ∧ dir = up ∨ st = LoadingDown ∧ dir = down ->
  OnTime g0 deltaT L tick r this -> loadingStep p deltaT dir w = Ok w' ->
  ∃ this', pax w' = <[p := this']> (pax w) ∧ OnTime g0 deltaT L (S tick) r this' ∧
    ∀ k', AislePos g0 this' k' -> AislePos g0 this k'.
Proof.
  intros inv qinv Hthis Hst Hdir Hon Hstep.
  pose proof (pi_topo _ _ _ _ _ _ inv) as Ht.
  destruct (pi_pax _ _ _ _ _ _ inv _ _ Hthis) as [(target0 & Ht0 & Hseat0) Hstate].
  destruct (pi_pax _ _ _ _ _ _ qinv _ _ Hthis) as [_ Hqstate].
  rewrite Hst in Hstate, Hqstate.
  assert (∃ c, cell this = Some c ∧ Towards dir g0 c (targetSeat this) ∧ SeatsOnly dir g0 c)
    as (c & Hc & Hto & Hso).
  { destruct Hdir as [[-> ->]|[-> ->]]; destruct Hstate as (c & Hc & Hto);
      destruct Hqstate as (c' & Hc' & Hso); rewrite Hc in Hc'; injection Hc' as <-;
      by exists c. }
  assert (OnTime g0 deltaT L tick r this =
          ((∃ k, AislePos g0 this k ∧
              (tick + waits deltaT (timeToTransition this)
               ≤ k + r * K + waits deltaT L + 1)%nat) ∨
           (∃ c d, cell this = Some c ∧ g0 !! c = Some d ∧ isSeat d = true ∧
              timeToTransition this ≤ 0 ∧
              (tick + apart c (targetSeat this)
               ≤ 2 * length g0 + r * K + waits deltaT L + 1)%nat))) as Eon.
  { unfold OnTime. rewrite Hst. by destruct Hdir as [[-> _]|[-> _]]. }
  rewrite Eon in Hon. clear Eon.
  destruct (loadingStep_cases _ _ _ _ _ _ Hthis Hstep)
    as [[Hgt Hpax]|(Hle & c' & here & n & Hc' & Hhere & Hn & Hpax)].
  - eexists. split; [exact Hpax|]. split; [|by intros k' A].
    assert ((∃ k, AislePos g0 (set_timeToTransition (timeToTransition this - deltaT) this) k ∧
               (S tick + waits deltaT (timeToTransition this - deltaT)
                ≤ k + r * K + waits deltaT L + 1)%nat)) as Hgoal.
    { destruct Hon as [(k & A & Hle)|(c1 & d & _ & _ & _ & Hneg & _)]; [|lia].
      exists k. split; [done|].
      pose proof (waits_wait deltaT (timeToTransition this) tick_positive Hgt). lia. }
    unfold OnTime. simpl. rewrite Hst. destruct Hdir as [[-> _]|[-> _]]; by left.
  - rewrite Hc in Hc'. injection Hc' as <-.
    destruct (topo_fields _ _ _ _ Ht Hhere) as (here0 & Hhere0 & Eu & Ed & _).
    assert (dir here0 = Some n) as Hn0 by (destruct Hdir as [[_ ->]|[_ ->]]; congruence).
    assert (dir = up ∨ dir = down) as Hdir' by (destruct Hdir as [[_ ->]|[_ ->]]; tauto).
    pose proof (Towards_apart seatLayout dir c (targetSeat this) n here0 Hdir' Hto Hhere0 Hn0)
      as Hap.
    destruct (SeatsOnly_next seatLayout dir c here0 n Hso Hhere0 Hn0) as (d & Hd & Hsd).
    assert (∀ that k', cell that = Some n -> AislePos g0 that k' -> False) as Hoff.
    { intros that k' Hcn (c1 & Hc1 & Hw). rewrite Hcn in Hc1. injection Hc1 as <-.
      destruct (walk_right_NotSeat seatLayout _ _ Hw) as (d' & Hd' & Hns).
      rewrite Hd in Hd'. injection Hd' as <-. congruence. }
    eexists. split; [exact Hpax|]. split.
    + case_bool_decide; [done|]. unfold OnTime. simpl. rewrite Hst.
      assert (∃ c1 d1, Some n = Some c1 ∧ g0 !! c1 = Some d1 ∧ isSeat d1 = true ∧
                timeToTransition this - deltaT ≤ 0 ∧
                (S tick + apart c1 (targetSeat this)
                 ≤ 2 * length g0 + r * K + waits deltaT L + 1)%nat) as Hgoal.
      { exists n, d. split_and!; try done.
        destruct Hon as [(k & (c1 & Hc1 & Hw) & Hle')|(c1 & d1 & Hc1 & _ & _ & _ & Hle')];
          rewrite Hc in Hc1; injection Hc1 as <-; [|lia].
        pose proof (walk_right_grows seatLayout _ _ _ Hw).
        pose proof (lookup_lt_Some _ _ _ Hhere0).
        pose proof (lookup_lt_Some _ _ _ Ht0).
        pose proof (apart_le c (targetSeat this) (length g0)). lia. }
      destruct Hdir as [[-> _]|[-> _]]; by right.
    + intros k' A. exfalso. eapply Hoff; [|exact A]. by case_bool_decide.
Qed.

Lemma slot_order (rq r k tick : nat) :
  (rq < r)%nat -> (tick ≤ S k + rq * K + waits deltaT L + 1)%nat -> (tick ≤ k + r * K)%nat.
Proof. unfold slot. intros Hlt Hle. nia. Qed.

(** The call of the passenger of number [r] during the pass of number
    [tick]: it is on schedule for the next pass, and it is where it was in
    the aisle or one step further, in a cell that was empty. *)
Lemma OnTime_step (r p : nat) (w w' : World) (tick : nat) (pending active : list nat) :
  Good w pending active -> Ordered g0 w active -> Sched g0 deltaT L tick r w active ->
  active !! r = Some p -> simulatePassenger luggage deltaT p w = Ok w' ->
  ∃ this this', pax w !! p = Some this ∧ pax w' = <[p := this']> (pax w) ∧
    OnTime g0 deltaT L (S tick) r this' ∧
    ∀ k', AislePos g0 this' k' ->
      AislePos g0 this k' ∨
      ∃ k n kc, k' = S k ∧ AislePos g0 this k ∧ walk right g0 k' 0 = Some n ∧
        grid (plane w) !! n = Some kc ∧ isEmpty kc = true.
Proof.
  intros (inv & qinv & Hcourse & rinv) Hord Hsched Hr Hsim.
  pose proof (pi_topo _ _ _ _ _ _ inv) as Ht.
  assert (∃ this, pax w !! p = Some this) as [this Hthis].
  { unfold simulatePassenger in Hsim. apply bind_Ok in Hsim as (this & Hthis%fromOption_Ok & _).
    by exists this. }
  pose proof (lookup_lt_Some _ _ _ Hthis) as Hlt.
  pose proof (Hsched r p this Hr Hthis) as Hon. rewrite decide_False in Hon by lia.
  destruct (pi_pax _ _ _ _ _ _ inv _ _ Hthis) as [(target0 & Ht0 & Hseat0) Hstate].
  destruct (pi_pax _ _ _ _ _ _ qinv _ _ Hthis) as [_ Hqstate].
  exists this.
  assert (w' = w -> OnTime g0 deltaT L (S tick) r this ->
          ∃ this', pax w !! p = Some this ∧ pax w' = <[p := this']> (pax w) ∧
            OnTime g0 deltaT L (S tick) r this' ∧
            ∀ k', AislePos g0 this' k' ->
              AislePos g0 this k' ∨
              ∃ k n kc, k' = S k ∧ AislePos g0 this k ∧ walk right g0 k' 0 = Some n ∧
                grid (plane w) !! n = Some kc ∧ isEmpty kc = true) as Hsame.
  { intros -> Hon'. exists this. split_and!; [done|by rewrite list_insert_id|done|tauto]. }
  unfold OnTime in Hon.
  destruct (state this) as [[| | |]|] eqn:Hst.
  - apply Hsame; [|by unfold OnTime; rewrite Hst].
    unfold simulatePassenger, getPax in Hsim. rewrite Hthis in Hsim. simpl in Hsim.
    rewrite Hst in Hsim. by injection Hsim.
  - destruct Hon as (k & (c & Hcell & Hwalk) & Hle).
    destruct (simulatePassenger_Searching _ _ _ _ _ _ Hthis Hst Hsim)
      as (c1 & here & Hc1 & Hhere & Hcases).
    rewrite Hcell in Hc1. injection Hc1 as <-.
    destruct (Hcourse p this Hthis Hst) as (c1 & Hc1 & Hahead).
    rewrite Hcell in Hc1. injection Hc1 as <-.
    assert (∀ st, st = LoadingUp ∨ st = LoadingDown ->
              w' = startLoading luggage p st w ->
              ∃ this', pax w !! p = Some this ∧ pax w' = <[p := this']> (pax w) ∧
                OnTime g0 deltaT L (S tick) r this' ∧
                ∀ k', AislePos g0 this' k' ->
                  AislePos g0 this k' ∨
                  ∃ k n kc, k' = S k ∧ AislePos g0 this k ∧ walk right g0 k' 0 = Some n ∧
                    grid (plane w) !! n = Some kc ∧ isEmpty kc = true) as Hload.
    { intros st Hst' ->.
      exists (set_timeToTransition (luggage (draws w)) (set_state (Some st) this)).
      split; [done|]. split.
      { simpl. by rewrite (alter_lookup_insert _ _ _ _ Hthis), alter_insert_eq. }
      split; [|intros k' A; by left].
      pose proof (waits_mono deltaT _ L tick_positive (luggage_bounded (draws w))) as Hw.
      assert ((∃ k0, AislePos g0 (set_timeToTransition (luggage (draws w))
                                    (set_state (Some st) this)) k0 ∧
                 (S tick + waits deltaT (luggage (draws w))
                  ≤ k0 + r * K + waits deltaT L + 1)%nat)) as Hgoal.
      { exists k. split; [by exists c|lia]. }
      unfold OnTime. simpl. destruct Hst' as [-> | ->]; by left. }
    destruct (inView (grid (plane w)) up geq c (targetSeat this)) eqn:Hup;
      [apply (Hload LoadingUp); tauto|].
    destruct (inView (grid (plane w)) down leq c (targetSeat this)) eqn:Hdown;
      [apply (Hload LoadingDown); tauto|].
    destruct (RowAhead_right _ _ _ _ _ Ht Hahead Hhere Hup Hdown) as (n & Hn & _).
    rewrite Hn in Hcases. destruct Hcases as (kc & Hkc & Hmove).
    destruct (topo_fields _ _ _ _ Ht Hhere) as (here0 & Hhere0 & _ & _ & _ & Er & _).
    rewrite Hn in Er. symmetry in Er.
    pose proof (walk_snoc right g0 k 0 c here0 n Hwalk Hhere0 Er) as Hwalk'.
    destruct (isEmpty kc) eqn:Hempty.
    + apply move_Ok in Hmove as (this1 & c1 & n1 & Hthis1 & Hc1 & [= <-] & ->).
      rewrite Hthis in Hthis1. injection Hthis1 as <-.
      exists (set_cell (Some n) this). split_and!; [done|done| |].
      * unfold OnTime. simpl. rewrite Hst. exists (S k). split; [by exists n|lia].
      * intros k' (c' & Hc' & Hw'). simpl in Hc'. injection Hc' as <-.
        pose proof (walk_right_inj seatLayout _ _ _ Hw' Hwalk') as ->.
        right. exists k, n, kc. split_and!; try done. by exists c.
    + apply Hsame; [done|]. unfold OnTime. rewrite Hst. exists k. split; [by exists c|].
      destruct (aisle_occupant w pending active n (S k) kc) as (q & rq & that & Hrq & Hthat & Hcq & Hsq);
        [done..|].
      assert (rq < r)%nat as Hrank.
      { destruct (lt_eq_lt_dec rq r) as [[?| -> ]|Hgt]; [done| |].
        - rewrite Hr in Hrq. injection Hrq as <-. rewrite Hthis in Hthat.
          injection Hthat as <-. rewrite Hcell in Hcq. injection Hcq as ->.
          pose proof (generate_right_index seatLayout _ _ _ Hhere0 Er). lia.
        - pose proof (Hord r rq p q this that k (S k) Hgt Hr Hrq Hthis Hthat
                        ltac:(by exists c) ltac:(by exists n)). lia. }
      pose proof (Hsched rq q that Hrq Hthat) as Honq. rewrite decide_True in Honq by done.
      destruct (OnTime_aisle _ _ _ _ _ Honq Hcq Hwalk' Hsq) as [Hle1 _].
      by eapply slot_order.
  - unfold simulatePassenger, getPax in Hsim. rewrite Hthis in Hsim. simpl in Hsim.
    rewrite Hst in Hsim.
    destruct (OnTime_loadingStep r p w w' tick this LoadingUp up inv qinv Hthis Hst)
      as (this' & Hpax & Hon' & Hpos); [by left|by unfold OnTime; rewrite Hst|done|].
    exists this'. split_and!; try done. intros k' A. left. by apply Hpos.
  - unfold simulatePassenger, getPax in Hsim. rewrite Hthis in Hsim. simpl in Hsim.
    rewrite Hst in Hsim.
    destruct (OnTime_loadingStep r p w w' tick this LoadingDown down inv qinv Hthis Hst)
      as (this' & Hpax & Hon' & Hpos); [by right|by unfold OnTime; rewrite Hst|done|].
    exists this'. split_and!; try done. intros k' A. left. by apply Hpos.
  - apply Hsame; [|by unfold OnTime; rewrite Hst].
    unfold simulatePassenger, getPax in Hsim. rewrite Hthis in Hsim. simpl in Hsim.
    rewrite Hst in Hsim. by injection Hsim.
Qed.

Lemma Sched_simulatePassenger (r p : nat) (w w' : World) (tick : nat)
    (pending active : list nat) :
  Good w pending active -> Ordered g0 w active -> Sched g0 deltaT L tick r w active ->
  NoDup active -> active !! r = Some p -> simulatePassenger luggage deltaT p w = Ok w' ->
  Ordered g0 w' active ∧ Sched g0 deltaT L tick (S r) w' active.
Proof.
  intros Hgood Hord Hsched Hnd Hr Hsim.
  destruct (OnTime_step r p w w' tick pending active Hgood Hord Hsched Hr Hsim)
    as (this & this' & Hthis & Hpax & Hon & Hpos).
  destruct Hgood as (inv & qinv & Hcourse & rinv).
  assert (∀ q that, q ≠ p -> pax w' !! q = Some that -> pax w !! q = Some that) as Hother.
  { intros q that Hne Hq. rewrite Hpax in Hq.
    by apply list_lookup_insert_Some in Hq as [(-> & _)|[_ Hq]]. }
  assert (∀ that, pax w' !! p = Some that -> that = this') as Hown.
  { intros that Hq. rewrite Hpax in Hq.
    by apply list_lookup_insert_Some in Hq as [(_ & <- & _)|[? _]]. }
  assert (∀ r' q, active !! r' = Some q -> r' ≠ r -> q ≠ p) as Hrank.
  { intros r' q Hr' Hne ->. apply Hne. by eapply NoDup_lookup. }
  split.
  - intros r1 r2 p1 p2 this1 this2 k1 k2 Hlt H1 H2 Hp1 Hp2 A1 A2.
    destruct (decide (r1 = r)) as [->|Hne1]; destruct (decide (r2 = r)) as [->|Hne2]; [lia| | |].
    + rewrite Hr in H1. injection H1 as <-. apply Hown in Hp1 as ->.
      pose proof (Hother p2 this2 (Hrank r2 p2 H2 Hne2) Hp2) as Hp2'.
      destruct (Hpos k1 A1) as [A1'|(k & n & kc & -> & A1' & _)].
      * by eapply (Hord r r2 p p2 this this2).
      * pose proof (Hord r r2 p p2 this this2 k k2 Hlt Hr H2 Hthis Hp2' A1' A2). lia.
    + rewrite Hr in H2. injection H2 as <-. apply Hown in Hp2 as ->.
      pose proof (Hother p1 this1 (Hrank r1 p1 H1 Hne1) Hp1) as Hp1'.
      destruct (Hpos k2 A2) as [A2'|(k & n & kc & -> & A2' & Hwn & Hkc & Hempty)].
      * by eapply (Hord r1 r p1 p this1 this).
      * pose proof (Hord r1 r p1 p this1 this k1 k Hlt H1 Hr Hp1' Hthis A1 A2') as Hk.
        destruct (decide (k1 = S k)) as [->|]; [|lia]. exfalso.
        destruct A1 as (c1 & Hc1 & Hw1). rewrite Hwn in Hw1. injection Hw1 as <-.
        assert (p1 ∈ contents kc) as Hin
          by (apply (ri_contents _ _ _ _ rinv n kc p1 Hkc); by exists this1).
        apply isEmpty_contents in Hempty. rewrite Hempty in Hin. by apply not_elem_of_empty in Hin.
    + eapply (Hord r1 r2 p1 p2 this1 this2); try done.
      * by eapply Hother; [eapply Hrank|].
      * by eapply Hother; [eapply Hrank|].
  - intros r' q that Hr' Hq.
    destruct (decide (r' = r)) as [->|Hne].
    + rewrite Hr in Hr'. injection Hr' as <-. apply Hown in Hq as ->.
      by rewrite decide_True by lia.
    + pose proof (Hsched r' q that Hr' (Hother q that (Hrank r' q Hr' Hne) Hq)) as Hold.
      destruct (decide (r' < r)%nat); [by rewrite decide_True by lia|by rewrite decide_False by lia].
Qed.

Lemma Sched_simulateAll (tick : nat) (pending active : list nat) (rest : list nat) :
  NoDup active ->
  ∀ done w w', drop done active = rest ->
    Good w pending active -> Ordered g0 w active -> Sched g0 deltaT L tick done w active ->
    simulateAll luggage deltaT rest w = Ok w' ->
    Good w' pending active ∧ Ordered g0 w' active ∧
    Sched g0 deltaT L tick (done + length rest) w' active.
Proof.
  intros Hnd. induction rest as [|p rest IH]; intros done w w' Hdrop Hgood Hord Hsched; simpl.
  - intros [= <-]. by rewrite Nat.add_0_r.
  - intros (w1 & H1 & H)%bind_Ok.
    assert (active !! done = Some p) as Hr.
    { rewrite <- (Nat.add_0_r done), <- lookup_drop, Hdrop. done. }
    destruct (Sched_simulatePassenger done p w w1 tick pending active Hgood Hord Hsched Hnd Hr H1)
      as [Hord1 Hsched1].
    pose proof (Good_simulatePassenger p w w1 pending active Hgood H1) as Hgood1.
    replace (done + S (length rest))%nat with (S done + length rest)%nat by lia.
    apply (IH (S done) w1 w'); try done.
    replace (S done) with (done + 1)%nat by lia. by rewrite <- drop_drop, Hdrop.
Qed.

Hypothesis queue_fits : (length queue ≤ length (seats (generateAircraft seatLayout)))%nat.

(** The invariant of the loop, at the top of the pass of number [tick]. *)
Let OnSchedule (tick : nat) (s : Sim) : Prop :=
  iterCount s = Z.of_nat tick ∧
  Good (world s) (pendingPax s) (activePax s) ∧
  Ordered g0 (world s) (activePax s) ∧
  Sched g0 deltaT L tick 0 (world s) (activePax s) ∧
  (pendingPax s ≠ [] -> (tick ≤ length (activePax s) * K)%nat).

Lemma Good_admitPassenger (s s1 : Sim) :
  Good (world s) (pendingPax s) (activePax s) -> admitPassenger s = Ok s1 ->
  Good (world s1) (pendingPax s1) (activePax s1).
Proof.
  intros (inv & qinv & Hcourse & rinv) H1. split_and!.
  - eapply admitPassenger_PaxInv; [|exact inv|exact H1]. apply (Valid_start seatLayout).
  - eapply admitPassenger_PaxInv; [|exact qinv|exact H1]. apply (NotSeat_entry seatLayout).
  - by destruct (Course_admitPassenger seatLayout fits _ _ (PaxInv_plain _ _ _ _ _ _ inv)
                   Hcourse H1) as (_ & ? & _).
  - by eapply (RunInv_admitPassenger queue queue_NoDup).
Qed.

Lemma Sched_admitPassenger (tick : nat) (s s1 : Sim) :
  Good (world s) (pendingPax s) (activePax s) ->
  Ordered g0 (world s) (activePax s) ->
  Sched g0 deltaT L tick 0 (world s) (activePax s) ->
  (pendingPax s ≠ [] -> (tick ≤ length (activePax s) * K)%nat) ->
  admitPassenger s = Ok s1 ->
  Ordered g0 (world s1) (activePax s1) ∧
  Sched g0 deltaT L tick 0 (world s1) (activePax s1) ∧
  (pendingPax s1 ≠ [] -> (S tick ≤ length (activePax s1) * K)%nat).
Proof.
  intros Hgood Hord Hsched Hadm H1.
  pose proof Hgood as (inv & qinv & Hcourse & rinv).
  pose proof (pi_start _ _ _ _ _ _ inv) as Hstart.
  destruct (admitPassenger_inv s s1 H1)
    as [[-> Hwhy]|(p & rest & start & Hpend & Hentry & Hempty & ->)].
  - split; [done|]. split; [done|]. intros Hne.
    destruct Hwhy as [Hnil|(start & Hentry & Hfull)]; [done|].
    rewrite Hstart in Hentry.
    destruct (aisle_occupant (world s) (pendingPax s) (activePax s) 0 0 start Hgood Hentry Hfull)
      as (q & rq & that & Hrq & Hthat & Hcq & Hsq); [done|].
    pose proof (Hsched rq q that Hrq Hthat) as Hon. rewrite decide_False in Hon by lia.
    destruct (OnTime_aisle tick rq that 0 0 Hon Hcq) as [Hle _]; [done|done|].
    apply lookup_lt_Some in Hrq. unfold slot in *. nia.
  - simpl. rewrite Hstart in *.
    destruct (ri_pending _ _ _ _ rinv p) as (this & Hthis & Hnocell & Hnostate);
      [rewrite Hpend; apply elem_of_app; right; left|].
    assert (p ∉ activePax s) as Hfresh.
    { intros Hin. destruct (ri_active _ _ _ _ rinv p Hin) as (this1 & Hthis1 & Hsome).
      rewrite Hthis in Hthis1. injection Hthis1 as <-. rewrite Hnostate in Hsome.
      by destruct Hsome. }
    assert (Hadm' : (tick ≤ length (activePax s) * K)%nat)
      by (apply Hadm; rewrite Hpend; by destruct rest).
    assert (pax (initializeAt p 0 Searching (world s)) =
            <[p := set_state (Some Searching) (set_cell (Some 0%nat) this)]> (pax (world s)))
      as Hpax.
    { simpl. rewrite (alter_lookup_insert _ _ _ _ Hthis), alter_insert_eq; [done|].
      by eapply lookup_lt_Some. }
    assert (∀ r q, (activePax s ++ [p]) !! r = Some q ->
              (activePax s !! r = Some q ∧ q ≠ p) ∨ (r = length (activePax s) ∧ q = p))
      as Hcases.
    { intros r q Hr. apply lookup_app_Some in Hr as [Hr|[Hge Hr]].
      - left. split; [done|]. intros ->. apply Hfresh. by eapply list_elem_of_lookup_2.
      - right. apply list_lookup_singleton_Some in Hr as [Hz <-]. split; [lia|done]. }
    assert (∀ q that, q ≠ p -> pax (initializeAt p 0 Searching (world s)) !! q = Some that ->
              pax (world s) !! q = Some that) as Hother.
    { intros q that Hne Hq. rewrite Hpax in Hq.
      by apply list_lookup_insert_Some in Hq as [(-> & _)|[_ Hq]]. }
    assert (∀ that, pax (initializeAt p 0 Searching (world s)) !! p = Some that ->
              that = set_state (Some Searching) (set_cell (Some 0%nat) this)) as Hown.
    { intros that Hq. rewrite Hpax in Hq.
      by apply list_lookup_insert_Some in Hq as [(_ & <- & _)|[? _]]. }
    split_and!.
    + intros r1 r2 p1 p2 this1 this2 k1 k2 Hlt H1' H2' Hp1 Hp2 A1 A2.
      destruct (Hcases r2 p2 H2') as [[H2 Hne2]|[-> ->]];
        destruct (Hcases r1 p1 H1') as [[H1a Hne1]|[-> ->]].
      * eapply (Hord r1 r2 p1 p2 this1 this2); try done; by apply Hother.
      * apply lookup_lt_Some in H2. lia.
      * apply Hown in Hp2 as ->. destruct A2 as (c2 & Hc2 & Hw2). simpl in Hc2.
        injection Hc2 as <-.
        pose proof (walk_right_inj seatLayout k2 0 0 Hw2 eq_refl) as ->.
        destruct k1 as [|k1]; [|lia]. exfalso.
        destruct A1 as (c1 & Hc1 & Hw1). simpl in Hw1. injection Hw1 as <-.
        assert (p1 ∈ contents start) as Hin.
        { apply (ri_contents _ _ _ _ rinv 0%nat start p1 Hentry). exists this1.
          split; [by apply Hother|done]. }
        apply isEmpty_contents in Hempty. rewrite Hempty in Hin.
        by apply not_elem_of_empty in Hin.
      * lia.
    + intros r q that Hr Hq. rewrite decide_False by lia.
      destruct (Hcases r q Hr) as [[Hr' Hne]|[-> ->]].
      * pose proof (Hsched r q that Hr' (Hother q that Hne Hq)) as Hon.
        by rewrite decide_False in Hon by lia.
      * apply Hown in Hq as ->. unfold OnTime. simpl.
        exists 0%nat. split; [by exists 0%nat|lia].
    + intros _. rewrite length_app. simpl. unfold slot in *. nia.
Qed.

Lemma active_NoDup (w : World) (pending active : list nat) :
  RunInv queue w pending active -> NoDup active ∧ (length active ≤ length queue)%nat.
Proof.
  intros rinv. pose proof (ri_queue _ _ _ _ rinv) as Hq.
  pose proof queue_NoDup as Hnd. rewrite <- Hq in Hnd.
  apply NoDup_app in Hnd as (_ & _ & Hnd). rewrite <- (reverse_involutive active).
  split; [by apply NoDup_reverse|].
  rewrite <- Hq, length_app, !length_reverse. lia.
Qed.

(** A passenger that is not seated yet is on schedule only up to the
    bound. *)
Lemma OnTime_bound (tick r : nat) (this : Passenger) :
  OnTime g0 deltaT L tick r this ->
  (S r ≤ length (seats (generateAircraft seatLayout)))%nat ->
  state this = Some Searching ∨ state this = Some LoadingUp ∨ state this = Some LoadingDown ->
  (tick ≤ boardingBound (generateAircraft seatLayout) deltaT L)%nat.
Proof.
  intros Hon Hr Hst. unfold boardingBound. fold g0.
  assert (∀ k, AislePos g0 this k -> (k < length g0)%nat) as Hpos.
  { intros k (c & _ & Hw). pose proof (walk_right_grows seatLayout _ _ _ Hw).
    destruct (walk_right_NotSeat seatLayout _ _ Hw) as (d & Hd%lookup_lt_Some & _).
    fold g0 in Hd. lia. }
  assert (r * K ≤ (length (seats (generateAircraft seatLayout)) - 1) * K)%nat as Hslots
    by (apply Nat.mul_le_mono_r; lia).
  unfold OnTime in Hon.
  destruct Hst as [Hst|[Hst|Hst]]; rewrite Hst in Hon.
  - destruct Hon as (k & A & Hle). apply Hpos in A. lia.
  - destruct Hon as [(k & A & Hle)|(c & d & _ & _ & _ & _ & Hle)]; [apply Hpos in A|]; lia.
  - destruct Hon as [(k & A & Hle)|(c & d & _ & _ & _ & _ & Hle)]; [apply Hpos in A|]; lia.
Qed.

(** One pass: it leaves the loop, or it is not later than the bound and the
    next pass starts on schedule. *)
Lemma Sched_loopBody (tick : nat) (s s' : Sim) :
  OnSchedule tick s -> loopBody luggage deltaT s = Ok (Continue s') ->
  (tick ≤ boardingBound (generateAircraft seatLayout) deltaT L)%nat ∧ OnSchedule (S tick) s'.
Proof.
  intros (Hiter & Hgood & Hord & Hsched & Hadm). unfold loopBody.
  intros (s1 & H1 & H)%bind_Ok.
  pose proof (Good_admitPassenger s s1 Hgood H1) as Hgood1.
  destruct (Sched_admitPassenger tick s s1 Hgood Hord Hsched Hadm H1)
    as (Hord1 & Hsched1 & Hadm1).
  destruct (admitPassenger_counters _ _ H1) as [Hiter1 _].
  destruct (allSeated _ _) eqn:Hall; [done|].
  apply bind_Ok in H as (w & Hw & [= <-]). simpl.
  pose proof Hgood1 as (_ & _ & _ & rinv1).
  destruct (active_NoDup _ _ _ rinv1) as [Hnd Hlen].
  split.
  - unfold allSeated in Hall. apply bool_decide_eq_false in Hall.
    destruct (filter (fun p => isSeated (world s1) p = false) (activePax s1)) as [|p l] eqn:Hf;
      [done|].
    assert (p ∈ filter (fun p => isSeated (world s1) p = false) (activePax s1)) as Hp
      by (rewrite Hf; left).
    apply list_elem_of_filter in Hp as [Hns Hp].
    destruct (ri_active _ _ _ _ rinv1 p Hp) as (this & Hthis & [st Hst]).
    unfold isSeated in Hns. rewrite Hthis in Hns. apply bool_decide_eq_false in Hns.
    apply list_elem_of_lookup in Hp as [r Hr].
    pose proof (Hsched1 r p this Hr Hthis) as Hon. rewrite decide_False in Hon by lia.
    apply lookup_lt_Some in Hr.
    eapply (OnTime_bound tick r this Hon); [lia|].
    destruct st; tauto.
  - destruct (Sched_simulateAll tick (pendingPax s1) (activePax s1) (activePax s1) Hnd
                0%nat (world s1) w eq_refl Hgood1 Hord1 Hsched1 Hw)
      as (Hgood' & Hord' & Hsched').
    split; [simpl; rewrite Hiter1, Hiter; lia|].
    split; [done|]. split; [done|]. split; [|done].
    intros r p this Hr Hp. rewrite decide_False by lia.
    pose proof (Hsched' r p this Hr Hp) as Hon.
    apply lookup_lt_Some in Hr. simpl in Hr. by rewrite decide_True in Hon by lia.
Qed.

Lemma simLoop_on_schedule (run : nat -> bool) :
  (∀ k, run k = true) ->
  Z.of_nat (boardingBound (generateAircraft seatLayout) deltaT L) + 1 < maxIterations ->
  ∀ n tick s fuel, OnSchedule tick s ->
    (boardingBound (generateAircraft seatLayout) deltaT L + 1 ≤ tick + n)%nat ->
    (tick ≤ boardingBound (generateAircraft seatLayout) deltaT L + 1)%nat ->
    (n < fuel)%nat ->
    ∃ s', simLoop luggage run deltaT fuel s = Finished s' ∧ runState s' = Completed ∧
          iterCount s'
          ≤ Z.of_nat (boardingBound (generateAircraft seatLayout) deltaT L) + 1.
Proof.
  intros Hrun Hceil. induction n as [|n IH]; intros tick s fuel Hon Hn Htick Hfuel;
    (destruct fuel as [|fuel]; [lia|]); rewrite simLoop_S;
    pose proof Hon as (Hiter & Hgood & _);
    pose proof Hgood as (inv & _ & _ & rinv);
    (assert (loopCond run s = true) as ->
       by (unfold loopCond; rewrite Hrun; apply andb_true_intro; split; [done|];
           apply Z.ltb_lt; lia));
    destruct (loopBody luggage deltaT s) as [[s2|s2]|e] eqn:Hbody.
  all: try (exfalso; revert Hbody;
            by apply (Valid_loopBody seatLayout (fits_no_wrap seatLayout fits) queue)).
  all: try (pose proof (loopBody_counters _ _ _ _ Hbody) as [Hcount [k Hstatus]];
            exists (afterLoop run s2); unfold afterLoop; rewrite Hrun;
            split; [done|]; split; [unfold runState; by rewrite Hstatus|lia]).
  - destruct (Sched_loopBody tick s s2 Hon Hbody) as [Hle _]. lia.
  - destruct (Sched_loopBody tick s s2 Hon Hbody) as [Hle Hon2].
    apply (IH (S tick) s2 fuel Hon2); lia.
Qed.

End Schedule.

Lemma NoDup_bounded_length (l : list nat) (n : nat) :
  NoDup l -> (∀ x, x ∈ l -> (x < n)%nat) -> (length l ≤ n)%nat.
Proof.
  intros Hnd Hlt. transitivity (length (seq 0 n)); [|by rewrite length_seq].
  apply submseteq_length.
  apply NoDup_submseteq; [done|]. intros x Hx. apply elem_of_seq. specialize (Hlt x Hx). lia.
Qed.

(** A run that starts on schedule ends at the [break] of its loop. *)
Lemma schedule_from_start (random : nat -> nat) (run : nat -> bool) (luggage : nat -> Z)
    (deltaT : Z) (seatLayout : list RowSpec) (m : Method) (L : Z) (s0 : Sim) :
  Forall (fun rs => slotCount (layout rs) ≤ 65471 ∧ hasAisle (layout rs) ∧
                    (aisleCount (layout rs) ≤ 1)%nat) seatLayout ->
  0 < deltaT -> (∀ k, luggage k ≤ L) -> (∀ k, run k = true) ->
  Z.of_nat (boardingBound (generateAircraft seatLayout) deltaT L) + 1 < maxIterations ->
  initSim random seatLayout m = Some s0 ->
  ∃ s, simLoop luggage run deltaT (Z.to_nat maxIterations) s0 = Finished s ∧
       runState s = Completed ∧
       iterCount s ≤ Z.of_nat (boardingBound (generateAircraft seatLayout) deltaT L) + 1.
Proof.
  intros Hall Htick Hlug Hrun Hbound Hinit.
  assert (Forall (fun rs => slotCount (layout rs) ≤ 65471 ∧ hasAisle (layout rs)) seatLayout)
    as Hfits by (eapply Forall_impl; [exact Hall|]; by intros rs (? & ? & _)).
  assert (Forall (fun rs => (aisleCount (layout rs) ≤ 1)%nat) seatLayout)
    as Hone by (eapply Forall_impl; [exact Hall|]; by intros rs (_ & _ & ?)).
  destruct (initSim_queue _ _ _ _ Hinit) as (Hw0 & Hact & Hnd & Hrange).
  pose proof (initSim_RunInv _ _ _ _ Hinit) as rinv0.
  apply (simLoop_on_schedule seatLayout Hfits Hone luggage deltaT L Htick Hlug
           (pendingPax s0) Hnd (NoDup_bounded_length _ _ Hnd Hrange) run Hrun Hbound
           (S (boardingBound (generateAircraft seatLayout) deltaT L))
           0%nat s0 (Z.to_nat maxIterations)).
  - assert (iterCount s0 = 0) as Hiter.
    { destruct (initSim_total random seatLayout m) as (pending & Hinit').
      rewrite Hinit in Hinit'. by injection Hinit' as ->. }
    rewrite Hact, Hw0. split; [done|]. split.
    { split_and!; [apply initWorld_PaxInv|apply initWorld_PaxInv| |by rewrite <- Hw0, <- Hact].
      intros p this Hp Hst. simpl in Hp. apply list_lookup_fmap_Some in Hp as (t & -> & _).
      done. }
    split; [by intros r1 r2 p1 p2 this1 this2 k1 k2 _ H1|].
    split; [by intros r p this Hr|]. simpl. lia.
  - lia.
  - lia.
  - unfold maxIterations in *. lia.
Qed.

(** X15. Boarding on schedule: when every row pattern keeps its letters
    below the wrap, has an aisle cell if it has a seat, and has no more than
    one aisle cell, then, with a tick length and luggage durations that are
    whole numbers of milliseconds ([wholeMs]), the tick length positive and
    the durations at most [L], and a run that is never cancelled, the
    simulation ends with the message that all passengers are seated after
    at most [boardingBound + 1] passes: twice the number of cells, [slot]
    passes for every passenger but one, and the waits of one passenger.
    This is provided that the bound is below the iteration ceiling.  The
    waits are counted by a division of whole numbers: a tick length or a
    duration with a fractional part is outside the statement. *)
Theorem boarding_on_schedule (random : nat -> nat) (run : nat -> bool)
    (tickLengthms : option Z) (luggageDistribution : option (nat -> Z))
    (seatLayout : list RowSpec) (m : Method) (L : Z) :
  Forall (fun rs => slotCount (layout rs) ≤ 65471 ∧ hasAisle (layout rs) ∧
                    (aisleCount (layout rs) ≤ 1)%nat) seatLayout ->
  0 < default 500 tickLengthms ->
  wholeMs (default 500 tickLengthms) ->
  (∀ k, wholeMs (default (fun _ => 10000) luggageDistribution k)) ->
  (∀ k, default (fun _ => 10000) luggageDistribution k ≤ L) ->
  (∀ k, run k = true) ->
  Z.of_nat (boardingBound (generateAircraft seatLayout) (default 500 tickLengthms) L) + 1
    < maxIterations ->
  ∃ s, simulate random run tickLengthms luggageDistribution seatLayout m = Finished s ∧
       runState s = Completed ∧
       iterCount s ≤
         Z.of_nat (boardingBound (generateAircraft seatLayout) (default 500 tickLengthms) L) + 1.
Proof.
  intros Hall Htick _ _ Hlug Hrun Hbound. unfold simulate.
  destruct (initSim_total random seatLayout m) as (pending & Hinit). rewrite Hinit.
  by eapply schedule_from_start.
Qed.

(** ** The aircraft of the form *)

Lemma seats_length (seatLayout : list RowSpec) :
  length (seats (generateAircraft seatLayout)) =
  sum_list_with (fun symbols => length (seatPositions symbols)) (layoutRows seatLayout).
Proof.
  assert (seatIds (generateAircraft seatLayout) = seatIdsFrom 1 (layoutRows seatLayout)) as E.
  { unfold generateAircraft. by rewrite (generate_seatIds seatLayout genInit genInit_GenInv). }
  apply (f_equal length) in E. unfold seatIds in E. rewrite length_fmap in E. rewrite E.
  clear E. generalize 1. induction (layoutRows seatLayout) as [|s l IH]; intros r; [done|].
  rewrite seatIdsFrom_cons, length_app, IH. unfold rowSeatIds. by rewrite length_fmap.
Qed.

Lemma grid_length (seatLayout : list RowSpec) :
  length (grid (generateAircraft seatLayout)) =
  S (sum_list_with cellCount (layoutRows seatLayout)).
Proof. unfold generateAircraft. by rewrite generate_length. Qed.

Lemma filter_replicate {A} (P : A -> Prop) `{!∀ x, Decision (P x)} (n : nat) (x : A) :
  filter P (replicate n x) = if decide (P x) then replicate n x else [].
Proof.
  induction n as [|n IH]; simpl; [by case_decide|].
  rewrite filter_cons, IH. by case_decide.
Qed.

Lemma seatPositions_count (symbols : JSString) :
  length (seatPositions symbols) = length (filter (fun c => c = char_S) symbols).
Proof.
  unfold seatPositions.
  assert (∀ pre : JSString,
            length (filter (fun i => (pre ++ symbols) !! i = Some char_S)
                      (seq (length pre) (length symbols))) =
            length (filter (fun c => c = char_S) symbols)) as H.
  { induction symbols as [|c rest IH]; intros pre; [done|].
    cbn [length seq]. rewrite !filter_cons, list_lookup_middle by done.
    specialize (IH (pre ++ [c])). rewrite <- app_assoc, length_app in IH. simpl in IH.
    replace (length pre + 1)%nat with (S (length pre)) in IH by lia.
    destruct (decide (c = char_S)) as [->|Hc].
    - rewrite decide_True by done. simpl. by rewrite IH.
    - rewrite decide_False by congruence. done. }
  apply (H []).
Qed.

(** The pattern of the rows of a custom aircraft. *)
Lemma coords_pattern (c : nat) :
  let symbols := replicate c char_S ++ char_A :: replicate c char_S in
  slotCount symbols = Z.of_nat (2 * c) ∧ aisleCount symbols = 1%nat ∧ char_A ∈ symbols ∧
  cellCount symbols = (2 * c + 1)%nat ∧ length (seatPositions symbols) = (2 * c)%nat.
Proof.
  intros symbols. unfold symbols, slotCount, aisleCount, cellCount.
  rewrite seatPositions_count, !filter_app, !filter_cons, !filter_replicate, !length_app.
  rewrite !decide_True by (by left). rewrite (decide_False (P := char_S = char_A)) by done.
  rewrite (decide_True (P := char_S = char_S)) by done.
  rewrite ?length_replicate. simpl. rewrite ?length_replicate. split_and!; try lia.
  apply elem_of_app. right. left.
Qed.

(** What the schedule asks of a layout, checked by computation. *)
Lemma pattern_fits (symbols : JSString) :
  bool_decide (slotCount symbols ≤ 65471 ∧ char_A ∈ symbols ∧ (aisleCount symbols ≤ 1)%nat)
    = true ->
  slotCount symbols ≤ 65471 ∧ hasAisle symbols ∧ (aisleCount symbols ≤ 1)%nat.
Proof. intros (? & ? & ?)%bool_decide_eq_true. split_and!; [done|by intros _|done]. Qed.

Lemma preset_bound (seatLayout : list RowSpec) :
  Z.of_nat (2 * S (sum_list_with cellCount (layoutRows seatLayout)) +
            (sum_list_with (fun symbols => length (seatPositions symbols))
               (layoutRows seatLayout) - 1) * slot 500 10000 +
            waits 500 10000 + 1) + 1 < maxIterations ->
  Z.of_nat (boardingBound (generateAircraft seatLayout) 500 10000) + 1 < maxIterations.
Proof. unfold boardingBound. by rewrite seats_length, grid_length. Qed.

(** X16. The presets of the page board completely, and so do its custom
    aircraft up to a size: for each preset of [SEAT_LAYOUT_PRESETS], and for
    the custom layout of [generateAircraftFromForm] with whole numbers
    [rows] and [cols] such that [0 <= cols <= 32735] and
    [rows * (46 * cols + 2) < 9976], a run with the default tick length and
    luggage duration that is not cancelled ends with the message that all
    passengers are seated, before the iteration ceiling, whatever the
    boarding method and the shuffle.  Nothing is said of a larger custom
    aircraft. *)
Theorem form_aircraft_boards (random : nat -> nat) (run : nat -> bool) (m : Method)
    (presetValue : JSString) (rows cols : Z) (seatLayout : list RowSpec) :
  formLayout presetValue rows cols = Some seatLayout ->
  (presetValue = str "coords" -> cols ≤ 32735 ∧ rows * (46 * cols + 2) < 9976) ->
  (∀ k, run k = true) ->
  ∃ s, simulate random run None None seatLayout m = Finished s ∧
       runState s = Completed ∧ iterCount s < maxIterations.
Proof.
  intros Hform Hsize Hrun.
  assert (Forall (fun rs => slotCount (layout rs) ≤ 65471 ∧ hasAisle (layout rs) ∧
                            (aisleCount (layout rs) ≤ 1)%nat) seatLayout ∧
          Z.of_nat (boardingBound (generateAircraft seatLayout) 500 10000) + 1 < maxIterations)
    as [Hfits Hbound].
  { unfold formLayout in Hform. destruct (decide (presetValue = str "coords")) as [Hc|Hc].
    - destruct (Hsize Hc) as [Hcols Hrows]. destruct (Z.ltb_spec cols 0) as [|Hpos]; [done|].
      injection Hform as <-.
      destruct (coords_pattern (Z.to_nat cols)) as (Hslot & Haisle & HA & Hcell & Hseat).
      split.
      + constructor; [|constructor]. simpl. rewrite Hslot, Haisle.
        split_and!; [lia|by intros _|lia].
      + apply preset_bound. unfold layoutRows. simpl. rewrite app_nil_r.
        rewrite !sum_list_with_replicate, Hcell, Hseat.
        change (slot 500 10000) with 21%nat. change (waits 500 10000) with 19%nat.
        unfold maxIterations.
        destruct (Z.le_gt_cases rows 0) as [Hneg|Hr].
        * replace (Z.to_nat rows) with 0%nat by lia. simpl. lia.
        * assert (Z.of_nat (Z.to_nat rows * Z.to_nat cols) = rows * cols) as E
            by (rewrite Nat2Z.inj_mul, !Z2Nat.id by lia; done).
          assert (rows * (46 * cols + 2) = 46 * (rows * cols) + 2 * rows) as E' by ring.
          rewrite E' in Hrows. clear E'.
          assert (Z.to_nat rows * (2 * Z.to_nat cols + 1) =
                  2 * (Z.to_nat rows * Z.to_nat cols) + Z.to_nat rows)%nat as -> by nia.
          assert (Z.to_nat rows * (2 * Z.to_nat cols) =
                  2 * (Z.to_nat rows * Z.to_nat cols))%nat as -> by nia.
          revert E Hrows.
          generalize (rows * cols) (Z.to_nat rows * Z.to_nat cols)%nat. intros q P E Hrows. clear -E Hrows Hr. subst q. destruct P as [|P]; simpl; lia.
    - clear Hsize. simpl in Hform. repeat case_decide; simplify_eq;
        (split; [repeat (constructor; [apply pattern_fits; vm_compute; reflexivity|]);
                 constructor
                |apply preset_bound; vm_compute; reflexivity]). }
  unfold simulate.
  destruct (initSim_total random seatLayout m) as (pending & Hinit). rewrite Hinit.
  destruct (schedule_from_start random run (fun _ => 10000) 500 seatLayout m 10000 _
              Hfits ltac:(lia) ltac:(intros; simpl; lia) Hrun Hbound Hinit)
    as (s & Hs & Hdone & Hiter).
  exists s. split; [exact Hs|]. split; [exact Hdone|]. lia.
Qed.

(** ** The further properties at work on the one-row layout *)

Lemma findSeat_own_name_witness :
  findSeat (generateAircraft oneRow) (seatToString 1 65) = Ok (Some 1%nat).
Proof.
  eapply (findSeat_own_name oneRow 1%nat _ 1 65).
  - repeat constructor. vm_compute. discriminate.
  - assert (seats (generateAircraft oneRow) = [1; 2; 4; 5]%nat) as ->
      by (vm_compute; reflexivity).
    left.
  - vm_compute; reflexivity.
  - reflexivity.
  - reflexivity.
Defined.

Lemma shuffleArray_reaches_every_order_witness :
  ∃ random, shuffleArray random [1; 2]%nat = [2; 1]%nat.
Proof. apply shuffleArray_reaches_every_order. apply perm_swap. Defined.

Lemma boarding_order_witness :
  ∃ s, afterTicks (fun _ => 0) (fun _ => true) 100 5 oneRowStart = Some s ∧
    pendingPax s ++ reverse (activePax s) = pendingPax oneRowStart ∧
    NoDup (pendingPax s ++ activePax s) ∧
    ∀ p this, pax (world s) !! p = Some this ->
      (is_Some (state this) ↔ p ∈ activePax s) ∧ (is_Some (cell this) ↔ p ∈ activePax s).
Proof.
  eexists. split; [vm_compute; reflexivity|].
  eapply (boarding_order (fun _ => 0) (fun _ => true) 100 (fun _ => 0%nat) oneRow MethodBtf
            oneRowStart).
  - vm_compute; reflexivity.
  - eapply (afterTicks_TickBoundary _ _ _ _ 5); [apply boundary_start|vm_compute; reflexivity].
Defined.

Lemma contents_agree_with_cells_witness :
  ∃ s k, afterTicks (fun _ => 0) (fun _ => true) 100 9 oneRowStart = Some s ∧
    grid (plane (world s)) !! 2%nat = Some k ∧
    ∀ p, p ∈ contents k ↔ ∃ this, pax (world s) !! p = Some this ∧ cell this = Some 2%nat.
Proof.
  eexists _, _. split; [vm_compute; reflexivity|]. split; [vm_compute; reflexivity|].
  intros p.
  eapply (contents_agree_with_cells (fun _ => 0) (fun _ => true) 100 (fun _ => 0%nat) oneRow
            MethodBtf oneRowStart).
  - vm_compute; reflexivity.
  - eapply (afterTicks_TickBoundary _ _ _ _ 9); [apply boundary_start|vm_compute; reflexivity].
  - vm_compute; reflexivity.
Defined.

Lemma seated_for_good_witness :
  ∃ s this, afterTicks (fun _ => 0) (fun _ => true) 100 5 oneRowStart = Some s ∧
    pax (world s) !! 3%nat = Some this ∧ state this = Some Seated ∧
    cell this = Some (targetSeat this) ∧
    ∀ s', TickBoundary (fun _ => 0) (fun _ => true) 100 s s' ->
          pax (world s') !! 3%nat = Some this.
Proof.
  eexists _, _. split; [vm_compute; reflexivity|]. split; [vm_compute; reflexivity|].
  split; [reflexivity|].
  eapply (seated_for_good (fun _ => 0) (fun _ => true) 100 (fun _ => 0%nat) oneRow MethodBtf
            oneRowStart).
  - vm_compute; reflexivity.
  - eapply (afterTicks_TickBoundary _ _ _ _ 5); [apply boundary_start|vm_compute; reflexivity].
  - vm_compute; reflexivity.
  - reflexivity.
Defined.

Lemma completed_means_seated_witness :
  ∃ s s0,
    simulate (fun _ => 0%nat) (fun _ => true) (Some 100) (Some (fun _ => 0)) oneRow MethodBtf
      = Finished s ∧
    initSim (fun _ => 0%nat) oneRow MethodBtf = Some s0 ∧
    pendingPax s = [] ∧ activePax s = reverse (pendingPax s0) ∧
    ∀ p, p ∈ pendingPax s0 ->
      ∃ this seat, pax (world s) !! p = Some this ∧ state this = Some Seated ∧
        cell this = Some (targetSeat this) ∧
        seats (generateAircraft oneRow) !! p = Some (targetSeat this) ∧
        grid (plane (world s)) !! targetSeat this = Some seat ∧ contents seat = {[p]}.
Proof.
  eexists. 
  assert (∀ (A : Type) (Q : Prop) (R : A -> Prop), Q -> (∃ x, R x) -> ∃ x, Q ∧ R x) as Hex.
  { intros A Q R HQ [x HR]. by exists x. }
  apply Hex; [vm_compute; reflexivity|].
  eapply (completed_means_seated (fun _ => 0%nat) (fun _ => true) (Some 100)
            (Some (fun _ => 0)) oneRow MethodBtf).
  - vm_compute; reflexivity.
  - reflexivity.
Defined.

Lemma simulate_returns_witness :
  ∃ s, simulate (fun _ => 0%nat) (fun _ => true) (Some 100) (Some (fun _ => 0)) oneRow MethodBtf
         = Finished s.
Proof.
  apply simulate_returns. repeat constructor. vm_compute. discriminate.
Defined.

Lemma row_always_ahead_witness :
  ∃ s, afterTicks (fun _ => 0) (fun _ => true) 100 2 oneRowStart = Some s ∧
    (∀ p this, pax (world s) !! p = Some this -> state this = Some Searching ->
       ∃ c, cell this = Some c ∧ RowAhead (grid (plane (world s))) c (targetSeat this)) ∧
    console (world s) = console (world oneRowStart) ∧
    ∀ seat, FailedToFindSeat seat ∉ console (world s).
Proof.
  eexists. split; [vm_compute; reflexivity|].
  eapply (row_always_ahead (fun _ => 0) (fun _ => true) 100 (fun _ => 0%nat) oneRow MethodBtf
            oneRowStart).
  - constructor; [|constructor]. split; [vm_compute; discriminate|].
    intros _. apply (list_elem_of_lookup_2 _ 2%nat). reflexivity.
  - vm_compute; reflexivity.
  - eapply (afterTicks_TickBoundary _ _ _ _ 2); [apply boundary_start|vm_compute; reflexivity].
Defined.

Lemma boarding_completes_witness :
  ∃ s, simulate (fun _ => 0%nat) (fun _ => true) (Some 100) (Some (fun _ => 0)) oneRow MethodBtf
         = Finished s ∧
       runState s = Completed ∧
       iterCount s ≤ Z.of_nat (passBound (generateAircraft oneRow) 100 0).
Proof.
  apply (boarding_completes (fun _ => 0%nat) (fun _ => true) (Some 100) (Some (fun _ => 0))
           oneRow MethodBtf 0).
  - constructor; [|constructor]. split; [vm_compute; discriminate|].
    intros _. apply (list_elem_of_lookup_2 _ 2%nat). reflexivity.
  - reflexivity.
  - unfold wholeMs. simpl. lia.
  - intros k. unfold wholeMs. simpl. lia.
  - intros k. simpl. lia.
  - reflexivity.
  - vm_compute. reflexivity.
Defined.

Lemma boarding_on_schedule_witness :
  ∃ s, simulate (fun _ => 0%nat) (fun _ => true) (Some 100) (Some (fun _ => 0)) oneRow MethodBtf
         = Finished s ∧
       runState s = Completed ∧
       iterCount s ≤ Z.of_nat (boardingBound (generateAircraft oneRow) 100 0) + 1.
Proof.
  apply (boarding_on_schedule (fun _ => 0%nat) (fun _ => true) (Some 100) (Some (fun _ => 0))
           oneRow MethodBtf 0).
  - constructor; [|constructor]. split_and!; [vm_compute; discriminate| |vm_compute; lia].
    intros _. apply (list_elem_of_lookup_2 _ 2%nat). reflexivity.
  - reflexivity.
  - unfold wholeMs. simpl. lia.
  - intros k. unfold wholeMs. simpl. lia.
  - intros k. simpl. lia.
  - reflexivity.
  - vm_compute. reflexivity.
Defined.

Lemma form_aircraft_boards_witness :
  ∃ s, simulate (fun _ => 0%nat) (fun _ => true) None None
         [mkRowSpec 22 (replicate 3 char_S ++ [char_A] ++ replicate 3 char_S)] MethodRandom
         = Finished s ∧
       runState s = Completed ∧ iterCount s < maxIterations.
Proof.
  apply (form_aircraft_boards (fun _ => 0%nat) (fun _ => true) MethodRandom (str "coords") 22 3).
  - reflexivity.
  - intros _. lia.
  - reflexivity.
Defined.
